(* ===== verification/_CoqProject ===== *)
-Q . S2P
Prelude.v
Codecs.v
Retry.v
Events.v
Broker.v
InputBox.v
Dispatcher.v
DispatcherBroker.v
Grpc.v
AdvanceRunner.v
MerkleTree.v
HostModel.v
HostServer.v
HostConcurrency.v
Controller.v
Pagination.v
Repository.v
Indexer.v
Claimer.v
RollupHttp.v
InspectServer.v
GraphQL.v
Clients.v
Deps.v
Supervisor.v
Node.v
Configs.v
HostRunner.v
NodeProcess.v
Generator.v
Pipeline.v
