(* ===== verification/Prelude.v ===== *)
(** * Cartesi Rollups Node: verification library

    ** The program

    The node runs the off-chain side of one rollups application. It is a Go
    program ([src/cmd/cartesi-rollups-node], [src/internal]) that reads its
    configuration from the environment, checks the chain and the machine, and
    supervises a group of processes, most of them Rust services of
    [src/offchain]:

    - the _state server_ folds the inputs that the InputBox contract recorded on
      the blockchain ([types]);
    - the _dispatcher_ subscribes to the blocks, asks the state server for the
      inputs at each block, and writes inputs and ends of epochs, in the order of
      the chain, into the inputs stream of the _broker_ (Redis, through
      [rollups-events]);
    - the _advance-runner_ replays the inputs stream into a _server-manager_ over
      gRPC, and writes outputs, proofs and one claim per epoch into the outputs
      and claims streams. The server-manager is an external program, or, in host
      mode, the _host-runner_, which runs the application outside the machine and
      talks to it over HTTP ([rollups-http-client] is the other end);
    - the _claimer_ submits the claims to the blockchain;
    - the _indexer_ copies the streams into PostgreSQL ([data]), which the
      _GraphQL server_ reads; the _inspect server_ forwards queries of the state
      to the server-manager.

    [src/pkg] and [src/cmd/cartesi-rollups-cli] hold the clients: they read the
    outputs with their proofs from the GraphQL server and call the contracts.

    ** Conventions

    A function that can fail or panic returns an [outcome]; code with state is in
    the state and error monad [M] of this file, over the state that it reads and
    writes. [wp m s Q R] says that [m] from [s] returns with [Q] or fails with
    [R], and does not panic. Machine integers are numbers of [Z], wrapped where the
    code wraps them; bytes are [list byte], texts are [string]. Definitions are
    executable, and the witnesses run them.

    Code outside [src] is a class of operations, with what the code relies on of
    it in a class of laws: Redis ([Redis], [RedisLaws]: streams are append-only,
    identifiers grow, a lost reply may hide a success), PostgreSQL ([Postgres],
    [PostgresLaws]), Ethereum ([Ethereum], [EthClient]), [backoff] ([Retry]), the
    [hex], [base64], [serde_json], [url] crates and Keccak-256. Each class of laws
    has a reference instance, which the witnesses use. Interfaces between components
    of the program are classes too: [BrokerSend] is proved for the mock broker and for
    the Redis facade, and [ServerManager] is called by the advance-runner and
    implemented by the host-runner.

    ** The files

    - [Prelude]: outcomes, the monad and its proof rules, machine integers, lists,
      decimal texts, and the tactics of the development.
    - [Codecs], [Retry], [Events], [Broker]: [rollups-events], the encodings of
      arrays and payloads, the events of the three streams and their keys, and
      the broker client with the extension of the indexer; [Retry] is [backoff].
    - [InputBox]: [types], the fold of the inputs, the address cache, the merging
      iterator.
    - [Dispatcher]: [dispatcher/src/drivers], the epoch context and the machine
      driver over any [BrokerSend]. [DispatcherBroker]: the facade over Redis, the
      setup and the main loop.
    - [Grpc]: the messages of the server-manager. [AdvanceRunner]: the two facades
      of the advance-runner, its loop and its start.
    - [MerkleTree], [HostModel], [HostServer], [HostConcurrency], [Controller],
      [RollupHttp]: the host-runner, that is its Merkle trees and output proofs, its
      data, the gRPC service with epochs and sessions, its calls when they overlap,
      the controller as a machine that takes one event at a time, and its HTTP server
      with the client of the application.
    - [Pagination], [Repository]: [data], cursors and pages, rows and queries.
      [Indexer]: [indexer]. [GraphQL]: [graphql-server]. [InspectServer]:
      [inspect-server]. [Claimer]: [authority-claimer].
    - [Clients]: [pkg/readerclient], [pkg/addresses], [pkg/ethutil] and the commands of
      the command-line client. [Deps]: [internal/deps], [internal/machine] and
      the commands that use them.
    - [Supervisor]: [internal/services], log lines, commands that run as services
      and the supervisor, both as machines that take one event at a time. [Node]: [internal/node], the
      configuration, the checks, the services with their environments, and the proxy.
    - [Configs]: what the Rust services read out of those environments, the
      signer of the claimer, and the redaction of secrets.
    - [HostRunner]: the process of the host-runner, its tasks and its shutdown.
      [NodeProcess]: [main] of the node and its exit status. [Generator]:
      [internal/node/config/generate], which writes the getters of the configuration.
    - [Pipeline]: the dispatcher, the advance-runner and the indexer on one broker,
      with the database that the reader queries.

    ** What is proved

    _The services together._ From a clean node, after any sequence of starts,
    iterations, failures and ends of the dispatcher, the advance-runner and the
    indexer, the streams and the database agree with the chain
    ([pipeline_consistent]); no service fails because of another
    ([pipeline_never_faults]); the reader answers with the inputs of the chain
    ([pipeline_serves_chain]), and the indexer catches up ([pipeline_catches_up]).
    An action of these theorems is the setup or one whole iteration of one service;
    they assume that each stream has one producer, that no reply of Redis is lost
    after its command was executed, and what [environment] lists: the services that
    the node calls answer, be it with an error, and the subscription gives the blocks
    of one chain.

    _Blocks to inputs._ Folding block by block is the same as reading the chain
    at once ([fold_refines_sync]). The log of the dispatcher is a function of the
    inputs of the chain and of the last block, whatever blocks it sees
    ([react_deterministic]); each input is sent once and in order
    ([run_inputs_once]), and no epoch is empty ([run_no_empty_epoch]). The facade
    implements the interface ([facade_refines_broker_send]), so the whole process
    writes a well-formed stream ([start_stream_wf]) that holds a prefix of the
    specified log ([main_loop_log]); the exception is a lost reply of Redis, which
    duplicates an input ([lost_reply_duplicates_input]).

    _Inputs to outputs._ The runner starts a session and replays the stream in order
    ([runner_consumes_in_order]); claims grow ([produce_rollups_claim_increasing]),
    commit to the roots of the epoch ([finish_epoch_claim]), and can be dropped
    because of another application ([claim_dropped_for_other_dapp]). In the
    host-runner, incremental and rebuilt trees agree ([push_equals_rebuild]), output
    proofs verify ([compute_proofs_valid]), also those that a session answers with
    ([finish_epoch_proofs_valid]), in every state that calls and results can reach
    ([session_invariant]), and when calls overlap ([overlapping_calls_safe], but for
    [end_session_race]); the controller answers each call once, advances in order
    ([controller_answers_once], [controller_advance_fifo]), and the HTTP interface
    carries requests, outputs and errors faithfully ([finish_over_http],
    [outputs_over_http]). The process around them is safe and stops
    ([host_process_safe], [host_shutdown_completes]), but it does not notice
    that its gRPC service failed ([grpc_failure_unnoticed]).

    _Outputs to readers._ The database mirrors the streams ([indexer_mirrors_streams]),
    also after a restart ([indexer_restart_converges]), and is well typed
    ([indexer_tables_typed]); the queries return the events
    ([reader_serves_events]), pages are those of Relay ([pagination_is_relay]), and
    walks over cursors are complete ([cursor_walks_complete]); the clients read inputs back
    ([client_reads_input]) and call the contracts with the proofs that were published
    ([commands_use_event_proofs]). Inspect requests are answered
    ([inspect_answers]). The claimer sends the claims that are missing
    ([claimer_sends_missing_claims]).

    _The node._ The supervisor is safe and stops ([supervisor_safe],
    [supervisor_stops]); services start after what they depend on
    ([node_start_order]), after the checks ([setup_checks]); the proxy has its targets
    ([proxy_targets]); the services read one consistent configuration
    ([services_configured]), and the claimer signs as the user chose
    ([claimer_signs_as_configured]). The getters of the configuration are those that
    the generator writes for its file ([generated_getters_current]), whatever the
    order of the maps ([config_order_deterministic]). A signal makes the node exit
    with the status of a failure ([signal_exit_status]). [scalar_integers], [unprefixed_address_panics] and
    [HexArray_deserialize_panics] give the exact inputs on which conversions lose
    values or panic.

    ** Loops and fuel

    The services loop for ever; their loops take a number of turns, and the theorems
    hold for every number, so that they speak of every finite run. Waiting for
    an event takes a number of polls in the same way, and returning without an event
    stands for still waiting. [wait_loop] of the advance-runner has the bound of
    the code. The fuel of functions that end by themselves ([merge_collect],
    [write_lines], [strip_all], [walk_forward]) is at least the length of their argument, which
    each step shortens. The state machines ([Controller], [Supervisor], [InspectServer],
    [HostRunner], [Pipeline], the sessions of [HostServer] and [HostConcurrency]) are step
    relations or event lists of any length.

    ** Not modelled

    - The generated gRPC and contract bindings, and the state-fold server: external
      or generated code, present as parameters.
    - The entry points of the other services, module roots, health checks and metrics
      servers: they parse arguments, run what is modelled next to a health check, or
      answer with a constant. The state server only wires the external fold server.
    - Time: sleeps, timeouts of retries and ticks are choices of the environment.
    - Interleavings inside a gRPC method of the host-runner that does not wait for the
      controller: it runs in one step, between the results of the application.
    - The generator of the development network, test fixtures, database migrations as
      SQL: tools that run before the program.
    - Interleavings inside one iteration of a service in [Pipeline], and the claimer
      there, which only reads the claims stream and has its own theorem. *)

From stdpp Require Export base tactics list gmap strings numbers countable pretty sorting.
From Stdlib Require Export ZArith Strings.Byte.
From Stdlib Require Export Lia.

#[global] Open Scope Z_scope.

(** ** Outcomes of Rust code

    A function that returns [Result<A, E>] and may panic ([assert!], [unwrap],
    [expect], an index out of range) has one of three outcomes. *)

Inductive outcome (E A : Type) : Type :=
| Ok (a : A)
| Err (e : E)
| Panic.
Arguments Ok {E A} a.
Arguments Err {E A} e.
Arguments Panic {E A}.

#[export] Instance Ok_inj {E A} : Inj (=) (=) (@Ok E A).
Proof. by intros x y [= ->]. Qed.

#[export] Instance outcome_eq_dec E A `{EqDecision E, EqDecision A} : EqDecision (outcome E A).
Proof. solve_decision. Defined.

#[export] Instance outcome_ret E : MRet (outcome E) := fun A a => Ok a.
#[export] Instance outcome_bind E : MBind (outcome E) := fun A B k m =>
  match m with Ok a => k a | Err e => Err e | Panic => Panic end.

Definition is_panic {E A} (o : outcome E A) : bool :=
  match o with Panic => true | _ => false end.

Definition is_ok {E A} (o : outcome E A) : bool :=
  match o with Ok _ => true | _ => false end.

(** [Option::ok_or], [Option::unwrap]/[expect] and [Result::map_err]
    (also snafu's [context], which wraps the error in a variant). *)
Definition ok_or {E A} (o : option A) (e : E) : outcome E A :=
  match o with Some a => Ok a | None => Err e end.
Definition unwrap {E A} (o : option A) : outcome E A :=
  match o with Some a => Ok a | None => Panic end.
Definition map_err {E E' A} (f : E -> E') (o : outcome E A) : outcome E' A :=
  match o with Ok a => Ok a | Err e => Err (f e) | Panic => Panic end.

(** [Result::expect] *)
Definition expect {E E' A} (o : outcome E A) : outcome E' A :=
  match o with Ok a => Ok a | _ => Panic end.

(** [v[i]], [v[i] = x] and [v.resize_with(n, || x)] *)
Definition index {E A} (l : list A) (i : nat) : outcome E A := unwrap (l !! i).
Definition set_index {E A} (l : list A) (i : nat) (x : A) : outcome E (list A) :=
  if Nat.ltb i (length l) then Ok (<[i := x]> l) else Panic.
Definition resize_with {A} (n : nat) (x : A) (l : list A) : list A :=
  take n l ++ replicate (n - length l) x.

(** [snafu::ensure!(cond, err)] *)
Definition ensure {E} (b : bool) (e : E) : outcome E unit :=
  if b then Ok tt else Err e.

(** [iter.map(f).collect::<Result<Vec<_>, _>>()]: stops at the first error. *)
Fixpoint collect {E A B} (f : A -> outcome E B) (l : list A) : outcome E (list B) :=
  match l with
  | [] => Ok []
  | a :: l => b ← f a; bs ← collect f l; Ok (b :: bs)
  end.

(** ** Stateful code: state passing with outcomes

    A method with [&mut self] (or one that talks to a service) is a function
    of the state that also returns the state when it fails: what was done
    before an early return stays done. *)

Definition M (S E A : Type) : Type := S -> outcome E A * S.

#[export] Instance M_ret S E : MRet (M S E) := fun A a s => (Ok a, s).
#[export] Instance M_bind S E : MBind (M S E) := fun A B k m s =>
  match m s with
  | (Ok a, s') => k a s'
  | (Err e, s') => (Err e, s')
  | (Panic, s') => (Panic, s')
  end.

Lemma M_bind_ok {S E A B} (m : M S E A) (k : A -> M S E B) s b s' :
  (m ≫= k) s = (Ok b, s') <-> exists a s1, m s = (Ok a, s1) /\ k a s1 = (Ok b, s').
Proof.
  unfold mbind, M_bind. destruct (m s) as [[a|e|] s1]; split; try done.
  - eauto.
  - by intros (? & ? & [= <- <-] & ?).
  - by intros (? & ? & ? & ?).
  - by intros (? & ? & ? & ?).
Qed.

(** The value of a run that succeeds. *)
Definition result_of {S E A} (d : A) (x : outcome E A * S) : A :=
  match x.1 with Ok a => a | _ => d end.

Lemma run_ok {S E A} (d : A) (x : outcome E A * S) :
  is_ok x.1 = true -> x = (Ok (result_of d x), x.2).
Proof. by destruct x as [[a| |] s]. Qed.

Section Monad.
Context {S E : Type}.

Definition get : M S E S := fun s => (Ok s, s).
Definition put (s' : S) : M S E unit := fun _ => (Ok tt, s').
Definition modify (f : S -> S) : M S E unit := fun s => (Ok tt, f s).
Definition fail {A} (e : E) : M S E A := fun s => (Err e, s).
Definition lift {A} (o : outcome E A) : M S E A := fun s => (o, s).
(** [assert!(cond)] *)
Definition assert_ (b : bool) : M S E unit := fun s => (if b then Ok tt else Panic, s).

(** [for x in l { f(x)? }] *)
Fixpoint for_each {A} (l : list A) (f : A -> M S E unit) : M S E unit :=
  match l with
  | [] => mret tt
  | x :: l => f x ;; for_each l f
  end.
End Monad.

(** [m.context(Variant)?] *)
Definition context {S E E' A} (f : E -> E') (m : M S E A) : M S E' A := fun s =>
  let '(o, s') := m s in (map_err f o, s').

(** A computation on one component of a pair of states. *)
Definition on_fst {S1 S2 E A} (m : M S1 E A) : M (S1 * S2) E A := fun s =>
  let '(o, s') := m (fst s) in (o, (s', snd s)).
Definition on_snd {S1 S2 E A} (m : M S2 E A) : M (S1 * S2) E A := fun s =>
  let '(o, s') := m (snd s) in (o, (fst s, s')).

(** A computation with a local variable, whose value is dropped at the end. *)
Definition scoped {S1 S2 E A} (x : S1) (m : M (S1 * S2) E A) : M S2 E A := fun s =>
  let '(o, (_, s')) := m (x, s) in (o, s').

(** *** Weakest preconditions

    [wp m s Q R]: run from [s], [m] does not panic; if it returns [a] in state
    [s'] then [Q a s'], and if it fails with [e] in [s'] then [R e s']. *)

Definition wp {S E A} (m : M S E A) (s : S) (Q : A -> S -> Prop) (R : E -> S -> Prop) : Prop :=
  match m s with
  | (Ok a, s') => Q a s'
  | (Err e, s') => R e s'
  | (Panic, _) => False
  end.

Section WP.
Context {S E : Type}.
Implicit Types s : S.

Lemma wp_ret {A} (a : A) s Q (R : E -> S -> Prop) : wp (mret a) s Q R <-> Q a s.
Proof. reflexivity. Qed.

Lemma wp_bind {A B} (m : M S E A) (k : A -> M S E B) s Q R :
  wp (m ≫= k) s Q R <-> wp m s (fun a s' => wp (k a) s' Q R) R.
Proof. unfold wp, mbind, M_bind. destruct (m s) as [[a|e|] s']; reflexivity. Qed.

Lemma wp_get s Q (R : E -> S -> Prop) : wp get s Q R <-> Q s s.
Proof. reflexivity. Qed.

Lemma wp_put s s' Q (R : E -> S -> Prop) : wp (put s') s Q R <-> Q tt s'.
Proof. reflexivity. Qed.

Lemma wp_modify f s Q (R : E -> S -> Prop) : wp (modify f) s Q R <-> Q tt (f s).
Proof. reflexivity. Qed.

Lemma wp_fail {A} (e : E) s (Q : A -> S -> Prop) R : wp (fail e) s Q R <-> R e s.
Proof. reflexivity. Qed.

Lemma wp_lift {A} (o : outcome E A) s Q (R : E -> S -> Prop) :
  wp (lift o) s Q R <-> match o with Ok a => Q a s | Err e => R e s | Panic => False end.
Proof. unfold wp, lift. destruct o; reflexivity. Qed.

Lemma wp_assert b s Q (R : E -> S -> Prop) : wp (assert_ b) s Q R <-> b = true /\ Q tt s.
Proof. unfold wp, assert_. destruct b; intuition congruence. Qed.

Lemma wp_mono {A} (m : M S E A) s (Q Q' : A -> S -> Prop) (R R' : E -> S -> Prop) :
  wp m s Q R ->
  (forall a s', Q a s' -> Q' a s') -> (forall e s', R e s' -> R' e s') -> wp m s Q' R'.
Proof. unfold wp. destruct (m s) as [[a|e|] s']; auto. Qed.

Lemma wp_ok {A} (m : M S E A) s a s' Q R : m s = (Ok a, s') -> wp m s Q R <-> Q a s'.
Proof. unfold wp. intros ->. reflexivity. Qed.

Lemma wp_is_ok {A} (m : M S E A) s Q R :
  wp m s Q R -> is_ok (m s).1 = true -> exists a, Q a (m s).2.
Proof. unfold wp. destruct (m s) as [[a|e|] s']; cbn; [eauto|done|done]. Qed.

(** A loop whose body re-establishes [I] for what is left to do. *)
Lemma wp_for_each {A} (I : list A -> S -> Prop) (l : list A) (f : A -> M S E unit) s R :
  I l s ->
  (forall x l' s', I (x :: l') s' -> wp (f x) s' (fun _ => I l') R) ->
  wp (for_each l f) s (fun _ => I []) R.
Proof.
  intros HI Hf. revert s HI. induction l as [|x l IH]; intros s HI; [exact HI|].
  apply wp_bind. eapply wp_mono; [apply Hf, HI| |auto]. intros a s' HI'. auto.
Qed.
End WP.

(** [m] does not panic, whatever the state. *)
Definition safe {S E A} (m : M S E A) : Prop := forall s, wp m s (fun _ _ => True) (fun _ _ => True).

Lemma safe_bind {S E A B} (m : M S E A) (k : A -> M S E B) :
  safe m -> (forall a, safe (k a)) -> safe (m ≫= k).
Proof. intros Hm Hk s. apply wp_bind. eapply wp_mono; [apply Hm| |done]. intros a s' _. apply Hk. Qed.

Lemma safe_lift {S E A} (o : outcome E A) : is_panic o = false -> safe (lift (S := S) o).
Proof. intros Ho s. apply wp_lift. by destruct o. Qed.

Lemma outcome_bind_ok {E A B} (o : outcome E A) (k : A -> outcome E B) b :
  o ≫= k = Ok b -> exists a, o = Ok a /\ k a = Ok b.
Proof. destruct o as [a| |]; [|done..]. intros Hk. by exists a. Qed.

Lemma outcome_bind_total {E A B} (o : outcome E A) (k : A -> outcome E B) :
  is_panic o = false -> (forall a, is_panic (k a) = false) -> is_panic (o ≫= k) = false.
Proof. intros Ho Hk. destruct o; [apply Hk|done|done]. Qed.

Lemma collect_total {E A B} (f : A -> outcome E B) l :
  (forall x, is_panic (f x) = false) -> is_panic (collect f l) = false.
Proof.
  intros Hf. induction l as [|x l IH]; cbn; [done|].
  apply outcome_bind_total; [done|]. intros y. by apply outcome_bind_total.
Qed.

Lemma wp_context {S E E' A} (f : E -> E') (m : M S E A) s Q R :
  wp (context f m) s Q R <-> wp m s Q (fun e => R (f e)).
Proof. unfold wp, context. destruct (m s) as [[a|e|] s']; reflexivity. Qed.

Lemma wp_on_fst {S1 S2 E A} (m : M S1 E A) (s : S1 * S2) Q R :
  wp (on_fst m) s Q R <->
  wp m s.1 (fun a s1 => Q a (s1, s.2)) (fun e s1 => R e (s1, s.2)).
Proof. unfold wp, on_fst. destruct (m s.1) as [[a|e|] s']; reflexivity. Qed.

Lemma wp_on_snd {S1 S2 E A} (m : M S2 E A) (s : S1 * S2) Q R :
  wp (on_snd m) s Q R <->
  wp m s.2 (fun a s2 => Q a (s.1, s2)) (fun e s2 => R e (s.1, s2)).
Proof. unfold wp, on_snd. destruct (m s.2) as [[a|e|] s']; reflexivity. Qed.

Lemma wp_scoped {S1 S2 E A} (x : S1) (m : M (S1 * S2) E A) s Q R :
  wp (scoped x m) s Q R <-> wp m (x, s) (fun a s' => Q a s'.2) (fun e s' => R e s'.2).
Proof. unfold wp, scoped. destruct (m (x, s)) as [[a|e|] [x' s']]; reflexivity. Qed.

Create Rewrite HintDb wp.
#[export] Hint Rewrite @wp_ret @wp_bind @wp_get @wp_put @wp_modify @wp_fail @wp_lift @wp_assert
  @wp_context @wp_on_fst @wp_on_snd @wp_scoped : wp.

(** [wp_run] pushes [wp] through the monadic structure of the goal. *)
Ltac wp_run := autorewrite with wp; cbn [fst snd].

(** ** Lists *)

Section Filter.
Context {A : Type} (P : A -> Prop) `{forall x, Decision (P x)}.

Lemma filter_all (l : list A) : (forall x, x ∈ l -> P x) -> filter P l = l.
Proof.
  induction l as [|x l IH]; [done|]. intros Hl.
  rewrite filter_cons_True by (apply Hl; left). f_equal. apply IH. intros y Hy. apply Hl. by right.
Qed.

Lemma filter_none (l : list A) : (forall x, x ∈ l -> ~ P x) -> filter P l = [].
Proof.
  induction l as [|x l IH]; [done|]. intros Hl.
  rewrite filter_cons_False by (apply Hl; left). apply IH. intros y Hy. apply Hl. by right.
Qed.
End Filter.

Lemma StronglySorted_filter {A} (R : A -> A -> Prop) (P : A -> Prop) `{forall x, Decision (P x)} l :
  StronglySorted R l -> StronglySorted R (filter P l).
Proof.
  induction 1 as [|x l Hl IH Hx]; [constructor|]. rewrite filter_cons. case_decide; [|done].
  constructor; [done|]. apply Forall_forall. intros y [_ Hy]%list_elem_of_filter.
  by apply (proj1 (Forall_forall _ _) Hx).
Qed.

(** In a list sorted by [k], the keys up to [n] are the keys up to [m] and then
    the keys between [m] and [n]. *)
Lemma filter_le_split {A} (k : A -> Z) (l : list A) m n :
  StronglySorted (fun x y => k x <= k y) l -> m <= n ->
  filter (fun x => k x <= n) l = filter (fun x => k x <= m) l ++ filter (fun x => m < k x <= n) l.
Proof.
  intros Hs Hmn. induction Hs as [|x l Hl IH Hx]; [done|]. rewrite !filter_cons.
  destruct (decide (k x <= m)) as [Hm|Hm].
  - rewrite decide_True, decide_False by lia. cbn. by rewrite IH.
  - rewrite (filter_none (fun x => k x <= m) l).
    + destruct (decide (k x <= n)); [rewrite decide_True by lia|rewrite decide_False by lia]; cbn;
        rewrite IH; rewrite (filter_none (fun x => k x <= m) l); try done.
      all: intros y Hy; apply (proj1 (Forall_forall _ _) Hx) in Hy; lia.
    + intros y Hy. apply (proj1 (Forall_forall _ _) Hx) in Hy. lia.
Qed.

(** In a sorted list, the elements up to [n] come first. *)
Lemma filter_le_prefix {A} (k : A -> Z) (l : list A) n :
  StronglySorted (fun x y => k x <= k y) l -> filter (fun x => k x <= n) l `prefix_of` l.
Proof.
  intros Hs. induction Hs as [|x l _ IH Hx]; [done|]. destruct (decide (k x <= n)) as [Hk|Hk].
  - rewrite filter_cons_True by done. by apply prefix_cons.
  - rewrite filter_cons_False, filter_none; [apply prefix_nil| |done].
    intros y Hy. apply (proj1 (Forall_forall _ _) Hx) in Hy. cbn in Hy. lia.
Qed.

Lemma zip_with_app_short {A B C} (f : A -> B -> C) (l l' : list A) (k : list B) :
  (length k <= length l)%nat -> zip_with f (l ++ l') k = zip_with f l k.
Proof.
  revert k. induction l as [|x l IH]; intros [|y k] Hk; cbn in *; try lia.
  - by destruct l'.
  - done.
  - f_equal. apply IH. lia.
Qed.

(** ** Machine integers

    [u64], [u128], [i32], ... are integers in [Z]. Arithmetic is that of the
    release profile the images are built with: it wraps around. *)

Declare Scope rust_scope.
Delimit Scope rust_scope with rust.
#[global] Open Scope rust_scope.

Definition wrap (w z : Z) : Z := z mod 2 ^ w.
(** [z as iN]: two's complement reading of the low [w] bits. *)
Definition swrap (w z : Z) : Z := (z + 2 ^ (w - 1)) mod 2 ^ w - 2 ^ (w - 1).

Definition u64_add (a b : Z) : Z := wrap 64 (a + b).
Definition u64_sub (a b : Z) : Z := wrap 64 (a - b).
Infix "⊞" := u64_add (at level 50, left associativity) : rust_scope.
Infix "⊟" := u64_sub (at level 50, left associativity) : rust_scope.

(** [a << b] and [a >> b]: only the low bits of [b] count. *)
Definition u64_shl (a b : Z) : Z := wrap 64 (Z.shiftl a (b mod 64)).
Definition u64_shr (a b : Z) : Z := Z.shiftr a (b mod 64).

Definition is_u64 (z : Z) : Prop := 0 <= z < 2 ^ 64.
Definition is_i32 (z : Z) : Prop := - 2 ^ 31 <= z < 2 ^ 31.

Lemma wrap_small w z : 0 <= z < 2 ^ w -> wrap w z = z.
Proof. apply Z.mod_small. Qed.

Lemma wrap_range w z : 0 <= w -> 0 <= wrap w z < 2 ^ w.
Proof. intros. apply Z.mod_pos_bound. lia. Qed.

Lemma u64_add_small a b : is_u64 (a + b) -> a ⊞ b = a + b.
Proof. apply wrap_small. Qed.

Lemma u64_sub_small a b : is_u64 (a - b) -> a ⊟ b = a - b.
Proof. apply wrap_small. Qed.

Lemma u64_shl_one b : 0 <= b < 64 -> u64_shl 1 b = 2 ^ b.
Proof.
  intros Hb. unfold u64_shl. rewrite Z.mod_small, Z.shiftl_1_l by lia. apply wrap_small.
  split; [lia|]. apply Z.pow_lt_mono_r; lia.
Qed.

Lemma u64_shr_div a b : 0 <= b < 64 -> u64_shr a b = a / 2 ^ b.
Proof. intros Hb. unfold u64_shr. rewrite Z.mod_small by lia. apply Z.shiftr_div_pow2. lia. Qed.

Lemma swrap_small w z : 0 < w -> - 2 ^ (w - 1) <= z < 2 ^ (w - 1) -> swrap w z = z.
Proof.
  intros Hw Hz. unfold swrap. rewrite Z.mod_small; [lia|].
  replace (2 ^ w) with (2 ^ (w - 1) + 2 ^ (w - 1)); [lia|].
  replace w with (Z.succ (w - 1)) at 3 by lia. rewrite Z.pow_succ_r; lia.
Qed.

Lemma swrap_range w z : 0 < w -> - 2 ^ (w - 1) <= swrap w z < 2 ^ (w - 1).
Proof.
  intros Hw. unfold swrap.
  replace (2 ^ w) with (2 ^ (w - 1) + 2 ^ (w - 1)).
  2:{ replace w with (Z.succ (w - 1)) at 3 by lia. rewrite Z.pow_succ_r; lia. }
  pose proof (Z.mod_pos_bound (z + 2 ^ (w - 1)) (2 ^ (w - 1) + 2 ^ (w - 1))). lia.
Qed.

(** [u64] rewrites the wrapping operations whose result is shown to fit. *)
Ltac u64 := repeat first
  [ rewrite u64_add_small by (unfold is_u64 in *; lia)
  | rewrite u64_sub_small by (unfold is_u64 in *; lia) ].

(** ** Bytes *)

#[export] Instance byte_eq_dec : EqDecision byte := Byte.byte_eq_dec.
#[export] Program Instance byte_countable : Countable byte :=
  inj_countable Byte.to_N Byte.of_N _.
Next Obligation. apply Byte.of_to_N. Qed.

Definition byte_of_Z (z : Z) : byte := default x00 (Byte.of_N (Z.to_N (wrap 8 z))).
Definition Z_of_byte (b : byte) : Z := Z.of_N (Byte.to_N b).

Definition zeros (n : nat) : list byte := replicate n x00.

(** ** Decimal text

    A reader that takes the digits of a number one by one has read the number at
    the end: [run n s] is what it does with the rest [s] after it has read [n]. *)
Lemma pretty_N_go_run {A} (run : N -> string -> A) (ok : N -> Prop) :
  (forall q r s, (r < 10)%N -> ok (10 * q + r)%N ->
     ok q /\ run q (String (pretty_N_char r) s) = run (10 * q + r)%N s) ->
  forall x s, ok x -> run 0%N (pretty_N_go x s) = run x s.
Proof.
  intros Hstep x. induction (N.lt_wf_0 x) as [x _ IH]. intros s Hx.
  assert (x = 0 \/ 0 < x)%N as [->|Hpos] by lia; [done|]. rewrite pretty_N_go_step by done.
  pose proof (N.div_mod x 10 ltac:(done)) as Hdm. pose proof (N.mod_lt x 10 ltac:(done)) as Hmod.
  specialize (IH (x `div` 10)%N (N.div_lt x 10 Hpos ltac:(done))). revert IH Hdm Hmod.
  generalize (x `div` 10)%N (x `mod` 10)%N. intros q r IH -> Hmod.
  destruct (Hstep q r s Hmod Hx) as [Hq Hrun]. by rewrite IH.
Qed.

(** The text of a positive number starts with a digit other than zero. *)
Lemma pretty_N_go_start (x : N) s :
  (0 < x)%N -> exists r s', pretty_N_go x s = String (pretty_N_char r) s' /\ (0 < r < 10)%N.
Proof.
  revert s. induction (N.lt_wf_0 x) as [x _ IH]. intros s Hpos. rewrite pretty_N_go_step by done.
  destruct (decide (x `div` 10 = 0)%N) as [Hz|Hne].
  - rewrite Hz, pretty_N_go_0. do 2 eexists. split; [done|].
    apply N.div_small_iff in Hz; [|done]. by rewrite N.mod_small.
  - apply IH; [by apply N.div_lt|]. by apply N.neq_0_lt_0.
Qed.

(** A case for each digit. *)
Lemma digit_cases (P : N -> Prop) :
  P 0%N -> P 1%N -> P 2%N -> P 3%N -> P 4%N -> P 5%N -> P 6%N -> P 7%N -> P 8%N -> P 9%N ->
  forall x, (x < 10)%N -> P x.
Proof.
  intros H0 H1 H2 H3 H4 H5 H6 H7 H8 H9 x Hx.
  assert (x = 0 \/ x = 1 \/ x = 2 \/ x = 3 \/ x = 4 \/ x = 5 \/ x = 6 \/ x = 7 \/ x = 8 \/ x = 9)%N as Hc by lia.
  by destruct Hc as [->|[->|[->|[->|[->|[->|[->|[->|[->| ->]]]]]]]]].
Qed.
