(* ===== verification/Codecs.v ===== *)
(** * Binary and text encodings

    [offchain/rollups-events/src/common.rs] ([HexArray], [Payload]),
    [offchain/host-runner/src/conversions.rs] (Ethereum binary strings) and the
    [hex_encode] helpers of the GraphQL and inspect servers. The [hex] and
    [base64] crates are parameters, with their documented contract as laws. *)

From S2P Require Import Prelude.

(** ** Strings

    A Rust string is a sequence of UTF-8 bytes; [ascii] is a byte. *)

Fixpoint string_drop (n : nat) (s : string) : string :=
  match n, s with
  | S n, String _ s => string_drop n s
  | _, _ => s
  end.

Fixpoint string_forall (p : Ascii.ascii -> bool) (s : string) : bool :=
  match s with
  | EmptyString => true
  | String c s => p c && string_forall p s
  end.

(** [str::starts_with] *)
Fixpoint starts_with (p s : string) : bool :=
  match p, s with
  | EmptyString, _ => true
  | String c p, String d s => Ascii.eqb c d && starts_with p s
  | String _ _, EmptyString => false
  end.

(** A byte [10xxxxxx] continues a UTF-8 sequence. *)
Definition is_continuation (c : Ascii.ascii) : bool :=
  match c with Ascii.Ascii _ _ _ _ _ _ false true => true | _ => false end.

(** The number of continuation bytes that a byte announces. *)
Definition utf8_follow (c : Ascii.ascii) : option nat :=
  match c with
  | Ascii.Ascii _ _ _ _ _ _ _ false => Some 0%nat
  | Ascii.Ascii _ _ _ _ _ false true true => Some 1%nat
  | Ascii.Ascii _ _ _ _ false true true true => Some 2%nat
  | Ascii.Ascii _ _ _ false true true true true => Some 3%nat
  | _ => None
  end.

(** The byte structure that the type [str] guarantees, after a byte that
    announced [pending] continuation bytes. *)
Fixpoint utf8 (pending : nat) (s : string) : bool :=
  match pending, s with
  | O, EmptyString => true
  | O, String c s => match utf8_follow c with Some n => utf8 n s | None => false end
  | S n, String c s => is_continuation c && utf8 n s
  | S _, EmptyString => false
  end.

(** [str::is_char_boundary] *)
Definition is_char_boundary (n : nat) (s : string) : bool :=
  match string_drop n s with
  | EmptyString => Nat.leb n (String.length s)
  | String c _ => negb (is_continuation c)
  end.

(** [s[..n]] panics outside the string and inside a character. *)
Definition slice_to {E} (n : nat) (s : string) : outcome E string :=
  if is_char_boundary n s then Ok (String.substring 0 n s) else Panic.
(** [s[n..]] *)
Definition slice_from {E} (n : nat) (s : string) : outcome E string :=
  if is_char_boundary n s then Ok (string_drop n s) else Panic.

Lemma string_drop_app p s : string_drop (String.length p) (p +:+ s) = s.
Proof. induction p as [|c p IH]; [by destruct s|]. exact IH. Qed.

Lemma string_app_assoc (a b c : string) : a +:+ b +:+ c = (a +:+ b) +:+ c.
Proof. induction a as [|x a IH]; [done|]. exact (f_equal (String x) IH). Qed.

Lemma string_forall_app p s t : string_forall p (s +:+ t) = string_forall p s && string_forall p t.
Proof.
  induction s as [|c s IH]; [done|].
  change (p c && string_forall p (s +:+ t) = p c && string_forall p s && string_forall p t).
  by rewrite IH, andb_assoc.
Qed.

Definition is_hex_digit (c : Ascii.ascii) : bool :=
  let n := Ascii.nat_of_ascii c in
  (Nat.leb 48 n && Nat.leb n 57) || (Nat.leb 97 n && Nat.leb n 102).

Lemma hex_digit_boundary n s : string_forall is_hex_digit s = true ->
  is_char_boundary n s = Nat.leb n (String.length s).
Proof.
  unfold is_char_boundary. revert n.
  induction s as [|c s IH]; intros [|n] Hs; try done; cbn in Hs |- *.
  - apply andb_prop in Hs as [Hc _]. destruct c as [[] [] [] [] [] [] [] []]; done.
  - apply andb_prop in Hs as [_ Hs]. apply (IH n Hs).
Qed.

(** ** The [hex] and [base64] crates *)

Inductive FromHexError : Type :=
| InvalidHexCharacter (c : Ascii.ascii) (index : nat)
| OddLength
| InvalidStringLength.

Class HexCrate : Type := {
  hex_encode : list byte -> string;
  hex_decode : string -> outcome FromHexError (list byte);
}.

(** Documented contract: lower case digits, two per byte, and [decode]
    inverts [encode], does not panic and takes two digits per byte. *)
Class HexCrateLaws `{HexCrate} : Prop := {
  hex_encode_digits bs : string_forall is_hex_digit (hex_encode bs) = true;
  hex_encode_length bs : String.length (hex_encode bs) = (2 * length bs)%nat;
  hex_decode_encode bs : hex_decode (hex_encode bs) = Ok bs;
  hex_decode_total s : is_panic (hex_decode s) = false;
  hex_decode_length s bs : hex_decode s = Ok bs -> String.length s = (2 * length bs)%nat;
}.

Inductive DecodeError64 : Type := InvalidBase64.

Class Base64Crate : Type := {
  base64_encode : list byte -> string;
  base64_decode : string -> outcome DecodeError64 (list byte);
}.

Class Base64CrateLaws `{Base64Crate} : Prop := {
  base64_decode_encode bs : base64_decode (base64_encode bs) = Ok bs;
  base64_decode_total s : is_panic (base64_decode s) = false;
}.

#[export] Instance hex_encode_inj `{HexCrateLaws} : Inj (=) (=) hex_encode.
Proof.
  intros a b Hab. apply (f_equal hex_decode) in Hab.
  rewrite !hex_decode_encode in Hab. congruence.
Qed.

(** ** [HexArray<N>] and [Payload] *)

Module Common.
Section Common.
Context `{HexCrate, Base64Crate}.

Definition ADDRESS_SIZE : nat := 20.
Definition HASH_SIZE : nat := 32.
Definition PAYLOAD_DEBUG_MAX_LEN : nat := 100.

(** The array of [N] bytes; [hex_array_wf N] is what the Rust type guarantees. *)
Definition hex_array_wf (N : nat) (data : list byte) : Prop := length data = N.

(** Errors a deserializer reports with [serde::de::Error::custom]. *)
Inductive DeError : Type :=
| FailToDecodeHex (e : FromHexError)
| IncorrectArraySize
| FailToDecodeBase64 (e : DecodeError64).

Definition HexArray_serialize (data : list byte) : string := hex_encode data.

Definition HexArray_deserialize (N : nat) (string_data : string) : outcome DeError (list byte) :=
  prefix ← slice_to 2 string_data;
  string_data ← (if String.eqb prefix "0x" then slice_from 2 string_data else Ok string_data);
  vec_data ← map_err FailToDecodeHex (hex_decode string_data);
  if Nat.eqb (length vec_data) N then Ok vec_data else Err IncorrectArraySize.

Definition HexArray_default (N : nat) : list byte := zeros N.

Definition Payload_serialize (data : list byte) : string := base64_encode data.

Definition Payload_deserialize (string_data : string) : outcome DeError (list byte) :=
  map_err FailToDecodeBase64 (base64_decode string_data).

Definition Payload_debug (data : list byte) : string :=
  let len := length data in
  if Nat.ltb PAYLOAD_DEBUG_MAX_LEN len then
    base64_encode (take PAYLOAD_DEBUG_MAX_LEN data)
      +:+ "...[total: " +:+ pretty len +:+ " bytes]"
  else base64_encode data.
End Common.
End Common.

(** ** Ethereum binary strings *)

Module Conversions.
Section Conversions.
Context `{HexCrate}.

Inductive DecodeError : Type :=
| InvalidPrefix (s : string)
| FromHex (s : string) (e : FromHexError).

Definition encode_ethereum_binary (bytes : list byte) : string := "0x" +:+ hex_encode bytes.

Definition decode_ethereum_binary (s : string) : outcome DecodeError (list byte) :=
  ensure (starts_with "0x" s) (InvalidPrefix s) ;;
  rest ← slice_from 2 s;
  map_err (FromHex s) (hex_decode rest).

(** [hex_encode] of the GraphQL resolvers and of the inspect server. *)
Definition graphql_hex_encode (data : list byte) : string := "0x" +:+ hex_encode data.
Definition inspect_hex_encode (payload : list byte) : string := "0x" +:+ hex_encode payload.
End Conversions.
End Conversions.

(** ** Keccak-256 ([sha3])

    [hasher.update] feeds bytes and [hasher.finalize] returns 32 of them. *)

Class Keccak : Type := keccak256 : list byte -> list byte.
Class KeccakLaws `{Keccak} : Prop := keccak256_length bs : length (keccak256 bs) = Common.HASH_SIZE.

(** A stand-in that satisfies the law: the bytes are added up, position by
    position modulo 32. *)
Module KeccakRef.
Fixpoint absorb (state : list Z) (bs : list byte) : list Z :=
  match bs with
  | [] => state
  | b :: bs =>
      match state with
      | [] => []
      | s :: state => absorb (state ++ [31 * s + Z_of_byte b + 7]) bs
      end
  end.

#[export] Instance keccak_ref : Keccak := fun bs => byte_of_Z <$> absorb (replicate 32 0) bs.

Lemma absorb_length state bs : length (absorb state bs) = length state.
Proof.
  revert state. induction bs as [|b bs IH]; intros [|s state]; cbn [absorb]; try done.
  rewrite IH, length_app. cbn. lia.
Qed.

#[export] Instance keccak_ref_laws : KeccakLaws.
Proof.
  intros bs. unfold keccak256, keccak_ref. rewrite length_fmap, absorb_length, length_replicate. done.
Qed.
End KeccakRef.

(** ** Reference codec

    A hexadecimal codec that satisfies the laws; it instantiates the
    parameters in the witnesses. *)

Module HexRef.
Definition digit (n : Z) : Ascii.ascii :=
  Ascii.ascii_of_N (Z.to_N (if n <? 10 then 48 + n else 87 + n)).

Definition undigit (c : Ascii.ascii) : option Z :=
  let n := Z.of_N (Ascii.N_of_ascii c) in
  if (48 <=? n) && (n <=? 57) then Some (n - 48)
  else if (97 <=? n) && (n <=? 102) then Some (n - 87)
  else if (65 <=? n) && (n <=? 70) then Some (n - 55)
  else None.

Fixpoint encode (bs : list byte) : string :=
  match bs with
  | [] => EmptyString
  | b :: bs => String (digit (Z_of_byte b / 16)) (String (digit (Z_of_byte b mod 16)) (encode bs))
  end.

Fixpoint decode_from (i : nat) (s : string) : outcome FromHexError (list byte) :=
  match s with
  | EmptyString => Ok []
  | String _ EmptyString => Err OddLength
  | String c (String d s) =>
      match undigit c, undigit d with
      | Some h, Some l => rest ← decode_from (i + 2) s; Ok (byte_of_Z (16 * h + l) :: rest)
      | None, _ => Err (InvalidHexCharacter c i)
      | Some _, None => Err (InvalidHexCharacter d (i + 1))
      end
  end.

Definition decode (s : string) : outcome FromHexError (list byte) :=
  if Nat.odd (String.length s) then Err OddLength else decode_from 0 s.

#[export] Instance hex_ref : HexCrate := {| hex_encode := encode; hex_decode := decode |}.
#[export] Instance base64_ref : Base64Crate := {|
  base64_encode := encode;
  base64_decode s := map_err (fun _ => InvalidBase64) (decode s) |}.

Lemma encode_length bs : String.length (encode bs) = (2 * length bs)%nat.
Proof. induction bs as [|b bs IH]; [done|]. cbn [encode String.length length]. lia. Qed.

Lemma byte_digits b :
  is_hex_digit (digit (Z_of_byte b / 16)) && is_hex_digit (digit (Z_of_byte b mod 16)) = true.
Proof. destruct b; reflexivity. Qed.

Lemma byte_undigits b :
  (undigit (digit (Z_of_byte b / 16)), undigit (digit (Z_of_byte b mod 16)),
   byte_of_Z (16 * (Z_of_byte b / 16) + Z_of_byte b mod 16))
  = (Some (Z_of_byte b / 16), Some (Z_of_byte b mod 16), b).
Proof. destruct b; reflexivity. Qed.

Lemma decode_from_encode i bs : decode_from i (encode bs) = Ok bs.
Proof.
  revert i; induction bs as [|b bs IH]; intros i; [done|].
  cbn [encode decode_from]. pose proof (byte_undigits b) as Hb.
  injection Hb as -> -> Hb. rewrite IH. cbn. by rewrite Hb.
Qed.

Lemma decode_encode bs : decode (encode bs) = Ok bs.
Proof.
  unfold decode. rewrite encode_length, Nat.odd_mul. cbn. apply decode_from_encode.
Qed.

Lemma decode_from_total n s i : (String.length s <= n)%nat -> is_panic (decode_from i s) = false.
Proof.
  revert s i; induction n as [|n IH]; intros [|c [|d s]] i Hn; cbn in Hn |- *; try done; try lia.
  destruct (undigit c), (undigit d); try done.
  specialize (IH s (i + 2)%nat). destruct (decode_from (i + 2) s); cbn in IH |- *; try done.
  apply IH; lia.
Qed.

Lemma decode_total s : is_panic (decode s) = false.
Proof. unfold decode. destruct (Nat.odd _); [done|]. by eapply decode_from_total. Qed.

Lemma decode_from_length n s i bs : (String.length s <= n)%nat -> decode_from i s = Ok bs ->
  String.length s = (2 * length bs)%nat.
Proof.
  revert s i bs; induction n as [|n IH]; intros [|c [|d s]] i bs Hn Hd; cbn in Hn, Hd; try lia; simplify_eq; [done..|].
  destruct (undigit c), (undigit d); try done.
  destruct (decode_from (i + 2) s) as [rest| |] eqn:E; cbn in Hd; simplify_eq. apply IH in E; [cbn; lia|lia].
Qed.

#[export] Instance hex_ref_laws : HexCrateLaws.
Proof.
  split; cbn.
  - induction bs as [|b bs IH]; [done|]. cbn [encode string_forall].
    pose proof (byte_digits b) as [-> ->]%andb_prop. exact IH.
  - apply encode_length.
  - apply decode_encode.
  - apply decode_total.
  - intros s bs. unfold decode. destruct (Nat.odd _); [done|]. by apply (decode_from_length (String.length s)).
Qed.

#[export] Instance base64_ref_laws : Base64CrateLaws.
Proof.
  split; cbn; intros.
  - by rewrite decode_encode.
  - pose proof (decode_total s). by destruct (decode s).
Qed.
End HexRef.

(** ** Properties *)

(** After the two ASCII bytes [0x] of a string comes a character boundary. *)
Lemma prefix_0x_boundary s : utf8 0 s = true -> starts_with "0x" s = true ->
  is_char_boundary 2 s = true.
Proof.
  intros Hs Hp. destruct s as [|c [|d s]]; cbn [starts_with] in Hp; rewrite ?andb_false_r in Hp; try done.
  apply andb_prop in Hp as [<-%Ascii.eqb_eq [<-%Ascii.eqb_eq _]%andb_prop]. cbn in Hs.
  destruct s as [|e s]; [done|]. unfold is_char_boundary. cbn in Hs |- *.
  destruct e as [[] [] [] [] [] [] [] []]; done.
Qed.

Section CodecTheorems.
Context `{HexCrateLaws}.

Lemma hex_decode_ok_or_err s : (exists bs, hex_decode s = Ok bs) \/ (exists e, hex_decode s = Err e).
Proof. pose proof (hex_decode_total s). destruct (hex_decode s); naive_solver. Qed.

Lemma digits_boundary_0x s : string_forall is_hex_digit s = true ->
  is_char_boundary 2 ("0x" +:+ s) = true.
Proof. intros Hs. exact (hex_digit_boundary 0 s Hs). Qed.

Lemma slice_from_0x {E} s : string_forall is_hex_digit s = true ->
  slice_from (E := E) 2 ("0x" +:+ s) = Ok s.
Proof. intros Hs. unfold slice_from. rewrite digits_boundary_0x by done. by destruct s. Qed.

Lemma slice_to_0x {E} s : string_forall is_hex_digit s = true ->
  slice_to (E := E) 2 ("0x" +:+ s) = Ok "0x".
Proof. intros Hs. unfold slice_to. rewrite digits_boundary_0x by done. by destruct s. Qed.

(** An encoded array of at least one byte does not start with [0x]. *)
Lemma hex_encode_head bs : bs <> [] ->
  exists s, slice_to (E := Common.DeError) 2 (hex_encode bs) = Ok s /\ String.eqb s "0x" = false.
Proof.
  intros Hbs. unfold slice_to. rewrite hex_digit_boundary by apply hex_encode_digits.
  pose proof (hex_encode_length bs) as Hlen. pose proof (hex_encode_digits bs) as Hd.
  destruct bs as [|b bs]; [done|]. rewrite Hlen. cbn [length]. eexists; split.
  { replace (Nat.leb 2 (2 * S (length bs))) with true; [done|]. symmetry. apply Nat.leb_le. lia. }
  destruct (hex_encode (b :: bs)) as [|c [|d s]]; cbn in Hlen; try lia.
  cbn in Hd. apply andb_prop in Hd as [_ [Hx _]%andb_prop].
  cbn [String.substring]. destruct (String.eqb_spec (String c (String d (String.substring 0 0 s))) "0x")
    as [Heq|]; [|done].
  injection Heq as -> -> _. done.
Qed.

(** [HexArray::deserialize] inverts [HexArray::serialize] for every array
    of at least one byte, and accepts the same digits with a [0x] prefix. *)
Theorem HexArray_roundtrip N data :
  Common.hex_array_wf N data -> (0 < N)%nat ->
  Common.HexArray_deserialize N (Common.HexArray_serialize data) = Ok data /\
  Common.HexArray_deserialize N ("0x" +:+ Common.HexArray_serialize data) = Ok data.
Proof.
  unfold Common.HexArray_serialize, Common.HexArray_deserialize, Common.hex_array_wf.
  intros Hwf HN.
  assert (Hdec : (vec_data ← map_err Common.FailToDecodeHex (hex_decode (hex_encode data));
    if Nat.eqb (length vec_data) N then Ok vec_data else Err Common.IncorrectArraySize) = Ok data).
  { rewrite hex_decode_encode. cbn. by rewrite (proj2 (Nat.eqb_eq _ _) Hwf). }
  split.
  - destruct (hex_encode_head data) as (s & -> & Hs); [by destruct data; cbn in *; [lia|]|].
    cbn. rewrite Hs. exact Hdec.
  - rewrite slice_to_0x, slice_from_0x by apply hex_encode_digits. exact Hdec.
Qed.

(** [HexArray::deserialize] panics exactly when byte offset 2 is not a
    character boundary of the string: the prefix test slices [..2] before it
    knows that the string has two bytes. All other bad strings are errors. *)
Theorem HexArray_deserialize_panics N s :
  Common.HexArray_deserialize N s = Panic <-> is_char_boundary 2 s = false.
Proof.
  unfold Common.HexArray_deserialize, slice_to, slice_from.
  destruct (is_char_boundary 2 s); [|done]. split; [|done]. cbn.
  set (t := if String.eqb _ _ then _ else _).
  assert (exists t', t = Ok t') as [t' ->] by (subst t; destruct (String.eqb _ _); eauto).
  cbn. destruct (hex_decode_ok_or_err t') as [[bs ->]|[e ->]]; cbn; [|done].
  by destruct (Nat.eqb _ _).
Qed.

(** [decode_ethereum_binary] inverts [encode_ethereum_binary]; on any
    string it refuses a missing [0x] prefix with [InvalidPrefix], reports the
    digits that [hex] rejects with [FromHex], and never panics. *)
Theorem ethereum_binary_roundtrip bs s :
  utf8 0 s = true ->
  Conversions.decode_ethereum_binary (Conversions.encode_ethereum_binary bs) = Ok bs /\
  Conversions.decode_ethereum_binary s =
    if starts_with "0x" s then map_err (Conversions.FromHex s) (hex_decode (string_drop 2 s))
    else Err (Conversions.InvalidPrefix s).
Proof.
  intros Hs. unfold Conversions.decode_ethereum_binary, Conversions.encode_ethereum_binary. split.
  - rewrite slice_from_0x by apply hex_encode_digits.
    replace (starts_with "0x" ("0x" +:+ hex_encode bs)) with true by by destruct (hex_encode bs).
    cbn. by rewrite hex_decode_encode.
  - destruct (starts_with "0x" s) eqn:Hp; [|done]. cbn.
    unfold slice_from. by rewrite prefix_0x_boundary.
Qed.
End CodecTheorems.

(** ** Witnesses *)

Import HexRef.

Definition sample_address : list byte := map byte_of_Z (seqZ 1 20).

Lemma HexArray_roundtrip_witness :
  Common.HexArray_deserialize 20 (Common.HexArray_serialize sample_address) = Ok sample_address /\
  Common.HexArray_deserialize 20 ("0x" +:+ Common.HexArray_serialize sample_address) = Ok sample_address.
Proof. apply (HexArray_roundtrip 20 sample_address); [reflexivity|lia]. Defined.

Lemma HexArray_deserialize_panics_witness : Common.HexArray_deserialize 20 "0" = Panic.
Proof. apply (HexArray_deserialize_panics 20 "0"). reflexivity. Defined.

Lemma ethereum_binary_roundtrip_witness :
  Conversions.decode_ethereum_binary "0120ff00" = Err (Conversions.InvalidPrefix "0120ff00").
Proof. exact (proj2 (ethereum_binary_roundtrip [] "0120ff00" eq_refl)). Defined.
