(* ===== verification/Retry.v ===== *)
(** * Retries with exponential backoff

    [backoff::future::retry], called by the broker client and by the
    server-manager facade, is a parameter. Its documented contract: it runs the
    operation, returns its result when it succeeds or fails permanently, and
    runs it again after a transient error until the time limit is reached. *)

From S2P Require Import Prelude.

(** [backoff::Error]; the [?] operator turns any error into a transient one. *)
Inductive BackoffError (E : Type) : Type :=
| Permanent (e : E)
| Transient (e : E).
Arguments Permanent {E} e.
Arguments Transient {E} e.

Definition backoff_inner {E} (e : BackoffError E) : E :=
  match e with Permanent e | Transient e => e end.

(** [n] is the number of runs after the first that the time limit allows. *)
Fixpoint attempts {S E A} (n : nat) (op : M S (BackoffError E) A) : M S E A := fun s =>
  match op s with
  | (Ok a, s') => (Ok a, s')
  | (Err (Permanent e), s') => (Err e, s')
  | (Err (Transient e), s') => match n with O => (Err e, s') | S n => attempts n op s' end
  | (Panic, s') => (Panic, s')
  end.

Class Retry : Type :=
  retry : forall {S E A : Type}, M S (BackoffError E) A -> M S E A.

Class RetryLaws `{Retry} : Prop :=
  retry_attempts : forall S E A (op : M S (BackoffError E) A) s,
    exists n, retry op s = attempts n op s.

(** An operation that keeps [I] when it fails, retried from a state with [I]. *)
Lemma wp_retry `{RetryLaws} {S E A} (I : S -> Prop) (op : M S (BackoffError E) A) s Q R :
  I s ->
  (forall s, I s -> wp op s Q (fun e s' => I s' /\ R (backoff_inner e) s')) ->
  wp (retry op) s Q R.
Proof.
  intros HI Hop. unfold wp. destruct (retry_attempts S E A op s) as [n ->].
  revert s HI. induction n as [|n IH]; intros s HI; specialize (Hop s HI) as Hs; unfold wp in Hs;
    cbn [attempts]; destruct (op s) as [[a|[e|e]|] s']; cbn in Hs; try tauto.
  destruct Hs as [HI' _]. by apply IH.
Qed.

(** The reference instance gives up after three runs. *)
Module RetryRef.
#[export] Instance retry_ref : Retry := fun S E A op => attempts 2 op.
#[export] Instance retry_ref_laws : RetryLaws.
Proof. intros S E A op s. by exists 2%nat. Qed.
End RetryRef.
