(* ===== verification/Events.v ===== *)
(** * Events of the rollups streams

    [offchain/rollups-events/src/]: the metadata of a dapp, the stream keys
    ([rollups_stream.rs], [rollups_claims.rs]) and the payloads of the three
    streams ([rollups_inputs.rs], [rollups_outputs.rs], [rollups_claims.rs]). *)

From Stdlib Require Import Ascii.
From S2P Require Import Prelude Codecs.

(** [Address = HexArray<20>], [Hash = HexArray<32>], [Payload]. *)
Abbreviation Address := (list byte).
Abbreviation Hash := (list byte).
Abbreviation Payload := (list byte).

Record DAppMetadata := mkDAppMetadata {
  chain_id : Z;
  dapp_address : Address;
}.

#[export] Instance DAppMetadata_eq_dec : EqDecision DAppMetadata.
Proof. solve_decision. Defined.
#[export] Instance DAppMetadata_countable : Countable DAppMetadata.
Proof.
  exact (inj_countable' (fun m => (chain_id m, dapp_address m))
    (fun '(c, a) => mkDAppMetadata c a) ltac:(by intros [])).
Defined.

(** [impl From<DAppMetadataCLIConfig> for DAppMetadata]. Reading and parsing
    the address file is [read_json], a parameter: it returns the value of the
    ["address"] entry. *)
Inductive JsonValue := JsonNull | JsonString (s : string) | JsonOther.

Record DAppMetadataCLIConfig := mkDAppMetadataCLIConfig {
  cli_chain_id : Z;
  cli_dapp_contract_address : option string;
  cli_dapp_contract_address_file : option string;
}.

Section FromCli.
Context `{HexCrate} (read_json : string -> outcome unit JsonValue).

Definition DAppMetadata_from_cli (cli_config : DAppMetadataCLIConfig) : outcome unit DAppMetadata :=
  dapp_contract_address_raw ←
    match cli_dapp_contract_address cli_config with
    | Some address => Ok address
    | None =>
        path ← unwrap (cli_dapp_contract_address_file cli_config);
        match read_json path with
        | Ok (JsonString s) => Ok s
        | Ok JsonNull => Panic
        | Ok JsonOther => Panic
        | _ => Panic
        end
    end;
  digits ← slice_from 2 dapp_contract_address_raw;
  dapp_contract_address ← match hex_decode digits with Ok v => Ok v | _ => Panic end;
  if Nat.eqb (length dapp_contract_address) Common.ADDRESS_SIZE then
    Ok (mkDAppMetadata (cli_chain_id cli_config) dapp_contract_address)
  else Panic.
End FromCli.

(** ** Stream keys *)

Section StreamKeys.
Context `{HexCrate}.

(** [decl_broker_stream!] *)
Definition stream_key (metadata : DAppMetadata) (key : string) : string :=
  "{chain-" +:+ pretty (chain_id metadata) +:+ ":dapp-"
    +:+ hex_encode (dapp_address metadata) +:+ "}:" +:+ key.

Definition RollupsInputsStream_new (metadata : DAppMetadata) : string :=
  stream_key metadata "rollups-inputs".
Definition RollupsOutputsStream_new (metadata : DAppMetadata) : string :=
  stream_key metadata "rollups-outputs".
Definition RollupsClaimsStream_new (chain_id : Z) : string :=
  "{chain-" +:+ pretty chain_id +:+ "}:rollups-claims".
End StreamKeys.

(** ** Payloads *)

Record InputMetadata := mkInputMetadata {
  msg_sender : Address;
  block_number : Z;
  timestamp : Z;
  im_epoch_index : Z;
  input_index : Z;
}.

Record RollupsAdvanceStateInput := mkRollupsAdvanceStateInput {
  rai_metadata : InputMetadata;
  rai_payload : Payload;
  rai_tx_hash : Hash;
}.

Inductive RollupsData :=
| AdvanceStateInput (input : RollupsAdvanceStateInput)
| FinishEpoch.

Record RollupsInput := mkRollupsInput {
  parent_id : string;
  ri_epoch_index : Z;
  inputs_sent_count : Z;
  ri_data : RollupsData;
}.

Inductive RollupsCompletionStatus :=
| Accepted | Rejected | Exception | MachineHalted | CycleLimitExceeded
| TimeLimitExceeded | PayloadLengthLimitExceeded.

Record RollupsAdvanceResult := mkRollupsAdvanceResult {
  ar_input_index : Z;
  ar_status : RollupsCompletionStatus;
}.

Record RollupsVoucher := mkRollupsVoucher {
  rv_index : Z;
  rv_input_index : Z;
  rv_destination : Address;
  rv_payload : Payload;
}.

Record RollupsNotice := mkRollupsNotice {
  rn_index : Z;
  rn_input_index : Z;
  rn_payload : Payload;
}.

Record RollupsReport := mkRollupsReport {
  rr_index : Z;
  rr_input_index : Z;
  rr_payload : Payload;
}.

Inductive RollupsOutputEnum := OutputEnumVoucher | OutputEnumNotice.

Record RollupsOutputValidityProof := mkRollupsOutputValidityProof {
  input_index_within_epoch : Z;
  output_index_within_input : Z;
  output_hashes_root_hash : Hash;
  vouchers_epoch_root_hash : Hash;
  notices_epoch_root_hash : Hash;
  machine_state_hash : Hash;
  output_hash_in_output_hashes_siblings : list Hash;
  output_hashes_in_epoch_siblings : list Hash;
}.

Record RollupsProof := mkRollupsProof {
  rp_input_index : Z;
  rp_output_index : Z;
  rp_output_enum : RollupsOutputEnum;
  rp_validity : RollupsOutputValidityProof;
  rp_context : Payload;
}.

Inductive RollupsOutput :=
| AdvanceResult (r : RollupsAdvanceResult)
| Voucher (v : RollupsVoucher)
| Notice (n : RollupsNotice)
| Report (r : RollupsReport)
| Proof_ (p : RollupsProof).

Record RollupsClaim := mkRollupsClaim {
  rc_dapp_address : Address;
  rc_epoch_index : Z;
  rc_epoch_hash : Hash;
  rc_first_index : Z;
  rc_last_index : Z;
}.

(** Derived [Eq] of the payloads, and an enumeration of their values. *)

#[export] Instance InputMetadata_eq_dec : EqDecision InputMetadata.
Proof. solve_decision. Defined.
#[export] Instance InputMetadata_countable : Countable InputMetadata.
Proof.
  exact (inj_countable' (fun '(mkInputMetadata a b c d e) => (a, b, c, d, e))
    (fun '(a, b, c, d, e) => mkInputMetadata a b c d e) ltac:(by intros [])).
Defined.
#[export] Instance RollupsAdvanceStateInput_eq_dec : EqDecision RollupsAdvanceStateInput.
Proof. solve_decision. Defined.
#[export] Instance RollupsAdvanceStateInput_countable : Countable RollupsAdvanceStateInput.
Proof.
  exact (inj_countable' (fun '(mkRollupsAdvanceStateInput a b c) => (a, b, c))
    (fun '(a, b, c) => mkRollupsAdvanceStateInput a b c) ltac:(by intros [])).
Defined.
#[export] Instance RollupsData_eq_dec : EqDecision RollupsData.
Proof. solve_decision. Defined.
#[export] Instance RollupsData_countable : Countable RollupsData.
Proof.
  exact (inj_countable' (fun d => match d with AdvanceStateInput i => Some i | FinishEpoch => None end)
    (fun o => match o with Some i => AdvanceStateInput i | None => FinishEpoch end)
    ltac:(by intros [])).
Defined.
#[export] Instance RollupsInput_eq_dec : EqDecision RollupsInput.
Proof. solve_decision. Defined.
#[export] Instance RollupsInput_countable : Countable RollupsInput.
Proof.
  exact (inj_countable' (fun '(mkRollupsInput a b c d) => (a, b, c, d))
    (fun '(a, b, c, d) => mkRollupsInput a b c d) ltac:(by intros [])).
Defined.
#[export] Instance RollupsClaim_eq_dec : EqDecision RollupsClaim.
Proof. solve_decision. Defined.
#[export] Instance RollupsClaim_countable : Countable RollupsClaim.
Proof.
  exact (inj_countable' (fun '(mkRollupsClaim a b c d e) => (a, b, c, d, e))
    (fun '(a, b, c, d, e) => mkRollupsClaim a b c d e) ltac:(by intros [])).
Defined.
#[export] Instance RollupsCompletionStatus_eq_dec : EqDecision RollupsCompletionStatus.
Proof. solve_decision. Defined.
#[export] Instance RollupsCompletionStatus_countable : Countable RollupsCompletionStatus.
Proof.
  exact (inj_countable
    (fun s => match s with
     | Accepted => 0 | Rejected => 1 | Exception => 2 | MachineHalted => 3
     | CycleLimitExceeded => 4 | TimeLimitExceeded => 5 | PayloadLengthLimitExceeded => 6 end)
    (fun n => [Accepted; Rejected; Exception; MachineHalted; CycleLimitExceeded;
               TimeLimitExceeded; PayloadLengthLimitExceeded] !! Z.to_nat n)
    ltac:(by intros [])).
Defined.
#[export] Instance RollupsOutputEnum_eq_dec : EqDecision RollupsOutputEnum.
Proof. solve_decision. Defined.
#[export] Instance RollupsOutputEnum_countable : Countable RollupsOutputEnum.
Proof.
  exact (inj_countable' (fun e => match e with OutputEnumVoucher => true | OutputEnumNotice => false end)
    (fun b : bool => if b then OutputEnumVoucher else OutputEnumNotice) ltac:(by intros [])).
Defined.
#[export] Instance RollupsAdvanceResult_eq_dec : EqDecision RollupsAdvanceResult.
Proof. solve_decision. Defined.
#[export] Instance RollupsAdvanceResult_countable : Countable RollupsAdvanceResult.
Proof.
  exact (inj_countable' (fun '(mkRollupsAdvanceResult a b) => (a, b))
    (fun '(a, b) => mkRollupsAdvanceResult a b) ltac:(by intros [])).
Defined.
#[export] Instance RollupsVoucher_eq_dec : EqDecision RollupsVoucher.
Proof. solve_decision. Defined.
#[export] Instance RollupsVoucher_countable : Countable RollupsVoucher.
Proof.
  exact (inj_countable' (fun '(mkRollupsVoucher a b c d) => (a, b, c, d))
    (fun '(a, b, c, d) => mkRollupsVoucher a b c d) ltac:(by intros [])).
Defined.
#[export] Instance RollupsNotice_eq_dec : EqDecision RollupsNotice.
Proof. solve_decision. Defined.
#[export] Instance RollupsNotice_countable : Countable RollupsNotice.
Proof.
  exact (inj_countable' (fun '(mkRollupsNotice a b c) => (a, b, c))
    (fun '(a, b, c) => mkRollupsNotice a b c) ltac:(by intros [])).
Defined.
#[export] Instance RollupsReport_eq_dec : EqDecision RollupsReport.
Proof. solve_decision. Defined.
#[export] Instance RollupsReport_countable : Countable RollupsReport.
Proof.
  exact (inj_countable' (fun '(mkRollupsReport a b c) => (a, b, c))
    (fun '(a, b, c) => mkRollupsReport a b c) ltac:(by intros [])).
Defined.
#[export] Instance RollupsOutputValidityProof_eq_dec : EqDecision RollupsOutputValidityProof.
Proof. solve_decision. Defined.
#[export] Instance RollupsOutputValidityProof_countable : Countable RollupsOutputValidityProof.
Proof.
  exact (inj_countable' (fun '(mkRollupsOutputValidityProof a b c d e f g h) => (a, b, c, d, e, f, g, h))
    (fun '(a, b, c, d, e, f, g, h) => mkRollupsOutputValidityProof a b c d e f g h) ltac:(by intros [])).
Defined.
#[export] Instance RollupsProof_eq_dec : EqDecision RollupsProof.
Proof. solve_decision. Defined.
#[export] Instance RollupsProof_countable : Countable RollupsProof.
Proof.
  exact (inj_countable' (fun '(mkRollupsProof a b c d e) => (a, b, c, d, e))
    (fun '(a, b, c, d, e) => mkRollupsProof a b c d e) ltac:(by intros [])).
Defined.
#[export] Instance RollupsOutput_eq_dec : EqDecision RollupsOutput.
Proof. solve_decision. Defined.
#[export] Instance RollupsOutput_countable : Countable RollupsOutput.
Proof.
  exact (inj_countable'
    (fun o => match o with
     | AdvanceResult r => inl r | Voucher v => inr (inl v) | Notice n => inr (inr (inl n))
     | Report r => inr (inr (inr (inl r))) | Proof_ p => inr (inr (inr (inr p))) end)
    (fun c => match c with
     | inl r => AdvanceResult r | inr (inl v) => Voucher v | inr (inr (inl n)) => Notice n
     | inr (inr (inr (inl r))) => Report r | inr (inr (inr (inr p))) => Proof_ p end)
    ltac:(by intros [])).
Defined.

(** ** Distinct streams have distinct keys *)

Definition no_char (c d : Ascii.ascii) : bool := negb (Ascii.eqb c d).

(** Cutting at the first separator is unambiguous. *)
Lemma string_cut c a b s t :
  string_forall (no_char c) a = true -> string_forall (no_char c) b = true ->
  a +:+ String c s = b +:+ String c t -> a = b /\ s = t.
Proof.
  unfold no_char. revert b. induction a as [|x a IH]; intros [|y b] Ha Hb Heq; cbn in Ha, Hb, Heq.
  - by injection Heq.
  - injection Heq as <- _. by rewrite Ascii.eqb_refl in Hb.
  - injection Heq as -> _. by rewrite Ascii.eqb_refl in Ha.
  - injection Heq as -> Heq. apply andb_prop in Ha as [_ Ha], Hb as [_ Hb].
    by destruct (IH b Ha Hb Heq) as [-> ->].
Qed.

Lemma pretty_N_go_forall p x s :
  (forall n, p (pretty_N_char n) = true) -> string_forall p s = true ->
  string_forall p (pretty_N_go x s) = true.
Proof.
  intros Hp. revert s. induction (N.lt_wf_0 x) as [x _ IH]; intros s Hs.
  destruct (decide (x = 0)%N) as [->|]; [done|]. rewrite pretty_N_go_step by lia.
  apply IH; [apply N.div_lt; lia|]. cbn. by rewrite Hp, Hs.
Qed.

Lemma pretty_Z_forall p (z : Z) :
  (forall n, p (pretty_N_char n) = true) -> p "-"%char = true ->
  string_forall p (pretty z) = true.
Proof.
  intros Hp Hm. destruct z as [|z|z]; unfold pretty, pretty_Z.
  - exact (andb_true_intro (conj (Hp 0%N) eq_refl)).
  - by apply pretty_N_go_forall.
  - change (p "-"%char && string_forall p (pretty z) = true).
    rewrite Hm. by apply pretty_N_go_forall.
Qed.

Lemma no_char_pretty c (z : Z) : c = ":"%char \/ c = "}"%char -> string_forall (no_char c) (pretty z) = true.
Proof.
  intros Hc. apply pretty_Z_forall; [|by destruct Hc as [-> | ->]].
  intros n. destruct Hc as [-> | ->]; unfold pretty_N_char; by repeat case_match.
Qed.

Lemma string_forall_impl (p q : Ascii.ascii -> bool) s :
  (forall c, p c = true -> q c = true) -> string_forall p s = true -> string_forall q s = true.
Proof.
  intros Hpq. induction s as [|c s IH]; [done|]. cbn. intros [? ?]%andb_prop.
  by rewrite Hpq, IH.
Qed.

Lemma no_char_hex `{HexCrateLaws} bs : string_forall (no_char "}"%char) (hex_encode bs) = true.
Proof.
  eapply string_forall_impl, hex_encode_digits.
  intros c. by destruct c as [[] [] [] [] [] [] [] []].
Qed.

(** Stream keys separate dapps and streams: two metadata/stream pairs with
    the same key are equal, claims streams of different chains differ, and no
    input or output stream is a claims stream. *)
Theorem stream_keys_distinct `{HexCrateLaws} m1 m2 k1 k2 c1 c2 :
  (stream_key m1 k1 = stream_key m2 k2 -> m1 = m2 /\ k1 = k2) /\
  (RollupsClaimsStream_new c1 = RollupsClaimsStream_new c2 -> c1 = c2) /\
  stream_key m1 k1 <> RollupsClaimsStream_new c1.
Proof.
  unfold stream_key, RollupsClaimsStream_new. split; [|split].
  - intros Heq%(inj _).
    apply (string_cut ":"%char) in Heq as [Hc Heq]; [|apply no_char_pretty; auto..].
    apply (inj (String.append "dapp-")) in Heq.
    apply (string_cut "}"%char) in Heq as [Ha Heq]; [|apply no_char_hex..].
    apply (inj pretty) in Hc. apply (inj hex_encode) in Ha. injection Heq as ->.
    by destruct m1, m2; cbn in *; subst.
  - intros Heq%(inj _). apply (string_cut "}"%char) in Heq as [Hc _]; [|apply no_char_pretty; auto..].
    by apply (inj pretty) in Hc.
  - intros Heq%(inj _).
    change (pretty c1 +:+ "}:rollups-claims") with (pretty c1 +:+ "}" +:+ ":rollups-claims") in Heq.
    rewrite (string_app_assoc (pretty c1)) in Heq.
    apply (string_cut ":"%char) in Heq as [Hc _].
    + pose proof (no_char_pretty "}"%char (chain_id m1) (or_intror eq_refl)) as Hn.
      rewrite Hc, string_forall_app in Hn. apply andb_prop in Hn as [_ Hn]. done.
    + apply no_char_pretty; auto.
    + rewrite string_forall_app, no_char_pretty by auto. done.
Qed.

Import HexRef.

Lemma stream_keys_distinct_witness :
  stream_key (mkDAppMetadata 31337 sample_address) "rollups-inputs" <> RollupsClaimsStream_new 31337.
Proof.
  apply (stream_keys_distinct _ (mkDAppMetadata 31337 sample_address) _ "rollups-inputs" _ 31337).
Defined.
