(* ===== verification/Broker.v ===== *)
(** * The broker client

    [offchain/rollups-events/src/broker/]: [Broker] ([mod.rs]) and its
    indexer extension ([indexer.rs]), over a Redis server that is a parameter.
    The server's documented behaviour on streams is the class [RedisLaws]. *)

From Stdlib Require Import Ascii.
From stdpp Require Import sorting.
From S2P Require Import Prelude Codecs Retry Events.

(** ** Redis streams *)

Record StreamId := mkStreamId { sid : string; smap : gmap string string }.
Record StreamKey := mkStreamKey { skey : string; sids : list StreamId }.
Record StreamReadOptions := mkStreamReadOptions { opt_count : option nat; opt_block : option Z }.
Inductive RedisError := redis_error (detail : string).

Definition INITIAL_ID : string := "0".

(** The commands that the client sends; [R] is the state of the server. *)
Class Redis (R : Type) : Type := {
  xadd (key id : string) (items : list (string * string)) : M R RedisError string;
  xrevrange_count (key end_ start : string) (count : nat) : M R RedisError (list StreamId);
  xread_options (keys ids : list string) (opts : StreamReadOptions) : M R RedisError (list StreamKey);
}.

(** What a client can say of the server's state: the entries of each stream
    and the order of entry ids. *)
Class RedisView (R : Type) : Type := {
  entries : R -> string -> list StreamId;
  id_lt : string -> string -> bool;
}.

Section View.
Context {R : Type} `{RedisView R}.

(** The entries of [key] that come after the id [last]. *)
Definition entries_after (r : R) (key last : string) : list StreamId :=
  filter (fun e => id_lt last (sid e) = true) (entries r key).

(** The reply of [XREAD]: the streams with unread entries, in the order asked. *)
Definition read_reply (r : R) (keys ids : list string) (count : option nat) : list StreamKey :=
  omap (fun '(k, i) =>
    match entries_after r k i with
    | [] => None
    | es => Some (mkStreamKey k (match count with Some n => take n es | None => es end))
    end) (zip keys ids).

(** Other clients may append to the streams that are not [owned]. *)
Definition grows (owned : string -> Prop) (r r' : R) : Prop :=
  forall k, entries r k `prefix_of` entries r' k /\ (owned k -> entries r' k = entries r k).
End View.

(** [owned] are the streams on which this client is the only producer. *)
Class RedisLaws (R : Type) `{Redis R, RedisView R} (owned : string -> Prop) : Prop := {
  id_lt_irrefl i : id_lt i i = false;
  id_lt_trans i j k : id_lt i j = true -> id_lt j k = true -> id_lt i k = true;
  entries_initial r k e : e ∈ entries r k -> id_lt INITIAL_ID (sid e) = true;
  entries_sorted r k : StronglySorted (fun a b => id_lt (sid a) (sid b) = true) (entries r k);
  (** [XADD] appends one entry; when the reply is lost the entry may be there. *)
  xadd_spec r k items :
    wp (xadd k "*" items) r
      (fun id r' => exists r1, grows owned r r1 /\
        (forall k', k' <> k -> entries r' k' = entries r1 k') /\
        entries r' k = entries r1 k ++ [mkStreamId id (list_to_map items)])
      (fun _ r' => grows owned r r' \/ exists r1 id, grows owned r r1 /\
        (forall k', k' <> k -> entries r' k' = entries r1 k') /\
        entries r' k = entries r1 k ++ [mkStreamId id (list_to_map items)]);
  (** [XREVRANGE key + - COUNT n] *)
  xrevrange_spec r k n :
    wp (xrevrange_count k "+" "-" n) r
      (fun ids r' => grows owned r r' /\ ids = take n (reverse (entries r' k)))
      (fun _ r' => grows owned r r');
  (** [XREAD]; an empty reply after [BLOCK] is a timeout. *)
  xread_spec r keys ids opts :
    wp (xread_options keys ids opts) r
      (fun reply r' => grows owned r r' /\ reply = read_reply r' keys ids (opt_count opts))
      (fun _ r' => grows owned r r');
}.

(** A server and a connection that never lose the reply of an [XADD]. *)
Class RedisAtomicAdd (R : Type) `{Redis R, RedisView R} (owned : string -> Prop) : Prop :=
  xadd_err_unchanged r k items :
    wp (xadd k "*" items) r (fun _ _ => True) (fun _ r' => grows owned r r').

(** ** Payloads in JSON ([serde_json]) *)

Inductive JsonError := json_error (detail : string).

Class Json (P : Type) : Type := {
  to_string : P -> outcome JsonError string;
  from_str : string -> outcome JsonError P;
}.

Class JsonLaws (P : Type) `{Json P} : Prop := {
  json_roundtrip (p : P) : exists s, to_string p = Ok s /\ from_str s = Ok p;
  (** Parsing reports what it cannot parse. *)
  from_str_total (s : string) : is_panic (from_str (P := P) s) = false;
}.

(** ** [Broker] *)

Record Event (P : Type) := mkEvent { event_id : string; event_payload : P }.
Arguments mkEvent {P} event_id event_payload.
Arguments event_id {P} _.
Arguments event_payload {P} _.

Inductive BrokerError :=
| ConnectionError (source : RedisError)
| FailedToConsume
| ConsumeTimeout
| InvalidEvent
| InvalidPayload (source : JsonError).

Inductive BrokerEndpoint :=
| Single (endpoint : string)
| Cluster (endpoints : list string).

Module Broker.
Section Broker.
Context {R : Type} `{Redis R, Retry}.
(** [self.consume_timeout] *)
Variable consume_timeout : Z.

(** [Client::open] and [ConnectionManager::new], [ClusterClient::new] and
    [get_async_connection]. *)
Variable connect_single : string -> M R RedisError unit.
Variable connect_cluster : list string -> M R RedisError unit.

Definition new (redis_endpoint : BrokerEndpoint) : M R BrokerError unit :=
  context ConnectionError (retry (context Transient
    match redis_endpoint with
    | Single endpoint => connect_single endpoint
    | Cluster endpoints => connect_cluster endpoints
    end)).

(** [impl TryFrom<StreamId> for Event<P>] *)
Definition event_try_from {P} `{Json P} (stream_id : StreamId) : outcome BrokerError (Event P) :=
  payload ← ok_or (smap stream_id !! "payload") InvalidEvent;
  payload ← map_err InvalidPayload (from_str payload);
  Ok (mkEvent (sid stream_id) payload).

Definition produce {P} `{Json P} (stream : string) (payload : P) : M R BrokerError string :=
  payload ← context InvalidPayload (lift (to_string payload));
  context ConnectionError (retry (context Transient (xadd stream "*" [("payload", payload)]))).

Definition peek_latest {P} `{Json P} (stream : string) : M R BrokerError (option (Event P)) :=
  reply ← context ConnectionError (retry (context Transient (xrevrange_count stream "+" "-" 1)));
  match last reply with
  | Some event => e ← lift (event_try_from event); mret (Some e)
  | None => mret None
  end.

Definition _consume_blocking {P} `{Json P} (stream last_consumed_id : string) : M R BrokerError (Event P) :=
  reply ← context ConnectionError (retry (context Transient
    (xread_options [stream] [last_consumed_id] (mkStreamReadOptions (Some 1%nat) (Some consume_timeout)))));
  events ← lift (ok_or (last reply) ConsumeTimeout);
  event ← lift (ok_or (last (sids events)) FailedToConsume);
  lift (event_try_from event).

(** The loop polls until it gets something else than a timeout; [None] after
    [fuel] polls that all timed out. *)
Fixpoint consume_blocking {P} `{Json P} (fuel : nat) (stream last_consumed_id : string)
    : M R BrokerError (option (Event P)) :=
  match fuel with
  | O => mret None
  | S fuel => fun r =>
      match _consume_blocking stream last_consumed_id r with
      | (Err ConsumeTimeout, r') => consume_blocking fuel stream last_consumed_id r'
      | (Ok event, r') => (Ok (Some event), r')
      | (Err e, r') => (Err e, r')
      | (Panic, r') => (Panic, r')
      end
  end.

Definition consume_nonblocking {P} `{Json P} (stream last_consumed_id : string)
    : M R BrokerError (option (Event P)) :=
  reply ← context ConnectionError (retry (context Transient
    (xread_options [stream] [last_consumed_id] (mkStreamReadOptions (Some 1%nat) None))));
  match last reply with
  | Some events =>
      event ← lift (ok_or (last (sids events)) FailedToConsume);
      e ← lift (event_try_from event);
      mret (Some e)
  | None => mret None
  end.
End Broker.
End Broker.

(** ** The indexer extension *)

Module BrokerIndexer.
Inductive IndexerEvent :=
| Input (e : Event RollupsInput)
| Output (e : Event RollupsOutput).

Record IndexerState := mkIndexerState {
  inputs_last_id : string;
  outputs_last_id : string;
  inputs_stream : string;
  outputs_stream : string;
}.

Definition new `{HexCrate} (dapp_metadata : DAppMetadata) : IndexerState :=
  mkIndexerState INITIAL_ID INITIAL_ID
    (RollupsInputsStream_new dapp_metadata) (RollupsOutputsStream_new dapp_metadata).

Definition set_inputs_last_id (id : string) (s : IndexerState) : IndexerState :=
  mkIndexerState id (outputs_last_id s) (inputs_stream s) (outputs_stream s).
Definition set_outputs_last_id (id : string) (s : IndexerState) : IndexerState :=
  mkIndexerState (inputs_last_id s) id (inputs_stream s) (outputs_stream s).

(** [reply.keys.iter_mut().find(|s| s.key == key).and_then(|s| s.ids.pop())] *)
Definition find_pop (key : string) (reply : list StreamKey) : option StreamId :=
  stream ← List.find (fun stream => String.eqb (skey stream) key) reply;
  last (sids stream).

Section Consume.
Context {R : Type} `{Redis R, Retry, Json RollupsInput, Json RollupsOutput}.
Variable consume_timeout : Z.

Definition indexer_consume : M (IndexerState * R) BrokerError IndexerEvent :=
  '(state, _) ← get;
  let stream_keys := [inputs_stream state; outputs_stream state] in
  let last_consumed_ids := [inputs_last_id state; outputs_last_id state] in
  reply ← on_snd (context ConnectionError (retry (context Transient
    (xread_options stream_keys last_consumed_ids
      (mkStreamReadOptions (Some 1%nat) (Some consume_timeout))))));
  match find_pop (inputs_stream state) reply with
  | Some stream_id =>
      event ← lift (Broker.event_try_from stream_id);
      on_fst (modify (set_inputs_last_id (event_id event))) ;;
      mret (Input event)
  | None =>
      match find_pop (outputs_stream state) reply with
      | Some stream_id =>
          event ← lift (Broker.event_try_from stream_id);
          on_fst (modify (set_outputs_last_id (event_id event))) ;;
          mret (Output event)
      | None => fail ConsumeTimeout
      end
  end.
End Consume.
End BrokerIndexer.

(** ** Lemmas on the server's laws *)

Section Laws.
Context {R : Type} `{RedisLaws R} `{RetryLaws}.

#[export] Instance grows_preorder : PreOrder (grows owned).
Proof.
  split.
  - intros r k. split; [done|auto].
  - intros r1 r2 r3 H12 H23 k. destruct (H12 k) as [? E12], (H23 k) as [? E23]. split.
    + by etrans.
    + intros Hk. by rewrite E23, E12.
Qed.

(** Reading after the id of an entry gives the entries that follow it. *)
Lemma entries_after_split r k pre e post :
  entries r k = pre ++ e :: post -> entries_after r k (sid e) = post.
Proof.
  intros Hk. pose proof (entries_sorted r k) as Hs. unfold entries_after. rewrite Hk in *.
  apply StronglySorted_app in Hs as (Hlt & _ & [Hpost _]%StronglySorted_cons).
  rewrite filter_app, (filter_none _ pre), filter_cons_False, (filter_all _ post); [done|..].
  - intros x Hx. by apply (proj1 (Forall_forall _ _) Hpost).
  - by rewrite id_lt_irrefl.
  - intros x Hx Hex. specialize (Hlt x e Hx ltac:(left)).
    pose proof (id_lt_trans _ _ _ Hex Hlt) as Hc. by rewrite id_lt_irrefl in Hc.
Qed.

Lemma entries_after_initial r k : entries_after r k INITIAL_ID = entries r k.
Proof. apply filter_all. intros x. apply entries_initial. Qed.

(** The id to read from after having consumed [pre]. *)
Definition last_id (pre : list StreamId) : string := from_option sid INITIAL_ID (last pre).

Lemma entries_after_last_id r k pre post :
  entries r k = pre ++ post -> entries_after r k (last_id pre) = post.
Proof.
  destruct pre as [|e pre _] using rev_ind; intros Hk.
  - by rewrite entries_after_initial.
  - unfold last_id. rewrite last_snoc. cbn. eapply entries_after_split.
    by rewrite Hk, <- (assoc_L (++)).
Qed.

(** The three commands as the client sends them, with retries. *)
Lemma wp_xread keys ids opts r (Q : list StreamKey -> R -> Prop) (F : RedisError -> R -> Prop) :
  (forall r', grows owned r r' -> Q (read_reply r' keys ids (opt_count opts)) r') ->
  (forall e r', grows owned r r' -> F e r') ->
  wp (retry (context Transient (xread_options keys ids opts))) r Q F.
Proof.
  intros HQ HF. apply (wp_retry (grows owned r)); [done|]. intros r1 G1. wp_run.
  eapply wp_mono; [apply xread_spec|..]; cbn.
  - intros reply r' [G2 ->]. apply HQ. by etrans.
  - intros e r' G2. split; [by etrans|]. apply HF. by etrans.
Qed.

Lemma wp_xrevrange k n r (Q : list StreamId -> R -> Prop) (F : RedisError -> R -> Prop) :
  (forall r', grows owned r r' -> Q (take n (reverse (entries r' k))) r') ->
  (forall e r', grows owned r r' -> F e r') ->
  wp (retry (context Transient (xrevrange_count k "+" "-" n))) r Q F.
Proof.
  intros HQ HF. apply (wp_retry (grows owned r)); [done|]. intros r1 G1. wp_run.
  eapply wp_mono; [apply xrevrange_spec|..]; cbn.
  - intros reply r' [G2 ->]. apply HQ. by etrans.
  - intros e r' G2. split; [by etrans|]. apply HF. by etrans.
Qed.

(** [r'] is [r] with copies of one entry appended to [k], for an owned [k]. *)
Definition retried (k : string) (m : gmap string string) (r r' : R) : Prop :=
  (forall k', k' <> k -> entries r k' `prefix_of` entries r' k' /\
    (owned k' -> entries r' k' = entries r k')) /\
  entries r k `prefix_of` entries r' k /\
  (owned k -> exists copies, Forall (fun e => smap e = m) copies /\ entries r' k = entries r k ++ copies).

Lemma grows_retried k m r r1 r2 : retried k m r r1 -> grows owned r1 r2 -> retried k m r r2.
Proof.
  intros (Ho & Hp & Hk) Hg. split; [|split].
  - intros k' Hk'. destruct (Ho k' Hk') as [? E1], (Hg k') as [? E2].
    split; [by etrans|]. intros O. by rewrite E2, E1.
  - etrans; [exact Hp|apply Hg].
  - intros O. destruct (Hg k) as [_ ->]; auto.
Qed.

Lemma retried_snoc k m r r1 r2 id :
  retried k m r r1 -> (forall k', k' <> k -> entries r2 k' = entries r1 k') ->
  entries r2 k = entries r1 k ++ [mkStreamId id m] -> retried k m r r2.
Proof.
  intros (Ho & Hp & Hk) Heq Hsnoc. split; [|split].
  - intros k' Hk'. rewrite (Heq k' Hk'). auto.
  - rewrite Hsnoc. by apply prefix_app_r.
  - intros O. destruct (Hk O) as (copies & Hc & E1). exists (copies ++ [mkStreamId id m]). split.
    + apply Forall_app. auto.
    + by rewrite Hsnoc, E1, <- (assoc_L (++)).
Qed.

(** [produce] may store its event more than once, but only its event. *)
Lemma wp_xadd k items r (Q : string -> R -> Prop) (F : RedisError -> R -> Prop) :
  (forall id r1 r', retried k (list_to_map items) r r1 ->
     (forall k', k' <> k -> entries r' k' = entries r1 k') ->
     entries r' k = entries r1 k ++ [mkStreamId id (list_to_map items)] -> Q id r') ->
  (forall e r', retried k (list_to_map items) r r' -> F e r') ->
  wp (retry (context Transient (xadd k "*" items))) r Q F.
Proof.
  intros HQ HF. apply (wp_retry (retried k (list_to_map items) r)).
  { split; [done|]. split; [done|]. exists []. by rewrite (right_id_L [] (++)). }
  intros r1 G1. wp_run. eapply wp_mono; [apply xadd_spec|..]; cbn.
  - intros id r' (r2 & Hg & Heq & Hsnoc). apply (HQ id r2); [|done|done].
    by eapply grows_retried.
  - intros e r' Hcase. assert (retried k (list_to_map items) r r'); [|auto].
    destruct Hcase as [Hg|(r2 & id & Hg & Heq & Hsnoc)].
    + by eapply grows_retried.
    + eapply retried_snoc; [eapply grows_retried| |]; eauto.
Qed.

(** When no reply of [XADD] is lost, the event is stored once. *)
Lemma wp_xadd_atomic `{!RedisAtomicAdd R owned} k items r
    (Q : string -> R -> Prop) (F : RedisError -> R -> Prop) :
  (forall id r1 r', grows owned r r1 -> (forall k', k' <> k -> entries r' k' = entries r1 k') ->
     entries r' k = entries r1 k ++ [mkStreamId id (list_to_map items)] -> Q id r') ->
  (forall e r', grows owned r r' -> F e r') ->
  wp (retry (context Transient (xadd k "*" items))) r Q F.
Proof.
  intros HQ HF. apply (wp_retry (grows owned r)); [done|]. intros r1 G1. wp_run.
  pose proof (xadd_spec r1 k items) as G2. pose proof (xadd_err_unchanged r1 k items) as G3.
  unfold wp in *. destruct (xadd k "*" items r1) as [[id|e|] r']; cbn; [| |done].
  - destruct G2 as (r2 & Hg & Heq & Hsnoc). apply (HQ id r2); [by etrans|done|done].
  - split; [by etrans|]. apply HF. by etrans.
Qed.
(** Connecting, when it adds nothing to a stream. *)
Definition connects {X} (connect : X -> M R RedisError unit) : Prop :=
  forall e r, wp (connect e) r (fun _ r' => grows owned r r') (fun _ r' => grows owned r r').

Lemma wp_broker_new endpoint connect_single connect_cluster r
    (Q : unit -> R -> Prop) (F : BrokerError -> R -> Prop) :
  connects connect_single -> connects connect_cluster ->
  (forall r', grows owned r r' -> Q tt r') -> (forall x r', grows owned r r' -> F (ConnectionError x) r') ->
  wp (Broker.new connect_single connect_cluster endpoint) r Q F.
Proof.
  intros Hs Hc HQ HF. unfold Broker.new. wp_run. apply (wp_retry (grows owned r)); [done|].
  intros r1 G1. wp_run. eapply (wp_mono _ _ (fun _ r' => grows owned r1 r') _ (fun _ r' => grows owned r1 r')).
  - destruct endpoint; [apply Hs|apply Hc].
  - intros [] r' G2. apply HQ. by etrans.
  - intros x r' G2. cbn. split; [by etrans|]. apply HF. by etrans.
Qed.
End Laws.

(** ** Properties of the client *)

(** Consuming [n] events in a row, as the clients do: each read starts after
    the event that was consumed last. *)
Fixpoint drain {R} `{Redis R, Retry} {P} `{Json P} (n : nat) (stream last_consumed_id : string)
    : M R BrokerError (list (Event P)) :=
  match n with
  | O => mret []
  | S n =>
      event ← Broker.consume_nonblocking stream last_consumed_id;
      match event with
      | None => mret []
      | Some e => es ← drain n stream (event_id e); mret (e :: es)
      end
  end.

Section Client.
Context {R : Type} `{RL : RedisLaws R} `{RT : RetryLaws} {P : Type} `{JL : JsonLaws P}.
Implicit Types (r : R) (p : P).

(** The entry [e] carries the payload [p]. *)
Definition holds (e : StreamId) p : Prop := Broker.event_try_from e = Ok (mkEvent (sid e) p).

Lemma read_reply_one r k i :
  read_reply r [k] [i] (Some 1%nat) =
  match entries_after r k i with [] => [] | e :: es => [mkStreamKey k [e]] end.
Proof. unfold read_reply. cbn. by destruct (entries_after r k i). Qed.

Lemma grows_entries_after r r' k i :
  grows owned r r' -> entries_after r k i `prefix_of` entries_after r' k i.
Proof.
  intros Hg. unfold entries_after. destruct (Hg k) as [[l ->] _]. rewrite filter_app. by eexists.
Qed.

Lemma entries_after_elem r k i e : e ∈ entries_after r k i -> e ∈ entries r k.
Proof. by intros [_ ?]%list_elem_of_filter. Qed.

Lemma grows_next r r' k i e es : grows owned r r' ->
  entries_after r k i = e :: es -> exists es', entries_after r' k i = e :: es'.
Proof.
  intros Hg%(grows_entries_after _ _ k i) He. rewrite He in Hg. destruct Hg as [l ->]. eauto.
Qed.

(** The next unread entry is what a read returns. *)
Lemma wp_consume_nonblocking r k i e es p :
  entries_after r k i = e :: es -> holds e p ->
  wp (Broker.consume_nonblocking k i) r
    (fun o r' => o = Some (mkEvent (sid e) p) /\ grows owned r r')
    (fun err _ => exists x, err = ConnectionError x).
Proof.
  intros He Hp. unfold Broker.consume_nonblocking. wp_run. apply wp_xread; [|eauto].
  intros r' Hg. destruct (grows_next r r' k i e es Hg He) as [es' He'].
  cbn [opt_count]. rewrite read_reply_one, He'. cbn [last sids]. wp_run. cbn [last ok_or]. wp_run.
  rewrite Hp. by wp_run.
Qed.

(** The items of the [XADD] of an event with the serialized payload [s]. *)
Definition payload_map (s : string) : gmap string string := list_to_map [("payload", s)].

Lemma payload_map_holds p s e : smap e = payload_map s -> from_str s = Ok p -> holds e p.
Proof.
  intros He Hs. unfold holds, Broker.event_try_from. rewrite He.
  replace (payload_map s !! "payload") with (Some s) by reflexivity. cbn. by rewrite Hs.
Qed.

(** [produce] on a stream that the client owns may store copies of the event. *)
Lemma wp_produce r k p (Q : string -> R -> Prop) (F : BrokerError -> R -> Prop) :
  owned k ->
  (forall copies e r', Forall (fun e => holds e p) copies -> holds e p ->
     entries r' k = entries r k ++ copies ++ [e] -> Q (sid e) r') ->
  (forall e copies r', Forall (fun e => holds e p) copies ->
     entries r' k = entries r k ++ copies -> F (ConnectionError e) r') ->
  wp (Broker.produce k p) r Q F.
Proof.
  intros Hk HQ HF. unfold Broker.produce. destruct (json_roundtrip p) as (s & Hto & Hfrom).
  assert (Hcopies : forall es, Forall (fun e => smap e = payload_map s) es ->
    Forall (fun e => holds e p) es).
  { intros es Hes. eapply Forall_impl; [exact Hes|]. intros e He. by apply (payload_map_holds p s). }
  wp_run. rewrite Hto. wp_run. apply (wp_xadd (owned := owned)).
  - intros id r1 r' (_ & _ & Hr) _ Hsnoc. destruct (Hr Hk) as (copies & Hc & Hr1).
    apply (HQ copies (mkStreamId id (payload_map s))); [auto|by apply (payload_map_holds p s)|].
    by rewrite Hsnoc, Hr1, <- (assoc_L (++)).
  - intros e r' (_ & _ & Hr). destruct (Hr Hk) as (copies & Hc & Hr1). apply (HF e copies); auto.
Qed.

(** [produce] on a stream that the client owns, when no reply is lost. *)
Lemma wp_produce_atomic `{!RedisAtomicAdd R owned} r k p
    (Q : string -> R -> Prop) (F : BrokerError -> R -> Prop) :
  owned k ->
  (forall e r', holds e p -> entries r' k = entries r k ++ [e] ->
     (forall k', owned k' -> k' <> k -> entries r' k' = entries r k') -> Q (sid e) r') ->
  (forall e r', grows owned r r' -> F (ConnectionError e) r') ->
  wp (Broker.produce k p) r Q F.
Proof.
  intros Hk HQ HF. unfold Broker.produce. destruct (json_roundtrip p) as (s & Hto & Hfrom).
  wp_run. rewrite Hto. wp_run. apply wp_xadd_atomic; [|eauto].
  intros id r1 r' Hg Heq Hsnoc. apply (HQ (mkStreamId id (payload_map s))).
  - by apply (payload_map_holds p s).
  - rewrite Hsnoc. by rewrite (proj2 (Hg k) Hk).
  - intros k' Ho Hne. rewrite Heq by done. by apply Hg.
Qed.

Lemma last_take_reverse {A} (l : list A) : last (take 1 (reverse l)) = last l.
Proof.
  destruct l as [|x l _] using rev_ind; [done|].
  rewrite reverse_app, last_snoc. done.
Qed.

(** [peek_latest] returns the last entry, or nothing on an empty stream. *)
Lemma wp_peek_latest r k (Q : option (Event P) -> R -> Prop) (F : BrokerError -> R -> Prop) :
  owned k ->
  match last (entries r k) with
  | None => forall r', grows owned r r' -> Q None r'
  | Some e => exists p, holds e p /\ forall r', grows owned r r' -> Q (Some (mkEvent (sid e) p)) r'
  end ->
  (forall e r', grows owned r r' -> F (ConnectionError e) r') ->
  wp (Broker.peek_latest k) r Q F.
Proof.
  intros Hk HQ HF. unfold Broker.peek_latest. wp_run. apply wp_xrevrange; [|eauto].
  intros r' Hg. rewrite last_take_reverse, (proj2 (Hg k) Hk).
  destruct (last (entries r k)) as [e|]; [|by apply HQ].
  destruct HQ as (p & Hp & HQ). wp_run. rewrite Hp. wp_run. by apply HQ.
Qed.

(** An entry is decoded or refused. *)
Lemma event_try_from_cases e :
  (exists p, holds e p) \/ exists err, Broker.event_try_from (P := P) e = Err err /\ err <> ConsumeTimeout.
Proof.
  unfold holds, Broker.event_try_from. destruct (smap e !! "payload") as [s|]; cbn; [|by right; eexists].
  pose proof (from_str_total (P := P) s). destruct (from_str s); cbn; [left; eauto|by right; eexists|done].
Qed.

(** Peeking changes nothing, whatever it finds. *)
Lemma wp_peek_latest_grows r k :
  wp (Broker.peek_latest (P := P) k) r (fun _ r' => grows owned r r') (fun _ r' => grows owned r r').
Proof.
  unfold Broker.peek_latest. wp_run. apply wp_xrevrange; [|done]. intros r' Hg. rewrite last_take_reverse.
  destruct (last (entries r' k)) as [e|]; wp_run; [|done].
  destruct (event_try_from_cases e) as [[p Hp]|(err & Herr & _)]; [rewrite Hp|rewrite Herr]; by wp_run.
Qed.

(** An event that was produced is the one that readers get: on a stream
    with no other producer, the latest event is the produced one, and a reader
    that had consumed everything before receives its payload next. The only
    errors are connection errors. *)
Theorem produce_consume_roundtrip r k p :
  owned k ->
  wp (id ← Broker.produce k p;
      latest ← Broker.peek_latest k;
      next ← Broker.consume_nonblocking k (last_id (entries r k));
      mret (id, latest, next)) r
    (fun '(id, latest, next) _ =>
       latest = Some (mkEvent id p) /\ exists id', next = Some (mkEvent id' p))
    (fun e _ => exists x, e = ConnectionError x).
Proof.
  intros Hk. wp_run. apply wp_produce; [done| |eauto].
  intros copies e r1 Hcopies He Hr1. wp_run. apply wp_peek_latest; [done| |eauto].
  rewrite Hr1, (assoc_L (++)), last_snoc. exists p. split; [done|]. intros r2 Hg2. wp_run.
  pose proof (proj2 (Hg2 k) Hk) as Hr2. rewrite Hr1 in Hr2.
  assert (exists e' es, entries_after r2 k (last_id (entries r k)) = e' :: es /\ holds e' p)
    as (e' & es & Hnext & He').
  { rewrite (entries_after_last_id _ _ _ _ Hr2). destruct Hcopies; [|cbn]; eauto. }
  eapply wp_mono; [by eapply wp_consume_nonblocking| |auto].
  intros o r3 [-> _]. wp_run. eauto.
Qed.
(** Reads that each start after the last consumed event visit the stream
    in order: none of the entries that were stored is skipped or repeated,
    even while other clients append to the stream. *)
Theorem drain_in_order r k pre post ps :
  entries r k = pre ++ post -> Forall2 holds (take (length ps) post) ps ->
  wp (drain (length ps) k (last_id pre)) r
    (fun es _ => es = zip_with (fun e p => mkEvent (sid e) p) post ps)
    (fun e _ => exists x, e = ConnectionError x).
Proof.
  revert r pre post. induction ps as [|p ps IH]; intros r pre post Hr Hps; cbn [drain length] in *.
  { destruct post; by wp_run. }
  destruct post as [|e post]; [by inversion Hps|].
  cbn in Hps. apply Forall2_cons in Hps as [He Hps]. wp_run.
  eapply wp_mono; [eapply wp_consume_nonblocking; [|exact He]| |auto].
  { by apply entries_after_last_id. }
  intros o r' [-> Hg]. wp_run.
  destruct (Hg k) as [[more Hmore] _]. rewrite Hr in Hmore.
  specialize (IH r' (pre ++ [e]) (post ++ more)). unfold last_id in IH.
  rewrite last_snoc in IH. cbn [from_option] in IH.
  assert (Hlen : (length ps <= length post)%nat).
  { apply Forall2_length in Hps. rewrite length_take in Hps. lia. }
  eapply wp_mono; [apply IH| |auto].
  - rewrite Hmore. by rewrite <- !(assoc_L (++)).
  - by rewrite take_app_le.
  - intros es r'' ->. wp_run. cbn [zip_with]. f_equal. by apply zip_with_app_short.
Qed.

(** A read ended at an entry that cannot be decoded. *)
Definition undecodable (k : string) (err : BrokerError) (r' : R) : Prop :=
  exists e, e ∈ entries r' k /\ Broker.event_try_from (P := P) e = Err err.

(** One poll: the first unread entry, or a timeout when there is none. *)
Lemma wp_poll timeout r k i :
  wp (Broker._consume_blocking (P := P) timeout k i) r
    (fun event r' => grows owned r r' /\ exists e es, entries_after r' k i = e :: es /\
       event_id event = sid e /\ holds e (event_payload event))
    (fun err r' => grows owned r r' /\
       (((exists x, err = ConnectionError x) \/ undecodable k err r' /\ err <> ConsumeTimeout) \/
        err = ConsumeTimeout /\ entries_after r' k i = [])).
Proof.
  unfold Broker._consume_blocking. wp_run. apply wp_xread; [|eauto].
  intros r' Hg. cbn [opt_count]. rewrite read_reply_one. wp_run.
  destruct (entries_after r' k i) as [|e es] eqn:He; cbn [last ok_or]; [auto|].
  assert (e ∈ entries r' k) as Hin.
  { apply (entries_after_elem _ _ i). rewrite He. left. }
  wp_run. cbn [sids last ok_or]. wp_run.
  destruct (event_try_from_cases e) as [[p Hp]|(err & Herr & Hne)].
  - rewrite Hp. split; [done|]. exists e, es. split; [done|]. split; [done|]. exact Hp.
  - rewrite Herr. split; [done|]. left. right. split; [by exists e|done].
Qed.

(** What a blocking read ends with. *)
Definition polled (fuel : nat) r k i (o : option (Event P)) (r' : R) : Prop :=
  match o with
  | Some event => exists e es, entries_after r' k i = e :: es /\
                    event_id event = sid e /\ holds e (event_payload event)
  | None => fuel = O \/ entries_after r k i = []
  end.

Lemma wp_consume_blocking timeout fuel r k i :
  wp (Broker.consume_blocking (P := P) timeout fuel k i) r
    (fun o r' => grows owned r r' /\ polled fuel r k i o r')
    (fun err r' => grows owned r r' /\ ((exists x, err = ConnectionError x) \/ undecodable k err r')).
Proof.
  revert r. induction fuel as [|fuel IH]; intros r.
  { cbn [Broker.consume_blocking]. wp_run. split; [done|by left]. }
  pose proof (wp_poll timeout r k i) as Hpoll. unfold wp in *. cbn [Broker.consume_blocking].
  destruct (Broker._consume_blocking timeout k i r) as [[event|err|] r1]; [done| |done].
  destruct Hpoll as [Hg [[[x ->]|[Hu Hne]]|[-> Hnone]]]; [eauto|by destruct err; eauto|].
  assert (Hnone' : entries_after r k i = []).
  { pose proof (grows_entries_after r r1 k i Hg) as Hp. rewrite Hnone in Hp.
    by apply prefix_nil_inv in Hp. }
  specialize (IH r1).
  destruct (Broker.consume_blocking timeout fuel k i r1) as [[[event|]|err|] r2]; try done;
    destruct IH as [Hg' IH]; (split; [by etrans|]); [done|by right|done].
Qed.

(** [consume_blocking] returns the first unread entry of the stream; it
    keeps polling only while there is none, and it never reports a timeout. *)
Theorem consume_blocking_next timeout fuel r k i :
  (forall r' e, grows owned r r' -> e ∈ entries r' k -> exists p, holds e p) ->
  wp (Broker.consume_blocking (P := P) timeout fuel k i) r (polled fuel r k i)
    (fun e _ => exists x, e = ConnectionError x).
Proof.
  intros Hall. eapply wp_mono; [apply wp_consume_blocking|by intros ? ? [_ ?]|].
  intros err r' [Hg [?|(e & He & Herr)]]; [done|].
  destruct (Hall r' e Hg He) as [p Hp]. unfold holds in Hp. by rewrite Hp in Herr.
Qed.
(** *** Positions in a stream *)

(** The payloads [xs] of the stream [k] have been read, and the cursor is [id]. *)
Definition read_to (r : R) (k id : string) (xs : list P) : Prop :=
  exists pre post, entries r k = pre ++ post /\ id = last_id pre /\ Forall2 holds pre xs.

Lemma read_to_start r k : read_to r k INITIAL_ID [].
Proof. exists [], (entries r k). done. Qed.

Lemma read_to_prefix r r' k id (xs : list P) :
  entries r k `prefix_of` entries r' k -> read_to r k id xs -> read_to r' k id xs.
Proof.
  intros [l Hl] (pre & post & Hk & Hid & Hxs). exists pre, (post ++ l). by rewrite Hl, Hk, <- (assoc_L (++)).
Qed.

Lemma read_to_grows r r' k id (xs : list P) :
  grows owned r r' -> read_to r k id xs -> read_to r' k id xs.
Proof. intros Hg. apply read_to_prefix, Hg. Qed.

Lemma read_to_next r k id (xs : list P) e es x :
  read_to r k id xs -> entries_after r k id = e :: es -> holds e x -> read_to r k (sid e) (xs ++ [x]).
Proof.
  intros (pre & post & Hk & -> & Hxs) He Hx. rewrite (entries_after_last_id r k pre post Hk) in He. subst post.
  exists (pre ++ [e]), es. split; [by rewrite <- (assoc_L (++))|]. split.
  - unfold last_id. by rewrite last_snoc.
  - by apply Forall2_app; [|constructor].
Qed.

Lemma read_to_done r k id (xs : list P) :
  read_to r k id xs -> entries_after r k id = [] -> Forall2 holds (entries r k) xs.
Proof.
  intros (pre & post & Hk & -> & Hxs) He. rewrite (entries_after_last_id r k pre post Hk) in He. subst post.
  by rewrite Hk, app_nil_r.
Qed.

Lemma read_to_all r k id (xs : list P) :
  read_to r k id xs -> (length (entries r k) <= length xs)%nat -> Forall2 holds (entries r k) xs.
Proof.
  intros (pre & post & Hk & _ & Hxs) Hlen. pose proof (Forall2_length _ _ _ Hxs) as Hl. rewrite Hk, length_app in Hlen.
  destruct post; [by rewrite Hk, app_nil_r|cbn in Hlen; lia].
Qed.

Lemma read_to_length r k id (xs : list P) :
  read_to r k id xs -> (length xs <= length (entries r k))%nat.
Proof. intros (pre & post & -> & _ & Hxs%Forall2_length). rewrite length_app. lia. Qed.
End Client.

(** ** Properties of [indexer_consume] *)

Section IndexerClient.
Context {R : Type} `{RL : RedisLaws R} `{RT : RetryLaws}.
Context `{JI : JsonLaws RollupsInput, JO : JsonLaws RollupsOutput}.
Import BrokerIndexer.

Lemma find_pop_reply r k1 k2 i1 i2 :
  k1 <> k2 ->
  find_pop k1 (read_reply r [k1; k2] [i1; i2] (Some 1%nat)) = head (entries_after r k1 i1) /\
  find_pop k2 (read_reply r [k1; k2] [i1; i2] (Some 1%nat)) = head (entries_after r k2 i2).
Proof.
  intros Hne. unfold read_reply. cbn [zip zip_with omap list_omap].
  assert (H12 : String.eqb k1 k2 = false) by by apply String.eqb_neq.
  assert (H21 : String.eqb k2 k1 = false) by (apply String.eqb_neq; auto).
  unfold find_pop. destruct (entries_after r k1 i1), (entries_after r k2 i2);
    cbn; rewrite ?H12, ?H21, ?String.eqb_refl; cbn; rewrite ?String.eqb_refl; done.
Qed.

(** What the caller gets: the unread event of the stream that has priority,
    and the cursor of that stream alone moved past it. *)
Definition consumed (st : IndexerState) (event : IndexerEvent) (s' : IndexerState * R) : Prop :=
  let unread_inputs := entries_after s'.2 (inputs_stream st) (inputs_last_id st) in
  let unread_outputs := entries_after s'.2 (outputs_stream st) (outputs_last_id st) in
  match event with
  | Input ev => exists e es, unread_inputs = e :: es /\ event_id ev = sid e /\
      holds e (event_payload ev) /\ s'.1 = set_inputs_last_id (sid e) st
  | Output ev => unread_inputs = [] /\ exists e es, unread_outputs = e :: es /\
      event_id ev = sid e /\ holds e (event_payload ev) /\ s'.1 = set_outputs_last_id (sid e) st
  end.

(** The cursors stay; a timeout means that neither stream has an unread entry,
    and [bad] is what else can go wrong. *)
Definition not_consumed (bad : BrokerError -> R -> Prop) (st : IndexerState) (err : BrokerError)
    (s' : IndexerState * R) : Prop :=
  s'.1 = st /\
  ((exists x, err = ConnectionError x) \/
   (err = ConsumeTimeout /\ entries_after s'.2 (inputs_stream st) (inputs_last_id st) = [] /\
    entries_after s'.2 (outputs_stream st) (outputs_last_id st) = []) \/
   (err <> ConsumeTimeout /\ bad err s'.2)).

(** An entry of either stream that cannot be decoded. *)
Definition undecodable_event (st : IndexerState) (err : BrokerError) (r' : R) : Prop :=
  undecodable (P := RollupsInput) (inputs_stream st) err r' \/
  undecodable (P := RollupsOutput) (outputs_stream st) err r'.

Lemma wp_indexer_consume timeout st r :
  inputs_stream st <> outputs_stream st ->
  wp (indexer_consume timeout) (st, r)
    (fun ev s' => grows owned r s'.2 /\ consumed st ev s')
    (fun err s' => grows owned r s'.2 /\ not_consumed (undecodable_event st) st err s').
Proof.
  intros Hne. unfold indexer_consume. wp_run. cbn. wp_run.
  apply wp_xread; [|by unfold not_consumed; eauto].
  unfold consumed, not_consumed. intros r' Hg. cbn [opt_count].
  destruct (find_pop_reply r' _ _ (inputs_last_id st) (outputs_last_id st) Hne) as [-> ->].
  destruct (entries_after r' (inputs_stream st) _) as [|e es] eqn:Ei; cbn [head].
  - destruct (entries_after r' (outputs_stream st) _) as [|e es] eqn:Eo; cbn [head]; wp_run.
    { split; [done|]. split; [done|]. right. left. auto. }
    assert (e ∈ entries r' (outputs_stream st)) by (eapply entries_after_elem; rewrite Eo; left).
    destruct (event_try_from_cases (P := RollupsOutput) e) as [[p Hp]|(err & Herr & Hto)].
    + rewrite Hp. wp_run. eauto 10.
    + rewrite Herr. wp_run. split; [done|]. split; [done|]. right. right. split; [done|]. right. by exists e.
  - assert (e ∈ entries r' (inputs_stream st)) by (eapply entries_after_elem; rewrite Ei; left). wp_run.
    destruct (event_try_from_cases (P := RollupsInput) e) as [[p Hp]|(err & Herr & Hto)].
    + rewrite Hp. wp_run. eauto 10.
    + rewrite Herr. wp_run. split; [done|]. split; [done|]. right. right. split; [done|]. left. by exists e.
Qed.

(** [indexer_consume] gives priority to the inputs stream: it returns the
    first unread input if there is one, else the first unread output, else a
    timeout, and it moves the cursor of that stream alone, past the event. *)
Theorem indexer_consume_priority timeout st r :
  inputs_stream st <> outputs_stream st ->
  (forall r' e, grows owned r r' -> e ∈ entries r' (inputs_stream st) ->
     exists p : RollupsInput, holds e p) ->
  (forall r' e, grows owned r r' -> e ∈ entries r' (outputs_stream st) ->
     exists p : RollupsOutput, holds e p) ->
  wp (indexer_consume timeout) (st, r) (consumed st) (not_consumed (fun _ _ => False) st).
Proof.
  intros Hne Hin Hout. eapply wp_mono; [by apply wp_indexer_consume|by intros ? ? [_ ?]|].
  intros err s' [Hg [Hst [?|[?|[_ Hu]]]]]; (split; [done|]); [by left|by right; left|].
  destruct Hu as [(e & He & Herr)|(e & He & Herr)];
    [destruct (Hin _ e Hg He) as [p Hp]|destruct (Hout _ e Hg He) as [p Hp]];
    unfold holds in Hp; rewrite Hp in Herr; done.
Qed.
End IndexerClient.

(** ** Reference server and codec *)

Module RedisRef.
(** A single-node server that never loses a connection. An entry is known by
    its position, and its id has two characters more than its position. *)
Abbreviation state := (gmap string (list (gmap string string))).

Fixpoint id_of (n : nat) : string :=
  match n with O => "11" | S n => String "1"%char (id_of n) end.

Definition stream (r : state) (k : string) : list (gmap string string) := default [] (r !! k).

#[export] Instance view : RedisView state := {|
  entries r k := imap (fun n m => mkStreamId (id_of n) m) (stream r k);
  id_lt i j := Nat.ltb (String.length i) (String.length j) |}.

#[export] Instance redis : Redis state := {|
  xadd k _ items r :=
    let l := stream r k in
    (Ok (id_of (length l)), <[k := l ++ [list_to_map items]]> r);
  xrevrange_count k _ _ n r := (Ok (take n (reverse (entries r k))), r);
  xread_options keys ids opts r := (Ok (read_reply r keys ids (opt_count opts)), r) |}.

Lemma id_of_length n : String.length (id_of n) = (n + 2)%nat.
Proof. induction n as [|n IH]; [done|]. cbn [id_of String.length]. lia. Qed.

Lemma elem_of_entries r k e :
  e ∈ entries r k -> exists n, (entries r k) !! n = Some e /\ sid e = id_of n.
Proof.
  intros [n Hn]%list_elem_of_lookup. exists n. split; [done|]. cbn in Hn.
  rewrite list_lookup_imap in Hn. destruct (stream r k !! n); by simplify_eq/=.
Qed.

Lemma imap_sorted (l : list (gmap string string)) (i : nat) :
  StronglySorted (fun a b => id_lt (sid a) (sid b) = true)
    (imap (fun n m => mkStreamId (id_of (n + i)) m) l).
Proof.
  revert i. induction l as [|m l IH]; intros i; [constructor|]. rewrite imap_cons.
  rewrite (imap_ext _ (fun n m => mkStreamId (id_of (n + S i)) m)).
  2:{ intros n x _. cbn. by rewrite <- plus_n_Sm. }
  constructor; [apply IH|]. apply Forall_forall. intros e [n He]%list_elem_of_lookup.
  rewrite list_lookup_imap in He. destruct (l !! n); simplify_eq/=.
  change (Nat.ltb (String.length (id_of i)) (String.length (id_of (n + S i))) = true).
  rewrite !id_of_length. apply Nat.ltb_lt. lia.
Qed.

Lemma entries_insert_same (r : state) k l :
  entries (<[k := l]> r) k = imap (fun n m => mkStreamId (id_of n) m) l.
Proof. cbn [entries view]. unfold stream. by rewrite lookup_insert_eq. Qed.

Lemma entries_insert_other (r : state) k k' l :
  k' <> k -> entries (<[k := l]> r) k' = entries r k'.
Proof. intros Hk. cbn [entries view]. unfold stream. by rewrite lookup_insert_ne. Qed.

#[export] Instance laws owned : RedisLaws state owned.
Proof.
  split.
  - intros i. apply Nat.ltb_irrefl.
  - intros i j k. cbn [id_lt view]. rewrite !Nat.ltb_lt. lia.
  - intros r k e (n & _ & He)%elem_of_entries. cbn [id_lt view]. rewrite He, id_of_length. apply Nat.ltb_lt. cbn. lia.
  - intros r k. cbn [entries view]. rewrite (imap_ext _ (fun n m => mkStreamId (id_of (n + 0)) m)).
    + apply imap_sorted.
    + intros n x _. cbn. by rewrite <- plus_n_O.
  - intros r k items. unfold wp. cbn [xadd redis]. exists r. split; [done|]. split.
    + intros k' Hk'. by apply entries_insert_other.
    + rewrite entries_insert_same, imap_app. cbn. by rewrite <- plus_n_O.
  - intros r k n. unfold wp. cbn [xrevrange_count redis]. done.
  - intros r keys ids opts. unfold wp. cbn [xread_options redis]. done.
Qed.

#[export] Instance atomic owned : RedisAtomicAdd state owned.
Proof. intros r k items. exact I. Qed.
End RedisRef.

Module JsonRef.
(** Any payload with an enumeration, written as the bits of its number. *)
Fixpoint of_pos (p : positive) : string :=
  match p with
  | xH => ""
  | xO p => String "0"%char (of_pos p)
  | xI p => String "1"%char (of_pos p)
  end.

Fixpoint to_pos (s : string) : positive :=
  match s with
  | EmptyString => xH
  | String c s => if Ascii.eqb c "0" then xO (to_pos s) else xI (to_pos s)
  end.

Lemma to_of_pos p : to_pos (of_pos p) = p.
Proof. induction p; cbn; congruence. Qed.

#[export] Instance json {P} `{Countable P} : Json P := {|
  to_string p := Ok (of_pos (encode p));
  from_str s := ok_or (decode (to_pos s)) (json_error "invalid value") |}.

#[export] Instance json_laws {P} `{Countable P} : JsonLaws P.
Proof.
  split.
  - intros p. eexists. split; [reflexivity|]. cbn. by rewrite to_of_pos, decode_encode.
  - intros s. cbn. by destruct (decode _).
Qed.
End JsonRef.

(** ** Witnesses *)

Import HexRef RetryRef RedisRef JsonRef.

Definition sample_metadata : DAppMetadata := mkDAppMetadata 31337 sample_address.
Definition sample_claim (epoch : Z) : RollupsClaim :=
  mkRollupsClaim sample_address epoch (zeros 32) (2 * epoch) (2 * epoch + 1).
Definition claims_key : string := RollupsClaimsStream_new 31337.

(** A server whose claims stream holds two claims. *)
Definition sample_server : RedisRef.state :=
  ((Broker.produce claims_key (sample_claim 0) ;; Broker.produce claims_key (sample_claim 1)) ∅).2.

Abbreviation sole_producer := (fun _ : string => True) (only parsing).

Lemma produce_consume_roundtrip_witness :
  wp (id ← Broker.produce claims_key (sample_claim 2);
      latest ← Broker.peek_latest claims_key;
      next ← Broker.consume_nonblocking claims_key (last_id (entries sample_server claims_key));
      mret (id, latest, next)) sample_server
    (fun '(id, latest, next) _ =>
       latest = Some (mkEvent id (sample_claim 2)) /\
       exists id', next = Some (mkEvent id' (sample_claim 2)))
    (fun e _ => exists x, e = ConnectionError x).
Proof. exact (produce_consume_roundtrip (owned := sole_producer) sample_server claims_key (sample_claim 2) I). Defined.

Lemma drain_in_order_witness :
  wp (drain 2 claims_key INITIAL_ID) sample_server
    (fun es _ => es = zip_with (fun e p => mkEvent (sid e) p)
                        (entries sample_server claims_key) [sample_claim 0; sample_claim 1])
    (fun e _ => exists x, e = ConnectionError x).
Proof.
  apply (drain_in_order (owned := sole_producer) sample_server claims_key [] _
    [sample_claim 0; sample_claim 1]); [reflexivity|].
  repeat constructor; vm_compute; reflexivity.
Defined.

(** The entries of a stream of the reference server that only this client writes. *)
Lemma sole_producer_holds {P} `{Json P} (r : RedisRef.state) k :
  Forall (fun e => is_ok (Broker.event_try_from (P := P) e) = true) (entries r k) ->
  forall r' e, grows sole_producer r r' -> e ∈ entries r' k -> exists p : P, holds e p.
Proof.
  intros Hall r' e Hg He. rewrite (proj2 (Hg k) I) in He.
  apply (proj1 (Forall_forall _ _) Hall) in He. unfold holds, Broker.event_try_from in *.
  destruct (ok_or _ _) as [s| |]; [|done|done]. cbn in *.
  destruct (from_str s) as [p| |]; [|done|done]. by exists p.
Qed.

Lemma consume_blocking_next_witness :
  wp (Broker.consume_blocking (P := RollupsClaim) 5000 3 claims_key INITIAL_ID) sample_server
    (polled 3 sample_server claims_key INITIAL_ID)
    (fun e _ => exists x, e = ConnectionError x).
Proof.
  apply (consume_blocking_next (owned := sole_producer)), sole_producer_holds.
  vm_compute. repeat constructor.
Defined.

Definition sample_input (parent : string) (n : Z) : RollupsInput :=
  mkRollupsInput parent 0 n FinishEpoch.
Definition sample_notice : RollupsOutput := Notice (mkRollupsNotice 0 0 [x01]).

(** A server with one input and one output of the dapp. *)
Definition sample_streams : RedisRef.state :=
  ((Broker.produce (RollupsInputsStream_new sample_metadata) (sample_input INITIAL_ID 0) ;;
    Broker.produce (RollupsOutputsStream_new sample_metadata) sample_notice) ∅).2.

Lemma indexer_consume_priority_witness :
  wp (BrokerIndexer.indexer_consume 5000) (BrokerIndexer.new sample_metadata, sample_streams)
    (consumed (BrokerIndexer.new sample_metadata))
    (not_consumed (fun _ _ => False) (BrokerIndexer.new sample_metadata)).
Proof.
  apply (indexer_consume_priority (owned := sole_producer)).
  - vm_compute. discriminate.
  - apply sole_producer_holds. vm_compute. repeat constructor.
  - apply sole_producer_holds. vm_compute. repeat constructor.
Defined.
