(* ===== verification/InputBox.v ===== *)
(** * Inputs read from the blockchain

    [offchain/types/src/]: the foldable [InputBox] ([foldables.rs]), the
    address cache ([user_data.rs]) and the iterator [MergeAscending]
    ([utils.rs]). The Ethereum provider, the contract bindings and the
    state-fold environment are parameters. *)

From stdpp Require Import gmap sorting.
From S2P Require Import Prelude Events.

Record Block := mkBlock {
  block_hash : Hash;
  number : Z;
  parent_hash : Hash;
  block_timestamp : Z;
  logs_bloom : list byte;
}.

Record InputBoxInitialState := mkInputBoxInitialState {
  init_dapp_address : Address;
  init_input_box_address : Address;
}.

Record Input := mkInput {
  sender : Address;
  payload : list byte;
  block_added : Block;
  dapp : Address;
  tx_hash : Hash;
}.

Record DAppInputBox := mkDAppInputBox { inputs : list Input }.

Record InputBox := mkInputBox {
  ib_dapp_address : Address;
  ib_input_box_address : Address;
  dapp_input_boxes : gmap Address DAppInputBox;
}.

#[export] Instance Block_eq_dec : EqDecision Block.
Proof. solve_decision. Defined.
#[export] Instance Input_eq_dec : EqDecision Input.
Proof. solve_decision. Defined.
#[export] Instance DAppInputBox_eq_dec : EqDecision DAppInputBox.
Proof. solve_decision. Defined.

(** The event [InputAdded] of the contract and the metadata of its log. *)
Record InputAddedFilter := mkInputAddedFilter {
  ev_dapp : Address;
  ev_sender : Address;
  ev_input : list byte;
}.
Record LogMeta := mkLogMeta {
  meta_block_hash : Hash;
  meta_block_number : Z;
  meta_transaction_hash : Hash;
}.

Inductive FoldableError :=
| QueryInputsError (detail : string)
| QueryBlockError (hash : Hash) (detail : string)
| BlockHashMismatch
| BlockNumberMismatch.

(** ** [UserData] *)

(** The set of shared addresses; an [Arc] is the address it points to. *)
Definition UserData : Type := gset Address.

Definition UserData_get {E} (address : Address) : M UserData E Address :=
  addresses ← get;
  if decide (address ∈ addresses) then mret address
  else
    assert_ (bool_decide (address ∉ addresses)) ;;
    put ({[address]} ∪ addresses) ;;
    mret address.

(** ** [InputBox] as a foldable *)

Section Foldable.
(** [StateFoldEnvironment::block_with_hash] *)
Variable block_with_hash : Hash -> outcome string Block.
(** The bloom filter tests of [eth_state_fold::utils] on a block. *)
Variable contains_address : list byte -> Address -> bool.
Variable contains_topic : list byte -> list byte -> bool.
(** [InputAddedFilter::signature()] *)
Variable signature : Hash.

(** [contract.input_added_filter().topic1(dapp).query_with_meta()]: the
    middleware of [sync] answers with the logs up to the block, the one of
    [fold] with the logs of the block. *)
Definition Access : Type := Address -> Address -> outcome string (list (InputAddedFilter * LogMeta)).

Definition meta_consistent_with_block (meta : LogMeta) (block : Block) : outcome FoldableError unit :=
  ensure (bool_decide (meta_block_hash meta = block_hash block)) BlockHashMismatch ;;
  ensure (bool_decide (meta_block_number meta = number block)) BlockNumberMismatch ;;
  Ok tt.

Definition build_input (event : InputAddedFilter) (meta : LogMeta) (block_opt : option Block)
    : M UserData FoldableError Input :=
  block ← match block_opt with
    | Some b => mret b
    | None => lift (map_err (QueryBlockError (meta_block_hash meta)) (block_with_hash (meta_block_hash meta)))
    end;
  lift (meta_consistent_with_block meta block) ;;
  sender ← UserData_get (ev_sender event);
  dapp ← UserData_get (ev_dapp event);
  mret (mkInput sender (ev_input event) block dapp (meta_transaction_hash meta)).

Fixpoint build_inputs (input_events : list (InputAddedFilter * LogMeta)) (block_opt : option Block)
    : M UserData FoldableError (list Input) :=
  match input_events with
  | [] => mret []
  | (event, meta) :: rest =>
      input ← build_input event meta block_opt;
      inputs ← build_inputs rest block_opt;
      mret (input :: inputs)
  end.

Definition fetch_all_new_inputs (provider : Access) (contract_address dapp_address : Address)
    (block_opt : option Block) : M UserData FoldableError (list Input) :=
  input_events ← lift (map_err QueryInputsError (provider contract_address dapp_address));
  build_inputs input_events block_opt.

(** [input_boxes.entry(dapp).and_modify(..).or_insert_with(..)] *)
Definition push_input (input_boxes : gmap Address DAppInputBox) (input : Input)
    : gmap Address DAppInputBox :=
  <[dapp input := match input_boxes !! dapp input with
    | Some i => mkDAppInputBox (inputs i ++ [input])
    | None => mkDAppInputBox [input]
    end]> input_boxes.

Definition updated_inputs (previous_input_boxes : option (gmap Address DAppInputBox))
    (provider : Access) (contract_address dapp_address : Address) (block_opt : option Block)
    : M UserData FoldableError (gmap Address DAppInputBox) :=
  let input_boxes := default ∅ previous_input_boxes in
  new_inputs ← fetch_all_new_inputs provider contract_address dapp_address block_opt;
  mret (foldl push_input input_boxes new_inputs).

Definition sync (initial_state : InputBoxInitialState) (access : Access)
    : M UserData FoldableError InputBox :=
  let dapp_address := init_dapp_address initial_state in
  let input_box_address := init_input_box_address initial_state in
  boxes ← updated_inputs None access input_box_address dapp_address None;
  mret (mkInputBox dapp_address input_box_address boxes).

Definition fold (previous_state : InputBox) (block : Block) (access : Access)
    : M UserData FoldableError InputBox :=
  let dapp_address := ib_dapp_address previous_state in
  let input_box_address := ib_input_box_address previous_state in
  if negb (contains_address (logs_bloom block) input_box_address)
     || negb (contains_topic (logs_bloom block) dapp_address)
     || negb (contains_topic (logs_bloom block) signature)
  then mret previous_state
  else
    boxes ← updated_inputs (Some (dapp_input_boxes previous_state)) access
              input_box_address dapp_address None;
    mret (mkInputBox dapp_address input_box_address boxes).
End Foldable.

(** ** [MergeAscending] *)

Section MergeAscending.
Context {A : Type} (cmp : A -> A -> comparison).

Record MergeAscending := mkMergeAscending { left_ : list A; right_ : list A }.

Definition merge_next (m : MergeAscending) : option A * MergeAscending :=
  let which :=
    match left_ m, right_ m with
    | l :: _, r :: _ => Some (cmp l r)
    | _ :: _, [] => Some Lt
    | [], _ :: _ => Some Gt
    | [], [] => None
    end in
  match which with
  | Some Lt | Some Eq => (head (left_ m), mkMergeAscending (tail (left_ m)) (right_ m))
  | Some Gt => (head (right_ m), mkMergeAscending (left_ m) (tail (right_ m)))
  | None => (None, m)
  end.

Definition merge_size_hint (m : MergeAscending) : nat := length (left_ m) + length (right_ m).

(** Iterating [next] until it returns [None], at most [fuel] times. *)
Fixpoint merge_collect (fuel : nat) (m : MergeAscending) : list A :=
  match fuel with
  | O => []
  | S fuel => match merge_next m with (Some x, m') => x :: merge_collect fuel m' | (None, _) => [] end
  end.
End MergeAscending.
Arguments MergeAscending : clear implicits.
Arguments mkMergeAscending {A} left_ right_.

(** ** Properties of the foldable *)

Definition inputs_of (boxes : gmap Address DAppInputBox) (a : Address) : list Input :=
  from_option inputs [] (boxes !! a).

Lemma inputs_of_push boxes input a :
  inputs_of (push_input boxes input) a =
  inputs_of boxes a ++ (if decide (dapp input = a) then [input] else []).
Proof.
  unfold inputs_of, push_input. case_decide as Ha.
  - subst a. rewrite lookup_insert_eq. by destruct (boxes !! dapp input).
  - rewrite lookup_insert_ne by done. by rewrite (right_id_L [] (++)).
Qed.

(** Every input goes to the end of the box of its dapp. *)
Lemma inputs_of_foldl boxes new a :
  inputs_of (foldl push_input boxes new) a =
  inputs_of boxes a ++ filter (fun i => dapp i = a) new.
Proof.
  revert boxes. induction new as [|i new IH]; intros boxes; cbn [foldl].
  - by rewrite filter_nil, (right_id_L [] (++)).
  - rewrite IH, inputs_of_push, filter_cons, <- (assoc_L (++)). by case_decide.
Qed.

(** The input built from a log carries what the log says. *)
Definition input_matches (i : Input) (log : InputAddedFilter * LogMeta) : Prop :=
  sender i = ev_sender log.1 /\ payload i = ev_input log.1 /\ dapp i = ev_dapp log.1 /\
  tx_hash i = meta_transaction_hash log.2 /\ number (block_added i) = meta_block_number log.2 /\
  block_hash (block_added i) = meta_block_hash log.2.

Section FoldableTheorems.
Variable block_with_hash : Hash -> outcome string Block.
Variable contains_address : list byte -> Address -> bool.
Variable contains_topic : list byte -> list byte -> bool.
Variable signature : Hash.

Lemma UserData_get_ok {E} a u :
  UserData_get (E := E) a u = (Ok a, if decide (a ∈ u) then u else {[a]} ∪ u).
Proof.
  unfold UserData_get, mbind, M_bind, get, assert_. case_decide as Ha; [done|].
  by rewrite bool_decide_eq_true_2.
Qed.

Lemma build_input_ok event meta u i u' :
  build_input block_with_hash event meta None u = (Ok i, u') -> input_matches i (event, meta).
Proof.
  intros (b & u1 & Hb & Hi)%M_bind_ok. apply M_bind_ok in Hi as ([] & u2 & Hm & Hi).
  apply M_bind_ok in Hi as (s & u3 & Hs & Hi). apply M_bind_ok in Hi as (d & u4 & Hd & Hi).
  rewrite UserData_get_ok in Hs, Hd. injection Hs as <- <-. injection Hd as <- <-.
  injection Hi as <- <-. unfold lift, meta_consistent_with_block, ensure in Hm.
  repeat (case_bool_decide; simplify_eq/=). unfold input_matches. cbn. auto 10.
Qed.

Lemma build_inputs_ok logs u xs u' :
  build_inputs block_with_hash logs None u = (Ok xs, u') -> Forall2 input_matches xs logs.
Proof.
  revert u xs. induction logs as [|[event meta] logs IH]; intros u xs; cbn [build_inputs].
  { intros [= <- <-]. constructor. }
  unfold mbind, M_bind. destruct (build_input _ _ _ _ u) as [[i| |] u1] eqn:Hi; [|done|done].
  destruct (build_inputs _ logs None u1) as [[js| |] u2] eqn:Hj; [|done|done].
  intros [= <- <-]. constructor; [by eapply build_input_ok|]. by eapply IH.
Qed.

Lemma build_inputs_app logs1 logs2 u xs u1 js u2 :
  build_inputs block_with_hash logs1 None u = (Ok xs, u1) ->
  build_inputs block_with_hash logs2 None u1 = (Ok js, u2) ->
  build_inputs block_with_hash (logs1 ++ logs2) None u = (Ok (xs ++ js), u2).
Proof.
  revert u xs. induction logs1 as [|[event meta] logs IH]; intros u xs; cbn [build_inputs app].
  { by intros [= <- <-] ->. }
  unfold mbind, M_bind. destruct (build_input _ _ _ _ u) as [[i| |] u0]; [|done|done].
  destruct (build_inputs _ logs None u0) as [[ks| |] u0'] eqn:Hk; [|done|done].
  intros [= <- <-] Hj. by rewrite (IH _ _ Hk Hj).
Qed.

(** A successful update appends the inputs of the logs that were fetched. *)
Lemma updated_inputs_ok prev access c d u boxes u' :
  updated_inputs block_with_hash prev access c d None u = (Ok boxes, u') <->
  exists logs xs, access c d = Ok logs /\ build_inputs block_with_hash logs None u = (Ok xs, u') /\
    boxes = foldl push_input (default ∅ prev) xs.
Proof.
  split.
  - intros (xs & u1 & Hf & [= <- <-])%M_bind_ok. apply M_bind_ok in Hf as (logs & u2 & Hl & Hb).
    unfold lift in Hl. destruct (access c d); simplify_eq/=. eauto.
  - intros (logs & xs & Ha & Hb & ->). apply M_bind_ok. exists xs, u'. split; [|done].
    apply M_bind_ok. exists logs, u. unfold lift. by rewrite Ha.
Qed.

(** [sync] collects the inputs of the dapp: one per log, in log order, with
    the sender, payload, transaction and block of the log. *)
Theorem sync_inputs_match initial access logs u st u' :
  access (init_input_box_address initial) (init_dapp_address initial) = Ok logs ->
  Forall (fun log => ev_dapp log.1 = init_dapp_address initial) logs ->
  sync block_with_hash initial access u = (Ok st, u') ->
  Forall2 input_matches (inputs_of (dapp_input_boxes st) (init_dapp_address initial)) logs.
Proof.
  intros Hlogs Hdapp. unfold sync. intros Hs. apply M_bind_ok in Hs as (boxes & u1 & Hu & [= <- <-]).
  apply updated_inputs_ok in Hu as (? & xs & [= <-]%(eq_trans (eq_sym Hlogs)) & Hb & ->).
  cbn [dapp_input_boxes default]. rewrite inputs_of_foldl. apply build_inputs_ok in Hb.
  rewrite filter_all; [exact Hb|]. intros i [n Hn]%list_elem_of_lookup.
  destruct (Forall2_lookup_l _ _ _ _ _ Hb Hn) as (log & Hlog & Hm).
  destruct Hm as (_ & _ & -> & _). exact (Forall_lookup_1 _ _ _ _ Hdapp Hlog).
Qed.

(** C40. [fold] refines [sync]: folding one more block over a synced state gives
    the state that [sync] computes at that block, provided that the logs up to
    the block are the earlier logs followed by the logs of the block, and that
    a negative bloom test means that the block has no log of the dapp. *)
Theorem fold_refines_sync initial block access0 access1 access u st u1 st' u2 :
  let c := init_input_box_address initial in
  let d := init_dapp_address initial in
  (forall logs0 logs1, access0 c d = Ok logs0 -> access1 c d = Ok logs1 -> access c d = Ok (logs0 ++ logs1)) ->
  (contains_address (logs_bloom block) c && contains_topic (logs_bloom block) d
     && contains_topic (logs_bloom block) signature = false -> access1 c d = Ok []) ->
  sync block_with_hash initial access0 u = (Ok st, u1) ->
  fold block_with_hash contains_address contains_topic signature st block access1 u1 = (Ok st', u2) ->
  sync block_with_hash initial access u = (Ok st', u2).
Proof.
  intros c d Hcat Hbloom Hs Hf. unfold sync in Hs |- *. fold c d in Hs |- *.
  apply M_bind_ok in Hs as (boxes & u0 & Hu & [= <- <-]).
  apply updated_inputs_ok in Hu as (logs0 & xs0 & Ha0 & Hb0 & ->).
  unfold fold in Hf. cbn [ib_dapp_address ib_input_box_address dapp_input_boxes] in Hf.
  rewrite <- !negb_andb in Hf.
  apply M_bind_ok. destruct (contains_address _ c && _ && _) eqn:Hc; cbn [negb] in Hf.
  - apply M_bind_ok in Hf as (boxes & u3 & Hu & [= <- <-]).
    apply updated_inputs_ok in Hu as (logs1 & xs1 & Ha1 & Hb1 & ->).
    eexists _, _; split; [|reflexivity]. apply updated_inputs_ok. exists (logs0 ++ logs1), (xs0 ++ xs1).
    split; [auto|]. split; [by eapply build_inputs_app|]. by rewrite foldl_app.
  - injection Hf as <- <-. eexists _, _; split; [|reflexivity]. apply updated_inputs_ok.
    exists (logs0 ++ []), xs0. rewrite (right_id_L [] (++)). rewrite <- (right_id_L [] (++) logs0) at 1.
    auto.
Qed.
End FoldableTheorems.

(** ** Properties of [MergeAscending] *)

Section MergeTheorems.
Context {A : Type} (cmp : A -> A -> comparison) (le : A -> A -> Prop) `{!Transitive le}.
Hypothesis cmp_gt : forall x y, cmp x y = Gt -> le y x.
Hypothesis cmp_not_gt : forall x y, cmp x y <> Gt -> le x y.

Lemma merge_head_sorted x l1 l2 out :
  Permutation out (l1 ++ l2) -> Forall (le x) l1 -> Forall (le x) l2 ->
  StronglySorted le out -> StronglySorted le (x :: out).
Proof.
  intros Hp H1 H2 Hs. constructor; [done|]. rewrite Hp. by apply Forall_app.
Qed.

Lemma Forall_le_cons x y l : le x y -> StronglySorted le (y :: l) -> Forall (le x) (y :: l).
Proof.
  intros Hxy [Hy _]%StronglySorted_cons. constructor; [done|].
  eapply Forall_impl; [exact Hy|]. intros z Hz. by etrans.
Qed.

(** Iterating [MergeAscending::next] over two ascending iterators yields
    all their elements in ascending order, in as many steps as its size hint. *)
Theorem merge_ascending_sorted l r :
  StronglySorted le l -> StronglySorted le r ->
  let m := mkMergeAscending l r in
  let out := merge_collect cmp (merge_size_hint m) m in
  Permutation out (l ++ r) /\ StronglySorted le out.
Proof.
  unfold merge_size_hint. cbn [left_ right_].
  remember (length l + length r)%nat as n eqn:Hn. revert l r Hn.
  induction n as [|n IH]; intros l r Hn Hl Hr.
  { destruct l, r; cbn in Hn; try lia. split; constructor. }
  destruct l as [|x l], r as [|y r]; cbn in Hn; try lia; cbn [merge_collect merge_next left_ right_].
  - destruct (IH [] r) as [Hp Hs]; [cbn; lia|constructor|by inversion Hr|]. cbn. split; [by rewrite Hp|].
    apply StronglySorted_cons in Hr as [Hy _]. by eapply merge_head_sorted.
  - destruct (IH l []) as [Hp Hs]; [cbn; lia|by inversion Hl|constructor|]. cbn. split; [by rewrite Hp|].
    apply StronglySorted_cons in Hl as [Hx _]. by eapply merge_head_sorted.
  - destruct (IH l (y :: r)) as [Hp Hs]; [cbn; lia|by inversion Hl|done|].
    destruct (IH (x :: l) r) as [Hp' Hs']; [cbn; lia|done|by inversion Hr|].
    assert (Hleft : cmp x y <> Gt -> Permutation (x :: merge_collect cmp n (mkMergeAscending l (y :: r)))
      (x :: l ++ y :: r) /\ StronglySorted le (x :: merge_collect cmp n (mkMergeAscending l (y :: r)))).
    { intros Hc. split; [by rewrite Hp|]. eapply merge_head_sorted; [exact Hp| | |done].
      - by apply StronglySorted_cons in Hl as [? _].
      - apply Forall_le_cons; auto. }
    destruct (cmp x y) eqn:Hc; cbn [head tail]; [apply Hleft; congruence..|].
    split; [rewrite Hp'; apply (Permutation_middle (x :: l))|].
    eapply merge_head_sorted; [exact Hp'| | |done].
    + apply Forall_le_cons; auto.
    + by apply StronglySorted_cons in Hr as [? _].
Qed.
End MergeTheorems.

(** ** Witnesses *)

Definition sample_block (n : Z) : Block := mkBlock [byte_of_Z n] n [byte_of_Z (n - 1)] (1000 + n) [].
Definition sample_log (n : Z) : InputAddedFilter * LogMeta :=
  (mkInputAddedFilter [x0a] [byte_of_Z (50 + n)] [byte_of_Z n], mkLogMeta [byte_of_Z n] n [byte_of_Z (100 + n)]).
Definition sample_provider (h : Hash) : outcome string Block :=
  match h with [b] => Ok (sample_block (Z_of_byte b)) | _ => Err "unknown block"%string end.
Definition sample_init : InputBoxInitialState := mkInputBoxInitialState [x0a] [x0b].
Definition sample_logs (l : list Z) : Access := fun _ _ => Ok (sample_log <$> l).
Definition sample_empty : InputBox := mkInputBox [] [] ∅.
Definition sample_sync (l : list Z) : outcome FoldableError InputBox * UserData :=
  sync sample_provider sample_init (sample_logs l) ∅.

Lemma sync_inputs_match_witness :
  Forall2 input_matches
    (inputs_of (dapp_input_boxes (result_of sample_empty (sample_sync [1; 2]))) [x0a])
    (sample_log <$> [1; 2]).
Proof.
  apply (sync_inputs_match sample_provider sample_init (sample_logs [1; 2]) (sample_log <$> [1; 2])
    ∅ _ (sample_sync [1; 2]).2).
  - reflexivity.
  - vm_compute. repeat constructor.
  - apply run_ok. vm_compute. reflexivity.
Defined.

Lemma fold_refines_sync_witness : exists st u,
  sync sample_provider sample_init (sample_logs [1; 2; 3]) ∅ = (Ok st, u) /\
  length (inputs_of (dapp_input_boxes st) [x0a]) = 3%nat.
Proof.
  pose (st := result_of sample_empty (sample_sync [1; 2])).
  pose (f := fold sample_provider (fun _ _ => true) (fun _ _ => true) [x00] st
    (sample_block 3) (sample_logs [3]) (sample_sync [1; 2]).2).
  exists (result_of sample_empty f), f.2. split; [|vm_compute; reflexivity].
  apply (fold_refines_sync sample_provider (fun _ _ => true) (fun _ _ => true) [x00] sample_init
    (sample_block 3) (sample_logs [1; 2]) (sample_logs [3]) (sample_logs [1; 2; 3])
    ∅ st (sample_sync [1; 2]).2).
  - intros logs0 logs1 [= <-] [= <-]. reflexivity.
  - discriminate.
  - apply run_ok. vm_compute. reflexivity.
  - apply run_ok. vm_compute. reflexivity.
Defined.

Lemma merge_ascending_sorted_witness :
  let out := merge_collect Z.compare 5 (mkMergeAscending [1; 4; 9] [2; 4]) in
  Permutation out [1; 4; 9; 2; 4] /\ StronglySorted Z.le out.
Proof.
  apply (merge_ascending_sorted Z.compare Z.le) with (l := [1; 4; 9]) (r := [2; 4]).
  - intros x y ?%Z.compare_gt_iff. lia.
  - intros x y ?%Z.compare_ngt_iff. lia.
  - repeat (constructor; try lia).
  - repeat (constructor; try lia).
Defined.
