(* ===== verification/Dispatcher.v ===== *)
(** * The dispatcher's drivers

    [offchain/dispatcher/src/]: the metrics ([metrics.rs]), the epoch
    bookkeeping ([drivers/context.rs]), the machine driver
    ([drivers/machine.rs]), the trait [BrokerSend] ([machine/mod.rs]) as a
    typeclass with its laws, and the in-memory broker of the drivers' tests
    ([drivers/mock.rs]) as one instance of it. *)

From stdpp Require Import gmap.
From S2P Require Import Prelude Events Broker InputBox.

(** ** Metrics *)

(** [FamilyRef<DAppMetadata, CounterRef>] *)
Abbreviation Family := (gmap DAppMetadata Z).

(** [family.get_or_create(&metadata).inc()] *)
Definition inc (family : Family) (metadata : DAppMetadata) : Family :=
  <[metadata := default 0 (family !! metadata) ⊞ 1]> family.

Record DispatcherMetrics := mkDispatcherMetrics {
  claims_sent : Family;
  advance_inputs_sent : Family;
  finish_epochs_sent : Family;
}.

Definition DispatcherMetrics_default : DispatcherMetrics := mkDispatcherMetrics ∅ ∅ ∅.

(** ** The broker seen by the drivers *)

Inductive BrokerFacadeError :=
| BrokerConnectionError (source : BrokerError)
| PeekInputError (source : BrokerError)
| ProduceInputError (source : BrokerError)
| ProduceFinishError (source : BrokerError)
| Whatever (message : string).

Record RollupStatus := mkRollupStatus { rs_inputs_sent_count : Z }.

Class BrokerStatus (B : Type) : Type :=
  status : M B BrokerFacadeError RollupStatus.

Class BrokerSend (B : Type) : Type := {
  enqueue_input (input_index : Z) (input : Input) : M B BrokerFacadeError unit;
  finish_epoch (inputs_sent_count : Z) : M B BrokerFacadeError unit;
}.

(** What a broker has received, up to the part of an input that it keeps. *)
Inductive LogEvent (I : Type) :=
| LInput (input_index : Z) (i : I)
| LFinish.
Arguments LInput {I} input_index i.
Arguments LFinish {I}.

#[export] Instance LogEvent_eq_dec {I} `{EqDecision I} : EqDecision (LogEvent I).
Proof. solve_decision. Defined.

Definition is_input {I} (e : LogEvent I) : Prop := match e with LInput _ _ => True | LFinish => False end.
#[export] Instance is_input_dec {I} (e : LogEvent I) : Decision (is_input e).
Proof. destruct e; cbn; apply _. Defined.

Definition inputs_in {I} (log : list (LogEvent I)) : Z := Z.of_nat (length (filter is_input log)).

Class BrokerLog (B I : Type) : Type := {
  binv : B -> Prop;
  blog : B -> list (LogEvent I);
  erase : Input -> I;
  sendable : Input -> Prop;
}.

(** The promise: a call that returns appends its event, a call that fails
    leaves the log as it was, and no call panics when the caller numbers the
    inputs as the log does. *)
Class BrokerSendLaws (B I : Type) `{BrokerSend B, BrokerLog B I} : Prop := {
  enqueue_input_spec b n input :
    binv b -> sendable input -> n = inputs_in (blog b) -> n + 1 < 2 ^ 64 ->
    wp (enqueue_input n input) b
      (fun _ b' => binv b' /\ blog b' = blog b ++ [LInput n (erase input)])
      (fun _ b' => binv b' /\ blog b' = blog b);
  finish_epoch_spec b n :
    binv b -> n = inputs_in (blog b) -> n < 2 ^ 64 ->
    wp (finish_epoch n) b
      (fun _ b' => binv b' /\ blog b' = blog b ++ [LFinish])
      (fun _ b' => binv b' /\ blog b' = blog b);
}.

(** ** [Context] *)

Module Context.
Record Context := mkContext {
  inputs_sent : Z;
  last_input_epoch : option Z;
  last_finished_epoch : option Z;
  genesis_block : Z;
  epoch_length : Z;
  dapp_metadata : DAppMetadata;
  metrics : DispatcherMetrics;
}.

Definition set_inputs_sent (n : Z) (c : Context) : Context :=
  mkContext n (last_input_epoch c) (last_finished_epoch c) (genesis_block c)
    (epoch_length c) (dapp_metadata c) (metrics c).
Definition set_last_input_epoch (e : option Z) (c : Context) : Context :=
  mkContext (inputs_sent c) e (last_finished_epoch c) (genesis_block c)
    (epoch_length c) (dapp_metadata c) (metrics c).
Definition set_last_finished_epoch (e : option Z) (c : Context) : Context :=
  mkContext (inputs_sent c) (last_input_epoch c) e (genesis_block c)
    (epoch_length c) (dapp_metadata c) (metrics c).
Definition set_metrics (m : DispatcherMetrics) (c : Context) : Context :=
  mkContext (inputs_sent c) (last_input_epoch c) (last_finished_epoch c) (genesis_block c)
    (epoch_length c) (dapp_metadata c) m.

Definition inc_advance_inputs_sent (c : Context) : Context :=
  set_metrics (mkDispatcherMetrics (claims_sent (metrics c))
    (inc (advance_inputs_sent (metrics c)) (dapp_metadata c)) (finish_epochs_sent (metrics c))) c.
Definition inc_finish_epochs_sent (c : Context) : Context :=
  set_metrics (mkDispatcherMetrics (claims_sent (metrics c))
    (advance_inputs_sent (metrics c)) (inc (finish_epochs_sent (metrics c)) (dapp_metadata c))) c.

Definition new {E} (genesis_block epoch_length : Z) (dapp_metadata : DAppMetadata)
    (metrics : DispatcherMetrics) : outcome E Context :=
  if epoch_length >? 0 then
    Ok (mkContext 0 None None genesis_block epoch_length dapp_metadata metrics)
  else Panic.

Definition calculate_epoch {E} (c : Context) (block_number : Z) : outcome E Z :=
  if block_number >=? genesis_block c then
    if epoch_length c =? 0 then Panic
    else Ok ((block_number ⊟ genesis_block c) / epoch_length c)
  else Panic.

Definition should_finish_epoch {E} (c : Context) (epoch : Z) : outcome E bool :=
  if decide (last_finished_epoch c = last_input_epoch c) then Ok false
  else
    last ← unwrap (last_input_epoch c);
    if epoch =? last then Ok false
    else Ok (epoch >? default 0 (last_finished_epoch c)).

Section Ops.
Context {B : Type} `{BrokerSend B}.

Definition finish_epoch : M (Context * B) BrokerFacadeError unit :=
  '(c, _) ← get;
  assert_ (match last_input_epoch c, last_finished_epoch c with
           | Some input_epoch, Some finished_epoch => input_epoch >? finished_epoch
           | Some _, None => true
           | None, _ => false
           end) ;;
  on_snd (Dispatcher.finish_epoch (inputs_sent c)) ;;
  on_fst (modify inc_finish_epochs_sent) ;;
  on_fst (modify (fun c => set_last_finished_epoch (last_input_epoch c) c)).

Definition finish_epoch_if_needed (block_number : Z) : M (Context * B) BrokerFacadeError unit :=
  '(c, _) ← get;
  epoch ← lift (calculate_epoch c block_number);
  should ← lift (should_finish_epoch c epoch);
  if should : bool then finish_epoch else mret tt.

Definition enqueue_input (input : Input) : M (Context * B) BrokerFacadeError unit :=
  let input_block_number := number (block_added input) in
  finish_epoch_if_needed input_block_number ;;
  '(c, _) ← get;
  on_snd (Dispatcher.enqueue_input (inputs_sent c) input) ;;
  on_fst (modify inc_advance_inputs_sent) ;;
  on_fst (modify (fun c => set_inputs_sent (inputs_sent c ⊞ 1) c)) ;;
  '(c, _) ← get;
  input_epoch ← lift (calculate_epoch c input_block_number);
  assert_ (match last_finished_epoch c with
           | Some last_finished_epoch => input_epoch >? last_finished_epoch
           | None => true
           end) ;;
  on_fst (modify (set_last_input_epoch (Some input_epoch))).
End Ops.
End Context.
Abbreviation Context := Context.Context.

(** ** [MachineDriver] *)

Module MachineDriver.
Record MachineDriver := mkMachineDriver { dapp_address : Address }.

Definition new (dapp_address : Address) : MachineDriver := mkMachineDriver dapp_address.

(** [im::Vector::skip] splits the vector and panics beyond its end. *)
Definition skip {E A} (l : list A) (count : Z) : outcome E (list A) :=
  if count <=? Z.of_nat (length l) then Ok (drop (Z.to_nat count) l) else Panic.

Section Ops.
Context {B : Type} `{BrokerSend B}.

Definition process_inputs (dapp_input_box : DAppInputBox) : M (Context * B) BrokerFacadeError unit :=
  '(c, _) ← get;
  input_slice ← lift (skip (inputs dapp_input_box) (Context.inputs_sent c));
  for_each input_slice Context.enqueue_input.

Definition react (driver : MachineDriver) (block : Block) (input_box : InputBox)
    : M (Context * B) BrokerFacadeError unit :=
  match dapp_input_boxes input_box !! dapp_address driver with
  | None => mret tt
  | Some dapp_input_box => process_inputs dapp_input_box
  end ;;
  Context.finish_epoch_if_needed (number block).
End Ops.
End MachineDriver.

(** ** The in-memory broker *)

Module Mock.
Inductive Event :=
| Input (input_index : Z)
| FinishEpoch (epoch : Z).

Record Broker := mkBroker {
  rollup_statuses : list RollupStatus;
  next_claims : list RollupsClaim;
  events : list Event;
  finish_epochs : Z;
  status_error : bool;
  enqueue_input_error : bool;
  finish_epoch_error : bool;
}.

Definition default : Broker := mkBroker [] [] [] 0 false false false.
Definition new (rollup_statuses : list RollupStatus) (next_claims : list RollupsClaim) : Broker :=
  mkBroker rollup_statuses next_claims [] 0 false false false.
Definition with_enqueue_input_error : Broker := mkBroker [] [] [] 0 false true false.
Definition with_finish_epoch_error : Broker := mkBroker [] [] [] 0 false false true.

Definition push_event (e : Event) (b : Broker) : Broker :=
  mkBroker (rollup_statuses b) (next_claims b) (events b ++ [e]) (finish_epochs b)
    (status_error b) (enqueue_input_error b) (finish_epoch_error b).
(** The counter is an [AtomicU16]. *)
Definition store_finish_epochs (n : Z) (b : Broker) : Broker :=
  mkBroker (rollup_statuses b) (next_claims b) (events b) (wrap 16 n)
    (status_error b) (enqueue_input_error b) (finish_epoch_error b).

#[global] Instance mock_status : BrokerStatus Broker :=
  b ← get;
  if status_error b then fail (Whatever "status error")
  else
    match rollup_statuses b with
    | s :: rest =>
        put (mkBroker rest (next_claims b) (events b) (finish_epochs b)
               (status_error b) (enqueue_input_error b) (finish_epoch_error b)) ;;
        mret s
    | [] => lift Panic
    end.

#[global] Instance mock_send : BrokerSend Broker := {|
  enqueue_input input_index _ :=
    b ← get;
    if enqueue_input_error b then fail (Whatever "enqueue_input error")
    else put (push_event (Input input_index) b);
  finish_epoch _ :=
    b ← get;
    if finish_epoch_error b then fail (Whatever "finish_epoch error")
    else
      let current_epoch := finish_epochs b in
      put (store_finish_epochs (current_epoch + 1) (push_event (FinishEpoch current_epoch) b)) |}.

(** The mock keeps the index of an input and nothing of its content. *)
#[global] Instance mock_log : BrokerLog Broker unit := {|
  binv _ := True;
  blog b := (fun e => match e with Input n => LInput n tt | FinishEpoch _ => LFinish end) <$> events b;
  erase _ := tt;
  sendable _ := True |}.

#[global] Instance mock_laws : BrokerSendLaws Broker unit.
Proof.
  split.
  - intros b n input _ _ _ _. unfold enqueue_input; cbn. wp_run.
    destruct (enqueue_input_error b); wp_run; [done|]. cbn. by rewrite fmap_app.
  - intros b n _ _ _. unfold finish_epoch; cbn. wp_run.
    destruct (finish_epoch_error b); wp_run; [done|]. cbn. by rewrite fmap_app.
Qed.
End Mock.

(** ** What the dispatcher promises

    The log that a sequence of inputs should produce, defined without the
    dispatcher's state: an epoch is finished when an input or the current
    block belongs to a later one. *)

Section Spec.
Context {I : Type} (epoch : Z -> Z) (era : Input -> I).

Definition closing (open_ : option Z) (e : Z) : list (LogEvent I) :=
  match open_ with
  | Some e0 => if e0 =? e then [] else [LFinish]
  | None => []
  end.

Definition input_epoch (i : Input) : Z := epoch (number (block_added i)).

Fixpoint sent_log (n : Z) (open_ : option Z) (l : list Input) : list (LogEvent I) :=
  match l with
  | [] => []
  | i :: l => closing open_ (input_epoch i) ++ LInput n (era i) :: sent_log (n + 1) (Some (input_epoch i)) l
  end.

Definition last_open (open_ : option Z) (l : list Input) : option Z :=
  match last l with Some i => Some (input_epoch i) | None => open_ end.

(** The log after the inputs [l] and a block of epoch [e]. *)
Definition expected (n : Z) (open_ : option Z) (l : list Input) (e : Z) : list (LogEvent I) :=
  sent_log n open_ l ++ closing (last_open open_ l) e.
End Spec.

(** ** The structural invariant *)

Section Invariant.
Context {B I : Type} `{BL : BrokerSendLaws B I}.
Implicit Types (c : Context) (b : B).

Definition epoch c (block_number : Z) : Z :=
  (block_number - Context.genesis_block c) / Context.epoch_length c.

(** The epoch that has inputs and is not finished. *)
Definition open_epoch c : option Z :=
  if decide (Context.last_finished_epoch c = Context.last_input_epoch c) then None
  else Context.last_input_epoch c.

(** "last_input_epoch >= last_finished_epoch", with [None] below all epochs. *)
Definition epochs_ordered c : Prop :=
  match Context.last_finished_epoch c, Context.last_input_epoch c with
  | Some f, Some l => 0 <= f <= l
  | Some _, None => False
  | None, Some l => 0 <= l
  | None, None => True
  end.

(** The next block is not before the last input, and its epoch is not finished. *)
Definition at_epoch c (e : Z) : Prop :=
  (forall l, Context.last_input_epoch c = Some l -> l <= e) /\
  (forall f, Context.last_finished_epoch c = Some f -> f < e).

Definition inv c b : Prop :=
  0 < Context.epoch_length c /\ 0 <= Context.genesis_block c /\ epochs_ordered c /\
  binv b /\ Context.inputs_sent c = inputs_in (blog b).

Definition same_config c c' : Prop :=
  Context.genesis_block c' = Context.genesis_block c /\
  Context.epoch_length c' = Context.epoch_length c /\
  Context.dapp_metadata c' = Context.dapp_metadata c.

Lemma same_config_epoch c c' n : same_config c c' -> epoch c' n = epoch c n.
Proof. intros (E1 & E2 & _). unfold epoch. by rewrite E1, E2. Qed.

#[export] Instance same_config_preorder : PreOrder same_config.
Proof. unfold same_config. split; [done|]. intros c1 c2 c3. intuition congruence. Qed.

Lemma at_epoch_mono c e e' : at_epoch c e -> e <= e' -> at_epoch c e'.
Proof. intros [Hl Hf] He. split; [intros l ?%Hl|intros f ?%Hf]; lia. Qed.

Lemma epoch_mono c m n : 0 < Context.epoch_length c -> m <= n -> epoch c m <= epoch c n.
Proof. intros. unfold epoch. apply Z.div_le_mono; lia. Qed.

Lemma inputs_in_app (l1 l2 : list (LogEvent I)) : inputs_in (l1 ++ l2) = inputs_in l1 + inputs_in l2.
Proof. unfold inputs_in. rewrite filter_app, length_app. lia. Qed.

Lemma inputs_in_nonneg (l : list (LogEvent I)) : 0 <= inputs_in l.
Proof. unfold inputs_in. lia. Qed.

Lemma inputs_in_snoc_finish (l : list (LogEvent I)) : inputs_in (l ++ [LFinish]) = inputs_in l.
Proof. rewrite inputs_in_app. replace (inputs_in (I := I) [LFinish]) with 0 by reflexivity. lia. Qed.

Lemma inputs_in_snoc_input (l : list (LogEvent I)) n i :
  inputs_in (l ++ [LInput n i]) = inputs_in l + 1.
Proof. rewrite inputs_in_app. replace (inputs_in [LInput n i]) with 1 by reflexivity. lia. Qed.

Lemma inputs_in_closing o e : inputs_in (closing (I := I) o e) = 0.
Proof. unfold closing. destruct o; [|done]. by case_match. Qed.

Lemma calculate_epoch_ok {E} c n :
  0 < Context.epoch_length c -> 0 <= Context.genesis_block c -> Context.genesis_block c <= n < 2 ^ 64 ->
  Context.calculate_epoch (E := E) c n = Ok (epoch c n).
Proof.
  intros Hl Hg Hn. unfold Context.calculate_epoch, epoch.
  rewrite (proj2 (Z.geb_le _ _)) by lia. rewrite (proj2 (Z.eqb_neq _ _)) by lia. by u64.
Qed.

(** The test of the code decides whether an epoch is open and over. *)
Lemma should_finish_epoch_ok {E} c e :
  epochs_ordered c -> at_epoch c e -> 0 <= e ->
  Context.should_finish_epoch (E := E) c e =
  Ok (match open_epoch c with Some e0 => negb (e0 =? e) | None => false end).
Proof.
  unfold Context.should_finish_epoch, open_epoch, epochs_ordered, at_epoch.
  case_decide as Heq; [done|]. intros Ho [Hl Hf] He.
  destruct (Context.last_input_epoch c) as [l|], (Context.last_finished_epoch c) as [f|];
    try done; cbn; specialize (Hl l eq_refl); rewrite (Z.eqb_sym e l).
  - specialize (Hf f eq_refl). destruct (Z.eqb_spec l e); cbn; f_equal. lia.
  - destruct (Z.eqb_spec l e); cbn; f_equal. lia.
Qed.

(** Finishing the open epoch: the event goes out once, or nothing changes. *)
Lemma wp_finish_epoch c b e0 :
  inv c b -> open_epoch c = Some e0 -> Context.inputs_sent c < 2 ^ 64 ->
  wp Context.finish_epoch (c, b)
    (fun _ '(c', b') => inv c' b' /\ same_config c c' /\
       blog b' = blog b ++ [LFinish] /\
       Context.inputs_sent c' = Context.inputs_sent c /\
       Context.last_input_epoch c' = Some e0 /\ Context.last_finished_epoch c' = Some e0)
    (fun _ '(c', b') => c' = c /\ inv c b' /\ blog b' = blog b).
Proof.
  intros (Hlen & Hgen & Hord & Hb & Hn) Hopen Hmax. unfold open_epoch in Hopen.
  case_decide as Hne; [done|]. unfold Context.finish_epoch. wp_run. cbn. wp_run. split.
  { unfold epochs_ordered in Hord. rewrite Hopen in *.
    destruct (Context.last_finished_epoch c) as [f|]; [|done].
    assert (f <> e0) by congruence. apply Z.gtb_lt. lia. }
  eapply wp_mono; [by apply finish_epoch_spec| |].
  - intros _ b' [Hb' Hlog]. wp_run. unfold inv, same_config, epochs_ordered in *. cbn.
    rewrite Hlog, inputs_in_snoc_finish, Hopen in *.
    destruct (Context.last_finished_epoch c); repeat split; try done; lia.
  - intros _ b' [Hb' Hlog]. cbn. unfold inv. by rewrite Hlog.
Qed.

(** An open epoch stays open when a block of the same epoch comes. *)
Definition reopen (o : option Z) (e : Z) : option Z :=
  match o with Some e0 => if e0 =? e then Some e0 else None | None => None end.

Lemma wp_finish_epoch_if_needed c b n :
  inv c b -> at_epoch c (epoch c n) -> Context.genesis_block c <= n < 2 ^ 64 ->
  Context.inputs_sent c < 2 ^ 64 ->
  wp (Context.finish_epoch_if_needed n) (c, b)
    (fun _ '(c', b') => inv c' b' /\ same_config c c' /\
       blog b' = blog b ++ closing (open_epoch c) (epoch c n) /\
       Context.inputs_sent c' = Context.inputs_sent c /\
       Context.last_input_epoch c' = Context.last_input_epoch c /\
       at_epoch c' (epoch c n) /\
       open_epoch c' = reopen (open_epoch c) (epoch c n))
    (fun _ '(c', b') => c' = c /\ inv c b' /\ blog b' = blog b).
Proof.
  intros Hinv Hat Hn Hmax. pose proof Hinv as (Hlen & Hgen & Hord & Hb & Hcount).
  assert (He : 0 <= epoch c n) by (apply Z.div_pos; lia).
  unfold Context.finish_epoch_if_needed. wp_run. cbn. wp_run.
  rewrite calculate_epoch_ok by lia. wp_run. rewrite should_finish_epoch_ok by done.
  destruct (open_epoch c) as [e0|] eqn:Hopen; cbn; [destruct (Z.eqb_spec e0 (epoch c n)) as [Heq|Hneq]; cbn|].
  - wp_run. subst e0. rewrite (right_id_L [] (++)), Hopen. split_and!; auto; reflexivity.
  - eapply wp_mono; [by eapply wp_finish_epoch| |auto].
    intros _ [c' b'] (Hinv' & Hcfg & Hlog & Hsent & Hli & Hlf).
    assert (Hli0 : Context.last_input_epoch c = Some e0).
    { unfold open_epoch in Hopen. by case_decide. }
    destruct Hat as [Hl _]. specialize (Hl e0 Hli0).
    split; [done|]. split; [done|]. split; [done|]. split; [done|]. split; [congruence|].
    unfold at_epoch, open_epoch. rewrite Hli, Hlf. split.
    + split; intros ? [= <-]; lia.
    + by rewrite decide_True.
  - wp_run. rewrite (right_id_L [] (++)), Hopen. split_and!; auto; reflexivity.
Qed.

(** Sending an input closes the previous epoch first if it is over. *)
Lemma wp_enqueue_input c b i :
  let e := epoch c (number (block_added i)) in
  inv c b -> at_epoch c e -> sendable i ->
  Context.genesis_block c <= number (block_added i) < 2 ^ 64 -> Context.inputs_sent c + 1 < 2 ^ 64 ->
  wp (Context.enqueue_input i) (c, b)
    (fun _ '(c', b') => inv c' b' /\ same_config c c' /\
       blog b' = blog b ++ closing (open_epoch c) e ++ [LInput (Context.inputs_sent c) (erase i)] /\
       Context.inputs_sent c' = Context.inputs_sent c + 1 /\
       Context.last_input_epoch c' = Some e /\ at_epoch c' e /\ open_epoch c' = Some e)
    (fun _ '(c', b') => inv c' b' /\ same_config c c' /\
       blog b' `prefix_of` blog b ++ closing (open_epoch c) e /\
       Context.inputs_sent c' = Context.inputs_sent c /\ at_epoch c' e).
Proof.
  intros e Hinv Hat Hsend Hn Hmax. unfold Context.enqueue_input. wp_run.
  pose proof Hinv as (Hlen & Hgen & _).
  eapply wp_mono; [apply wp_finish_epoch_if_needed; try done; lia| |].
  2:{ intros _ [c' b'] (-> & Hinv' & Hlog). rewrite Hlog. split; [done|]. split; [done|].
      split; [by apply prefix_app_r|done]. }
  intros _ [c1 b1] (Hinv1 & Hcfg & Hlog & Hsent & Hli & Hat1 & Hopen1). fold e in Hlog, Hat1, Hopen1.
  wp_run. cbn. wp_run. pose proof Hinv1 as (_ & _ & _ & Hb1 & Hcount).
  eapply wp_mono; [apply enqueue_input_spec; try done; lia| |].
  2:{ intros _ b2 [Hb2 Hlog2]. rewrite Hlog2, Hlog. unfold inv in *. rewrite Hlog2. intuition. }
  intros _ b2 [Hb2 Hlog2]. wp_run. cbn. wp_run. unfold same_config in Hcfg.
  assert (Hcalc : forall c', same_config c1 c' ->
    Context.calculate_epoch (E := BrokerFacadeError) c' (number (block_added i)) = Ok e).
  { intros c' (E1 & E2 & _). rewrite calculate_epoch_ok.
    - f_equal. unfold e, epoch. by rewrite E1, E2, (proj1 Hcfg), (proj1 (proj2 Hcfg)).
    - rewrite E2. lia.
    - rewrite E1. lia.
    - rewrite E1. lia. }
  rewrite Hcalc by done. wp_run. split.
  { destruct Hat1 as [_ Hf]. cbn. destruct (Context.last_finished_epoch c1) as [f|]; [|done].
    apply Z.gtb_lt. auto. }
  assert (He : 0 <= e) by (apply Z.div_pos; lia).
  destruct Hinv1 as (Hlen1 & Hgen1 & Hord1 & _ & _), Hat1 as [_ Hf1].
  assert (Hlf : match Context.last_finished_epoch c1 with Some f => 0 <= f < e | None => True end).
  { unfold epochs_ordered in Hord1. destruct (Context.last_finished_epoch c1) as [f|]; [|done].
    destruct (Context.last_input_epoch c1); [|done]. specialize (Hf1 f eq_refl). lia. }
  pose proof (inputs_in_nonneg (blog b1)).
  cbn. rewrite Hlog2, Hlog, <- (assoc_L (++)). split_and!.
  - unfold inv, epochs_ordered. cbn. rewrite Hlog2, inputs_in_snoc_input, <- Hcount, u64_add_small by (unfold is_u64; lia).
    split_and!; auto. destruct (Context.last_finished_epoch c1); lia.
  - unfold same_config. cbn. tauto.
  - by rewrite Hsent.
  - rewrite u64_add_small by (unfold is_u64; lia). lia.
  - done.
  - split; cbn; [intros ? [= <-]; lia|done].
  - unfold open_epoch. cbn. destruct (Context.last_finished_epoch c1) as [f|]; [|done].
    rewrite decide_False; [done|]. intros [= ->]. lia.
Qed.

(** The inputs come in block order, between the blocks [lo] and [hi]. *)
Fixpoint ascending (lo hi : Z) (l : list Input) : Prop :=
  match l with
  | [] => lo <= hi
  | i :: l => lo <= number (block_added i) /\ ascending (number (block_added i)) hi l
  end.

Lemma ascending_le lo hi l : ascending lo hi l -> lo <= hi.
Proof. revert lo. induction l as [|i l IH]; intros lo; cbn; [done|]. intros [? ?%IH]. lia. Qed.

Lemma last_open_cons f o i l : last_open f o (i :: l) = last_open f (Some (input_epoch f i)) l.
Proof. unfold last_open. rewrite last_cons. by destruct (last l). Qed.

(** The loop of [process_inputs]. *)
Lemma wp_enqueue_all c b lo hi l :
  inv c b -> at_epoch c (epoch c lo) -> Context.genesis_block c <= lo -> hi < 2 ^ 64 ->
  ascending lo hi l -> Forall sendable l ->
  Context.inputs_sent c + Z.of_nat (length l) < 2 ^ 64 ->
  wp (for_each l Context.enqueue_input) (c, b)
    (fun _ '(c', b') => inv c' b' /\ same_config c c' /\
       blog b' = blog b ++ sent_log (epoch c) erase (Context.inputs_sent c) (open_epoch c) l /\
       Context.inputs_sent c' = Context.inputs_sent c + Z.of_nat (length l) /\
       open_epoch c' = last_open (epoch c) (open_epoch c) l /\ at_epoch c' (epoch c hi))
    (fun _ '(c', b') => inv c' b' /\ same_config c c' /\
       blog b' `prefix_of` blog b ++ sent_log (epoch c) erase (Context.inputs_sent c) (open_epoch c) l).
Proof.
  revert c b lo. induction l as [|i l IH]; intros c b lo Hinv Hat Hlo Hhi Hasc Hsend Hmax; cbn [for_each].
  { wp_run. cbn [sent_log length Z.of_nat]. rewrite (right_id_L [] (++)), Z.add_0_r. pose proof Hinv as (Hlen & _).
    split_and!; try done. eapply at_epoch_mono; [done|]. by apply epoch_mono. }
  destruct Hasc as [Hi Hasc]. apply Forall_cons in Hsend as [Hs Hsend]. cbn [length] in Hmax.
  pose proof (ascending_le _ _ _ Hasc) as Hle. pose proof Hinv as (Hlen & Hgen & _).
  wp_run. eapply wp_mono; [apply wp_enqueue_input; try done; [|lia|lia]| |].
  { eapply at_epoch_mono; [done|]. by apply epoch_mono. }
  2:{ intros _ [c' b'] (Hinv' & Hcfg & Hpre & _). split; [done|]. split; [done|].
      cbn [sent_log]. etrans; [exact Hpre|]. unfold input_epoch.
      rewrite (assoc_L (++)). by apply prefix_app_r. }
  intros _ [c1 b1] (Hinv1 & Hcfg & Hlog & Hsent & _ & Hat1 & Hopen). fold (input_epoch (epoch c) i) in *.
  assert (Hep : forall n, epoch c1 n = epoch c n) by (intros; by apply same_config_epoch).
  assert (Hlogs : forall k o, sent_log (epoch c1) erase k o l = sent_log (epoch c) erase k o l).
  { clear -Hep. induction l as [|j l IH]; intros k o; cbn [sent_log]; [done|].
    unfold input_epoch. by rewrite Hep, IH. }
  specialize (IH c1 b1 (number (block_added i))). rewrite Hep, Hlogs, Hopen, Hsent in IH.
  destruct Hcfg as (Hg & Hl & Hd). rewrite Hg in IH.
  eapply wp_mono; [apply IH; try done; [lia|lia]| |].
  - intros _ [c2 b2] (Hinv2 & Hcfg2 & Hlog2 & Hsent2 & Hopen2 & Hat2). cbn [sent_log length].
    rewrite last_open_cons. split_and!; try done.
    + etrans; [|exact Hcfg2]. done.
    + by rewrite Hlog2, Hlog, <- !(assoc_L (++)).
    + lia.
    + rewrite Hopen2. unfold last_open, input_epoch. destruct (last l); [|done]. by rewrite Hep.
    + by rewrite <- Hep.
  - intros _ [c2 b2] (Hinv2 & Hcfg2 & Hpre). split; [done|]. split; [etrans; [|exact Hcfg2]; done|].
    etrans; [exact Hpre|]. rewrite Hlog. cbn [sent_log]. by rewrite <- !(assoc_L (++)).
Qed.

(** [react] at block [n], when [L] are the inputs of the dapp in the box and
    the ones that were not sent yet are not older than block [lo]. *)
Lemma wp_react c b driver block box lo :
  let L := inputs_of (dapp_input_boxes box) (MachineDriver.dapp_address driver) in
  let l := drop (Z.to_nat (Context.inputs_sent c)) L in
  let n := number block in
  inv c b -> at_epoch c (epoch c lo) -> Context.genesis_block c <= lo -> n < 2 ^ 64 ->
  ascending lo n l -> Forall sendable l ->
  Context.inputs_sent c <= Z.of_nat (length L) -> Z.of_nat (length L) < 2 ^ 64 ->
  wp (MachineDriver.react driver block box) (c, b)
    (fun _ '(c', b') => inv c' b' /\ same_config c c' /\
       blog b' = blog b ++ expected (epoch c) erase (Context.inputs_sent c) (open_epoch c) l (epoch c n) /\
       Context.inputs_sent c' = Z.of_nat (length L) /\
       open_epoch c' = reopen (last_open (epoch c) (open_epoch c) l) (epoch c n) /\
       at_epoch c' (epoch c n))
    (fun _ '(c', b') => inv c' b' /\ same_config c c' /\
       blog b' `prefix_of`
         blog b ++ expected (epoch c) erase (Context.inputs_sent c) (open_epoch c) l (epoch c n)).
Proof.
  intros L l n Hinv Hat Hlo Hn Hasc Hsend Hle Hmax. unfold MachineDriver.react. wp_run.
  pose proof Hinv as (Hlen & Hgen & _ & _ & Hcount).
  pose proof (inputs_in_nonneg (blog b)) as Hpos. pose proof (ascending_le _ _ _ Hasc) as Hlon.
  assert (Hl : Z.of_nat (length l) = Z.of_nat (length L) - Context.inputs_sent c).
  { unfold l. rewrite length_drop. lia. }
  apply wp_mono with
    (Q := fun _ '(c', b') => inv c' b' /\ same_config c c' /\
       blog b' = blog b ++ sent_log (epoch c) erase (Context.inputs_sent c) (open_epoch c) l /\
       Context.inputs_sent c' = Context.inputs_sent c + Z.of_nat (length l) /\
       open_epoch c' = last_open (epoch c) (open_epoch c) l /\ at_epoch c' (epoch c n))
    (R := fun _ '(c', b') => inv c' b' /\ same_config c c' /\
       blog b' `prefix_of` blog b ++ sent_log (epoch c) erase (Context.inputs_sent c) (open_epoch c) l).
  - pose proof (wp_enqueue_all c b lo n l) as Hall. specialize (Hall Hinv Hat Hlo Hn Hasc Hsend).
    subst L l. unfold inputs_of in *.
    destruct (dapp_input_boxes box !! MachineDriver.dapp_address driver) as [dbox|]; cbn in *.
    + unfold MachineDriver.process_inputs, MachineDriver.skip. wp_run. cbn. wp_run.
      rewrite (proj2 (Z.leb_le _ _)) by done. apply Hall. lia.
    + rewrite drop_nil in *. apply Hall. cbn. lia.
  - intros _ [c1 b1] (Hinv1 & Hcfg & Hlog & Hsent & Hopen & Hat1).
    assert (Hep : epoch c1 n = epoch c n) by by apply same_config_epoch.
    pose proof Hcfg as (Hg & _ & _).
    eapply wp_mono; [apply wp_finish_epoch_if_needed; [done|fold n; by rewrite Hep|lia|lia]| |].
    + intros _ [c2 b2] (Hinv2 & Hcfg2 & Hlog2 & Hsent2 & Hli2 & Hat2 & Hopen2). fold n in Hlog2, Hat2, Hopen2. rewrite Hep in *.
      split_and!; try done.
      * by etrans.
      * rewrite Hlog2, Hlog, Hopen. unfold expected. by rewrite <- (assoc_L (++)).
      * lia.
      * by rewrite Hopen2, Hopen.
    + intros _ [c2 b2] (-> & Hinv2 & Hlog2). rewrite Hlog2, Hlog. unfold expected.
      split_and!; try done. rewrite (assoc_L (++)). by apply prefix_app_r.
  - intros _ [c1 b1] (Hinv1 & Hcfg & Hpre). split_and!; try done.
    etrans; [exact Hpre|]. unfold expected. rewrite (assoc_L (++)). by apply prefix_app_r.
Qed.
End Invariant.

(** ** Determinism *)

Section Determinism.
Context {B I : Type} `{BL : BrokerSendLaws B I}.
Variable driver : MachineDriver.MachineDriver.
(** All the inputs of the dapp, in the order of the chain. *)
Variable all : list Input.

(** The inputs that the chain has at block [n]. *)
Definition snapshot (n : Z) : list Input := filter (fun i => number (block_added i) <= n) all.

(** One step of the dispatcher's loop: a block and the input box at that block. *)
Definition step_ok (lo : Z) (step : Block * InputBox) : Prop :=
  lo <= number step.1 < 2 ^ 64 /\
  inputs_of (dapp_input_boxes step.2) (MachineDriver.dapp_address driver) = snapshot (number step.1).

Fixpoint steps_ok (lo : Z) (steps : list (Block * InputBox)) : Prop :=
  match steps with
  | [] => True
  | step :: steps => step_ok lo step /\ steps_ok (number step.1) steps
  end.

Definition last_block (lo : Z) (steps : list (Block * InputBox)) : Z :=
  from_option (fun step => number step.1) lo (last steps).

(** The log at block [n] according to the specification. *)
Definition log_at (c : Context) (n : Z) : list (LogEvent I) :=
  expected (epoch c) erase 0 None (snapshot n) (epoch c n).

Definition run (steps : list (Block * InputBox)) : M (Context * B) BrokerFacadeError unit :=
  for_each steps (fun '(block, box) => MachineDriver.react driver block box).

Hypothesis all_sendable : Forall sendable all.
Hypothesis all_small : Z.of_nat (length all) < 2 ^ 64.

(** The state after having reacted to block [m]. *)
Definition reacted (c : Context) (b : B) (m : Z) : Prop :=
  inv c b /\ at_epoch c (epoch c m) /\ blog b = log_at c m /\
  Context.inputs_sent c = Z.of_nat (length (snapshot m)) /\
  open_epoch c = reopen (last_open (epoch c) None (snapshot m)) (epoch c m).

Lemma sent_log_app (f : Z -> Z) (er : Input -> I) n o l1 l2 :
  sent_log f er n o (l1 ++ l2) =
  sent_log f er n o l1 ++ sent_log f er (n + Z.of_nat (length l1)) (last_open f o l1) l2.
Proof.
  revert n o. induction l1 as [|i l1 IH]; intros n o; cbn [app sent_log length].
  - by rewrite Z.add_0_r.
  - rewrite IH, last_open_cons, <- (assoc_L (++)). cbn [app]. by replace (n + 1 + Z.of_nat (length l1))
      with (n + Z.of_nat (S (length l1))) by lia.
Qed.

Lemma last_open_app f o l1 l2 : last_open f o (l1 ++ l2) = last_open f (last_open f o l1) l2.
Proof. unfold last_open. rewrite last_app. by destruct (last l2). Qed.

(** Finishing the epoch at a block or at the next event gives the same log. *)
Lemma closing_absorb (f : Z -> Z) (er : Input -> I) n o l e e' :
  (forall e0, o = Some e0 -> e0 <= e) -> Forall (fun i => e <= input_epoch f i) l -> e <= e' ->
  closing o e ++ expected f er n (reopen o e) l e' = expected f er n o l e'.
Proof.
  intros Ho Hl He. unfold expected. destruct o as [e0|]; [|done]. specialize (Ho e0 eq_refl).
  cbn [closing reopen]. destruct (Z.eqb_spec e0 e) as [|Hne]; [done|].
  destruct l as [|i l]; cbn.
  - by rewrite (proj2 (Z.eqb_neq _ _)) by lia.
  - apply Forall_cons in Hl as [Hi _]. rewrite (proj2 (Z.eqb_neq _ _)) by lia.
    unfold last_open. rewrite last_cons. by destruct (last l).
Qed.

Lemma reopen_absorb f o l e e' :
  (forall e0, o = Some e0 -> e0 <= e) -> e <= e' ->
  reopen (last_open f (reopen o e) l) e' = reopen (last_open f o l) e'.
Proof.
  intros Ho He. unfold last_open. destruct (last l); [done|]. destruct o as [e0|]; [|done].
  specialize (Ho e0 eq_refl). cbn. destruct (Z.eqb_spec e0 e); [done|]. cbn.
  by rewrite (proj2 (Z.eqb_neq _ _)) by lia.
Qed.

Definition between (m n : Z) : list Input :=
  filter (fun i => m < number (block_added i) <= n) all.

Hypothesis all_ordered :
  StronglySorted (fun i j => number (block_added i) <= number (block_added j)) all.

Lemma sorted_ascending lo hi l :
  StronglySorted (fun i j => number (block_added i) <= number (block_added j)) l ->
  Forall (fun i => lo <= number (block_added i) <= hi) l -> lo <= hi -> ascending lo hi l.
Proof.
  intros Hs. revert lo. induction Hs as [|i l Hl IH Hi]; intros lo Hall Hlo; [done|].
  apply Forall_cons in Hall as [Hb Hall]. cbn. split; [lia|]. apply IH; [|lia].
  apply Forall_forall. intros j Hj. apply (proj1 (Forall_forall _ _) Hi) in Hj as Hij.
  apply (proj1 (Forall_forall _ _) Hall) in Hj. lia.
Qed.

Lemma snapshot_split m n : m <= n -> snapshot n = snapshot m ++ between m n.
Proof. intros Hmn. by apply (filter_le_split (fun i => number (block_added i))). Qed.

Lemma between_bounds m n : Forall (fun i => m < number (block_added i) <= n) (between m n).
Proof. apply Forall_forall. by intros i [? _]%list_elem_of_filter. Qed.

Lemma snapshot_last_open c m e : 0 < Context.epoch_length c ->
  last_open (epoch c) None (snapshot m) = Some e -> e <= epoch c m.
Proof.
  intros Hlen. unfold last_open. destruct (last (snapshot m)) as [i|] eqn:Hi; [|done].
  intros [= <-]. apply epoch_mono; [done|].
  apply last_Some_elem_of in Hi. by apply list_elem_of_filter in Hi as [? _].
Qed.

(** The specified log only grows, by what the new inputs and block require. *)
Lemma log_at_extend c m n : 0 < Context.epoch_length c -> m <= n ->
  log_at c n = log_at c m ++
    expected (epoch c) erase (Z.of_nat (length (snapshot m)))
      (reopen (last_open (epoch c) None (snapshot m)) (epoch c m)) (between m n) (epoch c n).
Proof.
  intros Hlen Hmn. unfold log_at at 1. unfold log_at, expected at 2.
  rewrite <- (assoc_L (++)), closing_absorb.
  - unfold expected. rewrite (snapshot_split m n Hmn), sent_log_app, last_open_app, <- (assoc_L (++)). done.
  - intros e0. by apply snapshot_last_open.
  - eapply Forall_impl; [apply between_bounds|]. intros i Hi. apply epoch_mono; cbn in *; lia.
  - by apply epoch_mono.
Qed.

Lemma last_open_ext f g o l : (forall n, f n = g n) -> last_open f o l = last_open g o l.
Proof. intros Hfg. unfold last_open, input_epoch. destruct (last l); [|done]. by rewrite Hfg. Qed.

Lemma log_at_same_config c c' n : same_config c c' -> log_at c' n = log_at c n.
Proof.
  intros Hcfg. unfold log_at, expected.
  assert (Hf : forall k o l, sent_log (epoch c') erase k o l = sent_log (epoch c) erase k o l).
  { intros k o l. revert k o. induction l as [|i l IH]; intros k o; cbn [sent_log]; [done|].
    unfold input_epoch. by rewrite (same_config_epoch c c'), IH. }
  rewrite Hf, (same_config_epoch c c') by done.
  by rewrite (last_open_ext (epoch c') (epoch c)) by (intros; by apply same_config_epoch).
Qed.

Lemma wp_react_step c b m block box :
  reacted c b m -> step_ok m (block, box) -> Context.genesis_block c <= number block ->
  Forall (fun i => Context.genesis_block c <= number (block_added i)) all ->
  wp (MachineDriver.react driver block box) (c, b)
    (fun _ '(c', b') => reacted c' b' (number block) /\ same_config c c')
    (fun _ '(c', b') => inv c' b' /\ blog b' `prefix_of` log_at c (number block)).
Proof.
  intros (Hinv & Hat & Hlog & Hsent & Hopen) [Hn Hbox] Hgen Hall. cbn [fst snd] in *.
  pose proof Hinv as (Hlen & _). set (n := number block) in *.
  assert (Hdrop : drop (Z.to_nat (Context.inputs_sent c)) (snapshot n) = between m n).
  { rewrite (snapshot_split m n) by lia. rewrite drop_app_length'; [done|]. lia. }
  assert (Hsmall : Z.of_nat (length (snapshot n)) < 2 ^ 64).
  { pose proof (length_filter (fun i => number (block_added i) <= n) all). unfold snapshot. lia. }
  set (lo := Z.max m (Context.genesis_block c)).
  pose proof (wp_react c b driver block box lo) as Hreact. cbn zeta in Hreact.
  fold n in Hreact. rewrite Hbox, Hdrop in Hreact.
  eapply wp_mono; [apply Hreact; try done; try lia| |].
  - eapply at_epoch_mono; [done|]. apply epoch_mono; lia.
  - apply sorted_ascending; [by apply StronglySorted_filter| |lia].
    apply Forall_forall. intros i [Hi Hin]%list_elem_of_filter.
    apply (proj1 (Forall_forall _ _) Hall) in Hin. lia.
  - apply Forall_forall. intros i [_ Hin]%list_elem_of_filter.
    by apply (proj1 (Forall_forall _ _) all_sendable).
  - rewrite Hsent, (snapshot_split m n) by lia. rewrite length_app. lia.
  - intros _ [c' b'] (Hinv' & Hcfg & Hlog' & Hsent' & Hopen' & Hat'). split; [|done].
    split_and!; try done.
    + by rewrite (same_config_epoch c c').
    + rewrite (log_at_same_config c c'), (log_at_extend c m n) by (done || lia).
      by rewrite Hlog', Hlog, Hsent, Hopen.
    + rewrite Hopen', Hopen, (same_config_epoch c c') by done.
      rewrite (last_open_ext (epoch c') (epoch c)) by (intros; by apply same_config_epoch).
      rewrite (snapshot_split m n), last_open_app by lia. apply reopen_absorb; [|apply epoch_mono; lia].
      intros e0. by apply snapshot_last_open.
  - intros _ [c' b'] (Hinv' & Hcfg & Hpre). split; [done|]. rewrite (log_at_extend c m n) by lia.
    by rewrite Hlog, Hsent, Hopen in Hpre.
Qed.

Lemma last_block_cons lo step steps : last_block lo (step :: steps) = last_block (number step.1) steps.
Proof. unfold last_block. rewrite last_cons. by destruct (last steps). Qed.

Lemma last_block_ge lo steps : steps_ok lo steps -> lo <= last_block lo steps.
Proof.
  revert lo. induction steps as [|step steps IH]; intros lo; [done|].
  intros [[Hn _] Hs]. rewrite last_block_cons. specialize (IH _ Hs). lia.
Qed.

Lemma wp_run_from steps : forall c b m lo,
  reacted c b m -> m <= lo -> Context.genesis_block c <= lo -> steps_ok lo steps ->
  Forall (fun i => Context.genesis_block c <= number (block_added i)) all ->
  wp (run steps) (c, b)
    (fun _ '(c', b') => reacted c' b' (last_block m steps) /\ same_config c c')
    (fun _ '(c', b') => inv c' b' /\ blog b' `prefix_of` log_at c (last_block m steps)).
Proof.
  induction steps as [|[block box] steps IH]; intros c b m lo Hr Hm Hlo Hok Hall;
    unfold run; cbn [for_each]; wp_run; [done|].
  destruct Hok as [[Hn Hbox] Hok]. cbn [fst snd] in *. rewrite last_block_cons. cbn [fst].
  eapply wp_mono; [apply (wp_react_step c b m); [done| |lia|done]; split; [cbn; lia|done]| |].
  - intros _ [c1 b1] [Hr1 Hcfg]. pose proof Hcfg as (Hg & _).
    eapply wp_mono; [apply (IH c1 b1 (number block) (number block)); try done; rewrite Hg; [lia|done]| |].
    + intros _ [c2 b2] [Hr2 Hcfg2]. split; [done|]. by etrans.
    + intros _ [c2 b2]. by rewrite (log_at_same_config c c1).
  - intros _ [c1 b1] [Hinv1 Hpre]. split; [done|]. etrans; [exact Hpre|].
    destruct Hr as ((Hlen & _) & _).
    rewrite (log_at_extend c (number block) (last_block (number block) steps)); [|done|by apply last_block_ge].
    by apply prefix_app_r.
Qed.

Lemma reacted_new {E} genesis len md ms c0 b0 :
  Context.new (E := E) genesis len md ms = Ok c0 -> 0 <= genesis -> binv b0 -> blog b0 = [] ->
  Forall (fun i => genesis <= number (block_added i)) all ->
  reacted c0 b0 (genesis - 1) /\ Context.genesis_block c0 = genesis.
Proof.
  intros Hnew Hgen Hb Hlog Hall. unfold Context.new in Hnew.
  destruct (Z.gtb_spec len 0); [|done]. injection Hnew as <-.
  assert (Hsnap : snapshot (genesis - 1) = []).
  { apply filter_none. intros i Hi. apply (proj1 (Forall_forall _ _) Hall) in Hi. lia. }
  split; [|done]. unfold reacted, log_at, inv. rewrite Hsnap, Hlog. cbn. done.
Qed.

(** A dispatcher that starts with an empty broker follows the specification. *)
Lemma wp_run_new genesis len md ms c0 b0 steps :
  Context.new (E := BrokerFacadeError) genesis len md ms = Ok c0 -> 0 <= genesis ->
  binv b0 -> blog b0 = [] ->
  Forall (fun i => genesis <= number (block_added i)) all -> steps_ok genesis steps ->
  wp (run steps) (c0, b0)
    (fun _ '(c', b') => inv c' b' /\ blog b' = log_at c0 (last_block (genesis - 1) steps))
    (fun _ '(c', b') => inv c' b' /\ blog b' `prefix_of` log_at c0 (last_block (genesis - 1) steps)).
Proof.
  intros Hnew Hgen Hb Hlog Hall Hok. eapply reacted_new in Hnew as [Hr Hg]; eauto.
  eapply wp_mono; [apply (wp_run_from steps c0 b0 (genesis - 1) genesis); try done; rewrite ?Hg; try lia; done| |done].
  intros _ [c' b'] [(Hinv & _ & Hlog' & _) Hcfg]. split; [done|].
  rewrite Hlog'. by apply log_at_same_config.
Qed.

Lemma closing_no_input o e : filter is_input (closing (I := I) o e) = [].
Proof. unfold closing. destruct o; [|done]. by case_match. Qed.

Lemma sent_log_inputs (f : Z -> Z) (er : Input -> I) n o l :
  filter is_input (sent_log f er n o l) = imap (fun k i => LInput (n + Z.of_nat k) (er i)) l.
Proof.
  revert n o. induction l as [|i l IH]; intros n o; [done|]. cbn [sent_log].
  rewrite filter_app, closing_no_input, filter_cons_True, IH by done.
  cbn. rewrite Z.add_0_r. f_equal. apply imap_ext. intros k j _. cbn. f_equal. lia.
Qed.

Lemma log_at_inputs c n :
  filter is_input (log_at c n) = imap (fun k i => LInput (Z.of_nat k) (erase i)) (snapshot n).
Proof.
  unfold log_at, expected. rewrite filter_app, sent_log_inputs, closing_no_input.
  by rewrite (right_id_L [] (++)).
Qed.

(** Each [LFinish] comes right after an input ([prev]: the last event was one). *)
Fixpoint finish_after_input (prev : bool) (log : list (LogEvent I)) : Prop :=
  match log with
  | [] => True
  | LInput _ _ :: log => finish_after_input true log
  | LFinish :: log => prev = true /\ finish_after_input false log
  end.

Lemma finish_after_input_prefix prev l1 l2 :
  l1 `prefix_of` l2 -> finish_after_input prev l2 -> finish_after_input prev l1.
Proof.
  intros [l ->]. revert prev. induction l1 as [|[k i|] l1 IH]; intros prev; cbn.
  - done.
  - apply IH.
  - intros [-> Hl]. split; [done|by apply IH].
Qed.

Lemma expected_finish_after_input f er n o l e prev :
  (o <> None -> prev = true) -> finish_after_input prev (expected f er n o l e).
Proof.
  unfold expected. revert n o prev. induction l as [|i l IH]; intros n o prev Ho.
  - cbn. unfold closing. destruct o; [case_match|]; cbn; [done|split; auto|done].
  - cbn [sent_log]. rewrite last_open_cons, <- (assoc_L (++)). unfold closing at 1.
    destruct o; [case_match|]; cbn; [by apply IH|split; [auto|by apply IH]|by apply IH].
Qed.

Section Main.
Variables (genesis len : Z) (md : DAppMetadata) (ms : DispatcherMetrics) (c0 : Context) (b0 : B).
Hypothesis started : Context.new (E := BrokerFacadeError) genesis len md ms = Ok c0.
Hypothesis genesis_ok : 0 <= genesis.
Hypothesis broker_ok : binv b0.
Hypothesis broker_clean : blog b0 = [].
Hypothesis inputs_after_genesis : Forall (fun i => genesis <= number (block_added i)) all.

(** C5. The dispatcher is deterministic: whatever blocks it reacts to, and in
    however many steps, the broker has received exactly the log that the
    chain's inputs and the last block determine. It never panics, and when the
    broker fails, what was sent is a prefix of that log. *)
Theorem react_deterministic steps :
  steps_ok genesis steps ->
  wp (run steps) (c0, b0)
    (fun _ '(_, b') => blog b' = log_at c0 (last_block (genesis - 1) steps))
    (fun _ '(_, b') => blog b' `prefix_of` log_at c0 (last_block (genesis - 1) steps)).
Proof.
  intros Hok. eapply wp_mono; [by eapply wp_run_new| |]; intros _ [c' b']; tauto.
Qed.

(** C6. Every input of the dapp up to the last block is sent exactly once, in
    the order of the chain, and with its index in that order. *)
Theorem run_inputs_once steps :
  steps_ok genesis steps ->
  wp (run steps) (c0, b0)
    (fun _ '(c', b') =>
       filter is_input (blog b') =
         imap (fun k i => LInput (Z.of_nat k) (erase i)) (snapshot (last_block (genesis - 1) steps)) /\
       Context.inputs_sent c' = Z.of_nat (length (snapshot (last_block (genesis - 1) steps))))
    (fun _ '(c', b') => Context.inputs_sent c' = inputs_in (blog b')).
Proof.
  intros Hok. eapply wp_mono; [by eapply wp_run_new| |]; intros _ [c' b'] [(_ & _ & _ & _ & Hn) Hlog];
    [|done].
  rewrite Hn, Hlog. unfold inputs_in. rewrite log_at_inputs, length_imap. done.
Qed.

(** C7. No empty epoch is ever finished: each finish-epoch event is preceded
    by an input, also when the run stops with an error. *)
Theorem run_no_empty_epoch steps :
  steps_ok genesis steps ->
  wp (run steps) (c0, b0)
    (fun _ '(_, b') => finish_after_input false (blog b'))
    (fun _ '(_, b') => finish_after_input false (blog b')).
Proof.
  intros Hok. eapply wp_mono; [by eapply wp_run_new| |]; intros _ [c' b'] [_ Hlog].
  - rewrite Hlog. by apply expected_finish_after_input.
  - eapply finish_after_input_prefix; [exact Hlog|]. by apply expected_finish_after_input.
Qed.
End Main.
End Determinism.

(** ** Properties of [Context] *)

Section ContextTheorems.
Context {B I : Type} `{BL : BrokerSendLaws B I}.

(** [calculate_epoch] cuts the chain after the genesis block into epochs of
    [epoch_length] blocks, and panics exactly on the blocks before genesis. *)
Theorem calculate_epoch_bounds c n :
  0 < Context.epoch_length c -> 0 <= Context.genesis_block c -> 0 <= n < 2 ^ 64 ->
  match Context.calculate_epoch (E := BrokerFacadeError) c n with
  | Ok e => 0 <= e /\
      Context.genesis_block c + e * Context.epoch_length c <= n
        < Context.genesis_block c + (e + 1) * Context.epoch_length c
  | Err _ => False
  | Panic => n < Context.genesis_block c
  end.
Proof.
  intros Hlen Hgen Hn. destruct (Z.le_gt_cases (Context.genesis_block c) n) as [Hle|Hlt].
  - rewrite calculate_epoch_ok by lia. unfold epoch.
    pose proof (Z.div_mod (n - Context.genesis_block c) (Context.epoch_length c) ltac:(lia)) as Hdm.
    pose proof (Z.mod_pos_bound (n - Context.genesis_block c) (Context.epoch_length c) Hlen) as Hm.
    split; [apply Z.div_pos; lia|]. nia.
  - unfold Context.calculate_epoch. destruct (Z.geb_spec n (Context.genesis_block c)); [lia|done].
Qed.

(** [enqueue_input] finishes the previous epoch first when it is over, then
    sends the input under the number of inputs sent, and keeps the structural
    invariant of the context. When the broker fails the input is not sent and
    the context still agrees with the broker. *)
Theorem enqueue_input_sends c b i :
  let e := epoch c (number (block_added i)) in
  inv c b -> at_epoch c e -> sendable i ->
  Context.genesis_block c <= number (block_added i) < 2 ^ 64 -> Context.inputs_sent c + 1 < 2 ^ 64 ->
  wp (Context.enqueue_input i) (c, b)
    (fun _ '(c', b') => inv c' b' /\
       blog b' = blog b ++ closing (open_epoch c) e ++ [LInput (Context.inputs_sent c) (erase i)] /\
       Context.inputs_sent c' = Context.inputs_sent c + 1 /\ Context.last_input_epoch c' = Some e)
    (fun _ '(c', b') => inv c' b' /\ blog b' `prefix_of` blog b ++ closing (open_epoch c) e /\
       Context.inputs_sent c' = Context.inputs_sent c).
Proof.
  intros e Hinv Hat Hs Hn Hmax. eapply wp_mono; [by apply wp_enqueue_input| |]; intros _ [c' b']; tauto.
Qed.
End ContextTheorems.

(** ** Witnesses *)

Module DispatcherWitness.
(** [mock::new_input] and [mock::new_block], with fixed addresses and hashes. *)
Definition new_block (n : Z) : Block := mkBlock [] n [] 0 [].
Definition new_input (n : Z) : Input := mkInput [x01] [] (new_block n) [x02] [].
Definition new_input_box (blocks : list Z) : InputBox :=
  mkInputBox [x02] [x03] {[ [x02] := mkDAppInputBox (new_input <$> blocks) ]}.

Definition driver : MachineDriver.MachineDriver := MachineDriver.new [x02].
Definition metadata : DAppMetadata := mkDAppMetadata 31337 [x02].
Definition context0 : Context :=
  Context.mkContext 0 None None 5 10 metadata DispatcherMetrics_default.
Definition chain : list Input := new_input <$> [14; 15; 36].
(** The dispatcher sees blocks 14, 20 and 36 only. *)
Definition steps : list (Block * InputBox) :=
  [(new_block 14, new_input_box [14]); (new_block 20, new_input_box [14; 15]);
   (new_block 36, new_input_box [14; 15; 36])].

Lemma chain_sendable : Forall (sendable (B := Mock.Broker)) chain.
Proof. repeat constructor. Qed.
Lemma chain_small : Z.of_nat (length chain) < 2 ^ 64.
Proof. done. Qed.
Lemma chain_ordered : StronglySorted (fun i j => number (block_added i) <= number (block_added j)) chain.
Proof. repeat (constructor; cbn; try lia). Qed.
Lemma chain_after : Forall (fun i => 5 <= number (block_added i)) chain.
Proof. repeat (constructor; cbn; try lia). Qed.
Lemma chain_steps : steps_ok driver chain 5 steps.
Proof. repeat split; cbn; lia. Qed.

Lemma react_deterministic_witness :
  log_at (B := Mock.Broker) chain context0 36 = [LInput 0 tt; LFinish; LInput 1 tt; LFinish; LInput 2 tt] /\
  wp (run driver steps) (context0, Mock.default)
    (fun _ '(_, b') => blog b' = log_at (B := Mock.Broker) chain context0 36)
    (fun _ '(_, b') => blog b' `prefix_of` log_at (B := Mock.Broker) chain context0 36).
Proof.
  split; [reflexivity|].
  exact (react_deterministic driver chain chain_sendable chain_small chain_ordered 5 10 metadata
    DispatcherMetrics_default context0 Mock.default eq_refl ltac:(lia) I eq_refl chain_after
    steps chain_steps).
Defined.

Lemma run_inputs_once_witness :
  wp (run driver steps) (context0, Mock.default)
    (fun _ '(c', b') =>
       filter is_input (blog b') =
         imap (fun k i => LInput (Z.of_nat k) (erase (B := Mock.Broker) i)) (snapshot chain 36) /\
       Context.inputs_sent c' = Z.of_nat (length (snapshot chain 36)))
    (fun _ '(c', b') => Context.inputs_sent c' = inputs_in (blog b')).
Proof.
  exact (run_inputs_once driver chain chain_sendable chain_small chain_ordered 5 10 metadata
    DispatcherMetrics_default context0 Mock.default eq_refl ltac:(lia) I eq_refl chain_after
    steps chain_steps).
Defined.

Lemma run_no_empty_epoch_witness :
  wp (run driver steps) (context0, Mock.with_finish_epoch_error)
    (fun _ '(_, b') => finish_after_input false (blog b'))
    (fun _ '(_, b') => finish_after_input false (blog b')).
Proof.
  exact (run_no_empty_epoch driver chain chain_sendable chain_small chain_ordered 5 10 metadata
    DispatcherMetrics_default context0 Mock.with_finish_epoch_error eq_refl ltac:(lia) I eq_refl
    chain_after steps chain_steps).
Defined.

Lemma calculate_epoch_bounds_witness :
  match Context.calculate_epoch (E := BrokerFacadeError) context0 36 with
  | Ok e => 0 <= e /\ 5 + e * 10 <= 36 < 5 + (e + 1) * 10
  | Err _ => False
  | Panic => 36 < 5
  end.
Proof. apply (calculate_epoch_bounds context0 36); cbn; lia. Defined.

Lemma enqueue_input_sends_witness :
  let e := epoch context0 15 in
  wp (Context.enqueue_input (new_input 15)) (context0, Mock.default)
    (fun _ '(c', b') => inv c' b' /\
       blog b' = blog Mock.default ++ closing (open_epoch context0) e ++ [LInput 0 tt] /\
       Context.inputs_sent c' = 0 + 1 /\ Context.last_input_epoch c' = Some e)
    (fun _ '(c', b') => inv c' b' /\
       blog b' `prefix_of` blog Mock.default ++ closing (open_epoch context0) e /\
       Context.inputs_sent c' = 0).
Proof.
  refine (enqueue_input_sends context0 Mock.default (new_input 15) _ _ _ _ _); cbn; try lia; try done.
Defined.
End DispatcherWitness.
