(* ===== verification/DispatcherBroker.v ===== *)
(** * The dispatcher's process

    [offchain/dispatcher/src/]: the facade over the broker
    ([machine/rollups_broker.rs]), the setup of the process ([setup.rs]) and
    its main loop ([dispatcher.rs]). The facade discharges the laws of
    [BrokerSend] that the drivers rely on. The state server is a parameter. *)

From stdpp Require Import gmap.
From S2P Require Import Prelude Codecs Retry Events Broker InputBox Dispatcher.

(** ** [BrokerFacade] *)

Module BrokerFacade.

Record BrokerStreamStatus := mkBrokerStreamStatus {
  status_id : string;
  epoch_number : Z;
  rollup_status : RollupStatus;
}.

(** [impl From<RollupsInput> for RollupStatus] *)
Definition rollup_status_from (payload : RollupsInput) : RollupStatus :=
  mkRollupStatus (inputs_sent_count payload).

(** [impl From<Event<RollupsInput>> for BrokerStreamStatus] *)
Definition stream_status_from (event : Broker.Event RollupsInput) : BrokerStreamStatus :=
  let payload := event_payload event in
  match ri_data payload with
  | AdvanceStateInput _ =>
      mkBrokerStreamStatus (event_id event) (ri_epoch_index payload) (rollup_status_from payload)
  | FinishEpoch =>
      mkBrokerStreamStatus (event_id event) (ri_epoch_index payload ⊞ 1) (rollup_status_from payload)
  end.

(** [impl From<Option<Event<RollupsInput>>> for BrokerStreamStatus] *)
Definition stream_status_from_option (event : option (Broker.Event RollupsInput)) : BrokerStreamStatus :=
  match event with
  | Some e => stream_status_from e
  | None => mkBrokerStreamStatus INITIAL_ID 0 (mkRollupStatus 0)
  end.

(** [U256::as_u64] panics on overflow. *)
Definition as_u64 {E} (z : Z) : outcome E Z := if z <? 2 ^ 64 then Ok z else Panic.

Definition build_next_input {E} (input : Input) (status : BrokerStreamStatus) : outcome E RollupsInput :=
  timestamp ← as_u64 (block_timestamp (block_added input));
  let metadata := mkInputMetadata (sender input) (number (block_added input)) timestamp 0
                    (rs_inputs_sent_count (rollup_status status)) in
  let data := AdvanceStateInput (mkRollupsAdvanceStateInput metadata (payload input) (tx_hash input)) in
  Ok (mkRollupsInput (status_id status) (epoch_number status)
        (rs_inputs_sent_count (rollup_status status) ⊞ 1) data).

Definition build_next_finish_epoch (status : BrokerStreamStatus) : RollupsInput :=
  mkRollupsInput (status_id status) (epoch_number status)
    (rs_inputs_sent_count (rollup_status status)) FinishEpoch.

Section Facade.
Context {R : Type} `{Redis R, Retry, Json RollupsInput}.
Variable inputs_stream : string.

Definition new (connect_single : string -> M R RedisError unit)
    (connect_cluster : list string -> M R RedisError unit) (redis_endpoint : BrokerEndpoint)
    : M R BrokerFacadeError unit :=
  context BrokerConnectionError (Broker.new connect_single connect_cluster redis_endpoint).

Definition peek : M R BrokerFacadeError (option (Broker.Event RollupsInput)) :=
  context PeekInputError (Broker.peek_latest inputs_stream).

Definition broker_status : M R BrokerFacadeError BrokerStreamStatus :=
  event ← peek;
  let old_epoch_index := from_option (fun e => ri_epoch_index (event_payload e)) 0 event in
  let status := stream_status_from_option event in
  let new_epoch_index := epoch_number status in
  assert_ ((new_epoch_index =? old_epoch_index) || (new_epoch_index =? old_epoch_index ⊞ 1)) ;;
  mret status.

Definition status : M R BrokerFacadeError RollupStatus :=
  s ← broker_status;
  mret (rollup_status s).

Definition input_sanity_check (event : RollupsInput) (index : Z) : M R BrokerFacadeError unit :=
  assert_ (inputs_sent_count event =? index ⊞ 1) ;;
  assert_ (match ri_data event with
           | AdvanceStateInput i => im_epoch_index (rai_metadata i) =? 0
           | _ => false end) ;;
  assert_ (match ri_data event with
           | AdvanceStateInput i => input_index (rai_metadata i) =? index
           | _ => false end).

Definition epoch_sanity_check (event : RollupsInput) (count : Z) : M R BrokerFacadeError unit :=
  assert_ (inputs_sent_count event =? count) ;;
  assert_ (match ri_data event with FinishEpoch => true | _ => false end).

Definition enqueue_input (input_index : Z) (input : Input) : M R BrokerFacadeError unit :=
  status ← broker_status;
  event ← lift (build_next_input input status);
  input_sanity_check event input_index ;;
  _ ← context ProduceInputError (Broker.produce inputs_stream event);
  mret tt.

Definition finish_epoch (inputs_sent_count : Z) : M R BrokerFacadeError unit :=
  status ← broker_status;
  let event := build_next_finish_epoch status in
  epoch_sanity_check event inputs_sent_count ;;
  _ ← context ProduceFinishError (Broker.produce inputs_stream event);
  mret tt.

#[export] Instance facade_status : BrokerStatus R := status.
#[export] Instance facade_send : BrokerSend R := {|
  Dispatcher.enqueue_input := enqueue_input;
  Dispatcher.finish_epoch := finish_epoch |}.
End Facade.
End BrokerFacade.

(** ** Setup and main loop *)

Inductive StateServerError := state_server_error (detail : string).

Inductive DispatcherError :=
| DispatcherBrokerError (source : BrokerFacadeError)
| ChannelError (detail : string)
| ConnectError (detail : string)
| DispatcherStateServerError (source : StateServerError)
| DirtyBrokerError
| DispatcherWhatever (message : string).

Inductive BlockStreamItem :=
| NewBlock (b : Block)
| Reorg (bs : list Block).

Definition BUFFER_LEN : nat := 256.

Record DispatcherConfig := mkDispatcherConfig {
  cfg_chain_id : Z;
  cfg_dapp_address : Address;
  cfg_input_box_address : Address;
  cfg_input_box_deployment_block_number : Z;
  cfg_epoch_length : Z;
  cfg_default_confirmations : Z;
  cfg_redis_endpoint : BrokerEndpoint;
}.

(** The state server: its channel, its blocks and its states. A subscription is
    the sequence of the chunks of items that were ready at each poll. *)
Record StateServer := mkStateServer {
  from_shared : outcome string unit;
  connect : outcome string unit;
  subscribe_blocks : Z -> outcome StateServerError (list (list (outcome StateServerError BlockStreamItem)));
  query_block : Z -> outcome StateServerError Block;
  query_state : InputBoxInitialState -> Hash -> outcome StateServerError (Block * InputBox);
}.

Abbreviation SubscriptionItem := (outcome StateServerError BlockStreamItem).

Section Process.
Variable server : StateServer.

Definition create_state_server : outcome DispatcherError unit :=
  map_err ChannelError (from_shared server) ;;
  map_err ConnectError (connect server).

(** The closure of [filter_map]: a full buffer means that more items wait. *)
Definition newest_of_chunk (x : list SubscriptionItem) : option SubscriptionItem :=
  if Nat.eqb (length x) BUFFER_LEN then None else last x.

Definition create_block_subscription (confirmations : Z)
    : outcome DispatcherError (list SubscriptionItem) :=
  chunks ← map_err DispatcherStateServerError (subscribe_blocks server confirmations);
  Ok (omap (M := list) newest_of_chunk chunks).

Section Loop.
Context {B : Type} `{BS : BrokerStatus B, SD : BrokerSend B}.

Definition create_context (config : DispatcherConfig) (dapp_metadata : DAppMetadata)
    (metrics : DispatcherMetrics) : M B DispatcherError Context :=
  block ← lift (map_err DispatcherStateServerError
                  (query_block server (cfg_input_box_deployment_block_number config)));
  let genesis_block := number block in
  status ← context DispatcherBrokerError Dispatcher.status;
  lift (ensure (rs_inputs_sent_count status =? 0) DirtyBrokerError) ;;
  lift (Context.new genesis_block (cfg_epoch_length config) dapp_metadata metrics).

Definition process_block (block : Block) (initial_state : InputBoxInitialState)
    (machine_driver : MachineDriver.MachineDriver) : M (Context * B) DispatcherError unit :=
  '(state_block, state) ← lift (map_err DispatcherStateServerError
                                  (query_state server initial_state (block_hash block)));
  context DispatcherBrokerError (MachineDriver.react machine_driver state_block state).

Fixpoint main_loop (initial_state : InputBoxInitialState) (machine_driver : MachineDriver.MachineDriver)
    (items : list SubscriptionItem) : M (Context * B) DispatcherError unit :=
  match items with
  | Ok (NewBlock b) :: items =>
      process_block b initial_state machine_driver ;; main_loop initial_state machine_driver items
  | Ok (Reorg _) :: _ => fail (DispatcherWhatever "deep blockchain reorg")
  | Err _ :: items => main_loop initial_state machine_driver items
  | Panic :: _ => lift Panic
  | [] => fail (DispatcherWhatever "subscription closed")
  end.
End Loop.

(** What [dispatcher::start] does before its loop *)
Definition setup {R} `{Redis R, Retry, Json RollupsInput, HexCrate}
    (connect_single : string -> M R RedisError unit)
    (connect_cluster : list string -> M R RedisError unit)
    (config : DispatcherConfig) (metrics : DispatcherMetrics)
    : M R DispatcherError (Context * list SubscriptionItem) :=
  let dapp_metadata := mkDAppMetadata (cfg_chain_id config) (cfg_dapp_address config) in
  lift create_state_server ;;
  block_subscription ← lift (create_block_subscription (cfg_default_confirmations config));
  context DispatcherBrokerError
    (BrokerFacade.new connect_single connect_cluster (cfg_redis_endpoint config)) ;;
  ctx ← create_context (BS := BrokerFacade.facade_status (RollupsInputsStream_new dapp_metadata))
          config dapp_metadata metrics;
  mret (ctx, block_subscription).

(** [dispatcher::start]; the context lives as long as the loop. *)
Definition start {R} `{Redis R, Retry, Json RollupsInput, HexCrate}
    (connect_single : string -> M R RedisError unit)
    (connect_cluster : list string -> M R RedisError unit)
    (config : DispatcherConfig) (metrics : DispatcherMetrics) : M R DispatcherError unit :=
  let dapp_metadata := mkDAppMetadata (cfg_chain_id config) (cfg_dapp_address config) in
  '(ctx, block_subscription) ← setup connect_single connect_cluster config metrics;
  let machine_driver := MachineDriver.new (cfg_dapp_address config) in
  let initial_state := mkInputBoxInitialState (cfg_dapp_address config) (cfg_input_box_address config) in
  scoped ctx (main_loop (SD := BrokerFacade.facade_send (RollupsInputsStream_new dapp_metadata))
                initial_state machine_driver block_subscription).
End Process.

(** ** The inputs stream *)

(** What a consumer of the inputs stream relies on: each event names the one
    before it, the epoch index grows by one at each finish-epoch event, and the
    count and the index of inputs go up by one at each input. *)
Fixpoint stream_wf (parent : string) (epoch count : Z) (l : list (Broker.Event RollupsInput)) : Prop :=
  match l with
  | [] => True
  | ev :: l =>
      let p := event_payload ev in
      parent_id p = parent /\ ri_epoch_index p = epoch /\
      match ri_data p with
      | AdvanceStateInput i =>
          inputs_sent_count p = count + 1 /\ input_index (rai_metadata i) = count /\
          im_epoch_index (rai_metadata i) = 0 /\ stream_wf (event_id ev) epoch (count + 1) l
      | FinishEpoch =>
          inputs_sent_count p = count /\ stream_wf (event_id ev) (epoch ⊞ 1) count l
      end
  end.

(** The content of an input that the stream keeps. *)
Record InputContent := mkInputContent {
  ic_sender : Address;
  ic_block_number : Z;
  ic_timestamp : Z;
  ic_payload : list byte;
  ic_tx_hash : Hash;
}.

Definition content_of (i : Input) : InputContent :=
  mkInputContent (sender i) (number (block_added i)) (block_timestamp (block_added i))
    (payload i) (tx_hash i).

Definition log_event (ev : Broker.Event RollupsInput) : LogEvent InputContent :=
  match ri_data (event_payload ev) with
  | AdvanceStateInput i =>
      let m := rai_metadata i in
      LInput (input_index m)
        (mkInputContent (msg_sender m) (block_number m) (timestamp m) (rai_payload i) (rai_tx_hash i))
  | FinishEpoch => LFinish
  end.

Section StreamWf.
Implicit Types l : list (Broker.Event RollupsInput).

(** Where the stream stands after [l]. *)
Fixpoint stream_end (parent : string) (epoch count : Z) l : string * Z * Z :=
  match l with
  | [] => (parent, epoch, count)
  | ev :: l =>
      match ri_data (event_payload ev) with
      | AdvanceStateInput _ => stream_end (event_id ev) epoch (count + 1) l
      | FinishEpoch => stream_end (event_id ev) (epoch ⊞ 1) count l
      end
  end.

Lemma stream_wf_app parent epoch count l1 l2 :
  stream_wf parent epoch count (l1 ++ l2) <->
  stream_wf parent epoch count l1 /\
  (let '(p, e, c) := stream_end parent epoch count l1 in stream_wf p e c l2).
Proof.
  revert parent epoch count. induction l1 as [|ev l1 IH]; intros parent epoch count; cbn; [tauto|].
  destruct (ri_data (event_payload ev)); rewrite IH; tauto.
Qed.

Lemma stream_end_app parent epoch count l1 l2 :
  stream_end parent epoch count (l1 ++ l2) =
  (let '(p, e, c) := stream_end parent epoch count l1 in stream_end p e c l2).
Proof.
  revert parent epoch count. induction l1 as [|ev l1 IH]; intros parent epoch count; cbn; [done|].
  destruct (ri_data (event_payload ev)); apply IH.
Qed.

Lemma stream_end_id parent epoch count l :
  (stream_end parent epoch count l).1.1 = from_option event_id parent (last l).
Proof.
  revert parent epoch count. induction l as [|ev l IH]; intros parent epoch count; [done|].
  rewrite last_cons. cbn. destruct (ri_data (event_payload ev)); rewrite IH; by destruct (last l).
Qed.

(** Each event names the event before it. *)
Lemma stream_wf_parent pre ev post :
  stream_wf INITIAL_ID 0 0 (pre ++ ev :: post) ->
  parent_id (event_payload ev) = from_option event_id INITIAL_ID (last pre).
Proof.
  intros [_ Hev]%stream_wf_app. pose proof (stream_end_id INITIAL_ID 0 0 pre) as Hid.
  destruct (stream_end INITIAL_ID 0 0 pre) as [[p e] c]. cbn in Hid. rewrite <- Hid. apply Hev.
Qed.

Lemma stream_end_count l : (stream_end INITIAL_ID 0 0 l).2 = inputs_in (log_event <$> l).
Proof.
  induction l as [|ev l IH] using rev_ind; [done|]. rewrite stream_end_app, fmap_app.
  destruct (stream_end INITIAL_ID 0 0 l) as [[p e] c]. cbn in IH |- *. unfold log_event at 2.
  destruct (ri_data (event_payload ev)); cbn; rewrite IH.
  - by rewrite inputs_in_snoc_input.
  - by rewrite inputs_in_snoc_finish.
Qed.

(** The status that the facade reads off the last event is where the stream stands. *)
Lemma stream_status_end l :
  stream_wf INITIAL_ID 0 0 l ->
  let s := BrokerFacade.stream_status_from_option (last l) in
  stream_end INITIAL_ID 0 0 l =
  (BrokerFacade.status_id s, BrokerFacade.epoch_number s,
   rs_inputs_sent_count (BrokerFacade.rollup_status s)).
Proof.
  destruct l as [|ev l _] using rev_ind; [done|]. rewrite last_snoc, stream_wf_app, stream_end_app.
  destruct (stream_end INITIAL_ID 0 0 l) as [[p e] c]. intros [_ Hev]. cbn in Hev |- *.
  unfold BrokerFacade.stream_status_from.
  destruct (ri_data (event_payload ev)); destruct Hev as (_ & -> & Hc & _); cbn; by rewrite Hc.
Qed.
End StreamWf.

(** ** The facade keeps the promise of [BrokerSend] *)

Section FacadeLaws.
Context {R : Type} `{RL : RedisLaws R} `{RT : RetryLaws} `{JL : JsonLaws RollupsInput}.
Context `{AA : !RedisAtomicAdd R owned}.
Variable inputs_stream : string.
Hypothesis stream_owned : owned inputs_stream.

(** The events of the stream; [decodes] says that this is all of it. *)
Definition events_of (r : R) : list (Broker.Event RollupsInput) :=
  omap (fun e => match Broker.event_try_from e with Ok ev => Some ev | _ => None end)
    (entries r inputs_stream).

Definition decodes (r : R) : Prop :=
  Forall (fun e => exists p : RollupsInput, holds e p) (entries r inputs_stream).

#[local] Instance facade_send_ : BrokerSend R := BrokerFacade.facade_send inputs_stream.

#[export] Instance facade_log : BrokerLog R InputContent := {|
  binv r := decodes r /\ stream_wf INITIAL_ID 0 0 (events_of r);
  blog r := log_event <$> events_of r;
  erase := content_of;
  sendable i := block_timestamp (block_added i) < 2 ^ 64 |}.

Lemma events_of_snoc r r' e p :
  entries r' inputs_stream = entries r inputs_stream ++ [e] -> holds e p ->
  events_of r' = events_of r ++ [mkEvent (sid e) p].
Proof. intros Hr He. unfold events_of. rewrite Hr, omap_app. cbn. by rewrite He. Qed.

Lemma events_of_last r : decodes r ->
  match last (entries r inputs_stream) with
  | Some e => exists p, holds e p /\ last (events_of r) = Some (mkEvent (sid e) p)
  | None => last (events_of r) = None
  end.
Proof.
  unfold decodes, events_of. destruct (entries r inputs_stream) as [|e l _] using rev_ind; [done|].
  rewrite last_snoc. intros [_ [p Hp]%Forall_singleton]%Forall_app. exists p. split; [done|].
  rewrite omap_app. cbn. by rewrite Hp, last_snoc.
Qed.

Lemma grows_events r r' : grows owned r r' -> entries r' inputs_stream = entries r inputs_stream.
Proof. intros Hg. by apply Hg. Qed.

(** The inputs stream has grown, the other streams that the client owns are as
    they were. *)
Definition spares (r r' : R) : Prop :=
  entries r inputs_stream `prefix_of` entries r' inputs_stream /\
  forall k, k <> inputs_stream -> owned k -> entries r' k = entries r k.

#[export] Instance spares_preorder : PreOrder spares.
Proof.
  split; [done|]. intros r1 r2 r3 [P12 E12] [P23 E23]. split; [by etrans|]. intros k Hk Ho. by rewrite E23, E12.
Qed.

Lemma grows_spares r r' : grows owned r r' -> spares r r'.
Proof. intros Hg. split; [apply Hg|]. intros k _. apply Hg. Qed.

(** Reading the status does not change the stream, and cannot fail the
    continuity assertion. *)
Lemma wp_broker_status r Q F :
  binv r ->
  (forall r', grows owned r r' -> Q (BrokerFacade.stream_status_from_option (last (events_of r))) r') ->
  (forall e r', grows owned r r' -> F e r') ->
  wp (BrokerFacade.broker_status inputs_stream) r Q F.
Proof.
  intros [Hd Hwf] HQ HF. unfold BrokerFacade.broker_status, BrokerFacade.peek. wp_run.
  apply wp_peek_latest; [done| |intros; by apply HF].
  assert (Hgo : forall o r', o = last (events_of r) -> grows owned r r' ->
    wp (let old := from_option (fun e => ri_epoch_index (event_payload e)) 0 o in
        let status := BrokerFacade.stream_status_from_option o in
        assert_ ((BrokerFacade.epoch_number status =? old) || (BrokerFacade.epoch_number status =? old ⊞ 1)) ;;
        mret status) r' Q F).
  { intros o r' -> Hg. wp_run. split.
    - destruct (last (events_of r)) as [ev|]; [|done]. cbn. unfold BrokerFacade.stream_status_from.
      destruct (ri_data (event_payload ev)); cbn; rewrite Z.eqb_refl, ?orb_true_r; done.
    - wp_run. by apply HQ. }
  pose proof (events_of_last r Hd) as Hlast.
  destruct (last (entries r inputs_stream)) as [e|].
  - destruct Hlast as (p & Hp & Hlast). exists p. split; [done|]. intros r' Hg. by apply Hgo.
  - intros r' Hg. by apply Hgo.
Qed.

Lemma same_entries r r' : entries r' inputs_stream = entries r inputs_stream ->
  binv r -> binv r' /\ blog r' = blog r.
Proof. intros Heq. cbn. unfold decodes, events_of. by rewrite Heq. Qed.

(** Producing an event that fits the end of the stream. *)
Lemma wp_produce_next r r1 event :
  binv r -> grows owned r r1 ->
  (forall id, let '(p, e, c) := stream_end INITIAL_ID 0 0 (events_of r) in
     stream_wf p e c [mkEvent id event]) ->
  wp (Broker.produce inputs_stream event) r1
    (fun _ r' => (binv r' /\ blog r' = blog r ++ [log_event (mkEvent "" event)]) /\ spares r r')
    (fun _ r' => (binv r' /\ blog r' = blog r) /\ spares r r').
Proof.
  intros Hb Hg1 Hnext. pose proof (grows_events r r1 Hg1) as Heq. apply wp_produce_atomic; [done| |].
  - intros e r' He Hr Hothers. rewrite Heq in Hr. destruct Hb as [Hd Hwf]. cbn.
    rewrite (events_of_snoc r r' e event Hr He), fmap_app, stream_wf_app. split; [split; [split|]|].
    + unfold decodes in *. rewrite Hr. apply Forall_app. split; [done|]. apply Forall_singleton. eauto.
    + split; [done|]. apply Hnext.
    + done.
    + split; [rewrite Hr; by apply prefix_app_r|]. intros k Hk Ho. rewrite Hothers by done. by apply Hg1.
  - intros e r' Hg. split; [apply same_entries; [by rewrite (grows_events r1 r')|done]|].
    apply grows_spares. by etrans.
Qed.

Lemma status_at r : binv r ->
  let s := BrokerFacade.stream_status_from_option (last (events_of r)) in
  stream_end INITIAL_ID 0 0 (events_of r) =
    (BrokerFacade.status_id s, BrokerFacade.epoch_number s, inputs_in (blog r)) /\
  rs_inputs_sent_count (BrokerFacade.rollup_status s) = inputs_in (blog r).
Proof.
  intros [_ Hwf] s. pose proof (stream_status_end _ Hwf) as Hend. cbn zeta in Hend. fold s in Hend.
  pose proof (stream_end_count (events_of r)) as Hcount. rewrite Hend in Hcount. cbn [snd] in Hcount.
  rewrite Hend, Hcount. done.
Qed.

Lemma wp_facade_enqueue r n input :
  binv r -> sendable input -> n = inputs_in (blog r) -> n + 1 < 2 ^ 64 ->
  wp (BrokerFacade.enqueue_input inputs_stream n input) r
    (fun _ r' => (binv r' /\ blog r' = blog r ++ [LInput n (erase input)]) /\ spares r r')
    (fun _ r' => (binv r' /\ blog r' = blog r) /\ spares r r').
Proof.
  intros Hb Hs -> Hmax. unfold BrokerFacade.enqueue_input. wp_run. apply wp_broker_status; [done| |].
  2:{ intros e r' Hg. split; [|by apply grows_spares]. by apply same_entries; [apply grows_events|]. }
  intros r1 Hg. destruct (status_at r Hb) as [Hend Hcount].
  set (s := BrokerFacade.stream_status_from_option (last (events_of r))) in *.
  pose proof (inputs_in_nonneg (blog r)) as Hpos.
  wp_run. unfold BrokerFacade.build_next_input, BrokerFacade.as_u64. cbn in Hs.
  rewrite (proj2 (Z.ltb_lt _ _) Hs), Hcount. cbn [mbind outcome_bind].
  rewrite u64_add_small by (unfold is_u64; lia).
  unfold BrokerFacade.input_sanity_check. wp_run.
  cbn [inputs_sent_count ri_data rai_metadata im_epoch_index input_index].
  rewrite u64_add_small, !Z.eqb_refl by (unfold is_u64; lia).
  split; [done|]. wp_run. split; [done|]. wp_run. split; [done|].
  wp_run. eapply wp_mono; [apply (wp_produce_next r r1); [done|done|]| |auto].
  { intros id. rewrite Hend. cbn. auto 10. }
  intros id r' Hr'. exact Hr'.
Qed.

Lemma wp_facade_finish r n :
  binv r -> n = inputs_in (blog r) ->
  wp (BrokerFacade.finish_epoch inputs_stream n) r
    (fun _ r' => (binv r' /\ blog r' = blog r ++ [LFinish]) /\ spares r r')
    (fun _ r' => (binv r' /\ blog r' = blog r) /\ spares r r').
Proof.
  intros Hb ->. unfold BrokerFacade.finish_epoch. wp_run. apply wp_broker_status; [done| |].
  2:{ intros e r' Hg. split; [|by apply grows_spares]. by apply same_entries; [apply grows_events|]. }
  intros r1 Hg. destruct (status_at r Hb) as [Hend Hcount].
  set (s := BrokerFacade.stream_status_from_option (last (events_of r))) in *.
  unfold BrokerFacade.epoch_sanity_check, BrokerFacade.build_next_finish_epoch. wp_run.
  cbn [inputs_sent_count ri_data]. rewrite Hcount, Z.eqb_refl. split; [done|]. wp_run. split; [done|].
  wp_run. eapply wp_mono; [apply (wp_produce_next r r1); [done|done|]| |auto].
  { intros id. rewrite Hend. cbn. auto 10. }
  intros id r' Hr'. exact Hr'.
Qed.

#[export] Instance facade_laws : BrokerSendLaws R InputContent.
Proof.
  split; intros; (eapply wp_mono; [first [by apply wp_facade_enqueue|by apply wp_facade_finish]|..]);
    by intros ? ? [? _].
Qed.

(** The same log, in a broker whose other streams are those of [r0]. *)
Definition framed_log (r0 : R) : BrokerLog R InputContent := {|
  binv r := (decodes r /\ stream_wf INITIAL_ID 0 0 (events_of r)) /\ spares r0 r;
  blog r := log_event <$> events_of r;
  erase := content_of;
  sendable i := block_timestamp (block_added i) < 2 ^ 64 |}.

Lemma framed_laws r0 : BrokerSendLaws R InputContent (H0 := framed_log r0).
Proof.
  split; [intros b n input [Hb Hf] Hs Hn Hmax|intros b n [Hb Hf] Hn Hmax];
    (eapply wp_mono; [first [by apply (wp_facade_enqueue b n input)|by apply (wp_facade_finish b n)]|..]);
    intros ? r' [[Hb' Hlog] Hsp]; (split; [split; [exact Hb'|by etrans]|exact Hlog]).
Qed.

End FacadeLaws.

(** ** The main loop *)

Section LoopTheorems.
Context {B I : Type} `{BL : BrokerSendLaws B I}.
Variables (server : StateServer) (init : InputBoxInitialState) (driver : MachineDriver.MachineDriver).
Variable all : list Input.
Hypothesis all_sendable : Forall sendable all.
Hypothesis all_small : Z.of_nat (length all) < 2 ^ 64.
Hypothesis all_ordered :
  StronglySorted (fun i j => number (block_added i) <= number (block_added j)) all.

(** Asked for the state at a block of the subscription, the server answers with
    that block and the inputs that the chain has at it, or with an error. *)
Definition server_ok (b : Block) : Prop :=
  match query_state server init (block_hash b) with
  | Ok (b', box) => number b' = number b /\
      inputs_of (dapp_input_boxes box) (MachineDriver.dapp_address driver) = snapshot all (number b)
  | Err _ => True
  | Panic => False
  end.

(** The subscription gives blocks in ascending order until a reorganisation. *)
Fixpoint items_ok (lo : Z) (items : list SubscriptionItem) : Prop :=
  match items with
  | Ok (NewBlock b) :: items => lo <= number b < 2 ^ 64 /\ server_ok b /\ items_ok (number b) items
  | Ok (Reorg _) :: _ => True
  | Err _ :: items => items_ok lo items
  | Panic :: _ => False
  | [] => True
  end.

(** The last block that the loop reacts to. *)
Fixpoint last_reacted (lo : Z) (items : list SubscriptionItem) : Z :=
  match items with
  | Ok (NewBlock b) :: items => last_reacted (number b) items
  | Err _ :: items => last_reacted lo items
  | _ => lo
  end.

Lemma last_reacted_ge lo items : items_ok lo items -> lo <= last_reacted lo items.
Proof.
  revert lo. induction items as [|[[b|bs]|e|] items IH]; intros lo; cbn; try done; try lia.
  - intros (Hb & _ & Hi%IH). lia.
  - apply IH.
Qed.

Lemma wp_main_loop items : forall c b m lo,
  reacted all c b m -> m <= lo -> Context.genesis_block c <= lo -> items_ok lo items ->
  Forall (fun i => Context.genesis_block c <= number (block_added i)) all ->
  wp (main_loop server init driver items) (c, b) (fun _ _ => False)
    (fun e '(c', b') => binv b' /\ blog b' `prefix_of` log_at all c (last_reacted m items) /\
       ((exists msg, e = DispatcherWhatever msg) -> blog b' = log_at all c (last_reacted m items))).
Proof.
  induction items as [|[[blk|bs]|err|] items IH]; intros c b m lo Hr Hm Hlo Hok Hall;
    cbn [main_loop last_reacted] in *; try done.
  - pose proof Hr as ((_ & _ & _ & Hb & _) & _ & Hlog & _). wp_run. rewrite Hlog. auto.
  - destruct Hok as (Hb & Hq & Hok). pose proof Hr as (Hinv & _ & Hlog & _). pose proof Hinv as (Hlen & _).
    pose proof (last_reacted_ge _ _ Hok) as Hge.
    assert (Hpre : forall n l, n <= last_reacted (number blk) items -> l `prefix_of` log_at all c n ->
      l `prefix_of` log_at all c (last_reacted (number blk) items)).
    { intros n l Hn Hl. etrans; [exact Hl|]. rewrite (log_at_extend all all_ordered c n _ Hlen Hn).
      by apply prefix_app_r. }
    wp_run. unfold process_block. wp_run. unfold server_ok in Hq.
    destruct (query_state server init (block_hash blk)) as [[b' box]|e|]; cbn [map_err]; [| |done].
    + destruct Hq as [Hn Hbox]. wp_run.
      eapply wp_mono; [apply (wp_react_step driver all) with (m := m); try done|..]; cbn [fst snd].
      * rewrite <- Hn in Hb, Hbox. split; [cbn; lia|done].
      * lia.
      * intros _ [c1 b1] [Hr1 Hcfg]. rewrite Hn in Hr1. pose proof Hcfg as (Hg & _).
        eapply wp_mono; [apply (IH c1 b1 (number blk) (number blk)); try done; rewrite Hg; [lia|done]|done|].
        intros e [c2 b2]. by rewrite (log_at_same_config all c c1).
      * intros e [c1 b1] [(_ & _ & _ & Hb1 & _) Hp]. rewrite Hn in Hp. split; [done|].
        split; [by eapply Hpre|]. by intros [msg ?].
    + split; [apply Hinv|]. split; [|by intros [msg ?]]. rewrite Hlog. eapply (Hpre m); [lia|done].
  - pose proof Hr as ((_ & _ & _ & Hb & _) & _ & Hlog & _). wp_run. rewrite Hlog. auto.
  - eapply (IH c b m lo); done.
Qed.

(** The main loop ends only with an error. Whatever the subscription and
    the state server do, the broker then holds a prefix of the specified log of
    the last block; and the whole log of it when the loop stopped because the
    subscription was closed or the chain was reorganised. *)
Theorem main_loop_log genesis len md ms c0 b0 items :
  Context.new (E := DispatcherError) genesis len md ms = Ok c0 -> 0 <= genesis ->
  binv b0 -> blog b0 = [] -> items_ok genesis items ->
  Forall (fun i => genesis <= number (block_added i)) all ->
  wp (main_loop server init driver items) (c0, b0) (fun _ _ => False)
    (fun e '(c', b') => binv b' /\ blog b' `prefix_of` log_at all c0 (last_reacted (genesis - 1) items) /\
       ((exists msg, e = DispatcherWhatever msg) ->
        blog b' = log_at all c0 (last_reacted (genesis - 1) items))).
Proof.
  intros Hnew Hgen Hb Hlog Hok Hall. eapply reacted_new in Hnew as (Hr & Hg); eauto.
  apply (wp_main_loop items c0 b0 (genesis - 1) genesis); try done; rewrite ?Hg; try lia; done.
Qed.
End LoopTheorems.

(** ** The whole process *)

Section StartTheorems.
Context {R : Type} `{RL : RedisLaws R} `{RT : RetryLaws} `{JL : JsonLaws RollupsInput} `{HexCrate}.
Context `{AA : !RedisAtomicAdd R owned}.
Variables (server : StateServer) (config : DispatcherConfig) (metrics : DispatcherMetrics).
Variable connect_single : string -> M R RedisError unit.
Variable connect_cluster : list string -> M R RedisError unit.

Definition config_metadata : DAppMetadata :=
  mkDAppMetadata (cfg_chain_id config) (cfg_dapp_address config).
Definition config_stream : string := RollupsInputsStream_new config_metadata.
#[local] Instance config_log : BrokerLog R InputContent := facade_log config_stream.

Hypothesis stream_owned : owned config_stream.
(** Connecting sends no command that changes a stream. *)
Hypothesis connect_single_ok : forall x r,
  wp (connect_single x) r (fun _ r' => grows owned r r') (fun _ r' => grows owned r r').
Hypothesis connect_cluster_ok : forall x r,
  wp (connect_cluster x) r (fun _ r' => grows owned r r') (fun _ r' => grows owned r r').
Hypothesis server_total :
  is_panic (from_shared server) = false /\ is_panic (connect server) = false /\
  (forall n, is_panic (subscribe_blocks server n) = false) /\
  (forall n, is_panic (query_block server n) = false).

Lemma wp_facade_new endpoint r Q F :
  (forall r', grows owned r r' -> Q tt r') -> (forall e r', grows owned r r' -> F e r') ->
  wp (BrokerFacade.new connect_single connect_cluster endpoint) r Q F.
Proof.
  intros HQ HF. unfold BrokerFacade.new, Broker.new. wp_run.
  apply (wp_retry (grows owned r)); [done|]. intros r1 Hg1. wp_run.
  assert (Hc : wp (match endpoint with Single e => connect_single e | Cluster es => connect_cluster es end)
    r1 (fun _ r' => grows owned r1 r') (fun _ r' => grows owned r1 r')) by (destruct endpoint; auto).
  eapply wp_mono; [exact Hc| |]; cbn.
  - intros [] r' Hg. apply HQ. by etrans.
  - intros e r' Hg. split; [by etrans|]. apply HF. by etrans.
Qed.

Lemma same_events r r' : entries r' config_stream = entries r config_stream ->
  events_of config_stream r' = events_of config_stream r.
Proof. intros Heq. unfold events_of. by rewrite Heq. Qed.

Definition subscription_of (chunks : list (list SubscriptionItem)) : list SubscriptionItem :=
  omap (M := list) newest_of_chunk chunks.

Definition config_init : InputBoxInitialState :=
  mkInputBoxInitialState (cfg_dapp_address config) (cfg_input_box_address config).

(** The setup either fails with the streams as they were, or finds no input in
    the stream of the inputs and has a fresh context. *)
Lemma wp_setup r (Q : Context * list SubscriptionItem -> R -> Prop) (F : DispatcherError -> R -> Prop) :
  binv r -> (forall e r', grows owned r r' -> F e r') ->
  (forall chunks blk r',
     subscribe_blocks server (cfg_default_confirmations config) = Ok chunks ->
     query_block server (cfg_input_box_deployment_block_number config) = Ok blk ->
     grows owned r r' -> inputs_in (log_event <$> events_of config_stream r) = 0 ->
     wp (lift (Context.new (number blk) (cfg_epoch_length config) config_metadata metrics)) r'
       (fun ctx => Q (ctx, subscription_of chunks)) F) ->
  wp (setup server connect_single connect_cluster config metrics) r Q F.
Proof.
  intros Hb HF HQ. destruct server_total as (T1 & T2 & T3 & T4). unfold setup.
  fold config_metadata. fold config_stream. wp_run. unfold create_state_server.
  destruct (from_shared server) as [[]|e|]; cbn; [|by apply HF|done].
  destruct (connect server) as [[]|e|]; cbn; [|by apply HF|done]. wp_run.
  unfold create_block_subscription. specialize (T3 (cfg_default_confirmations config)).
  destruct (subscribe_blocks server _) as [chunks|e|]; cbn; [|by apply HF|done]. wp_run.
  apply wp_facade_new; [|intros e r' Hg; by apply HF].
  intros r1 Hg1. assert (Heq1 : entries r1 config_stream = entries r config_stream) by by apply Hg1.
  wp_run. unfold create_context. wp_run. specialize (T4 (cfg_input_box_deployment_block_number config)).
  destruct (query_block server _) as [blk|e|]; cbn [map_err]; [|by apply HF|done]. wp_run.
  unfold Dispatcher.status, BrokerFacade.facade_status, BrokerFacade.status. wp_run.
  assert (Hb1 : binv r1) by by apply (same_entries config_stream r r1).
  apply (wp_broker_status config_stream stream_owned); [done| |intros e r2 Hg2; apply HF; by etrans].
  intros r2 Hg2. wp_run. destruct (status_at config_stream r1 Hb1) as [_ Hcount].
  rewrite Hcount. cbn [blog facade_log]. rewrite (same_events r r1 Heq1).
  destruct (Z.eqb_spec (inputs_in (log_event <$> events_of config_stream r)) 0) as [Hz|Hz]; cbn.
  - specialize (HQ chunks blk r2). rewrite wp_lift in HQ. apply HQ; auto. by etrans.
  - apply HF. by etrans.
Qed.

Lemma wp_start r (Q : unit -> R -> Prop) (F : DispatcherError -> R -> Prop) :
  binv r ->
  (forall e r', entries r' config_stream = entries r config_stream -> F e r') ->
  (forall chunks blk r',
     subscribe_blocks server (cfg_default_confirmations config) = Ok chunks ->
     query_block server (cfg_input_box_deployment_block_number config) = Ok blk ->
     entries r' config_stream = entries r config_stream ->
     inputs_in (log_event <$> events_of config_stream r) = 0 ->
     wp (ctx ← lift (Context.new (number blk) (cfg_epoch_length config) config_metadata metrics);
         scoped ctx (main_loop (SD := BrokerFacade.facade_send config_stream) server config_init
           (MachineDriver.new (cfg_dapp_address config)) (subscription_of chunks))) r' Q F) ->
  wp (start server connect_single connect_cluster config metrics) r Q F.
Proof.
  intros Hb HF HQ. unfold start. fold config_metadata. fold config_stream. fold config_init. rewrite wp_bind.
  apply wp_setup; [done|intros e r' Hg; by apply HF, Hg|]. intros chunks blk r' Hsub Hblk Hg Hz.
  specialize (HQ chunks blk r' Hsub Hblk ltac:(by apply Hg) Hz). by rewrite wp_bind in HQ.
Qed.

(** The dispatcher refuses to start on a broker that already holds inputs:
    it ends with an error and leaves the inputs stream untouched. *)
Theorem start_refuses_dirty_broker r :
  decodes config_stream r -> stream_wf INITIAL_ID 0 0 (events_of config_stream r) ->
  0 < inputs_in (log_event <$> events_of config_stream r) ->
  wp (start server connect_single connect_cluster config metrics) r
    (fun _ _ => False)
    (fun _ r' => entries r' config_stream = entries r config_stream).
Proof. intros Hd Hwf Hdirty. apply wp_start; [by split|done|]. intros. lia. Qed.

End StartTheorems.

(** ** A lost reply *)

Module LossyRedis.
(** The reference server behind a connection that loses the reply of its first
    [XADD]: the entry is stored and the client sees an error. *)
Record state := mkState { data : RedisRef.state; loses : bool }.

Definition ok_run {A} (m : M RedisRef.state RedisError A) : M state RedisError A := fun s =>
  let '(o, d) := m (data s) in (o, mkState d (loses s)).

#[global] Instance lossy_view : RedisView state := {|
  entries s k := entries (RedisView := RedisRef.view) (data s) k;
  id_lt := id_lt (RedisView := RedisRef.view) |}.

#[global] Instance lossy_redis : Redis state := {|
  xadd k i items s :=
    let '(o, s') := ok_run (xadd (Redis := RedisRef.redis) k i items) s in
    if loses s then (Err (redis_error "connection reset"), mkState (data s') false) else (o, s');
  xrevrange_count k a b n := ok_run (xrevrange_count (Redis := RedisRef.redis) k a b n);
  xread_options ks ids o := ok_run (xread_options (Redis := RedisRef.redis) ks ids o) |}.

#[global] Instance lossy_laws owned : RedisLaws state owned.
Proof.
  pose proof (RedisRef.laws owned) as L. split.
  - intros i. apply L.
  - intros i j k. apply L.
  - intros s k e. apply L.
  - intros s k. apply L.
  - intros s k items. unfold wp. cbn [xadd lossy_redis ok_run RedisRef.redis].
    destruct (loses s).
    + right. exists s. eexists. split; [done|]. split.
      * intros k' Hk'. by apply RedisRef.entries_insert_other.
      * cbn [entries lossy_view data]. rewrite RedisRef.entries_insert_same, imap_app. reflexivity.
    + exists s. split; [done|]. split.
      * intros k' Hk'. by apply RedisRef.entries_insert_other.
      * cbn [entries lossy_view data]. rewrite RedisRef.entries_insert_same, imap_app.
        cbn. by rewrite <- plus_n_O.
  - intros s k n. unfold wp. cbn. done.
  - intros s keys ids opts. unfold wp. cbn. done.
Qed.
End LossyRedis.

Section LostReply.
Import HexRef RetryRef JsonRef.

Definition lossy_stream : string := RollupsInputsStream_new sample_metadata.
Definition lossy_start : LossyRedis.state := LossyRedis.mkState ∅ true.
Definition lossy_input : Input := mkInput sample_address [x01] (sample_block 1) sample_address (zeros 32).
Definition lossy_end : LossyRedis.state :=
  (BrokerFacade.enqueue_input lossy_stream 0 lossy_input lossy_start).2.

End LostReply.

(** ** Witnesses *)

Module StartWitness.
Import HexRef RetryRef JsonRef RedisRef.

(** Two inputs, in blocks 14 and 15, and epochs of ten blocks after block 5. *)
Definition block_at (n : Z) : Block := mkBlock [byte_of_Z n] n [] (1000 + n) [].
Definition input_at (n : Z) : Input := mkInput sample_address [byte_of_Z n] (block_at n) sample_address (zeros 32).
Definition chain : list Input := [input_at 14; input_at 15].
Definition box_at (n : Z) : InputBox :=
  mkInputBox sample_address [] {[ sample_address := mkDAppInputBox (snapshot chain n) ]}.
Definition chunks : list (list SubscriptionItem) :=
  [[Ok (NewBlock (block_at 14)); Ok (NewBlock (block_at 15))]; [Err (state_server_error "timeout")];
   [Ok (NewBlock (block_at 26))]].
Definition server : StateServer := mkStateServer (Ok tt) (Ok tt) (fun _ => Ok chunks)
  (fun _ => Ok (block_at 5))
  (fun _ h => match h with
    | [b] => Ok (block_at (Z_of_byte b), box_at (Z_of_byte b))
    | _ => Err (state_server_error "unknown block") end).
Definition config : DispatcherConfig :=
  mkDispatcherConfig 31337 sample_address [] 5 10 0 (Single "redis://127.0.0.1:6379").
Definition connect_ok (A : Type) : A -> M RedisRef.state RedisError unit := fun _ => mret tt.
Definition context0 : Context :=
  Context.mkContext 0 None None 5 10 (config_metadata config) DispatcherMetrics_default.

Lemma connect_grows A (x : A) r :
  wp (connect_ok A x) r (fun _ r' => grows sole_producer r r') (fun _ r' => grows sole_producer r r').
Proof. done. Qed.

Lemma server_answers :
  is_panic (from_shared server) = false /\ is_panic (connect server) = false /\
  (forall n, is_panic (subscribe_blocks server n) = false) /\
  (forall n, is_panic (query_block server n) = false).
Proof. done. Qed.

Lemma subscription_ok :
  items_ok server (config_init config) (MachineDriver.new (cfg_dapp_address config)) chain 5
    (subscription_of chunks).
Proof.
  change (5 <= 15 < 2 ^ 64 /\
    server_ok server (config_init config) (MachineDriver.new sample_address) chain (block_at 15) /\
    15 <= 26 < 2 ^ 64 /\
    server_ok server (config_init config) (MachineDriver.new sample_address) chain (block_at 26) /\ True).
  split_and!; try lia; try done; vm_compute; auto.
Qed.


(** A server with one input in the stream of the dapp. *)
Definition dirty_server : RedisRef.state :=
  (BrokerFacade.enqueue_input (config_stream config) 0 (input_at 14) ∅).2.

Lemma dirty_server_inv :
  (decodes (config_stream config) dirty_server /\
   stream_wf INITIAL_ID 0 0 (events_of (config_stream config) dirty_server)) /\
  log_event <$> events_of (config_stream config) dirty_server = [LInput 0 (content_of (input_at 14))].
Proof.
  pose proof (wp_facade_enqueue (R := RedisRef.state) (owned := sole_producer) (config_stream config) I ∅ 0
    (input_at 14) (conj (Forall_nil_2 _) I) eq_refl eq_refl eq_refl) as Hwp.
  apply wp_is_ok in Hwp as [_ [Hd _]]; [exact Hd|vm_compute; reflexivity].
Qed.

Lemma start_refuses_dirty_broker_witness :
  wp (start server (connect_ok string) (connect_ok (list string)) config DispatcherMetrics_default) dirty_server
    (fun _ _ => False)
    (fun _ r' => entries r' (config_stream config) = entries dirty_server (config_stream config)).
Proof.
  apply (start_refuses_dirty_broker (owned := sole_producer)).
  - exact I.
  - apply connect_grows.
  - apply connect_grows.
  - exact server_answers.
  - exact (proj1 (proj1 dirty_server_inv)).
  - exact (proj2 (proj1 dirty_server_inv)).
  - rewrite (proj2 dirty_server_inv). reflexivity.
Defined.

Lemma chain_by_block :
  StronglySorted (fun i j => number (block_added i) <= number (block_added j)) chain.
Proof. repeat (constructor; cbn; try lia). Qed.


Lemma main_loop_log_witness :
  let key := config_stream config in
  wp (main_loop (SD := BrokerFacade.facade_send key) server (config_init config)
        (MachineDriver.new sample_address) (subscription_of chunks)) (context0, ∅)
    (fun _ _ => False)
    (fun e '(c', r') => binv (BrokerLog := facade_log key) r' /\
       blog (BrokerLog := facade_log key) r' `prefix_of` log_at (H0 := facade_log key) chain context0 26 /\
       ((exists msg, e = DispatcherWhatever msg) ->
        blog (BrokerLog := facade_log key) r' = log_at (H0 := facade_log key) chain context0 26)).
Proof.
  apply (main_loop_log (BL := facade_laws (owned := sole_producer) (config_stream config) I)
    server (config_init config) (MachineDriver.new sample_address) chain) with (genesis := 5) (len := 10)
    (md := config_metadata config) (ms := DispatcherMetrics_default); try reflexivity.
  - repeat (constructor; cbn; try lia).
  - apply chain_by_block.
  - lia.
  - split; [constructor|exact I].
  - apply subscription_ok.
  - repeat (constructor; cbn; try lia).
Defined.
End StartWitness.
