(* ===== verification/Grpc.v ===== *)
(** * The server-manager gRPC interface

    The messages of the server-manager interface, as its client (the
    advance-runner) and its implementation (the host-runner) use them, and the
    interface as a class. The generated code is not part of the sources: the
    messages are records with the fields that the sources access. *)

From S2P Require Import Prelude Events.

(** ** Status codes *)

Inductive Code :=
| CodeOk | Cancelled | Unknown | InvalidArgument | DeadlineExceeded | NotFound | AlreadyExists
| PermissionDenied | ResourceExhausted | FailedPrecondition | Aborted | OutOfRange
| Unimplemented | Internal | Unavailable | DataLoss | Unauthenticated.

#[export] Instance Code_eq_dec : EqDecision Code.
Proof. solve_decision. Defined.

Record Status := mkStatus { code : Code; message : string }.

#[export] Instance Status_eq_dec : EqDecision Status.
Proof. solve_decision. Defined.

(** ** Messages *)

Record GrpcHash := mkGrpcHash { hash_data : list byte }.
Record GrpcAddress := mkGrpcAddress { address_data : list byte }.

Inductive GrpcCompletionStatus :=
| GrpcAccepted | GrpcRejected | GrpcException | GrpcMachineHalted
| GrpcCycleLimitExceeded | GrpcTimeLimitExceeded | GrpcPayloadLengthLimitExceeded.

Record GrpcVoucher := mkGrpcVoucher { gv_destination : option GrpcAddress; gv_payload : list byte }.
Record GrpcNotice := mkGrpcNotice { gn_payload : list byte }.
Record GrpcReport := mkGrpcReport { gr_payload : list byte }.

Inductive ProcessedInputOneOf :=
| AcceptedData (vouchers : list GrpcVoucher) (notices : list GrpcNotice)
| ExceptionData (payload : list byte).

Record ProcessedInput := mkProcessedInput {
  pi_input_index : Z;
  pi_status : GrpcCompletionStatus;
  processed_input_one_of : option ProcessedInputOneOf;
  pi_reports : list GrpcReport;
}.

Inductive OutputEnum := GrpcOutputVoucher | GrpcOutputNotice.

Record OutputValidityProof := mkOutputValidityProof {
  gvp_input_index_within_epoch : Z;
  gvp_output_index_within_input : Z;
  gvp_output_hashes_root_hash : option GrpcHash;
  gvp_vouchers_epoch_root_hash : option GrpcHash;
  gvp_notices_epoch_root_hash : option GrpcHash;
  gvp_machine_state_hash : option GrpcHash;
  gvp_output_hash_in_output_hashes_siblings : list GrpcHash;
  gvp_output_hashes_in_epoch_siblings : list GrpcHash;
}.

Record GrpcProof := mkGrpcProof {
  gp_input_index : Z;
  gp_output_index : Z;
  gp_output_enum : OutputEnum;
  gp_validity : option OutputValidityProof;
  gp_context : list byte;
}.

Inductive EpochState := Active | Finished.

#[export] Instance EpochState_eq_dec : EqDecision EpochState.
Proof. solve_decision. Defined.

Record TaintStatus := mkTaintStatus { error_code : Code; error_message : string }.

Record GrpcInputMetadata := mkGrpcInputMetadata {
  gm_msg_sender : option GrpcAddress;
  gm_block_number : Z;
  gm_timestamp : Z;
  gm_epoch_index : Z;
  gm_input_index : Z;
}.

Record GrpcAdvanceStateRequest := mkGrpcAdvanceStateRequest {
  asr_session_id : string;
  asr_active_epoch_index : Z;
  asr_current_input_index : Z;
  asr_input_metadata : option GrpcInputMetadata;
  asr_input_payload : list byte;
}.

Record FinishEpochRequest := mkFinishEpochRequest {
  fer_session_id : string;
  fer_active_epoch_index : Z;
  fer_processed_input_count_within_epoch : Z;
  fer_storage_directory : string;
}.

Record FinishEpochResponse := mkFinishEpochResponse {
  fep_machine_hash : option GrpcHash;
  fep_vouchers_epoch_root_hash : option GrpcHash;
  fep_notices_epoch_root_hash : option GrpcHash;
  fep_proofs : list GrpcProof;
}.

Record GetSessionStatusResponse := mkGetSessionStatusResponse {
  gss_session_id : string;
  gss_active_epoch_index : Z;
  gss_epoch_index : list Z;
  gss_taint_status : option TaintStatus;
}.

Record GetEpochStatusResponse := mkGetEpochStatusResponse {
  ges_session_id : string;
  ges_epoch_index : Z;
  ges_state : EpochState;
  ges_processed_inputs : list ProcessedInput;
  ges_pending_input_count : Z;
  ges_taint_status : option TaintStatus;
}.

Record MachineRuntimeConfig := mkMachineRuntimeConfig { concurrency_update_merkle_tree : option Z }.

Record DeadlineConfig := mkDeadlineConfig {
  dl_checkin : Z;
  dl_advance_state : Z;
  dl_advance_state_increment : Z;
  dl_inspect_state : Z;
  dl_inspect_state_increment : Z;
  dl_machine : Z;
  dl_store : Z;
  dl_fast : Z;
}.

Record CyclesConfig := mkCyclesConfig {
  cy_max_advance_state : Z;
  cy_advance_state_increment : Z;
  cy_max_inspect_state : Z;
  cy_inspect_state_increment : Z;
}.

Record StartSessionRequest := mkStartSessionRequest {
  ssr_session_id : string;
  ssr_machine_directory : string;
  ssr_runtime : option MachineRuntimeConfig;
  ssr_active_epoch_index : Z;
  ssr_processed_input_count : Z;
  ssr_server_cycles : option CyclesConfig;
  ssr_server_deadline : option DeadlineConfig;
}.

(** ** The interface *)

(** [S] is the state of the server. *)
Class ServerManager (S : Type) : Type := {
  sm_get_status : M S Status (list string);
  sm_start_session (request : StartSessionRequest) : M S Status unit;
  sm_end_session (session_id : string) : M S Status unit;
  sm_advance_state (request : GrpcAdvanceStateRequest) : M S Status unit;
  sm_finish_epoch (request : FinishEpochRequest) : M S Status FinishEpochResponse;
  sm_get_session_status (session_id : string) : M S Status GetSessionStatusResponse;
  sm_get_epoch_status (session_id : string) (epoch_index : Z) : M S Status GetEpochStatusResponse;
}.
