(* ===== verification/AdvanceRunner.v ===== *)
(** * The advance-runner

    [offchain/advance-runner/src/]: the conversions and the claim hash
    ([server_manager/conversions.rs], [server_manager/claim.rs]), the facade
    over the server-manager ([server_manager/facade.rs]), the facade over the
    broker ([broker.rs]) and the main loop ([runner.rs]). The server-manager
    and Keccak-256 are parameters. *)

From stdpp Require Import gmap.
From S2P Require Import Prelude Codecs Retry Events Broker DispatcherBroker Grpc.

(** ** Errors *)

(** The random request id of a failed call, used in the logs, is left out. *)
Inductive ServerManagerError :=
| SmConnectionError (detail : string)
| MethodCallError (method : string) (source : Status)
| PendingInputsExceededError
| MissingFieldError (name : string)
| WrongArraySizeError (name : string) (expected got : nat)
| MissingProcessedInputError
| InvalidProcessedInputError (expected got : Z)
| EmptyEpochError (epoch_index : Z).

(** ** Conversions *)

Module SmConversions.
Abbreviation R := (outcome ServerManagerError).

(** [get_field!] *)
Definition get_field {A} (name : string) (field : option A) : R A :=
  ok_or field (MissingFieldError name).

Definition convert_completion_status (status : GrpcCompletionStatus) : RollupsCompletionStatus :=
  match status with
  | GrpcAccepted => Accepted
  | GrpcRejected => Rejected
  | GrpcException => Exception
  | GrpcMachineHalted => MachineHalted
  | GrpcCycleLimitExceeded => CycleLimitExceeded
  | GrpcTimeLimitExceeded => TimeLimitExceeded
  | GrpcPayloadLengthLimitExceeded => PayloadLengthLimitExceeded
  end.

Definition convert_hash (hash : GrpcHash) : R Hash :=
  if Nat.eqb (length (hash_data hash)) Common.HASH_SIZE then Ok (hash_data hash)
  else Err (WrongArraySizeError "hash" Common.HASH_SIZE (length (hash_data hash))).

Definition convert_address (address : GrpcAddress) : R Address :=
  if Nat.eqb (length (address_data address)) Common.ADDRESS_SIZE then Ok (address_data address)
  else Err (WrongArraySizeError "address" Common.ADDRESS_SIZE (length (address_data address))).

Definition convert_validity (validity : OutputValidityProof) : R RollupsOutputValidityProof :=
  output_hashes_root_hash ←
    (get_field "validity.output_hashes_root_hash" (gvp_output_hashes_root_hash validity) ≫= convert_hash);
  vouchers_epoch_root_hash ←
    (get_field "validity.vouchers_epoch_root_hash" (gvp_vouchers_epoch_root_hash validity) ≫= convert_hash);
  notices_epoch_root_hash ←
    (get_field "validity.notices_epoch_root_hash" (gvp_notices_epoch_root_hash validity) ≫= convert_hash);
  machine_state_hash ←
    (get_field "validity.machine_state_hash" (gvp_machine_state_hash validity) ≫= convert_hash);
  siblings1 ← collect convert_hash (gvp_output_hash_in_output_hashes_siblings validity);
  siblings2 ← collect convert_hash (gvp_output_hashes_in_epoch_siblings validity);
  Ok (mkRollupsOutputValidityProof
        (gvp_input_index_within_epoch validity) (gvp_output_index_within_input validity)
        output_hashes_root_hash vouchers_epoch_root_hash notices_epoch_root_hash
        machine_state_hash siblings1 siblings2).

Definition convert_proof (proof : GrpcProof) : R RollupsProof :=
  let output_enum := match gp_output_enum proof with
    | GrpcOutputVoucher => OutputEnumVoucher
    | GrpcOutputNotice => OutputEnumNotice
    end in
  validity ← (get_field "proof.validity" (gp_validity proof) ≫= convert_validity);
  Ok (mkRollupsProof (gp_input_index proof) (gp_output_index proof) output_enum validity (gp_context proof)).
End SmConversions.

(** ** The claim *)

Definition compute_epoch_hash `{Keccak} (machine_state_hash vouchers_metadata_hash notices_metadata_hash : Hash)
    : Hash :=
  keccak256 (machine_state_hash ++ vouchers_metadata_hash ++ notices_metadata_hash).

(** ** [ServerManagerFacade] *)

Module ServerManagerFacade.
Record Config := mkConfig {
  server_manager_endpoint : string;
  machine_snapshot_path : string;
  max_decoding_message_size : Z;
  session_id : string;
  pending_inputs_sleep_duration : Z;
  pending_inputs_max_retries : Z;
  runtime_config : MachineRuntimeConfig;
  deadline_config : DeadlineConfig;
  cycles_config : CyclesConfig;
}.

(** [ServerManagerCLIConfig] *)
Record CLIConfig := mkCLIConfig {
  cli_server_manager_endpoint : string;
  cli_machine_snapshot_path : string;
  cli_max_decoding_message_size : Z;
  cli_session_id : string;
  sm_pending_inputs_sleep_duration : Z;
  sm_pending_inputs_max_retries : Z;
  sm_concurrency_update_merkle_tree : Z;
  sm_deadline_checkin : Z;
  sm_deadline_advance_state : Z;
  sm_deadline_advance_state_increment : Z;
  sm_deadline_inspect_state : Z;
  sm_deadline_inspect_state_increment : Z;
  sm_deadline_machine : Z;
  sm_deadline_store : Z;
  sm_deadline_fast : Z;
  sm_cycles_max_advance_state : Z;
  sm_cycles_advance_state_increment : Z;
  sm_cycles_max_inspect_state : Z;
  sm_cycles_inspect_state_increment : Z;
}.

(** The values of the arguments that are not given. *)
Definition default_cli_config : CLIConfig :=
  mkCLIConfig "http://127.0.0.1:5001" "" (100 * 1024 * 1024) "default_rollups_id" 1000 600 0
    (5 * 1000) (1000 * 60 * 3) (1000 * 10) (1000 * 60 * 3) (1000 * 10) (1000 * 60 * 5) (1000 * 60 * 3) (1000 * 5)
    (Z.shiftr (2 ^ 64 - 1) 2) (Z.shiftl 1 22) (Z.shiftr (2 ^ 64 - 1) 2) (Z.shiftl 1 22).

Definition parse_from_cli (c : CLIConfig) : Config :=
  mkConfig (cli_server_manager_endpoint c) (cli_machine_snapshot_path c) (cli_max_decoding_message_size c)
    (cli_session_id c) (sm_pending_inputs_sleep_duration c) (sm_pending_inputs_max_retries c)
    (mkMachineRuntimeConfig (Some (sm_concurrency_update_merkle_tree c)))
    (mkDeadlineConfig (sm_deadline_checkin c) (sm_deadline_advance_state c)
       (sm_deadline_advance_state_increment c) (sm_deadline_inspect_state c)
       (sm_deadline_inspect_state_increment c) (sm_deadline_machine c) (sm_deadline_store c)
       (sm_deadline_fast c))
    (mkCyclesConfig (sm_cycles_max_advance_state c) (sm_cycles_advance_state_increment c)
       (sm_cycles_max_inspect_state c) (sm_cycles_inspect_state_increment c)).

(** The codes that [grpc_call!] does not retry. *)
Definition is_permanent (c : Code) : bool :=
  match c with
  | InvalidArgument | NotFound | AlreadyExists | FailedPrecondition
  | OutOfRange | Unimplemented | DataLoss => true
  | _ => false
  end.

Section Facade.
Context {S : Type} `{ServerManager S, Retry, Keccak}.
Variable dapp_address : Address.
Variable config : Config.

Definition grpc_call {A} (method : string) (request : M S Status A) : M S ServerManagerError A :=
  retry (context (fun status =>
    (if is_permanent (code status) then Permanent else Transient) (MethodCallError method status)) request).

(** The loop over [0..pending_inputs_max_retries]; sleeping is left out. *)
Fixpoint wait_loop (n : nat) (epoch_index : Z) : M S ServerManagerError (list ProcessedInput) :=
  match n with
  | O => fail PendingInputsExceededError
  | Datatypes.S n =>
      response ← grpc_call "get_epoch_status" (sm_get_epoch_status (session_id config) epoch_index);
      if ges_pending_input_count response >? 0 then wait_loop n epoch_index
      else mret (ges_processed_inputs response)
  end.

Definition wait_for_pending_inputs (epoch_index : Z) : M S ServerManagerError (list ProcessedInput) :=
  wait_loop (Z.to_nat (pending_inputs_max_retries config)) epoch_index.

Definition new (connect : string -> M S string unit) : M S ServerManagerError unit :=
  context SmConnectionError (retry (context Transient (connect (server_manager_endpoint config)))) ;;
  response ← grpc_call "get_status" sm_get_status;
  (if bool_decide (session_id config ∈ response) then
     session_status ← grpc_call "get_session_status" (sm_get_session_status (session_id config));
     let active_epoch_index := gss_active_epoch_index session_status in
     processed ← wait_for_pending_inputs active_epoch_index;
     let processed_input_count_within_epoch := Z.of_nat (length processed) in
     _ ← grpc_call "finish_epoch" (sm_finish_epoch
           (mkFinishEpochRequest (session_id config) active_epoch_index
              processed_input_count_within_epoch ""));
     grpc_call "end_session" (sm_end_session (session_id config))
   else mret tt) ;;
  grpc_call "start_session" (sm_start_session
    (mkStartSessionRequest (session_id config) (machine_snapshot_path config)
       (Some (runtime_config config)) 0 0 (Some (cycles_config config)) (Some (deadline_config config)))).

(** The outputs that the facade makes of a processed input. *)
Fixpoint convert_vouchers (input_index index : Z) (vouchers : list GrpcVoucher)
    : outcome ServerManagerError (list RollupsOutput) :=
  match vouchers with
  | [] => Ok []
  | v :: vouchers =>
      destination ← (SmConversions.get_field "voucher.destination" (gv_destination v) ≫= SmConversions.convert_address);
      rest ← convert_vouchers input_index (index + 1) vouchers;
      Ok (Voucher (mkRollupsVoucher index input_index destination (gv_payload v)) :: rest)
  end.

Definition convert_processed_input (current_input_index : Z) (processed_input : ProcessedInput)
    : outcome ServerManagerError (list RollupsOutput) :=
  let result := AdvanceResult (mkRollupsAdvanceResult current_input_index
    (SmConversions.convert_completion_status (pi_status processed_input))) in
  let reports := imap (fun index r =>
    Report (mkRollupsReport (Z.of_nat index) current_input_index (gr_payload r))) (pi_reports processed_input) in
  accepted ←
    match processed_input_one_of processed_input with
    | Some (AcceptedData vouchers notices) =>
        vs ← convert_vouchers current_input_index 0 vouchers;
        Ok (vs ++ imap (fun index n =>
              Notice (mkRollupsNotice (Z.of_nat index) current_input_index (gn_payload n))) notices)
    | _ => Ok []
    end;
  Ok (result :: reports ++ accepted).

Definition advance_state (active_epoch_index current_input_index : Z) (input_metadata : InputMetadata)
    (input_payload : list byte) : M S ServerManagerError (list RollupsOutput) :=
  grpc_call "advance_state" (sm_advance_state
    (mkGrpcAdvanceStateRequest (session_id config) active_epoch_index current_input_index
       (Some (mkGrpcInputMetadata (Some (mkGrpcAddress (msg_sender input_metadata)))
          (block_number input_metadata) (timestamp input_metadata)
          (im_epoch_index input_metadata) (input_index input_metadata)))
       input_payload)) ;;
  processed ← wait_for_pending_inputs active_epoch_index;
  processed_input ← lift (ok_or (last processed) MissingProcessedInputError);
  lift (ensure (pi_input_index processed_input =? current_input_index)
          (InvalidProcessedInputError current_input_index (pi_input_index processed_input))) ;;
  lift (convert_processed_input current_input_index processed_input).

Definition finish_epoch (epoch_index : Z) : M S ServerManagerError (RollupsClaim * list RollupsOutput) :=
  processed_inputs ← wait_for_pending_inputs epoch_index;
  let processed_input_count_within_epoch := Z.of_nat (length processed_inputs) in
  response ← grpc_call "finish_epoch" (sm_finish_epoch
    (mkFinishEpochRequest (session_id config) epoch_index processed_input_count_within_epoch ""));
  '(first_input, last_input) ← lift (ok_or
    (match head processed_inputs, last processed_inputs with
     | Some f, Some l => Some (f, l)
     | _, _ => None
     end) (EmptyEpochError epoch_index));
  vouchers_metadata_hash ← lift (SmConversions.get_field "response.vouchers_epoch_root_hash"
    (fep_vouchers_epoch_root_hash response) ≫= SmConversions.convert_hash);
  notices_metadata_hash ← lift (SmConversions.get_field "response.notices_epoch_root_hash"
    (fep_notices_epoch_root_hash response) ≫= SmConversions.convert_hash);
  machine_state_hash ← lift (SmConversions.get_field "response.machine_hash"
    (fep_machine_hash response) ≫= SmConversions.convert_hash);
  let epoch_hash := compute_epoch_hash vouchers_metadata_hash notices_metadata_hash machine_state_hash in
  proofs ← lift (collect SmConversions.convert_proof (fep_proofs response));
  mret (mkRollupsClaim dapp_address epoch_index epoch_hash
          (pi_input_index first_input) (pi_input_index last_input), Proof_ <$> proofs).
End Facade.
End ServerManagerFacade.

(** ** [BrokerFacade] *)

Module RunnerBroker.
Inductive BrokerFacadeError :=
| BrokerInternalError (source : BrokerError)
| ConsumeError (source : BrokerError)
| FindFinishEpochInputError (epoch : Z)
| ProcessedEventNotFound
| ParentIdMismatchError (expected got : string).

Record BrokerFacade := mkBrokerFacade {
  inputs_stream : string;
  outputs_stream : string;
  claims_stream : string;
  reader_mode : bool;
  last_id : string;
}.

Definition set_last_id (id : string) (f : BrokerFacade) : BrokerFacade :=
  mkBrokerFacade (inputs_stream f) (outputs_stream f) (claims_stream f) (reader_mode f) id.

Section Ops.
Context {R : Type} `{Redis R, Retry, HexCrate}.
Context `{Json RollupsInput, Json RollupsOutput, Json RollupsClaim}.
Variable consume_timeout : Z.

Definition new (connect_single : string -> M R RedisError unit)
    (connect_cluster : list string -> M R RedisError unit) (redis_endpoint : BrokerEndpoint)
    (dapp_metadata : DAppMetadata) (reader_mode : bool) : M R BrokerFacadeError BrokerFacade :=
  context BrokerInternalError (Broker.new connect_single connect_cluster redis_endpoint) ;;
  mret (mkBrokerFacade (RollupsInputsStream_new dapp_metadata) (RollupsOutputsStream_new dapp_metadata)
          (RollupsClaimsStream_new (chain_id dapp_metadata)) reader_mode INITIAL_ID).

(** [None]: no event came within [polls] timeouts. *)
Definition consume_input (polls : nat) : M (BrokerFacade * R) BrokerFacadeError (option RollupsInput) :=
  '(f, _) ← get;
  event ← on_snd (context BrokerInternalError
    (Broker.consume_blocking consume_timeout polls (inputs_stream f) (last_id f)));
  match event with
  | None => mret None
  | Some event =>
      if negb (String.eqb (parent_id (event_payload event)) (last_id f)) then
        fail (ParentIdMismatchError (last_id f) (parent_id (event_payload event)))
      else
        on_fst (modify (set_last_id (event_id event))) ;;
        mret (Some (event_payload event))
  end.

Definition produce_rollups_claim (rollups_claim : RollupsClaim)
    : M (BrokerFacade * R) BrokerFacadeError unit :=
  '(f, _) ← get;
  if reader_mode f then mret tt
  else
    result ← on_snd (context BrokerInternalError (Broker.peek_latest (P := RollupsClaim) (claims_stream f)));
    let claim_produced :=
      match result with
      | Some event => rc_epoch_index rollups_claim <=? rc_epoch_index (event_payload event)
      | None => false
      end in
    if negb claim_produced then
      _ ← on_snd (context BrokerInternalError (Broker.produce (claims_stream f) rollups_claim));
      mret tt
    else mret tt.

Definition produce_outputs (outputs : list RollupsOutput) : M (BrokerFacade * R) BrokerFacadeError unit :=
  '(f, _) ← get;
  for_each outputs (fun output =>
    _ ← on_snd (context BrokerInternalError (Broker.produce (outputs_stream f) output));
    mret tt).
End Ops.
End RunnerBroker.

(** ** [Runner] *)

Module Runner.
Inductive RunnerError :=
| AdvanceError (source : ServerManagerError)
| FinishEpochError (source : ServerManagerError)
| GetEpochClaimError (source : ServerManagerError)
| FindFinishEpochInputError (source : RunnerBroker.BrokerFacadeError)
| ConsumeInputError (source : RunnerBroker.BrokerFacadeError)
| PeekClaimError (source : RunnerBroker.BrokerFacadeError)
| ProduceClaimError (source : RunnerBroker.BrokerFacadeError)
| ProduceOutputsError (source : RunnerBroker.BrokerFacadeError).

Section Ops.
Context {S R : Type} `{ServerManager S, Redis R, Retry, Keccak}.
Context `{Json RollupsInput, Json RollupsOutput, Json RollupsClaim}.
Variables (consume_timeout : Z) (dapp_address : Address) (config : ServerManagerFacade.Config).

(** The state of the server-manager, and the broker with its facade. *)
Abbreviation State := (S * (RunnerBroker.BrokerFacade * R))%type.

Definition handle_advance (epoch_index inputs_sent_count : Z) (input_metadata : InputMetadata)
    (input_payload : list byte) : M State RunnerError unit :=
  let input_index := inputs_sent_count ⊟ 1 in
  outputs ← on_fst (context AdvanceError
    (ServerManagerFacade.advance_state config epoch_index input_index input_metadata input_payload));
  on_snd (context ProduceOutputsError (RunnerBroker.produce_outputs outputs)).

Definition handle_finish (epoch_index : Z) : M State RunnerError unit := fun s =>
  match on_fst (ServerManagerFacade.finish_epoch dapp_address config epoch_index) s with
  | (Ok (rollups_claim, proofs), s') =>
      (on_snd (context ProduceOutputsError (RunnerBroker.produce_outputs proofs)) ;;
       on_snd (context ProduceClaimError (RunnerBroker.produce_rollups_claim rollups_claim))) s'
  | (Err (EmptyEpochError _), s') => (Ok tt, s')
  | (Err source, s') => (Err (FinishEpochError source), s')
  | (Panic, s') => (Panic, s')
  end.

(** What the main loop does with an event. *)
Definition handle_event (event : RollupsInput) : M State RunnerError unit :=
  match ri_data event with
  | AdvanceStateInput input =>
      handle_advance (ri_epoch_index event) (inputs_sent_count event)
        (rai_metadata input) (rai_payload input)
  | FinishEpoch => handle_finish (ri_epoch_index event)
  end.

(** One turn of the main loop; [false] when no event came. *)
Definition turn (polls : nat) : M State RunnerError bool :=
  event ← on_snd (context ConsumeInputError (RunnerBroker.consume_input consume_timeout polls));
  match event with
  | None => mret false
  | Some event => handle_event event ;; mret true
  end.

(** The main loop, for as many events as [fuel]; the number of events handled. *)
Fixpoint start (fuel polls : nat) : M State RunnerError nat :=
  match fuel with
  | O => mret O
  | Datatypes.S fuel =>
      handled ← turn polls;
      if handled : bool then n ← start fuel polls; mret (Datatypes.S n) else mret O
  end.
End Ops.
End Runner.

(** ** The service *)

Module Service.
Inductive AdvanceRunnerError :=
| HealthCheckError (source : string)
| ServerManagerError_ (source : ServerManagerError)
| BrokerError_ (source : RunnerBroker.BrokerFacadeError)
| RunnerError_ (source : Runner.RunnerError).

Section Start.
Context {S R : Type} `{ServerManager S, Redis R, Retry, Keccak, HexCrate}.
Context `{Json RollupsInput, Json RollupsOutput, Json RollupsClaim}.
(** [ServerManagerClient::connect], and the clients of the broker *)
Variables (connect : string -> M S string unit) (connect_single : string -> M R RedisError unit)
  (connect_cluster : list string -> M R RedisError unit).
(** The fields of [AdvanceRunnerConfig]; [retry] is built with the time limit. *)
Variables (server_manager_config : ServerManagerFacade.Config) (redis_endpoint : BrokerEndpoint) (consume_timeout : Z)
  (dapp_metadata : DAppMetadata) (reader_mode : bool).

Definition run_with (broker : RunnerBroker.BrokerFacade) (fuel polls : nat) : M (S * R) Runner.RunnerError nat := fun s =>
  let '(o, s') := Runner.start consume_timeout (dapp_address dapp_metadata) server_manager_config fuel polls
    (s.1, (broker, s.2)) in
  (o, (s'.1, s'.2.2)).

(** What [start_advance_runner] does before the main loop *)
Definition setup : M (S * R) AdvanceRunnerError RunnerBroker.BrokerFacade :=
  on_fst (context ServerManagerError_ (ServerManagerFacade.new server_manager_config connect)) ;;
  on_snd (context BrokerError_
    (RunnerBroker.new connect_single connect_cluster redis_endpoint dapp_metadata reader_mode)).

Definition start_advance_runner (fuel polls : nat) : M (S * R) AdvanceRunnerError nat :=
  broker ← setup;
  context RunnerError_ (run_with broker fuel polls).
End Start.
End Service.

(** ** Properties of the server-manager facade *)

Section FacadeTheorems.
Context {S : Type} `{SM : ServerManager S} `{RT : RetryLaws} `{KC : Keccak}.
Variables (dapp_address : Address) (config : ServerManagerFacade.Config).
Import ServerManagerFacade.

Lemma lift_ok {T E A} (o : outcome E A) (s : T) a s' : lift o s = (Ok a, s') <-> o = Ok a /\ s' = s.
Proof. unfold lift. split; [by intros [= -> ->]|by intros [-> ->]]. Qed.

(** The loop stops at the first response without pending inputs. *)
Lemma wait_loop_ok n e s ps s' :
  wait_loop config n e s = (Ok ps, s') ->
  exists resp s1, grpc_call "get_epoch_status" (sm_get_epoch_status (session_id config) e) s1 = (Ok resp, s') /\
    ges_pending_input_count resp <= 0 /\ ps = ges_processed_inputs resp.
Proof.
  revert s. induction n as [|n IH]; intros s; cbn [wait_loop]; [done|].
  intros (resp & s1 & Hc & Hw)%M_bind_ok. destruct (Z.gtb_spec (ges_pending_input_count resp) 0).
  - by apply IH in Hw.
  - injection Hw as <- <-. eauto.
Qed.

(** [wait_for_pending_inputs] returns the processed inputs of a status in
    which no input is pending; when the server-manager always has pending
    inputs it gives up after the configured number of status requests. *)
Theorem wait_for_pending_inputs_spec e s :
  (forall ps s', wait_for_pending_inputs config e s = (Ok ps, s') ->
     exists resp s1, grpc_call "get_epoch_status" (sm_get_epoch_status (session_id config) e) s1 = (Ok resp, s') /\
       ges_pending_input_count resp <= 0 /\ ps = ges_processed_inputs resp) /\
  ((forall s1, exists resp s2,
      grpc_call "get_epoch_status" (sm_get_epoch_status (session_id config) e) s1 = (Ok resp, s2) /\
      0 < ges_pending_input_count resp) ->
   (wait_for_pending_inputs config e s).1 = Err PendingInputsExceededError).
Proof.
  unfold wait_for_pending_inputs. split; [intros ps s'; apply wait_loop_ok|]. intros Hpending.
  generalize (Z.to_nat (pending_inputs_max_retries config)) as n. intros n. revert s.
  induction n as [|n IH]; intros s; cbn [wait_loop]; [done|]. unfold mbind, M_bind.
  destruct (Hpending s) as (resp & s2 & -> & Hp). rewrite (proj2 (Z.gtb_lt _ _)) by lia. apply IH.
Qed.

(** Vouchers keep their order, their position is their index. *)
Lemma convert_vouchers_ok input_index index vs outs :
  convert_vouchers input_index index vs = Ok outs ->
  exists ds, length ds = length vs /\
    Forall2 (fun d v => gv_destination v = Some (mkGrpcAddress d) /\ length d = Common.ADDRESS_SIZE) ds vs /\
    outs = imap (fun k '(d, v) =>
      Voucher (mkRollupsVoucher (index + Z.of_nat k) input_index d (gv_payload v))) (zip ds vs).
Proof.
  revert index outs. induction vs as [|v vs IH]; intros index outs; cbn [convert_vouchers].
  { intros [= <-]. exists []. by repeat constructor. }
  unfold SmConversions.get_field, SmConversions.convert_address.
  destruct (gv_destination v) as [[d]|] eqn:Hd; cbn; [|done].
  destruct (Nat.eqb_spec (length d) Common.ADDRESS_SIZE) as [Hl|]; cbn; [|done].
  destruct (convert_vouchers input_index (index + 1) vs) as [rest| |] eqn:Hr; cbn; [|done|done].
  intros [= <-]. apply IH in Hr as (ds & Hlen & Hall & ->). exists (d :: ds). split; [cbn; lia|].
  split; [by constructor|]. cbn. rewrite Z.add_0_r. f_equal. apply imap_ext.
  intros k [d' v'] _. cbn. f_equal. f_equal. lia.
Qed.

(** The outputs that a processed input should give. *)
Definition outputs_spec (idx : Z) (p : ProcessedInput) (ds : list Address) : list RollupsOutput :=
  AdvanceResult (mkRollupsAdvanceResult idx (SmConversions.convert_completion_status (pi_status p))) ::
  imap (fun k r => Report (mkRollupsReport (Z.of_nat k) idx (gr_payload r))) (pi_reports p) ++
  match processed_input_one_of p with
  | Some (AcceptedData vs ns) =>
      imap (fun k '(d, v) => Voucher (mkRollupsVoucher (Z.of_nat k) idx d (gv_payload v))) (zip ds vs) ++
      imap (fun k n => Notice (mkRollupsNotice (Z.of_nat k) idx (gn_payload n))) ns
  | _ => []
  end.

(** A successful [advance_state] returns the outputs of the input that was
    sent: first its result, then its reports, vouchers and notices, each kind
    numbered from zero, all under the input's index, and the last two only when
    the input was accepted. *)
Theorem advance_state_outputs epoch idx md payload s outs s' :
  advance_state config epoch idx md payload s = (Ok outs, s') ->
  exists p ds, pi_input_index p = idx /\ outs = outputs_spec idx p ds /\
    match processed_input_one_of p with
    | Some (AcceptedData vs _) =>
        Forall2 (fun d v => gv_destination v = Some (mkGrpcAddress d) /\ length d = Common.ADDRESS_SIZE) ds vs
    | _ => ds = []
    end.
Proof.
  unfold advance_state. intros (? & s1 & _ & Ha)%M_bind_ok. apply M_bind_ok in Ha as (ps & s2 & _ & Ha).
  apply M_bind_ok in Ha as (p & s3 & _ & Ha). apply M_bind_ok in Ha as (? & s4 & [He ->]%lift_ok & Ha).
  apply lift_ok in Ha as [Ha _]. unfold ensure in He. destruct (Z.eqb_spec (pi_input_index p) idx); [|done].
  unfold convert_processed_input in Ha. unfold outputs_spec. exists p.
  destruct (processed_input_one_of p) as [[vs ns|data]|]; [|injection Ha as <-; by exists []..].
  destruct (convert_vouchers idx 0 vs) as [vouts| |] eqn:Hv; cbn in Ha; [|done|done].
  apply convert_vouchers_ok in Hv as (ds & _ & Hall & ->). injection Ha as <-. by exists ds.
Qed.

Lemma get_hash_ok name field h :
  (SmConversions.get_field name field ≫= SmConversions.convert_hash) = Ok h ->
  field = Some (mkGrpcHash h) /\ length h = Common.HASH_SIZE.
Proof.
  unfold SmConversions.get_field, SmConversions.convert_hash. destruct field as [[d]|]; cbn; [|done].
  destruct (Nat.eqb_spec (length d) Common.HASH_SIZE); cbn; [|done]. by intros [= <-].
Qed.

Lemma collect_ok {E A B} (f : A -> outcome E B) l ys :
  collect f l = Ok ys -> Forall2 (fun x y => f x = Ok y) l ys.
Proof.
  revert ys. induction l as [|x l IH]; intros ys; cbn; [intros [= <-]; constructor|].
  destruct (f x) as [y| |] eqn:Hx; cbn; [|done|done].
  destruct (collect f l) as [zs| |]; cbn; [|done|done]. intros [= <-]. constructor; auto.
Qed.

(** A run of [finish_epoch], call by call. *)
Lemma finish_epoch_run epoch s claim proofs s' :
  finish_epoch dapp_address config epoch s = (Ok (claim, proofs), s') ->
  exists ps first last_ resp s1 vouchers notices machine rps,
    wait_for_pending_inputs config epoch s = (Ok ps, s1) /\
    head ps = Some first /\ last ps = Some last_ /\
    grpc_call "finish_epoch" (sm_finish_epoch (mkFinishEpochRequest (session_id config) epoch
      (Z.of_nat (length ps)) "")) s1 = (Ok resp, s') /\
    fep_vouchers_epoch_root_hash resp = Some (mkGrpcHash vouchers) /\
    fep_notices_epoch_root_hash resp = Some (mkGrpcHash notices) /\
    fep_machine_hash resp = Some (mkGrpcHash machine) /\
    claim = mkRollupsClaim dapp_address epoch (keccak256 (vouchers ++ notices ++ machine))
      (pi_input_index first) (pi_input_index last_) /\
    Forall2 (fun p rp => SmConversions.convert_proof p = Ok rp) (fep_proofs resp) rps /\
    proofs = Proof_ <$> rps.
Proof.
  unfold finish_epoch. intros (ps & s1 & Hps & Hf)%M_bind_ok.
  apply M_bind_ok in Hf as (resp & s2 & Hresp & Hf). apply M_bind_ok in Hf as ([f l] & s3 & [Hfl ->]%lift_ok & Hf).
  apply M_bind_ok in Hf as (vh & s4 & [Hv ->]%lift_ok & Hf). apply M_bind_ok in Hf as (nh & s5 & [Hn ->]%lift_ok & Hf).
  apply M_bind_ok in Hf as (mh & s6 & [Hm ->]%lift_ok & Hf).
  apply M_bind_ok in Hf as (rps & s7 & [Hc ->]%lift_ok & Hf). injection Hf as <- <- <-.
  apply get_hash_ok in Hv as [Hv _], Hn as [Hn _], Hm as [Hm _]. apply collect_ok in Hc.
  unfold ok_or in Hfl. destruct (head ps) as [f'|] eqn:Hhd; [|done].
  destruct (last ps) as [l'|] eqn:Hlt; [|done]. injection Hfl as -> ->.
  exists ps, f, l, resp, s1, vh, nh, mh, rps. done.
Qed.

(** C18. The claim of a finished epoch hashes the voucher root, the notice root
    and the machine hash that the server-manager answered, in this order, and
    covers the epoch's inputs from the first to the last; the proofs are the
    server-manager's, in its order. *)
Theorem finish_epoch_claim epoch s claim proofs s' :
  finish_epoch dapp_address config epoch s = (Ok (claim, proofs), s') ->
  exists ps first last_ resp s1 vouchers notices machine rps,
    wait_for_pending_inputs config epoch s = (Ok ps, s1) /\
    head ps = Some first /\ last ps = Some last_ /\
    grpc_call "finish_epoch" (sm_finish_epoch (mkFinishEpochRequest (session_id config) epoch
      (Z.of_nat (length ps)) "")) s1 = (Ok resp, s') /\
    fep_vouchers_epoch_root_hash resp = Some (mkGrpcHash vouchers) /\
    fep_notices_epoch_root_hash resp = Some (mkGrpcHash notices) /\
    fep_machine_hash resp = Some (mkGrpcHash machine) /\
    claim = mkRollupsClaim dapp_address epoch (keccak256 (vouchers ++ notices ++ machine))
      (pi_input_index first) (pi_input_index last_) /\
    Forall2 (fun p rp => SmConversions.convert_proof p = Ok rp) (fep_proofs resp) rps /\
    proofs = Proof_ <$> rps.
Proof. apply finish_epoch_run. Qed.
End FacadeTheorems.

(** ** Properties of the claims stream *)

Section ClaimTheorems.
Context {R : Type} `{RL : RedisLaws R} `{RT : RetryLaws} `{JC : JsonLaws RollupsClaim}.
Context `{Json RollupsInput, Json RollupsOutput}.
Import RunnerBroker.

(** The claims stored in the stream, in order of epoch. *)
Definition claims_ok (k : string) (cs : list RollupsClaim) (r : R) : Prop :=
  Forall2 holds (entries r k) cs /\
  StronglySorted (fun a b => rc_epoch_index a < rc_epoch_index b) cs.

Lemma claims_ok_last k cs r : claims_ok k cs r ->
  match last (entries r k) with
  | Some e => exists c, holds e c /\ last cs = Some c
  | None => last cs = None
  end.
Proof.
  intros [Hall _]. destruct (entries r k) as [|e l _] using rev_ind.
  - apply Forall2_nil_inv_l in Hall. by subst.
  - rewrite last_snoc. apply Forall2_app_inv_l in Hall as (cs1 & cs2 & _ & Hc2 & ->).
    apply Forall2_cons_inv_l in Hc2 as (c & ? & Hc & ->%Forall2_nil_inv_l & ->).
    exists c. by rewrite last_snoc.
Qed.

Lemma claims_ok_snoc k cs r r' e c :
  claims_ok k cs r -> entries r' k = entries r k ++ [e] -> holds e c ->
  (forall c', last cs = Some c' -> rc_epoch_index c' < rc_epoch_index c) ->
  claims_ok k (cs ++ [c]) r'.
Proof.
  intros [Hall Hs] Hr He Hlt. split.
  - rewrite Hr. by apply Forall2_app; [|constructor].
  - apply StronglySorted_app. split; [|split; [done|by repeat constructor]].
    intros x y Hx Hy. apply list_elem_of_singleton in Hy as ->.
    destruct cs as [|c' cs _] using rev_ind; [by apply not_elem_of_nil in Hx|].
    specialize (Hlt c'). rewrite last_snoc in Hlt. specialize (Hlt eq_refl).
    apply elem_of_app in Hx as [Hx| ->%list_elem_of_singleton]; [|done].
    apply StronglySorted_app in Hs as (Hs & _). specialize (Hs x c' Hx ltac:(left)). lia.
Qed.

(** Storing a claim, or finding that it is there. *)
Lemma wp_claim_increasing `{AA : !RedisAtomicAdd R owned} f r cs claim :
  owned (claims_stream f) -> claims_ok (claims_stream f) cs r ->
  wp (produce_rollups_claim claim) (f, r)
    (fun _ '(f', r') => (f' = f /\
       let fresh := match last cs with
                    | Some c => rc_epoch_index c <? rc_epoch_index claim
                    | None => true end in
       claims_ok (claims_stream f)
         (if negb (reader_mode f) && fresh then cs ++ [claim] else cs) r') /\
       forall k, owned k -> k <> claims_stream f -> entries r' k = entries r k)
    (fun e '(f', r') => (f' = f /\ claims_ok (claims_stream f) cs r' /\
       exists x, e = BrokerInternalError (ConnectionError x)) /\
       forall k, owned k -> k <> claims_stream f -> entries r' k = entries r k).
Proof.
  intros Hk Hcs. unfold produce_rollups_claim. wp_run. cbn.
  destruct (reader_mode f); cbn [negb andb]; [by wp_run|]. wp_run.
  assert (Hframe : forall r', grows owned r r' -> forall k, owned k -> k <> claims_stream f -> entries r' k = entries r k).
  { intros r' Hg k Ho _. by apply Hg. }
  assert (Hsame : forall r', grows owned r r' -> claims_ok (claims_stream f) cs r').
  { intros r' Hg. unfold claims_ok. by rewrite (proj2 (Hg _) Hk). }
  assert (Happ : forall r1, grows owned r r1 ->
    (forall c', last cs = Some c' -> rc_epoch_index c' < rc_epoch_index claim) ->
    wp (Broker.produce (claims_stream f) claim) r1
      (fun _ r' => claims_ok (claims_stream f) (cs ++ [claim]) r' /\
         forall k, owned k -> k <> claims_stream f -> entries r' k = entries r k)
      (fun e r' => grows owned r r' /\ exists x, e = ConnectionError x)).
  { intros r1 Hg Hlt. apply wp_produce_atomic; [done| |].
    - intros e r' He Hr Hoth. split; [by apply (claims_ok_snoc _ cs r1 r' e claim); auto|].
      intros k Ho Hne. rewrite Hoth by done. by apply Hg.
    - intros e r' Hg'. split; [by etrans|]. eauto. }
  assert (Hlast' : forall r1, grows owned r r1 ->
    (forall c', last cs = Some c' -> rc_epoch_index c' < rc_epoch_index claim) ->
    wp (_ ← on_snd (context BrokerInternalError (Broker.produce (claims_stream f) claim)); mret tt) (f, r1)
      (fun _ '(f', r') => (f' = f /\ claims_ok (claims_stream f) (cs ++ [claim]) r') /\
         forall k, owned k -> k <> claims_stream f -> entries r' k = entries r k)
      (fun e '(f', r') => (f' = f /\ claims_ok (claims_stream f) cs r' /\
         exists x, e = BrokerInternalError (ConnectionError x)) /\
         forall k, owned k -> k <> claims_stream f -> entries r' k = entries r k)).
  { intros r1 Hg Hlt. wp_run. eapply wp_mono; [by apply Happ| |].
    - intros id r' [? ?]. by wp_run.
    - intros e' r' [Hg' [x ->]]. cbn. split; [by eauto|by apply Hframe]. }
  apply wp_peek_latest; [done| |by eauto 8].
  pose proof (claims_ok_last _ _ _ Hcs) as Hlast.
  destruct (last (entries r (claims_stream f))) as [e|].
  - destruct Hlast as (c & Hc & Hl). rewrite Hl. exists c. split; [done|]. intros r1 Hg. cbn [event_payload].
    destruct (Z.leb_spec (rc_epoch_index claim) (rc_epoch_index c)); cbn [negb].
    + rewrite (proj2 (Z.ltb_ge _ _)) by lia. wp_run. auto.
    + rewrite (proj2 (Z.ltb_lt _ _)) by lia. apply Hlast'; [done|]. intros c' Hc'. rewrite Hl in Hc'. injection Hc' as <-. lia.
  - rewrite Hlast. intros r1 Hg. cbn [negb]. apply Hlast'; [done|]. intros c' Hc'. by rewrite Hlast in Hc'.
Qed.

(** The claims stream never holds two claims of one epoch, and its epochs
    only grow: [produce_rollups_claim] appends the claim when its epoch is
    after the latest one and does nothing otherwise; a reader never appends. *)
Theorem produce_rollups_claim_increasing `{AA : !RedisAtomicAdd R owned} f r cs claim :
  owned (claims_stream f) -> claims_ok (claims_stream f) cs r ->
  wp (produce_rollups_claim claim) (f, r)
    (fun _ '(f', r') => f' = f /\
       let fresh := match last cs with
                    | Some c => rc_epoch_index c <? rc_epoch_index claim
                    | None => true end in
       claims_ok (claims_stream f)
         (if negb (reader_mode f) && fresh then cs ++ [claim] else cs) r')
    (fun e '(f', r') => f' = f /\ claims_ok (claims_stream f) cs r' /\
       exists x, e = BrokerInternalError (ConnectionError x)).
Proof.
  intros Hk Hcs. eapply wp_mono; [by apply wp_claim_increasing|..]; by intros ? [f' r'] [? _].
Qed.

(** C37. The claims stream is shared by the dapps of a chain, but the test for
    an already produced claim looks at the epoch index of the latest claim only:
    a claim of another dapp with a later epoch makes [produce_rollups_claim]
    report success without storing the claim. *)
Theorem claim_dropped_for_other_dapp f r e claim other :
  owned (claims_stream f) -> last (entries r (claims_stream f)) = Some e -> holds e other ->
  rc_dapp_address other <> rc_dapp_address claim ->
  rc_epoch_index claim <= rc_epoch_index other ->
  wp (produce_rollups_claim claim) (f, r)
    (fun _ '(_, r') => entries r' (claims_stream f) = entries r (claims_stream f))
    (fun err _ => exists x, err = BrokerInternalError (ConnectionError x)).
Proof.
  intros Hk Hlast Hother Hne Hle. unfold produce_rollups_claim. wp_run. cbn.
  destruct (reader_mode f); wp_run; [done|]. apply wp_peek_latest; [done| |eauto].
  rewrite Hlast. exists other. split; [done|]. intros r' Hg. cbn [event_payload].
  rewrite (proj2 (Z.leb_le _ _) Hle). cbn [negb]. wp_run. by apply Hg.
Qed.
End ClaimTheorems.

(** ** Properties of the main loop *)

Section RunnerTheorems.
Context {S R : Type} `{SM : ServerManager S} `{RL : RedisLaws R} `{RT : RetryLaws} `{KC : Keccak}.
Context `{JI : JsonLaws RollupsInput} `{JO : JsonLaws RollupsOutput} `{JC : JsonLaws RollupsClaim}.
Variables (timeout : Z) (dapp_address : Address) (config : ServerManagerFacade.Config) (key : string).
Import RunnerBroker.

(** Streams are append-only. *)
Definition ext (r r' : R) : Prop := forall k, entries r k `prefix_of` entries r' k.

#[export] Instance ext_preorder : PreOrder ext.
Proof. split; [by intros r k|]. intros r1 r2 r3 G12 G23 k. etrans; [apply G12|apply G23]. Qed.

Lemma grows_ext r r' : grows owned r r' -> ext r r'.
Proof. intros Hg k. apply Hg. Qed.

Lemma retried_ext k m r r' : retried (owned := owned) k m r r' -> ext r r'.
Proof.
  intros (Ho & Hp & _) k'. destruct (decide (k' = k)) as [->|Hk']; [done|]. by apply Ho.
Qed.

Lemma wp_produce_ext {P} `{JsonLaws P} k (p : P) r :
  wp (Broker.produce k p) r (fun _ r' => ext r r') (fun _ r' => ext r r').
Proof.
  unfold Broker.produce. destruct (json_roundtrip p) as (s & Hto & _). wp_run. rewrite Hto. wp_run.
  apply (wp_xadd (owned := owned)); [|intros e r'; apply retried_ext].
  intros id r1 r' Hr Heq Hsnoc k'. etrans; [by eapply retried_ext|].
  destruct (decide (k' = k)) as [->|Hk']; [|by rewrite (Heq k' Hk')]. rewrite Hsnoc. by apply prefix_app_r.
Qed.

(** The inputs stream, as the dispatcher writes it. *)
Definition inputs_ok (r : R) : Prop := exists evs,
  Forall2 (fun e ev => event_id ev = sid e /\ holds e (event_payload ev)) (entries r key) evs /\
  stream_wf INITIAL_ID 0 0 evs.

(** The runner has consumed the first [n] events. *)
Definition at_pos (n : nat) (f : BrokerFacade) (r : R) : Prop :=
  inputs_stream f = key /\ (n <= length (entries r key))%nat /\
  last_id f = Broker.last_id (take n (entries r key)).

Lemma at_pos_prefix n f r r' : entries r key `prefix_of` entries r' key -> at_pos n f r -> at_pos n f r'.
Proof.
  intros [more Hmore] (Hk & Hn & Hid). split; [done|].
  rewrite Hmore, length_app. split; [lia|]. rewrite take_app_le by lia. done.
Qed.

Lemma at_pos_ext n f r r' : ext r r' -> at_pos n f r -> at_pos n f r'.
Proof. intros He. by apply at_pos_prefix. Qed.

Lemma inputs_ok_holds r e : inputs_ok r -> e ∈ entries r key -> exists p : RollupsInput, holds e p.
Proof.
  intros (evs & Hall & _) [n Hn]%list_elem_of_lookup.
  destruct (Forall2_lookup_l _ _ _ _ _ Hall Hn) as (ev & _ & _ & Hp). eauto.
Qed.

(** A prefix of a well-formed stream is one. *)
Lemma inputs_ok_prefix r r' : ext r r' -> inputs_ok r' -> inputs_ok r.
Proof.
  intros He (evs & Hall & Hwf). destruct (He key) as [more Hmore]. rewrite Hmore in Hall.
  apply Forall2_app_inv_l in Hall as (evs1 & evs2 & Hall & _ & ->). exists evs1. split; [done|].
  by apply stream_wf_app in Hwf as [? _].
Qed.

(** In a well-formed stream, the next event names the last consumed one. *)
Lemma inputs_ok_parent r n e es p :
  inputs_ok r -> (n <= length (entries r key))%nat -> drop n (entries r key) = e :: es -> holds e p ->
  parent_id p = Broker.last_id (take n (entries r key)).
Proof.
  intros (evs & Hall & Hwf) Hn Hd Hp.
  assert (Hsplit : entries r key = take n (entries r key) ++ e :: es) by by rewrite <- Hd, take_drop.
  rewrite Hsplit in Hall. apply Forall2_app_inv_l in Hall as (pre & post & Hpre & Hpost & ->).
  apply Forall2_cons_inv_l in Hpost as (ev & post' & [_ Hev] & _ & ->).
  apply stream_wf_parent in Hwf. unfold holds in Hp, Hev. rewrite Hev in Hp. injection Hp as <-.
  rewrite Hwf. unfold Broker.last_id. clear -Hpre.
  destruct (take n (entries r key)) as [|x l _] using rev_ind.
  - by apply Forall2_nil_inv_l in Hpre as ->.
  - apply Forall2_app_inv_l in Hpre as (pre1 & pre2 & _ & Hx & ->).
    apply Forall2_cons_inv_l in Hx as (ev & ? & [Hid _] & ->%Forall2_nil_inv_l & ->).
    by rewrite !last_snoc.
Qed.

(** The next event is the one at the cursor, which moves past it. The only
    errors on a well-formed stream are connection errors. *)
Lemma wp_consume_input polls n f r :
  at_pos n f r ->
  wp (consume_input timeout polls) (f, r)
    (fun o '(f', r') => grows owned r r' /\
       match o with
       | None => f' = f
       | Some p => at_pos (n + 1) f' r' /\
           exists e, entries r' key !! n = Some e /\ holds e p /\ f' = set_last_id (sid e) f
       end)
    (fun err '(f', r') => grows owned r r' /\ f' = f /\
       (inputs_ok r' -> exists x, err = BrokerInternalError (ConnectionError x))).
Proof.
  intros Hpos. unfold consume_input. wp_run. cbn. wp_run. pose proof Hpos as (Hk & _). rewrite Hk.
  eapply wp_mono; [apply (wp_consume_blocking (owned := owned))| |].
  - intros o r' [Hg Hpoll]. pose proof (grows_ext _ _ Hg) as He.
    destruct o as [event|]; [|by wp_run]. destruct Hpoll as (e & es & Hafter & Hid & Hp).
    apply (at_pos_ext _ _ _ _ He) in Hpos as (_ & Hn & Hlast). rewrite Hlast in Hafter.
    rewrite (entries_after_last_id r' key _ (drop n (entries r' key))) in Hafter
      by by rewrite take_drop.
    destruct (String.eqb_spec (parent_id (event_payload event)) (last_id f)) as [Heq|Hne]; cbn [negb]; wp_run.
    2:{ split; [done|]. split; [done|]. intros Hok. exfalso. apply Hne. rewrite Hlast.
        by apply (inputs_ok_parent r' n e es). }
    assert (Hlook : entries r' key !! n = Some e).
    { rewrite <- (take_drop n (entries r' key)), lookup_app_r; rewrite length_take; [|lia].
      rewrite Hafter. by replace (n - _)%nat with O by lia. }
    split; [done|]. split; [|exists e; by rewrite Hid]. split; [done|].
    split; [apply lookup_lt_Some in Hlook; lia|]. cbn. rewrite Hid. rewrite Nat.add_1_r, (take_S_r _ _ e Hlook). unfold Broker.last_id. by rewrite last_snoc.
  - intros err r' [Hg Herr]. split; [done|]. split; [done|]. intros Hok.
    destruct Herr as [[x ->]|(e & He & Herr)]; [eauto|].
    destruct (inputs_ok_holds r' e Hok He) as [p Hp]. unfold holds in Hp. by rewrite Hp in Herr.
Qed.

(** A server-manager that always answers. *)
Definition server_manager_total : Prop :=
  (forall r, safe (sm_advance_state (S := S) r)) /\ (forall r, safe (sm_finish_epoch (S := S) r)) /\
  (forall i e, safe (sm_get_epoch_status (S := S) i e)).
Hypothesis server_total : server_manager_total.

Lemma safe_grpc_call {A} name (m : M S Status A) : safe m -> safe (ServerManagerFacade.grpc_call name m).
Proof.
  intros Hm s. unfold ServerManagerFacade.grpc_call. apply (wp_retry (fun _ => True)); [done|].
  intros s1 _. wp_run. eapply wp_mono; [apply Hm|done|]. intros st s' _. by split.
Qed.

Lemma safe_wait n e : safe (ServerManagerFacade.wait_loop config n e).
Proof.
  induction n as [|n IH]; cbn [ServerManagerFacade.wait_loop]; [by intros s|].
  apply safe_bind; [apply safe_grpc_call, server_total|]. intros resp. by destruct (_ >? 0).
Qed.

Lemma get_field_total {A} name (o : option A) : is_panic (SmConversions.get_field name o) = false.
Proof. by destruct o. Qed.

Lemma convert_hash_total h : is_panic (SmConversions.convert_hash h) = false.
Proof. unfold SmConversions.convert_hash. by destruct (Nat.eqb _ _). Qed.

Lemma convert_proof_total p : is_panic (SmConversions.convert_proof p) = false.
Proof.
  unfold SmConversions.convert_proof, SmConversions.convert_validity.
  repeat first [apply outcome_bind_total; [|intros ?] | apply get_field_total | apply convert_hash_total
    | apply collect_total; intros ?]; done.
Qed.

Lemma convert_vouchers_total i n vs : is_panic (ServerManagerFacade.convert_vouchers i n vs) = false.
Proof.
  revert n. induction vs as [|v vs IH]; intros n; cbn [ServerManagerFacade.convert_vouchers]; [done|].
  apply outcome_bind_total.
  - apply outcome_bind_total; [apply get_field_total|]. intros a. unfold SmConversions.convert_address.
    by destruct (Nat.eqb _ _).
  - intros d. by apply outcome_bind_total.
Qed.

Lemma safe_advance_state e i md pl : safe (ServerManagerFacade.advance_state (S := S) config e i md pl).
Proof.
  unfold ServerManagerFacade.advance_state.
  apply safe_bind; [apply safe_grpc_call, server_total|]. intros _.
  apply safe_bind; [apply safe_wait|]. intros ps.
  apply safe_bind; [apply safe_lift; by destruct (last ps)|]. intros p.
  apply safe_bind; [apply safe_lift; unfold ensure; by destruct (_ =? _)|]. intros _.
  apply safe_lift. unfold ServerManagerFacade.convert_processed_input.
  apply outcome_bind_total; [|done]. destruct (processed_input_one_of p) as [[vs ns|d]|]; [|done|done].
  apply outcome_bind_total; [apply convert_vouchers_total|done].
Qed.

Lemma safe_finish_epoch e : safe (ServerManagerFacade.finish_epoch (S := S) dapp_address config e).
Proof.
  unfold ServerManagerFacade.finish_epoch. apply safe_bind; [apply safe_wait|]. intros ps.
  apply safe_bind; [apply safe_grpc_call, server_total|]. intros resp.
  apply safe_bind; [apply safe_lift; by destruct (head ps), (last ps)|]. intros [f l].
  do 3 (apply safe_bind; [apply safe_lift, outcome_bind_total;
    [apply get_field_total|intros ?; apply convert_hash_total]|intros ?]).
  apply safe_bind; [|intros ? s; done]. apply safe_lift, collect_total. apply convert_proof_total.
Qed.

(** Storing outputs and claims does not touch the cursor or the past. *)
Definition kept (f : BrokerFacade) (r : R) (s : BrokerFacade * R) : Prop := s.1 = f /\ ext r s.2.

Lemma wp_produce_outputs outs f r :
  wp (produce_outputs outs) (f, r) (fun _ => kept f r) (fun _ => kept f r).
Proof.
  unfold produce_outputs. wp_run. cbn.
  apply (wp_for_each (fun _ => kept f r)); [done|]. intros o outs' [f' r'] [Hf He]. cbn in Hf. subst f'. wp_run.
  eapply wp_mono; [apply wp_produce_ext| |]; cbn.
  - intros id r2 He2. wp_run. split; [done|]. cbn in *. by etrans.
  - intros e r2 He2. split; [done|]. cbn in *. by etrans.
Qed.

Lemma wp_produce_claim c f r :
  wp (produce_rollups_claim c) (f, r) (fun _ => kept f r) (fun _ => kept f r).
Proof.
  unfold produce_rollups_claim. wp_run. cbn. destruct (reader_mode f); wp_run; [done|].
  eapply wp_mono; [apply wp_peek_latest_grows| |].
  2:{ intros e r1 Hg. split; [done|]. by apply grows_ext. }
  intros o r1 Hg%grows_ext. destruct (negb _); wp_run; [|done].
  eapply wp_mono; [apply wp_produce_ext| |]; cbn.
  - intros id r2 He2. wp_run. split; [done|]. cbn in *. by etrans.
  - intros e r2 He2. split; [done|]. cbn in *. by etrans.
Qed.

(** Handling an event leaves the cursor and the past of the streams alone. *)
Lemma wp_handle_event p s f r :
  wp (Runner.handle_event dapp_address config p) (s, (f, r))
    (fun _ s' => kept f r s'.2)
    (fun err s' => kept f r s'.2 /\ forall e, err <> Runner.ConsumeInputError e).
Proof.
  unfold Runner.handle_event. destruct (ri_data p) as [input|].
  - unfold Runner.handle_advance. wp_run.
    eapply wp_mono; [apply safe_advance_state| |by intros ? ? _]. intros outs s1 _. wp_run.
    eapply wp_mono; [apply wp_produce_outputs|done|]. by intros ? ? ?.
  - unfold Runner.handle_finish, wp. pose proof (safe_finish_epoch (ri_epoch_index p) s) as Hf.
    unfold on_fst. unfold wp in Hf. cbn.
    destruct (ServerManagerFacade.finish_epoch dapp_address config (ri_epoch_index p) s)
      as [[[claim proofs]|err|] s1]; [|by destruct err|done].
    change (wp (on_snd (context Runner.ProduceOutputsError (produce_outputs proofs)) ;;
        on_snd (context Runner.ProduceClaimError (produce_rollups_claim claim))) (s1, (f, r))
      (fun _ s' => kept f r s'.2) (fun err s' => kept f r s'.2 /\ forall e, err <> Runner.ConsumeInputError e)).
    wp_run. eapply wp_mono; [apply wp_produce_outputs| |by intros ? ? ?].
    intros _ [f2 r2] [Hf2 He]. cbn in Hf2, He. subst f2. wp_run.
    eapply wp_mono; [apply wp_produce_claim| |]; intros ? [f3 r3] [Hf3 He3]; cbn in *; subst f3.
    + split; [done|]. cbn. by etrans.
    + split; [split; [done|]; cbn; by etrans|done].
Qed.

(** The server-manager went from [s] to [s'] by handling the events [ps], one
    after the other. *)
Inductive ran : S -> list RollupsInput -> S -> Prop :=
| ran_nil s : ran s [] s
| ran_cons s p s1 ps s2 (b b' : BrokerFacade * R) :
    Runner.handle_event dapp_address config p (s, b) = (Ok tt, (s1, b')) ->
    ran s1 ps s2 -> ran s (p :: ps) s2.

(** The errors of the inputs stream, which a well-formed stream excludes. *)
Definition stream_fault (err : Runner.RunnerError) : Prop :=
  exists e, err = Runner.ConsumeInputError e /\ forall x, e <> BrokerInternalError (ConnectionError x).

Lemma wp_turn polls n s f r :
  at_pos n f r ->
  wp (Runner.turn timeout dapp_address config polls) (s, (f, r))
    (fun handled '(s', (f', r')) => ext r r' /\
       if handled : bool then at_pos (n + 1) f' r' /\
         exists e p, entries r' key !! n = Some e /\ holds e p /\ ran s [p] s'
       else at_pos n f' r' /\ s' = s)
    (fun err '(_, (f', r')) => ext r r' /\ (exists m, at_pos m f' r') /\
       (inputs_ok r' -> ~ stream_fault err)).
Proof.
  intros Hpos. unfold Runner.turn. wp_run. cbn.
  eapply wp_mono; [by apply wp_consume_input| |]; cbn.
  2:{ intros err [f' r'] (He%grows_ext & -> & Herr). cbn in *. split; [done|].
      split; [exists n; by eapply at_pos_ext|]. intros Hok (e & [= <-] & Hx). destruct (Herr Hok) as [x ->].
      by apply (Hx x). }
  intros [p|] [f1 r1] [He%grows_ext Hc]; cbn in *; wp_run.
  2:{ subst f1. split; [done|]. split; [by eapply at_pos_ext|done]. }
  destruct Hc as (Hpos1 & e & Hlook & Hp & _). wp_run.
  pose proof (wp_handle_event p s f1 r1) as Hh. unfold wp in Hh |- *.
  destruct (Runner.handle_event dapp_address config p (s, (f1, r1))) as [[[]|err|] [s2 [f2 r2]]] eqn:Hrun;
    [| |done]; cbn in Hh.
  - destruct Hh as [Hf2 He2]. cbn in Hf2, He2. subst f2. split; [by etrans|].
    split; [by eapply at_pos_ext|]. exists e, p.
    split; [by eapply prefix_lookup_Some; [|apply He2]|]. split; [done|].
    econstructor; [exact Hrun|constructor].
  - destruct Hh as [[Hf2 He2] Hne]. cbn in Hf2, He2. subst f2. split; [by etrans|].
    split; [eexists; by eapply at_pos_ext|]. intros _ (e' & -> & _). by apply (Hne e').
Qed.

(** The main loop, from any position *)
Lemma wp_runner_start fuel polls n s f r :
  at_pos n f r ->
  wp (Runner.start timeout dapp_address config fuel polls) (s, (f, r))
    (fun k '(s', (f', r')) => ext r r' /\ (k <= fuel)%nat /\ at_pos (n + k) f' r' /\
       exists ps, Forall2 holds (take k (drop n (entries r' key))) ps /\ length ps = k /\ ran s ps s')
    (fun err '(_, (f', r')) => ext r r' /\ (exists m, at_pos m f' r') /\ (inputs_ok r' -> ~ stream_fault err)).
Proof.
  revert n s f r. induction fuel as [|fuel IH]; intros n s f r Hpos; cbn [Runner.start]; wp_run.
  { split; [done|]. split; [done|]. rewrite Nat.add_0_r. split; [done|]. exists []. by repeat constructor. }
  eapply wp_mono; [by apply wp_turn| |]; cbn; [|by intros err [? [f' r']]].
  intros [] [s1 [f1 r1]] [He1 Hturn]; wp_run.
  2:{ destruct Hturn as [Hp ->]. rewrite Nat.add_0_r. split; [done|]. split; [lia|]. split; [done|].
      exists []. by repeat constructor. }
  destruct Hturn as (Hp1 & e & p & Hlook & Hp & Hran).
  eapply wp_mono; [by apply IH| |].
  2:{ intros err [? [f' r']] (He2 & ?). split; [by etrans|done]. }
  intros k [s2 [f2 r2]] (He2 & Hk & Hp2 & ps & Hps & Hlen & Hran2). wp_run.
  split; [by etrans|]. split; [lia|]. split; [by replace (n + Datatypes.S k)%nat with (n + 1 + k)%nat by lia|].
  exists (p :: ps). rewrite (drop_S _ e n) by by eapply prefix_lookup_Some; [|apply He2].
  rewrite Nat.add_1_r in Hps. cbn [take]. split; [by constructor|]. split; [cbn; lia|].
  inversion Hran as [|??????? Hh Hnil]; subst. inversion Hnil; subst. by econstructor.
Qed.

(** The calls that [ServerManagerFacade::new] makes answer as well. *)
Definition sessions_total : Prop :=
  safe (sm_get_status (S := S)) /\ (forall r, safe (sm_start_session (S := S) r)) /\
  (forall i, safe (sm_end_session (S := S) i)) /\ (forall i, safe (sm_get_session_status (S := S) i)).

(** The server-manager has just started the session of the runner, at epoch 0. *)
Definition session_started (s : S) : Prop := exists s0,
  ServerManagerFacade.grpc_call "start_session" (sm_start_session
    (mkStartSessionRequest (ServerManagerFacade.session_id config) (ServerManagerFacade.machine_snapshot_path config)
       (Some (ServerManagerFacade.runtime_config config)) 0 0 (Some (ServerManagerFacade.cycles_config config))
       (Some (ServerManagerFacade.deadline_config config)))) s0 = (Ok tt, s).

Lemma wp_manager_new connect s : sessions_total -> (forall endpoint, safe (connect endpoint)) ->
  wp (ServerManagerFacade.new config connect) s (fun _ => session_started) (fun _ _ => True).
Proof.
  intros (Hstatus & Hstart & Hend & Hsession) Hconnect. unfold ServerManagerFacade.new. wp_run.
  apply (wp_retry (fun _ => True)); [done|]. intros s1 _. wp_run.
  eapply wp_mono; [apply Hconnect| |done]. intros _ s2 _. wp_run.
  eapply wp_mono; [by apply safe_grpc_call| |done]. intros sessions s3 _. wp_run.
  assert (forall s, wp (ServerManagerFacade.grpc_call "start_session" (sm_start_session
    (mkStartSessionRequest (ServerManagerFacade.session_id config) (ServerManagerFacade.machine_snapshot_path config)
       (Some (ServerManagerFacade.runtime_config config)) 0 0 (Some (ServerManagerFacade.cycles_config config))
       (Some (ServerManagerFacade.deadline_config config))))) s (fun _ => session_started) (fun _ _ => True)) as Hlast.
  { intros s'. pose proof (safe_grpc_call "start_session" _ (Hstart (mkStartSessionRequest
      (ServerManagerFacade.session_id config) (ServerManagerFacade.machine_snapshot_path config)
      (Some (ServerManagerFacade.runtime_config config)) 0 0 (Some (ServerManagerFacade.cycles_config config))
      (Some (ServerManagerFacade.deadline_config config)))) s') as Hs.
    unfold wp, session_started in *. destruct (ServerManagerFacade.grpc_call _ _ s') as [[[]|e|] s''] eqn:E; [|done|done].
    by exists s'. }
  destruct (bool_decide _); wp_run; [|apply Hlast].
  eapply wp_mono; [by apply safe_grpc_call| |done]. intros status s4 _. wp_run.
  eapply wp_mono; [apply safe_wait| |done]. intros ps s5 _. wp_run.
  eapply wp_mono; [apply safe_grpc_call, server_total| |done]. intros resp s6 _. wp_run.
  eapply wp_mono; [by apply safe_grpc_call| |done]. intros [] s7 _. apply Hlast.
Qed.
End RunnerTheorems.

Section ServiceTheorems.
Context {S R : Type} `{SM : ServerManager S} `{RL : RedisLaws R} `{RT : RetryLaws} `{KC : Keccak} `{HX : HexCrate}.
Context `{JI : JsonLaws RollupsInput} `{JO : JsonLaws RollupsOutput} `{JC : JsonLaws RollupsClaim}.
Variables (timeout : Z) (config : ServerManagerFacade.Config) (metadata : DAppMetadata) (reader : bool)
  (endpoint : BrokerEndpoint).
Variables (connect : string -> M S string unit) (connect_single : string -> M R RedisError unit)
  (connect_cluster : list string -> M R RedisError unit).
Hypothesis server_total : server_manager_total (S := S).
Hypothesis session_calls_total : sessions_total (S := S).
(** Connecting does not panic, and takes no event out of the broker. *)
Hypothesis connect_total : forall e, safe (connect e).
Hypothesis connect_keeps : forall r,
  (forall e, wp (connect_single e) r (fun _ => ext r) (fun _ => ext r)) /\
  (forall es, wp (connect_cluster es) r (fun _ => ext r) (fun _ => ext r)).
Let key := RollupsInputsStream_new metadata.

Lemma wp_runner_broker_new r :
  wp (RunnerBroker.new connect_single connect_cluster endpoint metadata reader) r
    (fun f r' => ext r r' /\ at_pos key 0 f r') (fun _ => ext r).
Proof.
  unfold RunnerBroker.new, Broker.new. wp_run.
  eapply (wp_retry (fun r' => ext r r')); [by intros k|]. intros r1 Hr1. wp_run.
  assert (wp match endpoint with Single e => connect_single e | Cluster es => connect_cluster es end r1
    (fun _ => ext r1) (fun _ => ext r1)) as Hc by (destruct endpoint; apply connect_keeps).
  eapply wp_mono; [exact Hc| |].
  - intros ? r2 Hr2. wp_run. split; [by etrans|]. split; [done|]. split; [lia|done].
  - intros e r2 Hr2. cbn. split; by etrans.
Qed.

End ServiceTheorems.

(** ** Witnesses *)

Module RunnerWitness.
Import HexRef RetryRef RedisRef JsonRef KeccakRef.

(** A server-manager with one epoch: it accepts every input, with one report, one
    voucher to the sender and one notice that repeats the payload, and forgets
    the inputs of an epoch when it finishes. *)
Definition run_input (r : GrpcAdvanceStateRequest) : ProcessedInput :=
  mkProcessedInput (asr_current_input_index r) GrpcAccepted
    (Some (AcceptedData
      [mkGrpcVoucher (asr_input_metadata r ≫= gm_msg_sender) (asr_input_payload r)]
      [mkGrpcNotice (asr_input_payload r)]))
    [mkGrpcReport (asr_input_payload r)].

#[local] Instance echo_server : ServerManager (list ProcessedInput) := {|
  sm_get_status := mret ["default_rollups_id"];
  sm_start_session _ := put [];
  sm_end_session _ := mret tt;
  sm_advance_state r := modify (fun ps => ps ++ [run_input r]);
  sm_finish_epoch _ :=
    put [] ;;
    mret (mkFinishEpochResponse (Some (mkGrpcHash (zeros 32))) (Some (mkGrpcHash (zeros 32)))
            (Some (mkGrpcHash (zeros 32))) []);
  sm_get_session_status i := mret (mkGetSessionStatusResponse i 0 [0] None);
  sm_get_epoch_status i e := ps ← get; mret (mkGetEpochStatusResponse i e Active ps 0 None) |}.

Definition sm_config : ServerManagerFacade.Config := 
  ServerManagerFacade.parse_from_cli ServerManagerFacade.default_cli_config.
Definition md (index : Z) : InputMetadata := mkInputMetadata sample_address 7 70 0 index.
Definition one_input : list ProcessedInput :=
  (ServerManagerFacade.advance_state (S := list ProcessedInput) sm_config 0 0 (md 0) [x01; x02] []).2.

Lemma advance_state_outputs_witness :
  exists p ds, pi_input_index p = 0 /\
    [AdvanceResult (mkRollupsAdvanceResult 0 Accepted); Report (mkRollupsReport 0 0 [x01; x02]);
     Voucher (mkRollupsVoucher 0 0 sample_address [x01; x02]); Notice (mkRollupsNotice 0 0 [x01; x02])]
    = outputs_spec 0 p ds /\
    match processed_input_one_of p with
    | Some (AcceptedData vs _) =>
        Forall2 (fun d v => gv_destination v = Some (mkGrpcAddress d) /\ length d = Common.ADDRESS_SIZE) ds vs
    | _ => ds = []
    end.
Proof.
  apply (advance_state_outputs (S := list ProcessedInput) sm_config 0 0 (md 0) [x01; x02] [] _ one_input).
  vm_compute. reflexivity.
Defined.

Lemma finish_epoch_claim_witness :
  exists ps first last_ resp s1 vouchers notices machine rps,
    ServerManagerFacade.wait_for_pending_inputs (S := list ProcessedInput) sm_config 0 one_input = (Ok ps, s1) /\
    head ps = Some first /\ last ps = Some last_ /\
    ServerManagerFacade.grpc_call "finish_epoch" (sm_finish_epoch (mkFinishEpochRequest "default_rollups_id" 0
      (Z.of_nat (length ps)) "")) s1 = (Ok resp, []) /\
    fep_vouchers_epoch_root_hash resp = Some (mkGrpcHash vouchers) /\
    fep_notices_epoch_root_hash resp = Some (mkGrpcHash notices) /\
    fep_machine_hash resp = Some (mkGrpcHash machine) /\
    mkRollupsClaim sample_address 0 (keccak256 (zeros 96)) 0 0 =
      mkRollupsClaim sample_address 0 (keccak256 (vouchers ++ notices ++ machine))
        (pi_input_index first) (pi_input_index last_) /\
    Forall2 (fun p rp => SmConversions.convert_proof p = Ok rp) (fep_proofs resp) rps /\ [] = Proof_ <$> rps.
Proof.
  apply (finish_epoch_claim (S := list ProcessedInput) sample_address sm_config 0 one_input).
  vm_compute. reflexivity.
Defined.

Definition facade (id : string) : RunnerBroker.BrokerFacade :=
  RunnerBroker.mkBrokerFacade (RollupsInputsStream_new sample_metadata)
    (RollupsOutputsStream_new sample_metadata) claims_key false id.

Lemma produce_rollups_claim_increasing_witness :
  wp (RunnerBroker.produce_rollups_claim (sample_claim 2)) (facade INITIAL_ID, sample_server)
    (fun _ '(f', r') => f' = facade INITIAL_ID /\
       claims_ok claims_key ([sample_claim 0; sample_claim 1] ++ [sample_claim 2]) r')
    (fun e '(f', r') => f' = facade INITIAL_ID /\ claims_ok claims_key [sample_claim 0; sample_claim 1] r' /\
       exists x, e = RunnerBroker.BrokerInternalError (ConnectionError x)).
Proof.
  apply (produce_rollups_claim_increasing (owned := sole_producer) (facade INITIAL_ID) sample_server
    [sample_claim 0; sample_claim 1] (sample_claim 2) I).
  split; [repeat constructor; vm_compute; reflexivity|repeat constructor].
Defined.

(** Dapp [zeros 20] finishes its epoch 1 after the sample dapp did. *)
Lemma claim_dropped_for_other_dapp_witness :
  wp (RunnerBroker.produce_rollups_claim (mkRollupsClaim (zeros 20) 1 (zeros 32) 0 0))
    (facade INITIAL_ID, sample_server)
    (fun _ '(_, r') => entries r' claims_key = entries sample_server claims_key)
    (fun err _ => exists x, err = RunnerBroker.BrokerInternalError (ConnectionError x)).
Proof.
  apply (claim_dropped_for_other_dapp (owned := sole_producer) (facade INITIAL_ID) sample_server
    (default (mkStreamId "" ∅) (last (entries sample_server claims_key)))
    (mkRollupsClaim (zeros 20) 1 (zeros 32) 0 0) (sample_claim 1) I).
  - reflexivity.
  - vm_compute. reflexivity.
  - vm_compute. discriminate.
  - reflexivity.
Defined.

(** Two inputs and the end of an epoch, as the dispatcher sends them. *)
Definition inputs_key : string := RollupsInputsStream_new sample_metadata.
Definition event_of (parent : string) (n : Z) : RollupsInput :=
  mkRollupsInput parent 0 n (AdvanceStateInput (mkRollupsAdvanceStateInput (md (n - 1)) [x01] (zeros 32))).
Definition input_server : RedisRef.state :=
  ((id ← Broker.produce inputs_key (event_of INITIAL_ID 1);
    id ← Broker.produce inputs_key (event_of id 2);
    Broker.produce inputs_key (mkRollupsInput id 0 2 FinishEpoch)) ∅).2.

End RunnerWitness.
