(* ===== verification/MerkleTree.v ===== *)
(** * Merkle trees of the host-runner

    [offchain/host-runner/src/merkle_tree/]: the pristine tree
    ([pristine.rs]), proofs ([proof.rs]) and the complete tree
    ([complete.rs]), and [proofs.rs], which proves the outputs of an epoch.
    Keccak-256 is a parameter. Sizes and addresses are [usize] values in [Z];
    positions in a vector are in [nat]. *)

From stdpp Require Import gmap.
From S2P Require Import Prelude Codecs Events.

Module MerkleTree.
Inductive Error :=
| TargetSizeGreaterThanRootSize
| LeafSizeGreaterThanRootSize
| WordSizeGreaterThanLeafSize
| WordSizeGreaterThanRootSize
| TreeTooLarge
| TreeIsFull
| TooManyLeaves
| SizeOutOfRange
| MisalignedAddress.

#[export] Instance Error_eq_dec : EqDecision Error.
Proof. solve_decision. Defined.

Definition get_concat_hash `{Keccak} (left right : Hash) : Hash := keccak256 (left ++ right).

(** [Hash::default()] *)
Definition default_hash : Hash := zeros Common.HASH_SIZE.
End MerkleTree.

(** ** [pristine::Tree] *)

Module Pristine.
Import MerkleTree.

Record Tree := mkTree {
  log2_root_size : Z;
  log2_word_size : Z;
  hashes : list Hash;
}.

Section Ops.
Context `{Keccak}.

(** The loop from [i] on, for [n] more hashes. *)
Fixpoint push_hashes {E} (n i : nat) (hashes : list Hash) : outcome E (list Hash) :=
  match n with
  | O => Ok hashes
  | S n =>
      h ← index hashes (i - 1);
      push_hashes n (S i) (hashes ++ [get_concat_hash h h])
  end.

Definition new (log2_root_size log2_word_size : Z) : outcome Error Tree :=
  ensure (log2_word_size <=? log2_root_size) WordSizeGreaterThanRootSize ;;
  let num_hashes := Z.to_nat (log2_root_size - log2_word_size + 1) in
  let word := zeros (Z.to_nat (u64_shl 1 log2_word_size)) in
  hashes ← push_hashes (num_hashes - 1) 1 [keccak256 word];
  Ok (mkTree log2_root_size log2_word_size hashes).

Definition get_hash (t : Tree) (log2_size : Z) : outcome Error Hash :=
  ensure ((log2_word_size t <=? log2_size) && (log2_size <=? log2_root_size t)) SizeOutOfRange ;;
  index (hashes t) (Z.to_nat (log2_size - log2_word_size t)).
End Ops.
End Pristine.

(** ** [proof::Proof] *)

Module TreeProof.
Import MerkleTree.

Record Proof := mkProof {
  target_address : Z;
  log2_target_size : Z;
  target_hash : Hash;
  log2_root_size : Z;
  root_hash : Hash;
  sibling_hashes : list Hash;
}.

Definition new (target_address log2_target_size : Z) (target_hash : Hash) (log2_root_size : Z)
    (root_hash : Hash) : outcome Error Proof :=
  ensure (log2_target_size <=? log2_root_size) TargetSizeGreaterThanRootSize ;;
  Ok (mkProof target_address log2_target_size target_hash log2_root_size root_hash
        (replicate (Z.to_nat (log2_root_size - log2_target_size)) default_hash)).

Definition log2_size_to_index (p : Proof) (log2_size : Z) : outcome Error nat :=
  ensure (log2_size <? log2_root_size p) SizeOutOfRange ;;
  ensure (log2_target_size p <=? log2_size) SizeOutOfRange ;;
  let index := Z.to_nat (log2_size - log2_target_size p) in
  ensure (Nat.ltb index (length (sibling_hashes p))) SizeOutOfRange ;;
  Ok index.

Definition set_sibling_hash (p : Proof) (hash : Hash) (log2_size : Z) : outcome Error Proof :=
  i ← log2_size_to_index p log2_size;
  sibling_hashes ← set_index (sibling_hashes p) i hash;
  Ok (mkProof (target_address p) (log2_target_size p) (target_hash p) (log2_root_size p) (root_hash p)
        sibling_hashes).
End TreeProof.

(** ** [complete::Tree] *)

Module Complete.
Import MerkleTree.

Abbreviation Level := (list Hash).

Record Tree := mkTree {
  log2_root_size : Z;
  log2_leaf_size : Z;
  pristine : Pristine.Tree;
  tree : list Level;
}.

Section Ops.
Context `{Keccak}.

Definition new (log2_root_size log2_leaf_size log2_word_size : Z) : outcome Error Tree :=
  ensure (log2_leaf_size <=? log2_root_size) LeafSizeGreaterThanRootSize ;;
  ensure (log2_word_size <=? log2_leaf_size) WordSizeGreaterThanLeafSize ;;
  ensure (log2_root_size <=? 8 * 8) TreeTooLarge ;;
  pristine ← Pristine.new log2_root_size log2_word_size;
  Ok (mkTree log2_root_size log2_leaf_size pristine
        (replicate (Z.to_nat (log2_root_size - log2_leaf_size + 1)) [])).

Definition get_level_index (t : Tree) (log2_size : Z) : outcome Error nat :=
  ensure ((log2_leaf_size t <=? log2_size) && (log2_size <=? log2_root_size t)) SizeOutOfRange ;;
  Ok (Z.to_nat (log2_root_size t - log2_size)).

Definition get_level (t : Tree) (log2_size : Z) : outcome Error Level :=
  i ← get_level_index t log2_size;
  index (tree t) i.

(** An assignment through [get_level_mut]. *)
Definition set_level (t : Tree) (log2_size : Z) (level : Level) : outcome Error Tree :=
  i ← get_level_index t log2_size;
  tree ← set_index (tree t) i level;
  Ok (mkTree (log2_root_size t) (log2_leaf_size t) (pristine t) tree).

(** The entries [i], ..., [i + n - 1], which have two non-pristine children. *)
Fixpoint pair_entries {E} (n i : nat) (prev next : Level) : outcome E Level :=
  match n with
  | O => Ok next
  | S n =>
      left ← index prev (2 * i);
      right ← index prev (2 * i + 1);
      next ← set_index next i (get_concat_hash left right);
      pair_entries n (S i) prev next
  end.

(** The update of one level from the level below. *)
Definition update_level {E} (pristine : Pristine.Tree) (log2_prev_size : Z) (prev next : Level)
    : outcome E Level :=
  let first_entry := match next with [] => O | _ => (length next - 1)%nat end in
  let next := resize_with (Nat.div (length prev + 1) 2) default_hash next in
  let last_safe_entry := Nat.div (length prev) 2 in
  next ← pair_entries (last_safe_entry - first_entry) first_entry prev next;
  if Nat.ltb (2 * last_safe_entry) (length prev) then
    prev_pristine ← expect (Pristine.get_hash pristine log2_prev_size);
    prev_last ← index prev (length prev - 1);
    set_index next last_safe_entry (get_concat_hash prev_last prev_pristine)
  else Ok next.

(** The levels above [log2_prev_size], [n] of them. *)
Fixpoint bubble_levels {E} (n : nat) (log2_prev_size : Z) (t : Tree) : outcome E Tree :=
  match n with
  | O => Ok t
  | S n =>
      let log2_next_size := log2_prev_size + 1 in
      next ← expect (get_level t log2_next_size);
      t ← expect (set_level t log2_next_size []);
      prev ← expect (get_level t log2_prev_size);
      next ← update_level (pristine t) log2_prev_size prev next;
      t ← expect (set_level t log2_next_size next);
      bubble_levels n log2_next_size t
  end.

Definition bubble_up {E} (t : Tree) : outcome E Tree :=
  bubble_levels (Z.to_nat (log2_root_size t - log2_leaf_size t)) (log2_leaf_size t) t.

Definition new_from_leaves (log2_root_size log2_leaf_size log2_word_size : Z) (leaves : Level)
    : outcome Error Tree :=
  let max_len := u64_shl 1 (log2_root_size ⊟ log2_leaf_size) in
  ensure (Z.of_nat (length leaves) <=? max_len) TooManyLeaves ;;
  tree ← new log2_root_size log2_leaf_size log2_word_size;
  tree ← expect (set_level tree log2_leaf_size leaves);
  bubble_up tree.

Definition get_node_hash (t : Tree) (address log2_size : Z) : outcome Error Hash :=
  let address := u64_shr address log2_size in
  let bounds := u64_shl 1 (log2_root_size t ⊟ log2_size) in
  ensure (address <? bounds) SizeOutOfRange ;;
  level ← get_level t log2_size;
  if address <? Z.of_nat (length level) then index level (Z.to_nat address)
  else Pristine.get_hash (pristine t) log2_size.

Definition get_root_hash {E} (t : Tree) : outcome E Hash :=
  expect (get_node_hash t 0 (log2_root_size t)).

(** The siblings from [log2_sibling_size] on, [n] of them. *)
Fixpoint fill_siblings (n : nat) (t : Tree) (address log2_sibling_size : Z) (proof : TreeProof.Proof)
    : outcome Error TreeProof.Proof :=
  match n with
  | O => Ok proof
  | S n =>
      let sibling_address := Z.lxor address (u64_shl 1 log2_sibling_size) in
      hash ← get_node_hash t sibling_address log2_sibling_size;
      proof ← TreeProof.set_sibling_hash proof hash log2_sibling_size;
      fill_siblings n t address (log2_sibling_size + 1) proof
  end.

Definition get_proof (t : Tree) (address log2_size : Z) : outcome Error TreeProof.Proof :=
  ensure ((log2_leaf_size t <=? log2_size) && (log2_size <=? log2_root_size t)) SizeOutOfRange ;;
  let aligned_address := u64_shl (u64_shr address log2_size) log2_size in
  ensure (address =? aligned_address) MisalignedAddress ;;
  target_hash ← get_node_hash t address log2_size;
  root_hash ← get_root_hash t;
  proof ← TreeProof.new address log2_size target_hash (log2_root_size t) root_hash;
  fill_siblings (Z.to_nat (log2_root_size t - log2_size)) t address log2_size proof.

Definition push (t : Tree) (leaf : Hash) : outcome Error Tree :=
  let max_len := u64_shl 1 (log2_root_size t ⊟ log2_leaf_size t) in
  leaves ← expect (get_level t (log2_leaf_size t));
  ensure (Z.of_nat (length leaves) <? max_len) TreeIsFull ;;
  t ← expect (set_level t (log2_leaf_size t) (leaves ++ [leaf]));
  bubble_up t.

Definition len {E} (t : Tree) : outcome E nat :=
  level ← expect (get_level t (log2_leaf_size t));
  Ok (length level).
End Ops.
End Complete.

(** ** [proofs.rs] *)

Module Proofs.
Import MerkleTree.

Definition LOG2_HASH_SIZE : Z := 5.
Definition LOG2_ROOT_SIZE : Z := 16 + LOG2_HASH_SIZE.
Definition LOG2_WORD_SIZE : Z := 3.
Definition WORD_SIZE : nat := Z.to_nat (u64_shl 1 LOG2_WORD_SIZE).
Definition WORDS_PER_HASH : nat := Z.to_nat (u64_shl 1 (LOG2_HASH_SIZE - LOG2_WORD_SIZE)).

(** The trait that vouchers and notices implement. *)
Class Proofable (A : Type) : Type := {
  get_hash : A -> Hash;
  set_proof : TreeProof.Proof -> A -> A;
}.

Section Compute.
Context `{Keccak} {A : Type} `{Proofable A}.

Definition word_hashes (hash : Hash) : list Hash :=
  (fun word => keccak256 (take WORD_SIZE (drop (word * WORD_SIZE) hash))) <$> seq 0 WORDS_PER_HASH.

(** The slice is the state: proofs are set in place, one after the other. *)
Definition compute_proofs : M (list A) Error Hash :=
  proofables ← get;
  let leaves := proofables ≫= fun proofable => word_hashes (get_hash proofable) in
  tree ← lift (Complete.new_from_leaves LOG2_ROOT_SIZE LOG2_WORD_SIZE LOG2_WORD_SIZE leaves);
  for_each (seq 0 (length proofables)) (fun i =>
    proof ← lift (Complete.get_proof tree (wrap 64 (Z.of_nat i * u64_shl 1 LOG2_HASH_SIZE)) LOG2_HASH_SIZE);
    modify (alter (set_proof proof) i)) ;;
  lift (Complete.get_root_hash tree).
End Compute.
End Proofs.

(** ** Specification

    The hash of a node by recursion on its height, over the leaves padded with
    pristine ones. *)

Section Spec.
Context `{Keccak}.
Import MerkleTree.
Variable log2_word_size : Z.

(** The hash of the pristine tree of height [k] over words. *)
Fixpoint pristine_hash (k : nat) : Hash :=
  match k with
  | O => keccak256 (zeros (Z.to_nat (2 ^ log2_word_size)))
  | S k => get_concat_hash (pristine_hash k) (pristine_hash k)
  end.

(** A leaf is a subtree of height [d] over words. *)
Variable d : nat.
Variable leaves : list Hash.

(** The node at height [k] over the leaves, at position [i] from the left. *)
Fixpoint node (k i : nat) : Hash :=
  match k with
  | O => default (pristine_hash d) (leaves !! i)
  | S k => get_concat_hash (node k (2 * i)) (node k (2 * i + 1))
  end.

(** What the tree stores at height [k]: the nodes that are not pristine. *)
Fixpoint pair_up (p : Hash) (l : list Hash) : list Hash :=
  match l with
  | [] => []
  | [x] => [get_concat_hash x p]
  | x :: y :: l => get_concat_hash x y :: pair_up p l
  end.
Fixpoint level_of (k : nat) : list Hash :=
  match k with
  | O => leaves
  | S k => pair_up (pristine_hash (d + k)) (level_of k)
  end.
End Spec.

(** The root that a proof computes from its target, its address and its siblings. *)
Fixpoint root_from `{Keccak} (h : Hash) (address log2_size : Z) (siblings : list Hash) : Hash :=
  match siblings with
  | [] => h
  | s :: siblings =>
      root_from (if Z.testbit address log2_size then MerkleTree.get_concat_hash s h
                 else MerkleTree.get_concat_hash h s)
        address (log2_size + 1) siblings
  end.

Section PristineLemmas.
Context `{Keccak}.
Variables (root word : Z).
Hypothesis Hword : 0 <= word <= root.
Hypothesis Hroot : root < 64.

Lemma push_hashes_ok {E} n i :
  (1 <= i)%nat ->
  Pristine.push_hashes (E := E) n i (pristine_hash word <$> seq 0 i) = Ok (pristine_hash word <$> seq 0 (n + i)).
Proof.
  revert i. induction n as [|n IH]; intros i Hi; [done|]. cbn [Pristine.push_hashes].
  unfold index. rewrite list_lookup_fmap, lookup_seq_lt by lia. cbn.
  replace (_ ++ [_]) with (pristine_hash word <$> seq 0 (S i)).
  - rewrite IH by lia. by replace (n + S i)%nat with (S (n + i)) by lia.
  - rewrite seq_S, fmap_app. cbn. destruct i as [|i]; [lia|]. by replace (S i - 1)%nat with i by lia.
Qed.

Definition pristine_tree : Pristine.Tree :=
  Pristine.mkTree root word (pristine_hash word <$> seq 0 (Z.to_nat (root - word + 1))).

Lemma pristine_new : Pristine.new root word = Ok pristine_tree.
Proof.
  unfold Pristine.new, ensure. rewrite (proj2 (Z.leb_le _ _)), u64_shl_one by lia. cbn.
  change [keccak256 _] with (pristine_hash word <$> seq 0 1). rewrite push_hashes_ok by lia. cbn.
  by replace (Z.to_nat (root - word + 1) - 1 + 1)%nat with (Z.to_nat (root - word + 1)) by lia.
Qed.

Lemma pristine_get_hash s :
  word <= s <= root -> Pristine.get_hash pristine_tree s = Ok (pristine_hash word (Z.to_nat (s - word))).
Proof.
  intros Hs. unfold Pristine.get_hash, ensure. cbn.
  rewrite (proj2 (Z.leb_le word s)), (proj2 (Z.leb_le s root)) by lia. cbn.
  unfold index. rewrite list_lookup_fmap, lookup_seq_lt by lia. done.
Qed.
End PristineLemmas.

(** ** One level *)

#[local] Arguments Nat.mul : simpl never.
#[local] Arguments Nat.div : simpl never.

Section LevelLemmas.
Context `{Keccak}.
Import MerkleTree.

Lemma pair_up_lookup p l i :
  pair_up p l !! i =
  match l !! (2 * i)%nat with
  | Some x => Some (get_concat_hash x (default p (l !! (2 * i + 1)%nat)))
  | None => None
  end.
Proof.
  revert i. induction l as [l IH] using (induction_ltof1 _ length). intros i.
  destruct l as [|x [|y l]]; [done| |].
  - destruct i as [|i]; [done|]. cbn [pair_up lookup list_lookup]. 
    by replace (2 * S i)%nat with (S (S (2 * i))) by lia.
  - destruct i as [|i]; [done|]. cbn [pair_up]. change ((?a :: ?b) !! S i) with (b !! i).
    rewrite IH by (unfold ltof; cbn; lia).
    by replace (2 * S i)%nat with (S (S (2 * i))) by lia.
Qed.

Lemma pair_up_length p l : length (pair_up p l) = Nat.div (length l + 1) 2.
Proof.
  induction l as [l IH] using (induction_ltof1 _ length). destruct l as [|x [|y l]]; [done..|].
  cbn [pair_up length]. rewrite IH by (unfold ltof; cbn; lia).
  replace (S (S (length l)) + 1)%nat with (1 * 2 + (length l + 1))%nat by lia.
  by rewrite Nat.div_add_l by lia.
Qed.

(** [a] agrees with [b] but for its last entry. *)
Definition almost_prefix (a b : list Hash) : Prop :=
  (length a <= length b)%nat /\ forall i, (S i < length a)%nat -> a !! i = b !! i.

Lemma almost_prefix_pair_up p a b : almost_prefix a b -> almost_prefix (pair_up p a) (pair_up p b).
Proof.
  intros [Hlen Hab]. split.
  - rewrite !pair_up_length. apply Nat.Div0.div_le_mono. lia.
  - intros i Hi. rewrite pair_up_length in Hi.
    pose proof (Nat.Div0.mul_div_le (length a + 1) 2). rewrite !pair_up_lookup.
    by rewrite (Hab (2 * i)%nat), (Hab (2 * i + 1)%nat) by lia.
Qed.

Lemma prefix_almost_prefix a b : a `prefix_of` b -> almost_prefix a b.
Proof.
  intros [c ->]. split; [rewrite length_app; lia|]. intros i Hi. by rewrite lookup_app_l by lia.
Qed.

Lemma nil_almost_prefix b : almost_prefix [] b.
Proof. apply prefix_almost_prefix, prefix_nil. Qed.

(** The entries from [i] on are set to the pairs of the level below. *)
Lemma pair_entries_ok {E} n i prev next :
  (2 * (i + n) <= length prev)%nat -> (i + n <= length next)%nat ->
  exists next', Complete.pair_entries (E := E) n i prev next = Ok next' /\ length next' = length next /\
    forall j, next' !! j =
      if decide (i <= j < i + n)%nat then
        match prev !! (2 * j)%nat, prev !! (2 * j + 1)%nat with
        | Some x, Some y => Some (get_concat_hash x y)
        | _, _ => None
        end
      else next !! j.
Proof.
  revert i next. induction n as [|n IH]; intros i next Hp Hn.
  { exists next. split; [done|]. split; [done|]. intros j. by rewrite decide_False by lia. }
  cbn [Complete.pair_entries]. unfold index.
  destruct (lookup_lt_is_Some_2 prev (2 * i)) as [x Hx]; [lia|].
  destruct (lookup_lt_is_Some_2 prev (2 * i + 1)) as [y Hy]; [lia|].
  rewrite Hx, Hy. cbn. unfold set_index. rewrite (proj2 (Nat.ltb_lt _ _)) by lia. cbn.
  destruct (IH (S i) (<[i:=get_concat_hash x y]> next)) as (next' & Hrun & Hlen & Hlook).
  { lia. } { rewrite length_insert. lia. }
  exists next'. split; [exact Hrun|]. rewrite length_insert in Hlen. split; [done|].
  intros j. rewrite Hlook. destruct (decide (j = i)) as [->|Hj].
  - rewrite decide_False, decide_True by lia. by rewrite list_lookup_insert_eq, Hx, Hy by lia.
  - rewrite list_lookup_insert_ne by done. by repeat case_decide; try lia.
Qed.

Lemma updated_lookup p prev next' first j :
  length next' = Nat.div (length prev + 1) 2 -> (j = Nat.div (length prev) 2 -> length prev = 2 * j)%nat ->
  (forall j, (j < first)%nat -> next' !! j = pair_up p prev !! j) ->
  (forall j, (first <= j < Nat.div (length prev) 2)%nat -> next' !! j =
     match prev !! (2 * j)%nat, prev !! (2 * j + 1)%nat with
     | Some x, Some y => Some (get_concat_hash x y) | _, _ => None end) ->
  next' !! j = pair_up p prev !! j.
Proof.
  intros Hlen Hj Hlow Hmid. pose proof (Nat.div_mod_eq (length prev) 2).
  pose proof (Nat.div_mod_eq (length prev + 1) 2).
  pose proof (Nat.mod_upper_bound (length prev) 2). pose proof (Nat.mod_upper_bound (length prev + 1) 2).
  destruct (decide (j < first)%nat); [auto|].
  destruct (decide (j < Nat.div (length prev) 2)%nat).
  - rewrite Hmid, pair_up_lookup by lia.
    destruct (lookup_lt_is_Some_2 prev (2 * j)) as [x ->]; [lia|].
    destruct (lookup_lt_is_Some_2 prev (2 * j + 1)) as [y ->]; [lia|]. done.
  - rewrite !lookup_ge_None_2; [done| |]; rewrite ?pair_up_length; lia.
Qed.

(** Updating a level that agreed with the level below before the last leaves
    were added makes it agree with the level below. *)
Lemma update_level_ok {E} pt s prev next p :
  Pristine.get_hash pt s = Ok p -> almost_prefix next (pair_up p prev) ->
  Complete.update_level (E := E) pt s prev next = Ok (pair_up p prev).
Proof.
  intros Hp [Hlen Hnext]. rewrite pair_up_length in Hlen. unfold Complete.update_level.
  set (first := match next with [] => O | _ => (length next - 1)%nat end).
  assert (Hfirst : first = (length next - 1)%nat) by by destruct next. clearbody first.
  set (m := length prev) in *.
  pose proof (Nat.div_mod_eq m 2). pose proof (Nat.div_mod_eq (m + 1) 2).
  pose proof (Nat.mod_upper_bound m 2). pose proof (Nat.mod_upper_bound (m + 1) 2).
  assert (Hr : length (resize_with (Nat.div (m + 1) 2) default_hash next) = Nat.div (m + 1) 2).
  { unfold resize_with. rewrite length_app, length_take, length_replicate. lia. }
  assert (Hkeep : forall j, (j < first)%nat ->
    resize_with (Nat.div (m + 1) 2) default_hash next !! j = pair_up p prev !! j).
  { intros j Hj. unfold resize_with. rewrite lookup_app_l by (rewrite length_take; lia).
    rewrite lookup_take_lt by lia. apply Hnext. lia. }
  destruct (pair_entries_ok (E := E) (Nat.div m 2 - first) first prev
    (resize_with (Nat.div (m + 1) 2) default_hash next)) as (next' & Hrun & Hlen' & Hlook).
  { fold m. lia. } { lia. }
  fold m. rewrite Hrun. cbn [mbind outcome_bind]. rewrite Hr in Hlen'.
  assert (Hall : forall j, (j = Nat.div m 2 -> m = 2 * j)%nat -> next' !! j = pair_up p prev !! j).
  { intros j Hj. apply (updated_lookup p prev next' first); [done|done|..]; intros j' Hj'; rewrite Hlook.
    - rewrite decide_False by lia. by apply Hkeep.
    - by rewrite decide_True by (fold m in Hj'; lia). }
  destruct (Nat.ltb_spec (2 * Nat.div m 2) m) as [Hodd|Heven].
  - destruct (lookup_lt_is_Some_2 prev (m - 1)) as [x Hx]; [fold m; lia|].
    unfold index. rewrite Hp, Hx. cbn [expect unwrap mbind outcome_bind].
    unfold set_index. rewrite (proj2 (Nat.ltb_lt _ _)) by lia. f_equal.
    apply list_eq. intros j. destruct (decide (j = Nat.div m 2)) as [->|Hj].
    + rewrite list_lookup_insert_eq by lia. rewrite pair_up_lookup.
      replace (2 * Nat.div m 2)%nat with (m - 1)%nat by lia. rewrite Hx.
      by rewrite (lookup_ge_None_2 prev (m - 1 + 1)) by (fold m; lia).
    + rewrite list_lookup_insert_ne by done. by apply Hall.
  - f_equal. apply list_eq. intros j. apply Hall. lia.
Qed.
End LevelLemmas.

(** ** The whole tree *)

Section TreeLemmas.
Context `{Keccak}.
Import MerkleTree Complete.
Variables (root leaf word : Z).

(** The sizes for which the address arithmetic does not overflow. *)
Definition sizes_ok : Prop := 0 <= word <= leaf /\ leaf <= root /\ root < 64.

(** The height of the tree over its leaves, and of a leaf over words. *)
Definition height : nat := Z.to_nat (root - leaf).
Definition leaf_height : nat := Z.to_nat (leaf - word).

(** The tree that stores [f k] at height [k]. *)
Definition tree_with (f : nat -> Level) : Tree :=
  mkTree root leaf (pristine_tree root word) ((fun n => f (height - n)%nat) <$> seq 0 (S height)).

Abbreviation level ls k := (level_of word leaf_height ls k).
Abbreviation pad k := (pristine_hash word (leaf_height + k)).

(** The tree of the given leaves. *)
Definition tree_of (leaves : Level) : Tree := tree_with (level_of word leaf_height leaves).

Hypothesis Hsizes : sizes_ok.
#[local] Ltac sizes := unfold sizes_ok, height, leaf_height in *; lia.

Lemma tree_with_ext f g : (forall k, (k <= height)%nat -> f k = g k) -> tree_with f = tree_with g.
Proof.
  intros Hfg. unfold tree_with. f_equal. apply list_fmap_ext. intros i n Hn.
  apply lookup_seq in Hn as [-> Hi]. apply Hfg. lia.
Qed.

Lemma get_level_ok f k : (k <= height)%nat -> get_level (tree_with f) (leaf + Z.of_nat k) = Ok (f k).
Proof.
  intros Hk. unfold get_level, get_level_index, ensure. cbn.
  rewrite (proj2 (Z.leb_le leaf _)), (proj2 (Z.leb_le _ root)) by sizes. cbn. unfold index.
  replace (Z.to_nat (root - (leaf + Z.of_nat k))) with (height - k)%nat by sizes.
  change (_ :: _) with ((fun n => f (height - n)%nat) <$> seq 0 (S height)).
  rewrite list_lookup_fmap, lookup_seq_lt by lia. cbn. by replace (height - (height - k))%nat with k by lia.
Qed.

Lemma set_level_ok f k l : (k <= height)%nat ->
  set_level (tree_with f) (leaf + Z.of_nat k) l = Ok (tree_with (fun k' => if Nat.eqb k' k then l else f k')).
Proof.
  intros Hk. unfold set_level, get_level_index, ensure. cbn [log2_leaf_size log2_root_size tree pristine tree_with].
  rewrite (proj2 (Z.leb_le leaf _)), (proj2 (Z.leb_le _ root)) by sizes. cbn [andb mbind outcome_bind].
  unfold set_index. rewrite length_fmap, length_seq, (proj2 (Nat.ltb_lt _ _)) by sizes.
  cbn [mbind outcome_bind]. unfold tree_with. f_equal. f_equal. apply list_eq. intros i.
  replace (Z.to_nat (root - (leaf + Z.of_nat k))) with (height - k)%nat by sizes.
  rewrite list_lookup_fmap. destruct (decide (i < S height)%nat) as [Hi|Hi].
  - rewrite lookup_seq_lt by lia. cbn [fmap option_fmap option_map].
    destruct (decide (i = height - k)%nat) as [->|Hne].
    + rewrite list_lookup_insert_eq by (rewrite length_fmap, length_seq; lia).
      by rewrite (proj2 (Nat.eqb_eq _ _)) by lia.
    + rewrite list_lookup_insert_ne, list_lookup_fmap, lookup_seq_lt by lia. cbn.
      by rewrite (proj2 (Nat.eqb_neq _ _)) by lia.
  - rewrite (lookup_ge_None_2 (seq _ _)), lookup_ge_None_2; [done|..];
      rewrite ?length_insert, ?length_fmap, ?length_seq; lia.
Qed.

Lemma get_level_leaf f : get_level (tree_with f) leaf = Ok (f O).
Proof. pose proof (get_level_ok f 0). rewrite Z.add_0_r in *. auto with lia. Qed.

Lemma set_level_leaf f l :
  set_level (tree_with f) leaf l = Ok (tree_with (fun k' => if Nat.eqb k' 0 then l else f k')).
Proof. pose proof (set_level_ok f 0 l). rewrite Z.add_0_r in *. auto with lia. Qed.

Lemma pad_ok k : (k <= height)%nat ->
  Pristine.get_hash (pristine_tree root word) (leaf + Z.of_nat k) = Ok (pad k).
Proof.
  intros Hk. rewrite pristine_get_hash by sizes. f_equal. f_equal. sizes.
Qed.

(** [bubble_up] repairs the levels above the leaves. *)
Lemma bubble_levels_ok {E} n j f leaves :
  (j + n = height)%nat ->
  (forall k, (k <= j)%nat -> f k = level leaves k) ->
  (forall k, (j < k <= height)%nat -> almost_prefix (f k) (level leaves k)) ->
  bubble_levels (E := E) n (leaf + Z.of_nat j) (tree_with f) = Ok (tree_of leaves).
Proof.
  revert j f. induction n as [|n IH]; intros j f Hj Hlow Hhigh; cbn [bubble_levels].
  { f_equal. apply tree_with_ext. intros k Hk. apply Hlow. lia. }
  replace (leaf + Z.of_nat j + 1) with (leaf + Z.of_nat (S j)) by lia.
  rewrite get_level_ok by lia. cbn [expect mbind outcome_bind]. rewrite set_level_ok by lia.
  cbn [expect mbind outcome_bind]. rewrite get_level_ok by lia. cbn [expect mbind outcome_bind].
  rewrite (proj2 (Nat.eqb_neq j (S j))) by lia. cbn [pristine tree_with].
  rewrite (update_level_ok _ _ _ _ (pad j)); [|apply pad_ok; lia|].
  2:{ rewrite (Hlow j) by lia. apply (Hhigh (S j)). lia. }
  cbn [mbind outcome_bind]. rewrite set_level_ok by lia. cbn [expect mbind outcome_bind].
  apply IH; [lia|..].
  - intros k Hk. destruct (Nat.eqb_spec k (S j)) as [->|]; [by rewrite (Hlow j) by lia|]. apply Hlow. lia.
  - intros k Hk. rewrite !(proj2 (Nat.eqb_neq k (S j))) by lia. apply Hhigh. lia.
Qed.

Lemma bubble_up_ok {E} f leaves :
  f O = leaves -> (forall k, (0 < k <= height)%nat -> almost_prefix (f k) (level leaves k)) ->
  bubble_up (E := E) (tree_with f) = Ok (tree_of leaves).
Proof.
  intros H0 Hf. unfold bubble_up. cbn [log2_root_size log2_leaf_size tree_with].
  pose proof (bubble_levels_ok (E := E) height 0 f leaves eq_refl) as Hb. rewrite Z.add_0_r in Hb.
  apply Hb; [|done]. intros k Hk. by replace k with O by lia.
Qed.

Lemma level_almost_prefix a b k : almost_prefix a b -> almost_prefix (level a k) (level b k).
Proof. intros Hab. induction k as [|k IH]; [done|]. by apply almost_prefix_pair_up. Qed.

Lemma tree_new : Complete.new root leaf word = Ok (tree_with (fun _ => [])).
Proof.
  unfold Complete.new, ensure.
  rewrite (proj2 (Z.leb_le leaf root)), (proj2 (Z.leb_le word leaf)), (proj2 (Z.leb_le root (8 * 8))) by sizes.
  cbn [mbind outcome_bind]. rewrite pristine_new by sizes. cbn [mbind outcome_bind].
  unfold tree_with. f_equal. f_equal. apply list_eq. intros i. rewrite list_lookup_fmap.
  replace (Z.to_nat (root - leaf + 1)) with (S height) by sizes.
  destruct (decide (i < S height)%nat).
  - by rewrite lookup_seq_lt, lookup_replicate_2 by lia.
  - rewrite !lookup_ge_None_2; [done|..]; rewrite ?length_seq, ?length_replicate; lia.
Qed.

Lemma max_len_ok : u64_shl 1 (root ⊟ leaf) = 2 ^ Z.of_nat height.
Proof.
  rewrite u64_sub_small by (unfold is_u64; sizes). rewrite u64_shl_one by sizes. f_equal. sizes.
Qed.

Lemma new_from_leaves_ok leaves :
  new_from_leaves root leaf word leaves =
  if decide (Z.of_nat (length leaves) <= 2 ^ Z.of_nat height) then Ok (tree_of leaves) else Err TooManyLeaves.
Proof.
  unfold new_from_leaves. rewrite max_len_ok. unfold ensure.
  case_decide as Hlen; [rewrite (proj2 (Z.leb_le _ _)) by lia|by rewrite (proj2 (Z.leb_gt _ _)) by lia].
  cbn [mbind outcome_bind]. rewrite tree_new. cbn [mbind outcome_bind].
  rewrite set_level_leaf. cbn [expect mbind outcome_bind].
  apply bubble_up_ok; [done|]. intros k Hk. rewrite (proj2 (Nat.eqb_neq k 0)) by lia. apply nil_almost_prefix.
Qed.

Lemma push_ok leaves x :
  push (tree_of leaves) x =
  if decide (Z.of_nat (length leaves) < 2 ^ Z.of_nat height) then Ok (tree_of (leaves ++ [x])) else Err TreeIsFull.
Proof.
  unfold push. change (log2_root_size (tree_of leaves)) with root.
  change (log2_leaf_size (tree_of leaves)) with leaf. rewrite max_len_ok. 
  change (tree_of leaves) with (tree_with (level_of word leaf_height leaves)). rewrite get_level_leaf. cbn [expect mbind outcome_bind level_of].
  unfold ensure. case_decide; [rewrite (proj2 (Z.ltb_lt _ _)) by lia|by rewrite (proj2 (Z.ltb_ge _ _)) by lia].
  cbn [mbind outcome_bind]. rewrite set_level_leaf.
  cbn [expect mbind outcome_bind]. apply bubble_up_ok; [done|]. intros k Hk.
  rewrite (proj2 (Nat.eqb_neq k 0)) by lia. apply level_almost_prefix, prefix_almost_prefix.
  by apply prefix_app_r.
Qed.

(** *** Nodes *)

Abbreviation nodes ls := (node word leaf_height ls).

Lemma node_pristine leaves k i : (length leaves <= i * 2 ^ k)%nat -> nodes leaves k i = pad k.
Proof.
  revert i. induction k as [|k IH]; intros i Hi.
  - cbn in *. rewrite lookup_ge_None_2 by lia. by rewrite Nat.add_0_r.
  - rewrite Nat.pow_succ_r' in Hi. cbn [node]. rewrite !IH by nia.
    by rewrite Nat.add_succ_r.
Qed.

Lemma node_leaf leaves i : nodes leaves 0 i = default (pad 0) (leaves !! i).
Proof. cbn. by rewrite Nat.add_0_r. Qed.

Lemma level_lookup leaves k i :
  level leaves k !! i = if decide (i * 2 ^ k < length leaves)%nat then Some (nodes leaves k i) else None.
Proof.
  revert i. induction k as [|k IH]; intros i.
  - cbn. rewrite Nat.mul_1_r. case_decide as Hi; [|by apply lookup_ge_None_2; lia].
    by destruct (lookup_lt_is_Some_2 leaves i Hi) as [x ->].
  - cbn [level_of]. rewrite pair_up_lookup, !IH, Nat.pow_succ_r'.
    replace (2 * i * 2 ^ k)%nat with (i * (2 * 2 ^ k))%nat by lia.
    case_decide; [|done]. cbn [node]. do 2 f_equal.
    case_decide; [done|]. cbn. symmetry. apply node_pristine. lia.
Qed.

Lemma level_length leaves k : (length (level leaves k) <= length leaves)%nat.
Proof.
  induction k as [|k IH]; [done|]. cbn [level_of]. rewrite pair_up_length.
  pose proof (Nat.Div0.mul_div_le (length (level leaves k) + 1) 2). lia.
Qed.

Lemma level_or_pad leaves k i : default (pad k) (level leaves k !! i) = nodes leaves k i.
Proof. rewrite level_lookup. case_decide; [done|]. symmetry. apply node_pristine. lia. Qed.

(** A node is found at its position, whether it is stored or pristine. *)
Lemma get_node_hash_ok leaves a k :
  (k <= height)%nat -> 0 <= a ->
  get_node_hash (tree_of leaves) a (leaf + Z.of_nat k) =
  if decide (a / 2 ^ (leaf + Z.of_nat k) < 2 ^ Z.of_nat (height - k)) then
    Ok (nodes leaves k (Z.to_nat (a / 2 ^ (leaf + Z.of_nat k))))
  else Err SizeOutOfRange.
Proof.
  intros Hk Ha. unfold get_node_hash. change (log2_root_size (tree_of leaves)) with root.
  change (pristine (tree_of leaves)) with (pristine_tree root word).
  rewrite u64_shr_div, u64_sub_small, u64_shl_one by (unfold is_u64; sizes).
  replace (root - (leaf + Z.of_nat k)) with (Z.of_nat (height - k)) by sizes.
  unfold ensure. case_decide as Hb; [rewrite (proj2 (Z.ltb_lt _ _)) by lia|by rewrite (proj2 (Z.ltb_ge _ _)) by lia].
  cbn [mbind outcome_bind]. unfold tree_of. rewrite get_level_ok by lia. cbn [mbind outcome_bind].
  set (i := a / 2 ^ (leaf + Z.of_nat k)) in *.
  assert (0 <= i) by (apply Z.div_pos; [done|apply Z.pow_pos_nonneg; sizes]).
  rewrite <- level_or_pad. destruct (Z.ltb_spec i (Z.of_nat (length (level leaves k)))) as [Hi|Hi].
  - unfold index. by destruct (lookup_lt_is_Some_2 (level leaves k) (Z.to_nat i)) as [x ->]; [lia|].
  - rewrite lookup_ge_None_2 by lia. cbn. apply pad_ok. lia.
Qed.

Lemma get_root_hash_ok {E} leaves : get_root_hash (E := E) (tree_of leaves) = Ok (nodes leaves height 0).
Proof.
  unfold get_root_hash. change (log2_root_size (tree_of leaves)) with root.
  replace root with (leaf + Z.of_nat height) by sizes. rewrite get_node_hash_ok by lia.
  rewrite Z.div_0_l by (apply Z.pow_nonzero; sizes). by rewrite Nat.sub_diag.
Qed.

(** *** Proofs *)

Lemma lxor_one z : Z.lxor z 1 = if Z.odd z then z - 1 else z + 1.
Proof.
  assert (Heven : forall y, Z.odd y = false -> Z.lxor y 1 = y + 1).
  { intros y Hy. symmetry. apply Z.add_nocarry_lxor. change 1 with (Z.ones 1).
    rewrite Z.land_ones by lia. change (2 ^ 1) with 2. rewrite Zmod_odd, Hy. done. }
  destruct (Z.odd z) eqn:Hz; [|by apply Heven].
  assert (Hy : Z.odd (z - 1) = false) by by rewrite Z.odd_sub, Hz.
  rewrite <- (Z.sub_add 1 z) at 1. rewrite <- (Heven _ Hy), Z.lxor_assoc, Z.lxor_nilpotent.
  by rewrite Z.lxor_0_r.
Qed.

Lemma lxor_one_bound z m : 0 <= z < 2 ^ m -> 1 <= m -> Z.lxor z 1 < 2 ^ m.
Proof.
  intros Hz Hm. rewrite lxor_one. destruct (Z.odd z) eqn:Ho; [lia|].
  replace m with (Z.succ (m - 1)) in * by lia. rewrite Z.pow_succ_r in * by lia.
  pose proof (Z.div_mod z 2 ltac:(lia)). rewrite Zmod_odd, Ho in *. lia.
Qed.

(** The parent of a node and of its sibling. *)
Lemma node_parent leaves k z : 0 <= z ->
  (if Z.odd z then get_concat_hash (nodes leaves k (Z.to_nat (Z.lxor z 1))) (nodes leaves k (Z.to_nat z))
   else get_concat_hash (nodes leaves k (Z.to_nat z)) (nodes leaves k (Z.to_nat (Z.lxor z 1)))) =
  nodes leaves (S k) (Z.to_nat (z / 2)).
Proof.
  intros Hz. rewrite lxor_one. cbn [node]. pose proof (Z.div_mod z 2 ltac:(lia)).
  rewrite Zmod_odd in *. destruct (Z.odd z); do 2 f_equal; lia.
Qed.

Lemma shiftr_sibling a s : 0 <= s -> Z.lxor a (2 ^ s) / 2 ^ s = Z.lxor (a / 2 ^ s) 1.
Proof.
  intros Hs. rewrite <- !Z.shiftr_div_pow2, Z.shiftr_lxor by done. f_equal.
  rewrite Z.shiftr_div_pow2, Z.div_same by first [done|apply Z.pow_nonzero; lia]. done.
Qed.

Lemma half_pow a s : 0 <= s -> a / 2 ^ s / 2 = a / 2 ^ (s + 1).
Proof. intros Hs. rewrite Z.div_div by lia. f_equal. rewrite Z.pow_add_r; lia. Qed.

(** The sibling at height [k + j] of the node at address [a] and height [k]. *)
Definition sibling (leaves : Level) (a : Z) (k j : nat) : Hash :=
  nodes leaves (k + j) (Z.to_nat (Z.lxor (a / 2 ^ (leaf + Z.of_nat (k + j))) 1)).

(** Hashing a node with its siblings gives the root. *)
Lemma root_from_siblings leaves a n k :
  0 <= a < 2 ^ root -> (k + n = height)%nat ->
  root_from (nodes leaves k (Z.to_nat (a / 2 ^ (leaf + Z.of_nat k)))) a (leaf + Z.of_nat k)
    (sibling leaves a k <$> seq 0 n) = nodes leaves height 0.
Proof.
  intros Ha. revert k. induction n as [|n IH]; intros k Hk; cbn.
  { replace k with height by lia. replace (leaf + Z.of_nat height) with root by sizes.
    by rewrite Z.div_small by lia. }
  rewrite <- Z.add_assoc. replace (Z.of_nat k + 1) with (Z.of_nat (S k)) by lia.
  rewrite <- (IH (S k)) by lia. f_equal.
  - rewrite Z.testbit_odd, Z.shiftr_div_pow2 by sizes. unfold sibling. rewrite Nat.add_0_r.
    rewrite node_parent by (apply Z.div_pos; [lia|apply Z.pow_pos_nonneg; sizes]).
    rewrite half_pow by sizes. do 2 f_equal. f_equal. f_equal. lia.
  - rewrite <- fmap_S_seq, <- list_fmap_compose. apply list_fmap_ext. intros ? j _. cbn.
    unfold sibling. by rewrite Nat.add_succ_r.
Qed.

Lemma fill_siblings_ok leaves a k n j p0 :
  (k + j + n = height)%nat -> 0 <= a < 2 ^ root ->
  let proof l := TreeProof.mkProof a (leaf + Z.of_nat k) p0 root (nodes leaves height 0) l in
  fill_siblings n (tree_of leaves) a (leaf + Z.of_nat (k + j))
    (proof ((sibling leaves a k <$> seq 0 j) ++ replicate n default_hash)) =
  Ok (proof (sibling leaves a k <$> seq 0 (j + n))).
Proof.
  intros Hn Ha. cbv zeta. revert j Hn. induction n as [|n IH]; intros j Hn; cbn [fill_siblings].
  { by rewrite app_nil_r, Nat.add_0_r. }
  assert (Hs : 0 <= leaf + Z.of_nat (k + j) < root) by sizes.
  rewrite u64_shl_one by sizes.
  assert (Hlx : 0 <= Z.lxor a (2 ^ (leaf + Z.of_nat (k + j)))).
  { apply Z.lxor_nonneg. split; [intros _; apply Z.pow_nonneg; lia|lia]. }
  rewrite get_node_hash_ok, shiftr_sibling by (try done; sizes).
  rewrite decide_True.
  2:{ apply lxor_one_bound; [|sizes]. split; [apply Z.div_pos; [lia|apply Z.pow_pos_nonneg; lia]|].
      apply Z.div_lt_upper_bound; [apply Z.pow_pos_nonneg; lia|]. rewrite <- Z.pow_add_r by sizes.
      replace (leaf + Z.of_nat (k + j) + Z.of_nat (height - (k + j))) with root by sizes. lia. }
  cbn [mbind outcome_bind]. fold (sibling leaves a k j). set (l := sibling leaves a k <$> seq 0 j).
  assert (Hl : length l = j) by (unfold l; by rewrite length_fmap, length_seq).
  unfold TreeProof.set_sibling_hash, TreeProof.log2_size_to_index, ensure.
  cbn [TreeProof.log2_root_size TreeProof.log2_target_size TreeProof.sibling_hashes].
  rewrite (proj2 (Z.ltb_lt _ _)), (proj2 (Z.leb_le _ _)) by lia. cbn [mbind outcome_bind].
  replace (Z.to_nat _) with (length l + 0)%nat by lia.
  rewrite length_app, length_replicate, (proj2 (Nat.ltb_lt _ _)) by lia. cbn [mbind outcome_bind].
  unfold set_index. rewrite length_app, length_replicate, (proj2 (Nat.ltb_lt _ _)) by lia. cbn [mbind outcome_bind].
  rewrite insert_app_r. cbn [replicate insert list_insert]. specialize (IH (S j) ltac:(lia)).
  rewrite seq_S, fmap_app in IH. cbn [fmap list_fmap] in IH. rewrite <- (assoc_L (++)) in IH.
  replace (leaf + Z.of_nat (k + j) + 1) with (leaf + Z.of_nat (k + S j)) by lia.
  replace (j + S n)%nat with (S j + n)%nat by lia. exact IH.
Qed.

(** The proof of the node at address [a] and height [k]. *)
Definition proof_of (leaves : Level) (a : Z) (k : nat) : TreeProof.Proof :=
  TreeProof.mkProof a (leaf + Z.of_nat k) (nodes leaves k (Z.to_nat (a / 2 ^ (leaf + Z.of_nat k)))) root
    (nodes leaves height 0) (sibling leaves a k <$> seq 0 (height - k)).

Lemma aligned_iff a s : 0 <= s < 64 -> 0 <= a < 2 ^ 64 ->
  u64_shl (u64_shr a s) s = a - a mod 2 ^ s.
Proof.
  intros Hs Ha. rewrite u64_shr_div by done. unfold u64_shl. rewrite (Z.mod_small s 64) by lia.
  rewrite Z.shiftl_mul_pow2 by lia. pose proof (Z.div_mod a (2 ^ s) ltac:(apply Z.pow_nonzero; lia)).
  pose proof (Z.mod_pos_bound a (2 ^ s) ltac:(apply Z.pow_pos_nonneg; lia)).
  pose proof (Z.div_pos a (2 ^ s) ltac:(lia) ltac:(apply Z.pow_pos_nonneg; lia)).
  rewrite wrap_small; nia.
Qed.

Lemma get_proof_ok leaves a k :
  (k <= height)%nat -> 0 <= a < 2 ^ 64 ->
  get_proof (tree_of leaves) a (leaf + Z.of_nat k) =
  if decide (a mod 2 ^ (leaf + Z.of_nat k) <> 0) then Err MisalignedAddress
  else if decide (a < 2 ^ root) then Ok (proof_of leaves a k) else Err SizeOutOfRange.
Proof.
  intros Hk Ha. assert (Hs : 0 <= leaf + Z.of_nat k < 64) by sizes.
  unfold get_proof. change (log2_root_size (tree_of leaves)) with root.
  change (log2_leaf_size (tree_of leaves)) with leaf. unfold ensure.
  rewrite (proj2 (Z.leb_le leaf _)), (proj2 (Z.leb_le _ root)) by sizes. cbn [andb mbind outcome_bind].
  rewrite aligned_iff by done. case_decide as Hm; [by rewrite (proj2 (Z.eqb_neq _ _)) by lia|].
  rewrite (proj2 (Z.eqb_eq _ _)) by lia. cbn [mbind outcome_bind].
  rewrite get_node_hash_ok by lia. 
  assert (Hiff : a / 2 ^ (leaf + Z.of_nat k) < 2 ^ Z.of_nat (height - k) <-> a < 2 ^ root).
  { replace root with (leaf + Z.of_nat k + Z.of_nat (height - k)) by sizes.
    rewrite (Z.pow_add_r 2 (leaf + Z.of_nat k)) by lia. split; intros Hlt.
    - apply Z.nle_gt. intros Hge. apply Z.div_le_lower_bound in Hge; [lia|apply Z.pow_pos_nonneg; lia].
    - apply Z.div_lt_upper_bound; [apply Z.pow_pos_nonneg; lia|done]. }
  rewrite (decide_ext _ _ _ _ Hiff). case_decide as Hb; [|done]. cbn [mbind outcome_bind].
  rewrite get_root_hash_ok. cbn [mbind outcome_bind]. unfold TreeProof.new, ensure.
  rewrite (proj2 (Z.leb_le _ root)) by sizes. cbn [mbind outcome_bind].
  replace (Z.to_nat (root - (leaf + Z.of_nat k))) with (height - k)%nat by sizes.
  pose proof (fill_siblings_ok leaves a k (height - k) 0) as Hfill. rewrite Nat.add_0_r in Hfill.
  apply Hfill; lia.
Qed.
End TreeLemmas.

(** ** Properties of the tree *)

Section TreeTheorems.
Context `{Keccak}.
Import MerkleTree Complete.
Variables (root leaf word : Z).
Hypothesis Hsizes : sizes_ok root leaf word.

(** The tree kept incrementally is the tree built at once: pushing a leaf
    gives what [new_from_leaves] gives for all the leaves, and the tree refuses
    a leaf exactly when there would be too many. *)
Theorem push_equals_rebuild leaves x t :
  new_from_leaves root leaf word leaves = Ok t ->
  push t x =
  match new_from_leaves root leaf word (leaves ++ [x]) with
  | Err TooManyLeaves => Err TreeIsFull
  | o => o
  end.
Proof.
  rewrite !new_from_leaves_ok by done. case_decide as Hlen; [|done]. intros [= <-].
  rewrite push_ok, length_app by done. cbn [length].
  by repeat case_decide; try lia.
Qed.

(** The root hash of a tree is that of the full binary tree over its leaves,
    padded on the right with pristine leaves, although the code stores and
    hashes only the nodes that are not pristine; building fails exactly when
    there are more leaves than room for them. *)
Theorem root_hash_is_padded_root leaves :
  match new_from_leaves root leaf word leaves with
  | Ok t => get_root_hash (E := Error) t =
              Ok (node word (leaf_height leaf word) leaves (height root leaf) 0) /\
            len (E := Error) t = Ok (length leaves)
  | Err e => e = TooManyLeaves /\ 2 ^ (root - leaf) < Z.of_nat (length leaves)
  | Panic => False
  end.
Proof.
  rewrite new_from_leaves_ok by done. case_decide as Hlen.
  - split; [by apply get_root_hash_ok|]. unfold len.
    change (log2_leaf_size _) with leaf. unfold tree_of. by rewrite get_level_leaf.
  - split; [done|]. unfold height in Hlen. rewrite Z2Nat.id in Hlen; [lia|]. destruct Hsizes. lia.
Qed.

(** Every proof that a tree gives is valid: hashing the target with its
    siblings, on the side that the address says, gives the root hash. The
    target is the node at the address, there is one sibling per level, and the
    only errors are those of a misaligned address and of one outside the tree. *)
Theorem get_proof_valid leaves t a s :
  new_from_leaves root leaf word leaves = Ok t -> is_u64 a -> leaf <= s <= root ->
  match get_proof t a s with
  | Ok p => a mod 2 ^ s = 0 /\ a < 2 ^ root /\
      TreeProof.target_hash p = node word (leaf_height leaf word) leaves (Z.to_nat (s - leaf)) (Z.to_nat (a / 2 ^ s)) /\
      get_root_hash (E := Error) t = Ok (TreeProof.root_hash p) /\
      Z.of_nat (length (TreeProof.sibling_hashes p)) = root - s /\
      root_from (TreeProof.target_hash p) a s (TreeProof.sibling_hashes p) = TreeProof.root_hash p
  | Err MisalignedAddress => a mod 2 ^ s <> 0
  | Err e => e = SizeOutOfRange /\ a mod 2 ^ s = 0 /\ 2 ^ root <= a
  | Panic => False
  end.
Proof.
  rewrite new_from_leaves_ok by done. case_decide as Hlen; [|done]. intros [= <-] Ha Hs.
  pose proof Hsizes as (? & ? & ?).
  assert (Hk : s = leaf + Z.of_nat (Z.to_nat (s - leaf))) by lia. set (k := Z.to_nat (s - leaf)) in *.
  assert (Hh : (k <= height root leaf)%nat) by (unfold height; lia). rewrite Hk. clear Hk Hs.
  rewrite get_proof_ok by done. case_decide as Hm; [done|]. case_decide as Hb; [|split; [done|lia]].
  cbn [proof_of TreeProof.target_hash TreeProof.sibling_hashes TreeProof.root_hash].
  split; [lia|]. split; [done|]. split; [done|]. split; [by apply get_root_hash_ok|].
  split; [rewrite length_fmap, length_seq; unfold height in *; lia|].
  apply root_from_siblings; [done|unfold is_u64 in Ha; lia|lia].
Qed.
End TreeTheorems.

(** ** Properties of [compute_proofs] *)

Section ProofsTheorems.
Context `{Keccak} {A : Type} `{Proofs.Proofable A}.
Import MerkleTree Proofs.

(** The hash that stands for a 32-byte hash in the tree: the root over its
    four words. *)
Definition hash_root (h : Hash) : Hash := node LOG2_WORD_SIZE 0 (word_hashes h) 2 0.

Lemma bind_lookup {B C} (f : B -> list C) m l i j :
  (forall x, length (f x) = m) -> (j < m)%nat -> (l ≫= f) !! (m * i + j)%nat = (l !! i) ≫= fun x => f x !! j.
Proof.
  intros Hf Hj. revert i. induction l as [|x l IH]; intros i; [by destruct i|].
  cbn [mbind list_bind]. destruct i as [|i].
  - rewrite Nat.mul_0_r. cbn. by rewrite lookup_app_l by (rewrite Hf; lia).
  - rewrite lookup_app_r by (rewrite Hf; lia). rewrite Hf. cbn.
    replace (m * S i + j - m)%nat with (m * i + j)%nat by lia. apply IH.
Qed.

Lemma bind_length {B C} (f : B -> list C) m l : (forall x, length (f x) = m) -> length (l ≫= f) = (m * length l)%nat.
Proof.
  intros Hf. induction l as [|x l IH]; cbn; [lia|]. rewrite length_app, Hf, IH. lia.
Qed.

Lemma word_hashes_length h : length (word_hashes h) = 4%nat.
Proof. reflexivity. Qed.

(** The nodes at height 2 are the roots of the hashes. *)
Lemma node_hash_root (ps : list A) i a : ps !! i = Some a ->
  node LOG2_WORD_SIZE 0 (ps ≫= fun p => word_hashes (get_hash p)) 2 i = hash_root (get_hash a).
Proof.
  intros Ha. unfold hash_root. cbn [node].
  assert (Hw : forall j, (j < 4)%nat ->
    (ps ≫= fun p => word_hashes (get_hash p)) !! (4 * i + j)%nat = word_hashes (get_hash a) !! j).
  { intros j Hj. rewrite (bind_lookup _ 4) by done. by rewrite Ha. }
  pose proof (Hw 0%nat ltac:(lia)) as G0. pose proof (Hw 1%nat ltac:(lia)) as G1.
  pose proof (Hw 2%nat ltac:(lia)) as G2. pose proof (Hw 3%nat ltac:(lia)) as G3.
  replace (2 * (2 * i))%nat with (4 * i + 0)%nat by lia.
  replace (4 * i + 0 + 1)%nat with (4 * i + 1)%nat by lia.
  replace (2 * (2 * i + 1))%nat with (4 * i + 2)%nat by lia.
  replace (4 * i + 2 + 1)%nat with (4 * i + 3)%nat by lia. by rewrite G0, G1, G2, G3.
Qed.

(** The loop that sets the proofs. *)
Lemma set_proofs_loop {E} (get : nat -> outcome E TreeProof.Proof) (proof_at : nat -> TreeProof.Proof) n j (l : list A) :
  (forall i, (j <= i < j + n)%nat -> get i = Ok (proof_at i)) ->
  for_each (seq j n) (fun i => proof ← lift (get i); modify (alter (set_proof proof) i)) l =
  (Ok tt, imap (fun i a => if decide (j <= i < j + n)%nat then set_proof (proof_at i) a else a) l).
Proof.
  revert j l. induction n as [|n IH]; intros j l Hget; cbn [seq for_each].
  - unfold mret, M_ret. f_equal. apply list_eq. intros i. rewrite list_lookup_imap.
    destruct (l !! i); [|done]. cbn. by rewrite decide_False by lia.
  - unfold mbind, M_bind, lift, modify. rewrite Hget by lia.
    rewrite IH by (intros; apply Hget; lia). f_equal. apply list_eq. intros i. rewrite !list_lookup_imap.
    destruct (decide (i = j)) as [->|Hne].
    + rewrite list_lookup_alter_eq. destruct (l !! j); [|done]. cbn.
      by rewrite decide_False, decide_True by lia.
    + rewrite list_lookup_alter_ne by done. destruct (l !! i); [|done]. cbn. f_equal.
      by repeat case_decide; try lia.
Qed.

(** What a proof of [a], the [i]-th of the outputs, must be. *)
Definition proves (rt : Hash) (i : nat) (a : A) (p : TreeProof.Proof) : Prop :=
  TreeProof.target_address p = 32 * Z.of_nat i /\
  TreeProof.target_hash p = hash_root (get_hash a) /\
  TreeProof.root_hash p = rt /\
  length (TreeProof.sibling_hashes p) = 16%nat /\
  root_from (TreeProof.target_hash p) (TreeProof.target_address p) LOG2_HASH_SIZE
    (TreeProof.sibling_hashes p) = rt.

Lemma compute_proofs_ok (ps : list A) :
  compute_proofs ps =
  if decide (Z.of_nat (length ps) <= 2 ^ 16) then
    let leaves := ps ≫= fun p => word_hashes (get_hash p) in
    (Ok (node LOG2_WORD_SIZE 0 leaves 18 0),
     imap (fun i a => set_proof (proof_of LOG2_ROOT_SIZE LOG2_WORD_SIZE LOG2_WORD_SIZE leaves (32 * Z.of_nat i) 2) a) ps)
  else (Err TooManyLeaves, ps).
Proof.
  assert (Hs : sizes_ok LOG2_ROOT_SIZE LOG2_WORD_SIZE LOG2_WORD_SIZE) by (split; [|split]; done).
  unfold compute_proofs. cbv zeta. set (leaves := ps ≫= _).
  assert (Hlen : length leaves = (4 * length ps)%nat) by by apply bind_length.
  change (compute_proofs ps) with (compute_proofs ps). unfold mbind at 1, M_bind at 1. cbn [get].
  fold leaves. unfold mbind at 1, M_bind at 1, lift at 1. rewrite new_from_leaves_ok by done.
  change (2 ^ Z.of_nat (height LOG2_ROOT_SIZE LOG2_WORD_SIZE)) with (2 ^ 18).
  destruct (decide (Z.of_nat (length ps) <= 2 ^ 16)) as [Hle|Hle].
  2:{ by rewrite decide_False by lia. }
  rewrite decide_True by lia. unfold mbind at 1, M_bind at 1.
  rewrite (set_proofs_loop _ (fun i => proof_of LOG2_ROOT_SIZE LOG2_WORD_SIZE LOG2_WORD_SIZE leaves (32 * Z.of_nat i) 2)).
  - unfold lift. rewrite get_root_hash_ok by done. f_equal. apply imap_ext. intros i a Hi. cbn.
    apply lookup_lt_Some in Hi. by rewrite decide_True by lia.
  - intros i Hi. change (u64_shl 1 LOG2_HASH_SIZE) with 32. rewrite wrap_small by lia.
    change LOG2_HASH_SIZE with (LOG2_WORD_SIZE + Z.of_nat 2). 
    assert (Hh : (2 <= height LOG2_ROOT_SIZE LOG2_WORD_SIZE)%nat) by (apply Nat.leb_le; reflexivity).
    rewrite get_proof_ok by (done || lia).
    change (2 ^ (LOG2_WORD_SIZE + Z.of_nat 2)) with 32. change (2 ^ LOG2_ROOT_SIZE) with (32 * 2 ^ 16).
    rewrite decide_False, decide_True.
    + f_equal. f_equal. lia.
    + lia.
    + rewrite Z.mod_mul by lia. lia.
Qed.

(** Every output has its proof. *)
Definition proved (rt : Hash) (ps ps' : list A) : Prop :=
  length ps' = length ps /\
  forall i a, ps !! i = Some a -> exists p, ps' !! i = Some (set_proof p a) /\ proves rt i a p.

Lemma compute_proofs_cases (ps : list A) :
  (Z.of_nat (length ps) <= 2 ^ 16 /\ exists rt ps', compute_proofs ps = (Ok rt, ps') /\ proved rt ps ps') \/
  (2 ^ 16 < Z.of_nat (length ps) /\ compute_proofs ps = (Err TooManyLeaves, ps)).
Proof.
  assert (Hs : sizes_ok LOG2_ROOT_SIZE LOG2_WORD_SIZE LOG2_WORD_SIZE) by (split; [|split]; done).
  rewrite compute_proofs_ok. cbv zeta. case_decide as Hle; [|right; split; [lia|done]].
  left. split; [done|]. do 2 eexists. split; [done|]. split; [by rewrite length_imap|].
  intros i a Ha. eexists. split; [by rewrite list_lookup_imap, Ha|].
  assert (Hi : (i < length ps)%nat) by by apply lookup_lt_Some in Ha.
  split; [done|]. cbn [proof_of TreeProof.target_hash TreeProof.root_hash TreeProof.sibling_hashes
    TreeProof.target_address]. split; [|split; [done|split; [done|]]].
  - rewrite <- (node_hash_root ps i a Ha). change (2 ^ (LOG2_WORD_SIZE + Z.of_nat 2)) with 32.
    rewrite Z.mul_comm, Z.div_mul by lia. by rewrite Nat2Z.id.
  - change LOG2_HASH_SIZE with (LOG2_WORD_SIZE + Z.of_nat 2).
    apply (root_from_siblings LOG2_ROOT_SIZE LOG2_WORD_SIZE LOG2_WORD_SIZE Hs); [|done].
    change (2 ^ LOG2_ROOT_SIZE) with (32 * 2 ^ 16). lia.
Qed.

(** [compute_proofs] gives every output a valid proof of its own hash: up
    to 2^16 outputs, the i-th one gets a proof at the i-th address whose target
    is the root over the four words of the output's hash and which hashes, over
    16 siblings, to the root that is returned. More outputs are refused and
    left untouched. *)
Theorem compute_proofs_valid (ps : list A) :
  match compute_proofs ps with
  | (Ok rt, ps') => Z.of_nat (length ps) <= 2 ^ 16 /\ proved rt ps ps'
  | (Err e, ps') => e = TooManyLeaves /\ 2 ^ 16 < Z.of_nat (length ps) /\ ps' = ps
  | (Panic, _) => False
  end.
Proof.
  by destruct (compute_proofs_cases ps) as [(Hle & rt & ps' & -> & Hp)|[Hlt ->]].
Qed.
End ProofsTheorems.

(** ** Witnesses *)

Module TreeWitness.
Import KeccakRef MerkleTree Complete.

(** A tree of up to eight leaves of one word, with three of them. *)
Definition leaves : Level := (fun n => keccak256 [byte_of_Z n]) <$> [1; 2; 3].
Definition new_leaf : Hash := keccak256 [x04].

Lemma sizes : sizes_ok 6 3 3.
Proof. repeat split; lia. Qed.

Lemma push_equals_rebuild_witness :
  push (tree_of 6 3 3 leaves) new_leaf =
  match new_from_leaves 6 3 3 (leaves ++ [new_leaf]) with
  | Err TooManyLeaves => Err TreeIsFull
  | o => o
  end.
Proof. apply (push_equals_rebuild 6 3 3 sizes). vm_compute. reflexivity. Defined.

Lemma root_hash_is_padded_root_witness :
  match new_from_leaves 6 3 3 leaves with
  | Ok t => get_root_hash (E := Error) t = Ok (node 3 (leaf_height 3 3) leaves (height 6 3) 0) /\
            len (E := Error) t = Ok (length leaves)
  | Err e => e = TooManyLeaves /\ 2 ^ (6 - 3) < Z.of_nat (length leaves)
  | Panic => False
  end.
Proof. exact (root_hash_is_padded_root 6 3 3 sizes leaves). Defined.

(** The third leaf, at address 16. *)
Lemma get_proof_valid_witness :
  match get_proof (tree_of 6 3 3 leaves) 16 3 with
  | Ok p => 16 mod 2 ^ 3 = 0 /\ 16 < 2 ^ 6 /\
      TreeProof.target_hash p = node 3 (leaf_height 3 3) leaves (Z.to_nat (3 - 3)) (Z.to_nat (16 / 2 ^ 3)) /\
      get_root_hash (E := Error) (tree_of 6 3 3 leaves) = Ok (TreeProof.root_hash p) /\
      Z.of_nat (length (TreeProof.sibling_hashes p)) = 6 - 3 /\
      root_from (TreeProof.target_hash p) 16 3 (TreeProof.sibling_hashes p) = TreeProof.root_hash p
  | Err MisalignedAddress => 16 mod 2 ^ 3 <> 0
  | Err e => e = SizeOutOfRange /\ 16 mod 2 ^ 3 = 0 /\ 2 ^ 6 <= 16
  | Panic => False
  end.
Proof.
  apply (get_proof_valid 6 3 3 sizes leaves (tree_of 6 3 3 leaves) 16 3).
  - vm_compute. reflexivity.
  - unfold is_u64. lia.
  - lia.
Defined.
End TreeWitness.
