(* ===== verification/HostModel.v ===== *)
(** * Data model of the host-runner

    [offchain/host-runner/src/driver.rs]: the hash of a voucher and of a
    notice; [offchain/host-runner/src/model.rs]: the requests, results and
    outputs of the rollup. Keccak-256 is a parameter. *)

From stdpp Require Import gmap.
From S2P Require Import Prelude Codecs Events MerkleTree.

(** [n] bytes of [v], most significant first. *)
Fixpoint be (n : nat) (v : Z) : list byte :=
  match n with O => [] | S n => be n (v / 256) ++ [byte_of_Z v] end.

(** ** [driver.rs] *)

(** The hasher is the list of the bytes that it was fed. *)
Module HostDriver.
Section Driver.
Context `{Keccak}.

Definition write_padding (hasher : list byte) (n : nat) : list byte :=
  let alignment := Nat.modulo n Common.HASH_SIZE in
  if negb (Nat.eqb alignment 0) then hasher ++ zeros (Common.HASH_SIZE - alignment) else hasher.

Definition write_u64 (hasher : list byte) (value : Z) : list byte :=
  write_padding hasher 8 ++ be 8 value.

Definition write_data (hasher data : list byte) : list byte :=
  write_padding hasher (length data) ++ data.

Definition write_payload (hasher payload : list byte) : list byte :=
  let hasher := write_u64 hasher (Z.of_nat (length payload)) in
  write_padding (hasher ++ payload) (length payload).

Definition compute_voucher_hash (destination payload : list byte) : Hash :=
  let hasher := write_data [] destination in
  let hasher := write_u64 hasher 0x40 in
  keccak256 (write_payload hasher payload).

Definition compute_notice_hash (payload : list byte) : Hash :=
  let hasher := write_u64 [] 0x20 in
  keccak256 (write_payload hasher payload).
End Driver.
End HostDriver.

(** ** [model.rs] *)

Module HostModel.
Record AdvanceMetadata := mkAdvanceMetadata {
  am_msg_sender : Address;
  am_epoch_index : Z;
  am_input_index : Z;
  am_block_number : Z;
  am_timestamp : Z;
}.

Record AdvanceStateRequest := mkAdvanceStateRequest {
  as_metadata : AdvanceMetadata;
  as_payload : list byte;
}.

Record HostReport := mkHostReport { hr_payload : list byte }.
Record RollupException := mkRollupException { re_payload : list byte }.
(** [Display] *)
Definition RollupException_fmt `{HexCrate} (self : RollupException) : string :=
  "rollup exception (" +:+ Conversions.encode_ethereum_binary (re_payload self) +:+ ")".

Record HostVoucher := mkHostVoucher {
  hv_destination : Address;
  hv_payload : list byte;
  hv_keccak : Hash;
  keccak_in_voucher_hashes : option TreeProof.Proof;
}.

Record HostNotice := mkHostNotice {
  hn_payload : list byte;
  hn_keccak : Hash;
  keccak_in_notice_hashes : option TreeProof.Proof;
}.

Section New.
Context `{Keccak}.

Definition Voucher_new (destination : Address) (payload : list byte) : HostVoucher :=
  mkHostVoucher destination payload (HostDriver.compute_voucher_hash destination payload) None.

Definition Notice_new (payload : list byte) : HostNotice :=
  mkHostNotice payload (HostDriver.compute_notice_hash payload) None.
End New.

#[export] Instance voucher_proofable : Proofs.Proofable HostVoucher := {|
  Proofs.get_hash := hv_keccak;
  Proofs.set_proof p v := mkHostVoucher (hv_destination v) (hv_payload v) (hv_keccak v) (Some p) |}.

#[export] Instance notice_proofable : Proofs.Proofable HostNotice := {|
  Proofs.get_hash := hn_keccak;
  Proofs.set_proof p n := mkHostNotice (hn_payload n) (hn_keccak n) (Some p) |}.

Inductive HostCompletionStatus :=
| HostAccepted (vouchers : list HostVoucher) (notices : list HostNotice)
| HostRejected
| HostException (exception : RollupException).

Record HostAdvanceResult := mkHostAdvanceResult {
  har_status : HostCompletionStatus;
  har_reports : list HostReport;
  voucher_hashes_in_epoch : option TreeProof.Proof;
  voucher_root : option Hash;
  notice_hashes_in_epoch : option TreeProof.Proof;
  notice_root : option Hash;
}.

Definition AdvanceResult_new (status : HostCompletionStatus) (reports : list HostReport) : HostAdvanceResult :=
  mkHostAdvanceResult status reports None None None None.
Definition AdvanceResult_accepted (vouchers : list HostVoucher) (notices : list HostNotice)
    (reports : list HostReport) : HostAdvanceResult :=
  AdvanceResult_new (HostAccepted vouchers notices) reports.
Definition AdvanceResult_rejected (reports : list HostReport) : HostAdvanceResult :=
  AdvanceResult_new HostRejected reports.
Definition AdvanceResult_exception (exception : RollupException) (reports : list HostReport)
    : HostAdvanceResult :=
  AdvanceResult_new (HostException exception) reports.

Record InspectStateRequest := mkInspectStateRequest { isr_payload : list byte }.

Inductive InspectStatus :=
| InspectAccepted
| InspectRejected
| InspectException (exception : RollupException).

Record InspectResult := mkInspectResult {
  ir_status : InspectStatus;
  ir_reports : list HostReport;
}.

Definition InspectResult_accepted (reports : list HostReport) : InspectResult :=
  mkInspectResult InspectAccepted reports.
Definition InspectResult_rejected (reports : list HostReport) : InspectResult :=
  mkInspectResult InspectRejected reports.
Definition InspectResult_exception (reports : list HostReport) (exception : RollupException) : InspectResult :=
  mkInspectResult (InspectException exception) reports.

Inductive FinishStatus := Accept | Reject.

Inductive RollupRequest :=
| AdvanceState (request : AdvanceStateRequest)
| InspectState (request : InspectStateRequest).
End HostModel.

(** ** The encoding that is hashed

    The Solidity ABI encoding of [(address, bytes)] and of [(bytes)]. *)

Definition abi_word (v : Z) : list byte := be 32 v.
Definition abi_padded (payload : list byte) : list byte :=
  payload ++ zeros (Z.to_nat (- Z.of_nat (length payload) mod 32)).
Definition abi_voucher (destination payload : list byte) : list byte :=
  zeros (32 - length destination) ++ destination ++ abi_word 64 ++
  abi_word (Z.of_nat (length payload)) ++ abi_padded payload.
Definition abi_notice (payload : list byte) : list byte :=
  abi_word 32 ++ abi_word (Z.of_nat (length payload)) ++ abi_padded payload.

Lemma length_be n v : length (be n v) = n.
Proof. revert v. induction n as [|n IH]; intros v; [done|]. cbn. rewrite length_app, IH. cbn. lia. Qed.

Lemma zeros_snoc n : zeros n ++ [x00] = zeros (S n).
Proof. unfold zeros. by rewrite replicate_S_end. Qed.

Lemma be_zero n : be n 0 = zeros n.
Proof. induction n as [|n IH]; [done|]. cbn [be]. rewrite Z.div_0_l, IH by lia. apply zeros_snoc. Qed.

(** A small number has leading zeros. *)
Lemma be_small m n v : 0 <= v < 256 ^ Z.of_nat n -> be (m + n) v = zeros m ++ be n v.
Proof.
  revert v. induction n as [|n IH]; intros v Hv.
  - rewrite Nat.add_0_r. replace v with 0 by (cbn in Hv; lia). by rewrite be_zero, app_nil_r.
  - rewrite Nat.add_succ_r. cbn [be]. rewrite IH, (assoc_L (++)); [done|].
    rewrite Nat2Z.inj_succ, Z.pow_succ_r in Hv by lia. split; [apply Z.div_pos; lia|].
    apply Z.div_lt_upper_bound; lia.
Qed.

Lemma byte_of_Z_inj v w : byte_of_Z v = byte_of_Z w -> v mod 256 = w mod 256.
Proof.
  unfold byte_of_Z, wrap. change (2 ^ 8) with 256. intros Heq.
  pose proof (Z.mod_pos_bound v 256 ltac:(lia)) as Hv. pose proof (Z.mod_pos_bound w 256 ltac:(lia)) as Hw.
  assert (Hof : forall z, 0 <= z < 256 -> exists b, Byte.of_N (Z.to_N z) = Some b /\ Byte.to_N b = Z.to_N z).
  { intros z Hz. destruct (Byte.of_N (Z.to_N z)) as [b|] eqn:Hb.
    - exists b. split; [done|]. by apply Byte.to_of_N_iff in Hb.
    - apply Byte.of_N_None_iff in Hb. lia. }
  destruct (Hof _ Hv) as (b & Hb & Hb'), (Hof _ Hw) as (c & Hc & Hc').
  rewrite Hb, Hc in Heq. cbn in Heq. subst c. lia.
Qed.

Lemma be_inj n v w : 0 <= v < 256 ^ Z.of_nat n -> 0 <= w < 256 ^ Z.of_nat n -> be n v = be n w -> v = w.
Proof.
  revert v w. induction n as [|n IH]; intros v w Hv Hw Heq; [cbn in *; lia|].
  cbn [be] in Heq. apply app_inj_2 in Heq as [Heq [= Hb]]; [|done].
  rewrite Nat2Z.inj_succ, Z.pow_succ_r in Hv, Hw by lia.
  apply IH in Heq; [|split; [apply Z.div_pos; lia|apply Z.div_lt_upper_bound; lia]..].
  apply byte_of_Z_inj in Hb. rewrite (Z.div_mod v 256), (Z.div_mod w 256) by lia. lia.
Qed.

Lemma write_padding_ok hasher n :
  HostDriver.write_padding hasher n = hasher ++ zeros (Z.to_nat (- Z.of_nat n mod 32)).
Proof.
  unfold HostDriver.write_padding. change Common.HASH_SIZE with 32%nat.
  assert (Hmod : Z.of_nat (Nat.modulo n 32) = Z.of_nat n mod 32) by by rewrite Nat2Z.inj_mod.
  destruct (Nat.eqb_spec (Nat.modulo n 32) 0) as [H0|H0]; cbn [negb].
  - rewrite Z.mod_opp_l_z by lia. by rewrite app_nil_r.
  - rewrite Z.mod_opp_l_nz by lia. f_equal. f_equal. lia.
Qed.

Lemma write_u64_ok hasher v : 0 <= v < 2 ^ 64 -> HostDriver.write_u64 hasher v = hasher ++ abi_word v.
Proof.
  intros Hv. unfold HostDriver.write_u64. rewrite write_padding_ok, <- (assoc_L (++)). f_equal.
  symmetry. apply (be_small 24 8). exact Hv.
Qed.

Lemma write_payload_ok hasher payload : Z.of_nat (length payload) < 2 ^ 64 ->
  HostDriver.write_payload hasher payload =
  hasher ++ abi_word (Z.of_nat (length payload)) ++ abi_padded payload.
Proof.
  intros Hp. unfold HostDriver.write_payload, abi_padded. rewrite write_u64_ok, write_padding_ok by lia.
  by rewrite <- !(assoc_L (++)).
Qed.

(** The hash of a voucher and of a notice is Keccak-256 of the Solidity
    ABI encoding of [(destination, payload)] and of [(payload)]. *)
Theorem output_hash_abi `{Keccak} destination payload :
  length destination = Common.ADDRESS_SIZE -> Z.of_nat (length payload) < 2 ^ 64 ->
  HostDriver.compute_voucher_hash destination payload = keccak256 (abi_voucher destination payload) /\
  HostDriver.compute_notice_hash payload = keccak256 (abi_notice payload).
Proof.
  intros Hd Hp. unfold HostDriver.compute_voucher_hash, HostDriver.compute_notice_hash, HostDriver.write_data.
  rewrite !write_payload_ok, !write_u64_ok, write_padding_ok by (done || lia). rewrite Hd.
  unfold abi_voucher, abi_notice. rewrite Hd. by rewrite <- !(assoc_L (++)).
Qed.

(** The words and the padding determine the payload. *)
Lemma abi_payload_inj p q :
  Z.of_nat (length p) < 2 ^ 64 -> Z.of_nat (length q) < 2 ^ 64 ->
  abi_word (Z.of_nat (length p)) ++ abi_padded p = abi_word (Z.of_nat (length q)) ++ abi_padded q -> p = q.
Proof.
  intros Hp Hq [Hw Hpad]%app_inj_1; [|by unfold abi_word; rewrite !length_be].
  assert (256 ^ Z.of_nat 32 > 2 ^ 64) by done.
  apply be_inj in Hw; [|lia..]. apply app_inj_1 in Hpad as [? _]; [done|lia].
Qed.

(** Two vouchers, or two notices, that differ are hashed from different
    bytes: the encoding that is hashed determines the destination and the
    payload, so equal hashes of different outputs are Keccak-256 collisions. *)
Theorem output_hash_collision `{Keccak} d p d' p' :
  length d = Common.ADDRESS_SIZE -> length d' = Common.ADDRESS_SIZE ->
  Z.of_nat (length p) < 2 ^ 64 -> Z.of_nat (length p') < 2 ^ 64 ->
  (HostDriver.compute_voucher_hash d p = HostDriver.compute_voucher_hash d' p' ->
   (d = d' /\ p = p') \/ exists x y, x <> y /\ keccak256 x = keccak256 y) /\
  (HostDriver.compute_notice_hash p = HostDriver.compute_notice_hash p' ->
   p = p' \/ exists x y, x <> y /\ keccak256 x = keccak256 y).
Proof.
  intros Hd Hd' Hp Hp'. unfold HostDriver.compute_voucher_hash, HostDriver.compute_notice_hash, HostDriver.write_data.
  rewrite !write_payload_ok, !write_u64_ok, !write_padding_ok, Hd, Hd' by (done || lia).
  split; intros Heq; match type of Heq with keccak256 ?x = keccak256 ?y => destruct (decide (x = y)) as [Hxy|Hxy] end;
    [|right; eauto| |right; eauto]; left; rewrite <- !(assoc_L (++)) in Hxy.
  - apply app_inj_1 in Hxy as [_ Hxy]; [|done]. apply app_inj_1 in Hxy as [_ Hxy]; [|done].
    apply app_inj_1 in Hxy as [-> Hxy]; [|congruence]. apply app_inj_1 in Hxy as [_ Hxy]; [|done].
    split; [done|]. by apply abi_payload_inj.
  - apply app_inj_1 in Hxy as [_ Hxy]; [|done]. apply app_inj_1 in Hxy as [_ Hxy]; [|done]. by apply abi_payload_inj.
Qed.

Module HostModelWitness.
Import KeccakRef.

Lemma output_hash_abi_witness :
  HostDriver.compute_voucher_hash sample_address [x01; x02] = keccak256 (abi_voucher sample_address [x01; x02]) /\
  HostDriver.compute_notice_hash [x01; x02] = keccak256 (abi_notice [x01; x02]).
Proof. apply output_hash_abi; [reflexivity|done]. Defined.

Lemma output_hash_collision_witness :
  (HostDriver.compute_voucher_hash sample_address [x01] = HostDriver.compute_voucher_hash (zeros 20) [] ->
   (sample_address = zeros 20 /\ [x01] = []) \/ exists x y, x <> y /\ keccak256 x = keccak256 y) /\
  (HostDriver.compute_notice_hash [x01] = HostDriver.compute_notice_hash [] ->
   [x01] = [] \/ exists x y, x <> y /\ keccak256 x = keccak256 y).
Proof. apply output_hash_collision; [reflexivity|reflexivity|done|done]. Defined.
End HostModelWitness.
