(* ===== verification/HostServer.v ===== *)
(** * The server-manager of the host-runner

    [offchain/host-runner/src/grpc/server_manager.rs]: epochs, the session,
    the session manager and the service, which implements the interface that
    the advance-runner calls. The controller that runs the inputs, and
    [ethabi], are parameters. Calls do not overlap here, so that the locks are
    always free ([HostConcurrency] takes the locks); the tasks that wait for the
    results of the controller are part of the session and finish in any order. *)

From stdpp Require Import gmap.
From S2P Require Import Prelude Codecs Events Grpc MerkleTree HostModel.
Import HostModel.

(** [ethabi::encode(&[Token::Int(index)])] *)
Class Ethabi : Type := ethabi_encode_int : Z -> list byte.

Definition invalid_argument (message : string) : Status := mkStatus InvalidArgument message.

(** ** Conversions to the protocol *)

Module HostConversions.
(** The messages of [merkle_tree::Error]. *)
Definition tree_error_message (e : MerkleTree.Error) : string :=
  match e with
  | MerkleTree.TargetSizeGreaterThanRootSize => "log2_target_size is greater than log2_root_size"
  | MerkleTree.LeafSizeGreaterThanRootSize => "log2_leaf_size is greater than log2_root_size"
  | MerkleTree.WordSizeGreaterThanLeafSize => "log2_word_size is greater than log2_leaf_size"
  | MerkleTree.WordSizeGreaterThanRootSize => "log2_word_size is greater than log2_root_size"
  | MerkleTree.TreeTooLarge => "tree is too large for address type"
  | MerkleTree.TreeIsFull => "tree is full"
  | MerkleTree.TooManyLeaves => "too many leaves"
  | MerkleTree.SizeOutOfRange => "log2_size is out of range"
  | MerkleTree.MisalignedAddress => "address is misaligned"
  end.

(** [impl From<MerkleTreeError> for Status] *)
Definition tree_status (e : MerkleTree.Error) : Status :=
  mkStatus Internal ("unexpected error when updating merkle tree (" +:+ tree_error_message e +:+ ")").

Definition completion_status (status : HostCompletionStatus) : GrpcCompletionStatus :=
  match status with
  | HostAccepted _ _ => GrpcAccepted
  | HostRejected => GrpcRejected
  | HostException _ => GrpcException
  end.

Definition inspect_status (status : InspectStatus) : GrpcCompletionStatus :=
  match status with
  | InspectAccepted => GrpcAccepted
  | InspectRejected => GrpcRejected
  | InspectException _ => GrpcException
  end.

Definition voucher_message (v : HostVoucher) : GrpcVoucher :=
  mkGrpcVoucher (Some (mkGrpcAddress (hv_destination v))) (hv_payload v).
Definition notice_message (n : HostNotice) : GrpcNotice := mkGrpcNotice (hn_payload n).
Definition report_message (r : HostReport) : GrpcReport := mkGrpcReport (hr_payload r).

Definition one_of (status : HostCompletionStatus) : option ProcessedInputOneOf :=
  match status with
  | HostAccepted vouchers notices =>
      Some (AcceptedData (voucher_message <$> vouchers) (notice_message <$> notices))
  | HostRejected => None
  | HostException exception => Some (ExceptionData (re_payload exception))
  end.
End HostConversions.

(** ** [Epoch] *)

Module Epoch.
Import HostConversions.

Definition LOG2_KECCAK_SIZE : Z := 5.
Definition LOG2_ROOT_SIZE : Z := 32 + LOG2_KECCAK_SIZE.
Definition MAX_INPUTS_IN_EPOCH : Z := u64_shl 1 (LOG2_ROOT_SIZE - LOG2_KECCAK_SIZE).

Record Epoch := mkEpoch {
  state : EpochState;
  pending_inputs : Z;
  processed_inputs : list HostAdvanceResult;
  vouchers_tree : Complete.Tree;
  notices_tree : Complete.Tree;
  processed_input_count_since_genesis : Z;
}.

Definition set_state (x : EpochState) (e : Epoch) : Epoch :=
  mkEpoch x (pending_inputs e) (processed_inputs e) (vouchers_tree e) (notices_tree e)
    (processed_input_count_since_genesis e).
Definition set_pending_inputs (x : Z) (e : Epoch) : Epoch :=
  mkEpoch (state e) x (processed_inputs e) (vouchers_tree e) (notices_tree e)
    (processed_input_count_since_genesis e).
Definition set_processed_inputs (x : list HostAdvanceResult) (e : Epoch) : Epoch :=
  mkEpoch (state e) (pending_inputs e) x (vouchers_tree e) (notices_tree e)
    (processed_input_count_since_genesis e).
Definition set_vouchers_tree (x : Complete.Tree) (e : Epoch) : Epoch :=
  mkEpoch (state e) (pending_inputs e) (processed_inputs e) x (notices_tree e)
    (processed_input_count_since_genesis e).
Definition set_notices_tree (x : Complete.Tree) (e : Epoch) : Epoch :=
  mkEpoch (state e) (pending_inputs e) (processed_inputs e) (vouchers_tree e) x
    (processed_input_count_since_genesis e).

Section Ops.
Context `{Keccak, Ethabi}.

Definition new {E} (processed_input_count_since_genesis : Z) : outcome E Epoch :=
  vouchers_tree ← expect (Complete.new LOG2_ROOT_SIZE LOG2_KECCAK_SIZE LOG2_KECCAK_SIZE);
  notices_tree ← expect (Complete.new LOG2_ROOT_SIZE LOG2_KECCAK_SIZE LOG2_KECCAK_SIZE);
  Ok (mkEpoch Active 0 [] vouchers_tree notices_tree processed_input_count_since_genesis).

Definition get_num_processed_inputs_within_epoch (e : Epoch) : Z := Z.of_nat (length (processed_inputs e)).
Definition get_num_processed_inputs_since_genesis (e : Epoch) : Z :=
  get_num_processed_inputs_within_epoch e ⊞ processed_input_count_since_genesis e.
Definition get_current_input_index (e : Epoch) : Z :=
  pending_inputs e ⊞ get_num_processed_inputs_since_genesis e.

Definition check_active (e : Epoch) : outcome Status unit :=
  ensure (bool_decide (state e = Active)) (invalid_argument "epoch is finished").
Definition check_finished (e : Epoch) : outcome Status unit :=
  match check_active e with
  | Ok _ => Err (invalid_argument "epoch is not finished")
  | Err _ => Ok tt
  | Panic => Panic
  end.
Definition check_current_input_index (e : Epoch) (current_input_index : Z) : outcome Status unit :=
  let epoch_current_input_index := get_current_input_index e in
  ensure (epoch_current_input_index =? current_input_index)
    (invalid_argument ("incorrect current input index (expected " +:+ pretty epoch_current_input_index
       +:+ ", got " +:+ pretty current_input_index +:+ ")")).
Definition check_pending_inputs (e : Epoch) : outcome Status unit :=
  ensure (pending_inputs e =? 0) (invalid_argument "epoch still has pending inputs").
Definition check_processed_inputs (e : Epoch) (processed_input_count_within_epoch : Z) : outcome Status unit :=
  ensure (get_num_processed_inputs_within_epoch e =? processed_input_count_within_epoch)
    (invalid_argument ("incorrect processed input count (expected "
       +:+ pretty (get_num_processed_inputs_within_epoch e)
       +:+ ", got " +:+ pretty processed_input_count_within_epoch +:+ ")")).
Definition check_no_processed_inputs (e : Epoch) : outcome Status unit :=
  ensure (get_num_processed_inputs_within_epoch e =? 0) (invalid_argument "epoch still has processed inputs").
Definition check_input_limit (e : Epoch) : outcome Status unit :=
  ensure (negb (MAX_INPUTS_IN_EPOCH <=? pending_inputs e ⊞ get_num_processed_inputs_within_epoch e ⊞ 1))
    (invalid_argument "reached max number of inputs per epoch").
Definition check_endable (e : Epoch) : outcome Status unit :=
  check_pending_inputs e ;; check_no_processed_inputs e.

Definition try_add_pending_input (current_input_index : Z) : M Epoch Status unit :=
  e ← get;
  lift (check_active e) ;;
  lift (check_current_input_index e current_input_index) ;;
  lift (check_input_limit e) ;;
  modify (set_pending_inputs (pending_inputs e ⊞ 1)).

(** [compute_proofs(&mut outputs)?] *)
Definition prove_outputs {A} `{Proofs.Proofable A} (outputs : list A) : outcome Status (Hash * list A) :=
  let '(root, outputs) := Proofs.compute_proofs outputs in
  root ← map_err tree_status root;
  Ok (root, outputs).

Definition push_voucher_root (root : Hash) : M Epoch Status unit :=
  e ← get;
  t ← lift (map_err tree_status (Complete.push (vouchers_tree e) root));
  modify (set_vouchers_tree t).
Definition push_notice_root (root : Hash) : M Epoch Status unit :=
  e ← get;
  t ← lift (map_err tree_status (Complete.push (notices_tree e) root));
  modify (set_notices_tree t).

(** Proves the outputs of a result and pushes their roots to the trees. *)
Definition push_roots (result : HostAdvanceResult) : M Epoch Status HostAdvanceResult :=
  match har_status result with
  | HostAccepted vouchers notices =>
      '(voucher_root, vouchers) ← lift (prove_outputs vouchers);
      push_voucher_root voucher_root ;;
      '(notice_root, notices) ← lift (prove_outputs notices);
      push_notice_root notice_root ;;
      mret (mkHostAdvanceResult (HostAccepted vouchers notices) (har_reports result)
              (voucher_hashes_in_epoch result) (Some voucher_root)
              (notice_hashes_in_epoch result) (Some notice_root))
  | _ =>
      push_voucher_root MerkleTree.default_hash ;;
      push_notice_root MerkleTree.default_hash ;;
      mret result
  end.

Definition add_processed_input (result : HostAdvanceResult) : M Epoch Status unit :=
  result ← push_roots result;
  e ← get;
  len ← lift (Complete.len (vouchers_tree e));
  let address := u64_shl (Z.of_nat len ⊟ 1) LOG2_KECCAK_SIZE in
  vproof ← lift (map_err tree_status (Complete.get_proof (vouchers_tree e) address LOG2_KECCAK_SIZE));
  nproof ← lift (map_err tree_status (Complete.get_proof (notices_tree e) address LOG2_KECCAK_SIZE));
  modify (fun e => set_pending_inputs (pending_inputs e ⊟ 1) e) ;;
  modify (fun e => set_processed_inputs (processed_inputs e ++
    [mkHostAdvanceResult (har_status result) (har_reports result) (Some vproof) (voucher_root result)
       (Some nproof) (notice_root result)]) e).

(** A [GrpcProof] of [try_finish]. *)
Definition output_proof (e : Epoch) (context : list byte) (local_input_index output_index : nat)
    (output_enum : OutputEnum) (output_root : Hash) (output_proof hashes_in_epoch : TreeProof.Proof)
    : outcome Status GrpcProof :=
  vouchers_epoch_root ← Complete.get_root_hash (vouchers_tree e);
  notices_epoch_root ← Complete.get_root_hash (notices_tree e);
  Ok (mkGrpcProof (processed_input_count_since_genesis e ⊞ Z.of_nat local_input_index)
        (Z.of_nat output_index) output_enum
        (Some (mkOutputValidityProof (Z.of_nat local_input_index) (Z.of_nat output_index)
           (Some (mkGrpcHash output_root)) (Some (mkGrpcHash vouchers_epoch_root))
           (Some (mkGrpcHash notices_epoch_root)) (Some (mkGrpcHash (zeros Common.HASH_SIZE)))
           (mkGrpcHash <$> TreeProof.sibling_hashes output_proof)
           (mkGrpcHash <$> TreeProof.sibling_hashes hashes_in_epoch)))
        context).

(** The proofs of the outputs of one input. *)
Definition input_proofs (e : Epoch) (context : list byte) (local_input_index : nat) (result : HostAdvanceResult)
    : outcome Status (list GrpcProof) :=
  let address := u64_shl (Z.of_nat local_input_index) LOG2_KECCAK_SIZE in
  vouchers_in_epoch ← map_err tree_status (Complete.get_proof (vouchers_tree e) address LOG2_KECCAK_SIZE);
  notices_in_epoch ← map_err tree_status (Complete.get_proof (notices_tree e) address LOG2_KECCAK_SIZE);
  match har_status result with
  | HostAccepted vouchers notices =>
      vs ← collect (fun '(output_index, voucher) =>
             root ← unwrap (voucher_root result);
             proof ← unwrap (keccak_in_voucher_hashes voucher);
             output_proof e context local_input_index output_index GrpcOutputVoucher root proof vouchers_in_epoch)
           (imap pair vouchers);
      ns ← collect (fun '(output_index, notice) =>
             root ← unwrap (notice_root result);
             proof ← unwrap (keccak_in_notice_hashes notice);
             output_proof e context local_input_index output_index GrpcOutputNotice root proof notices_in_epoch)
           (imap pair notices);
      Ok (vs ++ ns)
  | _ => Ok []
  end.

Definition try_finish (processed_input_count_within_epoch epoch_index : Z) : M Epoch Status FinishEpochResponse :=
  e ← get;
  lift (check_active e) ;;
  lift (check_pending_inputs e) ;;
  lift (check_processed_inputs e processed_input_count_within_epoch) ;;
  modify (set_state Finished) ;;
  e ← get;
  let context := ethabi_encode_int epoch_index in
  proofs ← lift (collect (fun '(i, result) => input_proofs e context i result) (imap pair (processed_inputs e)));
  vouchers_epoch_root ← lift (Complete.get_root_hash (vouchers_tree e));
  notices_epoch_root ← lift (Complete.get_root_hash (notices_tree e));
  mret (mkFinishEpochResponse (Some (mkGrpcHash (zeros Common.HASH_SIZE)))
          (Some (mkGrpcHash vouchers_epoch_root)) (Some (mkGrpcHash notices_epoch_root)) (concat proofs)).

Definition get_status (e : Epoch) (session_id : string) (epoch_index : Z) (taint_status : option TaintStatus)
    : GetEpochStatusResponse :=
  let processed := imap (fun local_input_index input =>
    mkProcessedInput (Z.of_nat local_input_index ⊞ processed_input_count_since_genesis e)
      (completion_status (har_status input)) (one_of (har_status input))
      (report_message <$> har_reports input)) (processed_inputs e) in
  mkGetEpochStatusResponse session_id epoch_index (state e) processed (pending_inputs e) taint_status.
End Ops.
End Epoch.

(** ** [Session] *)

Module Session.
Import HostConversions.

(** The task spawned for a request, which waits for its result. *)
Record Task := mkTask { task_epoch : Z; task_request : AdvanceStateRequest }.

Record Session := mkSession {
  active_epoch_index : Z;
  epochs : gmap Z Epoch.Epoch;
  tainted : option Status;
  tasks : list Task;
}.

Definition set_active_epoch_index (x : Z) (s : Session) : Session :=
  mkSession x (epochs s) (tainted s) (tasks s).
Definition set_epochs (x : gmap Z Epoch.Epoch) (s : Session) : Session :=
  mkSession (active_epoch_index s) x (tainted s) (tasks s).
Definition set_tainted (x : option Status) (s : Session) : Session :=
  mkSession (active_epoch_index s) (epochs s) x (tasks s).
Definition set_tasks (x : list Task) (s : Session) : Session :=
  mkSession (active_epoch_index s) (epochs s) (tainted s) x.

Section Ops.
Context `{Keccak, Ethabi}.
(** The answer of the controller to an inspect request; [None] when it drops
    the channel. *)
Variable inspect : InspectStateRequest -> option InspectResult.

Definition new {E} (active_epoch_index processed_input_count : Z) : outcome E Session :=
  epoch ← Epoch.new processed_input_count;
  Ok (mkSession active_epoch_index {[ active_epoch_index := epoch ]} None []).

Definition check_tainted (s : Session) : outcome Status unit :=
  ensure (negb (bool_decide (is_Some (tainted s)))) (mkStatus DataLoss "session is tainted").
Definition check_epoch_index_overflow (s : Session) : outcome Status unit :=
  ensure (negb (active_epoch_index s =? 2 ^ 64 - 1)) (mkStatus OutOfRange "active epoch index will overflow").
Definition check_active_epoch (s : Session) (active : Z) : outcome Status unit :=
  ensure (active_epoch_index s =? active)
    (invalid_argument ("incorrect active epoch index (expected " +:+ pretty (active_epoch_index s)
       +:+ ", got " +:+ pretty active +:+ ")")).
Definition try_get_epoch (s : Session) (epoch_index : Z) : outcome Status Epoch.Epoch :=
  ok_or (epochs s !! epoch_index) (invalid_argument "unknown epoch index").

(** A method of the epoch behind the lock: what it changes stays changed. *)
Definition on_epoch {A} (epoch_index : Z) (m : M Epoch.Epoch Status A) : M Session Status A := fun s =>
  match try_get_epoch s epoch_index with
  | Ok e => let '(o, e') := m e in (o, set_epochs (<[epoch_index := e']> (epochs s)) s)
  | Err st => (Err st, s)
  | Panic => (Panic, s)
  end.

Definition try_advance (active_epoch_index current_input_index : Z) (advance_request : AdvanceStateRequest)
    : M Session Status unit :=
  s ← get;
  lift (check_epoch_index_overflow s) ;;
  lift (check_tainted s) ;;
  lift (check_active_epoch s active_epoch_index) ;;
  on_epoch active_epoch_index (Epoch.try_add_pending_input current_input_index) ;;
  modify (fun s => set_tasks (tasks s ++ [mkTask active_epoch_index advance_request]) s).

(** A result that cannot be added taints the session. *)
Definition store_result (epoch_index : Z) (result : HostAdvanceResult) : M Session Status unit := fun s =>
  match on_epoch epoch_index (Epoch.add_processed_input result) s with
  | (Ok tt, s') => (Ok tt, s')
  | (Err e, s') => (Ok tt, set_tainted (Some e) s')
  | (Panic, s') => (Panic, s')
  end.

(** The body of the [i]-th spawned task, when its result arrives ([None]: the
    channel was dropped). *)
Definition deliver (i : nat) (result : option HostAdvanceResult) : M Session Status unit :=
  s ← get;
  match tasks s !! i with
  | None => mret tt
  | Some task =>
      modify (set_tasks (delete i (tasks s))) ;;
      match result with
      | None => mret tt
      | Some result => store_result (task_epoch task) result
      end
  end.

Definition try_finish_epoch (active processed_input_count_within_epoch : Z)
    : M Session Status FinishEpochResponse :=
  s ← get;
  lift (check_epoch_index_overflow s) ;;
  lift (check_tainted s) ;;
  lift (check_active_epoch s active) ;;
  '(response, processed_input_count_since_genesis) ← on_epoch active
     (response ← Epoch.try_finish processed_input_count_within_epoch active;
      last_epoch ← get;
      mret (response, Epoch.processed_input_count_since_genesis last_epoch));
  modify (fun s => set_active_epoch_index (active_epoch_index s ⊞ 1) s) ;;
  epoch ← lift (Epoch.new (processed_input_count_since_genesis ⊞ processed_input_count_within_epoch));
  modify (fun s => set_epochs (<[active_epoch_index s := epoch]> (epochs s)) s) ;;
  mret response.

Definition try_delete_epoch (epoch_index : Z) : M Session Status unit :=
  s ← get;
  lift (check_tainted s) ;;
  epoch ← lift (try_get_epoch s epoch_index);
  lift (Epoch.check_finished epoch) ;;
  modify (fun s => set_epochs (delete epoch_index (epochs s)) s).

Definition get_taint_status (s : Session) : option TaintStatus :=
  (fun status => mkTaintStatus (code status) (message status)) <$> tainted s.

Definition get_status (s : Session) (session_id : string) : GetSessionStatusResponse :=
  let epoch_index := merge_sort Z.le (fst <$> map_to_list (epochs s)) in
  mkGetSessionStatusResponse session_id (active_epoch_index s) epoch_index (get_taint_status s).

Definition try_get_epoch_status (s : Session) (session_id : string) (epoch_index : Z)
    : outcome Status GetEpochStatusResponse :=
  let taint_status := get_taint_status s in
  epoch ← try_get_epoch s epoch_index;
  Ok (Epoch.get_status epoch session_id epoch_index taint_status).

Record InspectStateResponse := mkInspectStateResponse {
  isp_session_id : string;
  isp_active_epoch_index : Z;
  isp_processed_input_count : Z;
  isp_status : GrpcCompletionStatus;
  isp_exception_data : option (list byte);
  isp_reports : list GrpcReport;
}.

(** The part after the controller has answered *)
Definition inspected (result : option InspectResult) (s : Session) (session_id : string)
    : outcome Status InspectStateResponse :=
  result ← ok_or result (mkStatus Internal "unexpected error during inspect");
  epoch ← try_get_epoch s (active_epoch_index s);
  Ok (mkInspectStateResponse session_id (active_epoch_index s)
        (Epoch.get_num_processed_inputs_since_genesis epoch) (inspect_status (ir_status result))
        (match ir_status result with InspectException exception => Some (re_payload exception) | _ => None end)
        (report_message <$> ir_reports result)).

Definition try_inspect (s : Session) (session_id : string) (payload : list byte)
    : outcome Status InspectStateResponse :=
  check_tainted s ;;
  inspected (inspect (mkInspectStateRequest payload)) s session_id.

Definition check_endable (s : Session) : outcome Status unit :=
  if bool_decide (is_Some (tainted s)) then Ok tt
  else epoch ← try_get_epoch s (active_epoch_index s); Epoch.check_endable epoch.
End Ops.
End Session.

(** ** [SessionManager] *)

Module SessionManager.
Record SessionEntry := mkSessionEntry { entry_id : string; entry_session : Session.Session }.

(** [entry], the single session. *)
Abbreviation Manager := (option SessionEntry).

Section Ops.
Context `{Keccak, Ethabi}.

Definition SessionEntry_new {E} (id : string) (active_epoch_index processed_input_count : Z)
    : outcome E SessionEntry :=
  session ← Session.new active_epoch_index processed_input_count;
  Ok (mkSessionEntry id session).

Definition get_session (entry : SessionEntry) (request_id : string) : option Session.Session :=
  if String.eqb (entry_id entry) request_id then Some (entry_session entry) else None.

Definition try_set_session (session_id : string) (active_epoch_index processed_input_count : Z)
    : M Manager Status unit :=
  lift (ensure (negb (String.eqb session_id "")) (invalid_argument "session id is empty")) ;;
  entry ← get;
  match entry with
  | Some _ => fail (mkStatus AlreadyExists "session id is taken")
  | None =>
      entry ← lift (SessionEntry_new session_id active_epoch_index processed_input_count);
      put (Some entry)
  end.

Definition try_get_session (entry : Manager) (request_id : string) : outcome Status Session.Session :=
  ok_or (entry ≫= fun entry => get_session entry request_id) (invalid_argument "session id not found").

(** A method of the session behind the lock. *)
Definition on_session {A} (request_id : string) (m : M Session.Session Status A) : M Manager Status A :=
  fun entry =>
    match try_get_session entry request_id with
    | Ok s => let '(o, s') := m s in (o, Some (mkSessionEntry request_id s'))
    | Err st => (Err st, entry)
    | Panic => (Panic, entry)
    end.

Definition try_del_session (request_id : string) : M Manager Status unit :=
  entry ← get;
  session ← lift (try_get_session entry request_id);
  lift (Session.check_endable session) ;;
  put None.

Definition get_sessions (entry : Manager) : list string :=
  match entry with Some entry => [entry_id entry] | None => [] end.
End Ops.
End SessionManager.

(** ** [ServerManagerService] *)

Module ServerManagerService.
Import SessionManager.

Section Ops.
Context `{Keccak, Ethabi}.
Variable inspect : InspectStateRequest -> option InspectResult.

Record SemanticVersion := mkSemanticVersion {
  major : Z; minor : Z; patch : Z; pre_release : string; build : string }.
Definition get_version : SemanticVersion := mkSemanticVersion 0 2 0 "" "host-runner".

Definition start_session (request : StartSessionRequest) : M Manager Status unit :=
  try_set_session (ssr_session_id request) (ssr_active_epoch_index request) (ssr_processed_input_count request).

Definition end_session (session_id : string) : M Manager Status unit := try_del_session session_id.

(** The request for the controller. *)
Definition to_advance_request (request : GrpcAdvanceStateRequest) : outcome Status AdvanceStateRequest :=
  metadata ← ok_or (asr_input_metadata request) (invalid_argument "missing metadata from request");
  msg_sender ← ok_or (gm_msg_sender metadata) (invalid_argument "missing msg_sender from metadata");
  ensure (Nat.eqb (length (address_data msg_sender)) Common.ADDRESS_SIZE) (invalid_argument "invalid address") ;;
  ensure (gm_epoch_index metadata =? 0)
    (invalid_argument "metadata epoch index is deprecated and should always be 0") ;;
  ensure (gm_input_index metadata =? asr_current_input_index request)
    (invalid_argument "metadata input index mismatch") ;;
  Ok (mkAdvanceStateRequest
        (mkAdvanceMetadata (address_data msg_sender) (gm_epoch_index metadata) (gm_input_index metadata)
           (gm_block_number metadata) (gm_timestamp metadata))
        (asr_input_payload request)).

Definition advance_state (request : GrpcAdvanceStateRequest) : M Manager Status unit :=
  advance_request ← lift (to_advance_request request);
  on_session (asr_session_id request)
    (Session.try_advance (asr_active_epoch_index request) (asr_current_input_index request) advance_request).

Definition finish_epoch (request : FinishEpochRequest) : M Manager Status FinishEpochResponse :=
  on_session (fer_session_id request)
    (Session.try_finish_epoch (fer_active_epoch_index request) (fer_processed_input_count_within_epoch request)).

Definition inspect_state (session_id : string) (query_payload : list byte)
    : M Manager Status Session.InspectStateResponse :=
  on_session session_id (s ← get; lift (Session.try_inspect inspect s session_id query_payload)).

Definition get_status : M Manager Status (list string) := entry ← get; mret (get_sessions entry).

Definition get_session_status (session_id : string) : M Manager Status GetSessionStatusResponse :=
  on_session session_id (s ← get; mret (Session.get_status s session_id)).

Definition get_epoch_status (session_id : string) (epoch_index : Z) : M Manager Status GetEpochStatusResponse :=
  on_session session_id (s ← get; lift (Session.try_get_epoch_status s session_id epoch_index)).

Definition delete_epoch (session_id : string) (epoch_index : Z) : M Manager Status unit :=
  on_session session_id (Session.try_delete_epoch epoch_index).

#[export] Instance host_server_manager : ServerManager Manager := {|
  sm_get_status := get_status;
  sm_start_session := start_session;
  sm_end_session := end_session;
  sm_advance_state := advance_state;
  sm_finish_epoch := finish_epoch;
  sm_get_session_status := get_session_status;
  sm_get_epoch_status := get_epoch_status |}.
End Ops.
End ServerManagerService.

(** ** Epochs *)

#[local] Opaque node.

(** The tree of an epoch with the given leaves, and its root. *)
Abbreviation epoch_tree ls :=
  (tree_of Epoch.LOG2_ROOT_SIZE Epoch.LOG2_KECCAK_SIZE Epoch.LOG2_KECCAK_SIZE ls).
Abbreviation epoch_root ls := (node Epoch.LOG2_KECCAK_SIZE 0 ls 32 0).

Section EpochLemmas.
Context `{Keccak, Ethabi}.
Import Epoch HostConversions.

Lemma epoch_sizes : sizes_ok LOG2_ROOT_SIZE LOG2_KECCAK_SIZE LOG2_KECCAK_SIZE.
Proof. repeat split; done. Qed.

(** Every output of the list carries a proof of its hash under [rt]. *)
Definition carries_proofs {A} `{Proofs.Proofable A} (field : A -> option TreeProof.Proof) (rt : Hash)
    (l : list A) : Prop :=
  forall j a, l !! j = Some a -> exists p, field a = Some p /\ proves rt j a p.

(** The outputs are the same but for their proofs. *)
Definition same_outputs {A} `{Proofs.Proofable A} : list A -> list A -> Prop :=
  Forall2 (fun a a' => exists p, a' = Proofs.set_proof p a).

Lemma prove_outputs_cases {A} `{Proofs.Proofable A} (field : A -> option TreeProof.Proof) (l : list A) :
  (forall p a, field (Proofs.set_proof p a) = Some p) ->
  (forall p a, Proofs.get_hash (Proofs.set_proof p a) = Proofs.get_hash a) ->
  (exists rt l', prove_outputs l = Ok (rt, l') /\ carries_proofs field rt l' /\ same_outputs l l') \/
  prove_outputs l = Err (tree_status MerkleTree.TooManyLeaves).
Proof.
  intros Hfield Hhash. unfold prove_outputs.
  destruct (compute_proofs_cases l) as [(_ & rt & l' & -> & Hlen & Hl)|[_ ->]]; [left|by right].
  exists rt, l'. split; [done|]. split.
  - intros j a' Ha'. destruct (lookup_lt_is_Some_2 l j) as [a Ha].
    { rewrite <- Hlen. by eapply lookup_lt_Some. }
    destruct (Hl j a Ha) as (p & Hp & Hproves). rewrite Hp in Ha'. injection Ha' as <-.
    exists p. split; [done|]. unfold proves in *. by rewrite Hhash.
  - apply Forall2_same_length_lookup_2; [done|]. intros j a a' Ha Ha'.
    destruct (Hl j a Ha) as (p & Hp & _). rewrite Hp in Ha'. injection Ha' as <-. eauto.
Qed.

(** A stored result, given the roots stored for it in the trees of the epoch. *)
Definition result_ok (vr nr : Hash) (r : HostAdvanceResult) : Prop :=
  match har_status r with
  | HostAccepted vs ns =>
      voucher_root r = Some vr /\ notice_root r = Some nr /\
      carries_proofs keccak_in_voucher_hashes vr vs /\ carries_proofs keccak_in_notice_hashes nr ns
  | _ => vr = MerkleTree.default_hash /\ nr = MerkleTree.default_hash
  end.

(** [r'] is the result [r] with its proofs. *)
Definition same_result (r r' : HostAdvanceResult) : Prop :=
  har_reports r' = har_reports r /\
  match har_status r, har_status r' with
  | HostAccepted vs ns, HostAccepted vs' ns' => same_outputs vs vs' /\ same_outputs ns ns'
  | HostRejected, HostRejected => True
  | HostException x, HostException y => x = y
  | _, _ => False
  end.

(** The trees of an epoch hold the roots [vrs] and [nrs]. *)
Definition trees_ok (vrs nrs : list Hash) (e : Epoch) : Prop :=
  vouchers_tree e = epoch_tree vrs /\ notices_tree e = epoch_tree nrs /\
  Z.of_nat (length vrs) <= 2 ^ 32 /\ Z.of_nat (length nrs) <= 2 ^ 32.

Lemma wp_push_voucher_root vrs nrs root e :
  trees_ok vrs nrs e ->
  wp (push_voucher_root root) e
    (fun _ e' => e' = set_vouchers_tree (epoch_tree (vrs ++ [root])) e /\ trees_ok (vrs ++ [root]) nrs e')
    (fun _ e' => e' = e).
Proof.
  intros (Hv & Hn & Hlv & Hln). unfold push_voucher_root. wp_run. rewrite Hv, (push_ok _ _ _ epoch_sizes).
  change (2 ^ Z.of_nat (height LOG2_ROOT_SIZE LOG2_KECCAK_SIZE)) with (2 ^ 32).
  case_decide; wp_run; [|done]. split; [done|]. split; [done|]. split; [done|]. rewrite length_app. cbn [length]. lia.
Qed.

Lemma wp_push_notice_root vrs nrs root e :
  trees_ok vrs nrs e ->
  wp (push_notice_root root) e
    (fun _ e' => e' = set_notices_tree (epoch_tree (nrs ++ [root])) e /\ trees_ok vrs (nrs ++ [root]) e')
    (fun _ e' => e' = e).
Proof.
  intros (Hv & Hn & Hlv & Hln). unfold push_notice_root. wp_run. rewrite Hn, (push_ok _ _ _ epoch_sizes).
  change (2 ^ Z.of_nat (height LOG2_ROOT_SIZE LOG2_KECCAK_SIZE)) with (2 ^ 32).
  case_decide; wp_run; [|done]. split; [done|]. split; [done|]. split; [done|]. rewrite length_app. cbn [length]. lia.
Qed.

(** The proof of the [i]-th leaf of an epoch tree. *)
Lemma epoch_leaf_proof ls i : Z.of_nat i < 2 ^ 32 ->
  Complete.get_proof (epoch_tree ls) (u64_shl (Z.of_nat i) LOG2_KECCAK_SIZE) LOG2_KECCAK_SIZE =
  Ok (proof_of LOG2_ROOT_SIZE LOG2_KECCAK_SIZE LOG2_KECCAK_SIZE ls (32 * Z.of_nat i) 0).
Proof.
  intros Hi. assert (Ha : u64_shl (Z.of_nat i) LOG2_KECCAK_SIZE = 32 * Z.of_nat i).
  { unfold u64_shl. change (LOG2_KECCAK_SIZE mod 64) with 5. rewrite Z.shiftl_mul_pow2 by lia.
    rewrite wrap_small by lia. lia. }
  rewrite Ha. pose proof (get_proof_ok _ _ _ epoch_sizes ls (32 * Z.of_nat i) 0) as Hp.
  rewrite Z.add_0_r in Hp. rewrite Hp by lia. change (2 ^ LOG2_KECCAK_SIZE) with 32.
  change (2 ^ LOG2_ROOT_SIZE) with (32 * 2 ^ 32). rewrite decide_False, decide_True; [done|lia|].
  rewrite Z.mul_comm, Z.mod_mul by lia. lia.
Qed.

(** [e'] is [e] with other trees. *)
Definition same_but_trees (e e' : Epoch) : Prop :=
  state e' = state e /\ pending_inputs e' = pending_inputs e /\ processed_inputs e' = processed_inputs e /\
  processed_input_count_since_genesis e' = processed_input_count_since_genesis e.

Lemma wp_push_roots vrs nrs result e :
  trees_ok vrs nrs e ->
  wp (push_roots result) e
    (fun r e' => same_but_trees e e' /\ same_result result r /\ exists vr nr,
       trees_ok (vrs ++ [vr]) (nrs ++ [nr]) e' /\ result_ok vr nr r)
    (fun _ e' => same_but_trees e e' /\ exists vrs' nrs', trees_ok vrs' nrs' e').
Proof.
  intros He. unfold push_roots.
  assert (Hsame : same_but_trees e e /\ exists vrs' nrs', trees_ok vrs' nrs' e).
  { split; [done|]. eauto. }
  assert (Hboth : forall vr nr r, same_result result r -> result_ok vr nr r ->
    wp (push_voucher_root vr ;; push_notice_root nr ;; mret r) e
      (fun r e' => same_but_trees e e' /\ same_result result r /\ exists vr nr,
         trees_ok (vrs ++ [vr]) (nrs ++ [nr]) e' /\ result_ok vr nr r)
      (fun _ e' => same_but_trees e e' /\ exists vrs' nrs', trees_ok vrs' nrs' e')).
  { intros vr nr r Hr Hok. wp_run.
    eapply wp_mono; [by apply wp_push_voucher_root| |by intros ? ? ->]. intros _ e1 [-> He1]. wp_run.
    eapply wp_mono; [by apply wp_push_notice_root| |]; cbn.
    - intros _ e2 [-> He2]. split; [done|]. split; [done|]. eauto.
    - intros _ e2 ->. split; [done|]. eauto. }
  destruct (har_status result) as [vs ns| |x] eqn:Hst.
  - wp_run. destruct (prove_outputs_cases keccak_in_voucher_hashes vs) as [(vr & vs' & -> & Hv & Hsv)| ->]; [done..| |done].
    wp_run. eapply wp_mono; [by apply wp_push_voucher_root| |by intros ? ? ->]. intros _ e1 [-> He1]. wp_run.
    destruct (prove_outputs_cases keccak_in_notice_hashes ns) as [(nr & ns' & -> & Hn & Hsn)| ->]; [done..| |].
    2:{ split; [done|]. eauto. }
    wp_run. eapply wp_mono; [by apply wp_push_notice_root| |]; cbn.
    + intros _ e2 [-> He2]. wp_run. split; [done|]. split; [by split; [|rewrite Hst]|]. exists vr, nr. done.
    + intros _ e2 ->. split; [done|]. eauto.
  - apply Hboth; [split; [done|]|unfold result_ok]; by rewrite Hst.
  - apply Hboth; [split; [done|]|unfold result_ok]; by rewrite Hst.
Qed.

(** Adding a result appends it to the epoch, with its proofs. *)
Lemma wp_add_processed_input vrs nrs result e :
  trees_ok vrs nrs e ->
  wp (add_processed_input result) e
    (fun _ e' => exists vr nr r, trees_ok (vrs ++ [vr]) (nrs ++ [nr]) e' /\ result_ok vr nr r /\
       same_result result r /\ processed_inputs e' = processed_inputs e ++ [r] /\
       pending_inputs e' = pending_inputs e ⊟ 1 /\ state e' = state e /\
       processed_input_count_since_genesis e' = processed_input_count_since_genesis e)
    (fun _ e' => same_but_trees e e' /\ exists vrs' nrs', trees_ok vrs' nrs' e').
Proof.
  intros He. unfold add_processed_input. wp_run.
  eapply wp_mono; [by apply wp_push_roots| |done].
  intros r e1 (Hsame & Hr & vr & nr & He1 & Hok). wp_run. pose proof He1 as (Hv & Hn & Hlv & _).
  rewrite Hv. unfold Complete.len. change (Complete.log2_leaf_size _) with LOG2_KECCAK_SIZE.
  unfold tree_of at 1. rewrite (get_level_leaf _ _ _ epoch_sizes). cbn [expect mbind outcome_bind level_of].
  wp_run. rewrite length_app in *. cbn [length] in *. rewrite u64_sub_small by (unfold is_u64; lia).
  replace (Z.of_nat (length vrs + 1) - 1) with (Z.of_nat (length vrs)) by lia.
  rewrite Hn, !epoch_leaf_proof by lia. cbn [map_err]. wp_run.
  destruct Hsame as (Hst & Hpe & Hpr & Hsi). exists vr, nr. eexists. split; [exact He1|]. cbn.
  rewrite Hpe, Hpr, Hst, Hsi. split; [|split; [|done]].
  - unfold result_ok in *. cbn. by destruct (har_status r).
  - exact Hr.
Qed.

(** The invariant of an epoch: one root per processed input in each tree, and
    one proof under that root for each output. *)
Definition epoch_ok (vrs nrs : list Hash) (e : Epoch) : Prop :=
  trees_ok vrs nrs e /\
  length vrs = length (processed_inputs e) /\ length nrs = length (processed_inputs e) /\
  (forall i r vr nr, processed_inputs e !! i = Some r -> vrs !! i = Some vr -> nrs !! i = Some nr ->
     result_ok vr nr r) /\
  0 <= pending_inputs e /\ pending_inputs e + Z.of_nat (length (processed_inputs e)) < 2 ^ 32 /\
  is_u64 (processed_input_count_since_genesis e).

(** The outputs of the processed inputs, in order: the position of the input, the
    position of the output, its kind and its hash. *)
Definition outputs_of_result (i : nat) (r : HostAdvanceResult) : list (nat * nat * OutputEnum * Hash) :=
  match har_status r with
  | HostAccepted vs ns =>
      imap (fun j v => (i, j, GrpcOutputVoucher, hv_keccak v)) vs ++
      imap (fun j n => (i, j, GrpcOutputNotice, hn_keccak n)) ns
  | _ => []
  end.
Definition outputs_of (rs : list HostAdvanceResult) : list (nat * nat * OutputEnum * Hash) :=
  concat (imap outputs_of_result rs).

(** The proof of an output is valid: from its hash to the root of the outputs of
    its input, and from there to the root of the epoch. *)
Definition validates (e : Epoch) (context : list byte) (vroot nroot : Hash)
    (output : nat * nat * OutputEnum * Hash) (p : GrpcProof) : Prop :=
  let '(i, j, kind, h) := output in
  gp_input_index p = processed_input_count_since_genesis e ⊞ Z.of_nat i /\
  gp_output_index p = Z.of_nat j /\ gp_output_enum p = kind /\ gp_context p = context /\
  exists v output_root siblings epoch_siblings, gp_validity p = Some v /\
    gvp_input_index_within_epoch v = Z.of_nat i /\ gvp_output_index_within_input v = Z.of_nat j /\
    gvp_output_hashes_root_hash v = Some (mkGrpcHash output_root) /\
    gvp_vouchers_epoch_root_hash v = Some (mkGrpcHash vroot) /\
    gvp_notices_epoch_root_hash v = Some (mkGrpcHash nroot) /\
    gvp_machine_state_hash v = Some (mkGrpcHash (zeros 32)) /\
    gvp_output_hash_in_output_hashes_siblings v = mkGrpcHash <$> siblings /\
    gvp_output_hashes_in_epoch_siblings v = mkGrpcHash <$> epoch_siblings /\
    length siblings = 16%nat /\ length epoch_siblings = 32%nat /\
    root_from (hash_root h) (32 * Z.of_nat j) LOG2_KECCAK_SIZE siblings = output_root /\
    root_from output_root (32 * Z.of_nat i) LOG2_KECCAK_SIZE epoch_siblings =
      match kind with GrpcOutputVoucher => vroot | GrpcOutputNotice => nroot end.

Lemma epoch_root_hash {E} ls : Complete.get_root_hash (E := E) (epoch_tree ls) = Ok (epoch_root ls).
Proof. apply (get_root_hash_ok _ _ _ epoch_sizes). Qed.

(** The siblings of the [i]-th leaf lead to the root of the epoch. *)
Lemma epoch_leaf_root ls i x : ls !! i = Some x -> Z.of_nat i < 2 ^ 32 ->
  let p := proof_of LOG2_ROOT_SIZE LOG2_KECCAK_SIZE LOG2_KECCAK_SIZE ls (32 * Z.of_nat i) 0 in
  length (TreeProof.sibling_hashes p) = 32%nat /\
  root_from x (32 * Z.of_nat i) LOG2_KECCAK_SIZE (TreeProof.sibling_hashes p) = epoch_root ls.
Proof.
  intros Hx Hi p. split; [done|].
  pose proof (root_from_siblings _ _ _ epoch_sizes ls (32 * Z.of_nat i) 32 0) as Hr.
  rewrite Z.add_0_r, node_leaf in Hr. change (2 ^ LOG2_KECCAK_SIZE) with 32 in Hr.
  replace (32 * Z.of_nat i / 32) with (Z.of_nat i) in Hr by (rewrite Z.mul_comm, Z.div_mul; lia).
  rewrite Nat2Z.id, Hx in Hr. apply Hr; [|done]. change (2 ^ LOG2_ROOT_SIZE) with (32 * 2 ^ 32). lia.
Qed.

Lemma collect_imap_from {E A B C} (h : nat -> nat) (f : nat * A -> outcome E B) (P : C -> B -> Prop)
    (g : nat -> A -> C) l :
  (forall i a, l !! i = Some a -> exists b, f (h i, a) = Ok b /\ P (g i a) b) ->
  exists bs, collect f (imap (fun i => pair (h i)) l) = Ok bs /\ Forall2 P (imap g l) bs.
Proof.
  revert h g. induction l as [|a l IH]; intros h g Hf; [exists []; by repeat constructor|].
  destruct (Hf O a eq_refl) as (b & Hb & HP).
  destruct (IH (h ∘ S) (g ∘ S)) as (bs & Hbs & HPs).
  { intros i a' Ha'. by apply (Hf (S i)). }
  exists (b :: bs). cbn [imap collect]. rewrite Hb. cbn [mbind outcome_bind].
  change (imap ((fun i => pair (h i)) ∘ S) l) with (imap (fun i => pair ((h ∘ S) i)) l).
  rewrite Hbs. split; [done|]. by constructor.
Qed.

Lemma collect_imap {E A B C} (f : nat * A -> outcome E B) (P : C -> B -> Prop) (g : nat -> A -> C) l :
  (forall i a, l !! i = Some a -> exists b, f (i, a) = Ok b /\ P (g i a) b) ->
  exists bs, collect f (imap pair l) = Ok bs /\ Forall2 P (imap g l) bs.
Proof. apply (collect_imap_from id). Qed.

(** The proof made for one output. *)
Lemma output_proof_ok vrs nrs e context i j kind output_root op ep h :
  trees_ok vrs nrs e -> length (TreeProof.sibling_hashes op) = 16%nat ->
  root_from (hash_root h) (32 * Z.of_nat j) LOG2_KECCAK_SIZE (TreeProof.sibling_hashes op) = output_root ->
  length (TreeProof.sibling_hashes ep) = 32%nat ->
  root_from output_root (32 * Z.of_nat i) LOG2_KECCAK_SIZE (TreeProof.sibling_hashes ep) =
    match kind with GrpcOutputVoucher => epoch_root vrs | GrpcOutputNotice => epoch_root nrs end ->
  exists p, output_proof e context i j kind output_root op ep = Ok p /\
    validates e context (epoch_root vrs) (epoch_root nrs) (i, j, kind, h) p.
Proof.
  intros (Hv & Hn & _) Hl1 Hr1 Hl2 Hr2. unfold output_proof. rewrite Hv, Hn, !epoch_root_hash. cbn [mbind outcome_bind].
  eexists. split; [done|]. split; [done|]. split; [done|]. split; [done|]. split; [done|].
  do 4 eexists. split; [done|]. cbn. do 8 (split; [done|]). done.
Qed.

Lemma input_proofs_ok vrs nrs e context i r :
  epoch_ok vrs nrs e -> processed_inputs e !! i = Some r ->
  exists ps, input_proofs e context i r = Ok ps /\
    Forall2 (validates e context (epoch_root vrs) (epoch_root nrs)) (outputs_of_result i r) ps.
Proof.
  intros (He & Hlv & Hln & Hres & Hp0 & Hmax & _) Hr. pose proof (lookup_lt_Some _ _ _ Hr) as Hi.
  destruct (lookup_lt_is_Some_2 vrs i) as [vr Hvr]; [lia|]. destruct (lookup_lt_is_Some_2 nrs i) as [nr Hnr]; [lia|].
  specialize (Hres i r vr nr Hr Hvr Hnr). unfold input_proofs, outputs_of_result, result_ok in *.
  pose proof He as (Hv & Hn & _). rewrite Hv, Hn, !epoch_leaf_proof by lia. cbn [map_err mbind outcome_bind].
  destruct (epoch_leaf_root vrs i vr Hvr ltac:(lia)) as [Hl1 Hr1].
  destruct (epoch_leaf_root nrs i nr Hnr ltac:(lia)) as [Hl2 Hr2].
  destruct (har_status r) as [vs ns| |x]; [|exists []; by repeat constructor..].
  destruct Hres as (-> & -> & Hvs & Hns).
  match goal with |- context [collect ?f (imap pair vs)] =>
    destruct (collect_imap f (validates e context (epoch_root vrs) (epoch_root nrs))
      (fun j v => (i, j, GrpcOutputVoucher, hv_keccak v)) vs) as (ps1 & Hc1 & Hps1) end.
  { intros j v Hj. destruct (Hvs j v Hj) as (p & -> & Ha & Ht & _ & Hlp & Hrp). cbn [unwrap mbind outcome_bind].
    apply (output_proof_ok vrs nrs); [exact He|exact Hlp|rewrite Ha, Ht in Hrp; exact Hrp|exact Hl1|exact Hr1]. }
  match goal with |- context [collect ?f (imap pair ns)] =>
    destruct (collect_imap f (validates e context (epoch_root vrs) (epoch_root nrs))
      (fun j n => (i, j, GrpcOutputNotice, hn_keccak n)) ns) as (ps2 & Hc2 & Hps2) end.
  { intros j n Hj. destruct (Hns j n Hj) as (p & -> & Ha & Ht & _ & Hlp & Hrp). cbn [unwrap mbind outcome_bind].
    apply (output_proof_ok vrs nrs); [exact He|exact Hlp|rewrite Ha, Ht in Hrp; exact Hrp|exact Hl2|exact Hr2]. }
  rewrite Hc1, Hc2. exists (ps1 ++ ps2). split; [done|]. by apply Forall2_app.
Qed.

Lemma Forall2_concat {A B} (P : A -> B -> Prop) ls ks :
  Forall2 (Forall2 P) ls ks -> Forall2 P (concat ls) (concat ks).
Proof. induction 1; cbn; [constructor|by apply Forall2_app]. Qed.

(** A finished epoch: what the response must be. *)
Definition finish_response (vrs nrs : list Hash) (e : Epoch) (epoch_index : Z) (resp : FinishEpochResponse) : Prop :=
  fep_machine_hash resp = Some (mkGrpcHash (zeros 32)) /\
  fep_vouchers_epoch_root_hash resp = Some (mkGrpcHash (epoch_root vrs)) /\
  fep_notices_epoch_root_hash resp = Some (mkGrpcHash (epoch_root nrs)) /\
  Forall2 (validates e (ethabi_encode_int epoch_index) (epoch_root vrs) (epoch_root nrs))
    (outputs_of (processed_inputs e)) (fep_proofs resp).

Lemma wp_try_finish vrs nrs n idx e :
  epoch_ok vrs nrs e ->
  wp (try_finish n idx) e
    (fun resp e' => state e = Active /\ pending_inputs e = 0 /\ n = Z.of_nat (length (processed_inputs e)) /\
       e' = set_state Finished e /\ finish_response vrs nrs e idx resp)
    (fun _ e' => e' = e).
Proof.
  intros He. unfold try_finish, check_active, check_pending_inputs, check_processed_inputs. wp_run.
  unfold ensure. case_bool_decide as Hst; wp_run; [|done]. destruct (Z.eqb_spec (pending_inputs e) 0) as [Hp|Hp]; wp_run; [|done].
  destruct (Z.eqb_spec (get_num_processed_inputs_within_epoch e) n) as [Hn|Hn]; wp_run; [|done].
  match goal with |- context [collect ?f (imap pair ?rs)] =>
    destruct (collect_imap f (Forall2 (validates e (ethabi_encode_int idx) (epoch_root vrs) (epoch_root nrs)))
      outputs_of_result rs) as (pss & Hc & Hpss) end.
  { intros i r Hr. by apply (input_proofs_ok vrs nrs (set_state Finished e)). }
  rewrite Hc. wp_run. destruct He as [(Hv & Hn' & _) _]. cbn [set_state vouchers_tree notices_tree].
  rewrite Hv, Hn', !epoch_root_hash. wp_run. split; [done|]. split; [done|]. split; [done|]. split; [done|].
  split; [done|]. split; [done|]. split; [done|]. by apply Forall2_concat.
Qed.
End EpochLemmas.

(** ** The session *)

Section SessionLemmas.
Context `{Keccak, Ethabi}.
Import Session.

(** The invariant of a session. The active epoch is the only one that is not
    finished and the only one with tasks; unless the session is tainted, its
    trees and proofs agree with its processed inputs. *)
Definition active_ok (s : Session) (e : Epoch.Epoch) : Prop :=
  Epoch.state e = Active /\ Z.of_nat (length (tasks s)) <= Epoch.pending_inputs e < 2 ^ 32 /\
  match tainted s with
  | None => exists vrs nrs, epoch_ok vrs nrs e
  | Some _ => exists vrs nrs, trees_ok vrs nrs e
  end.

Definition session_ok (s : Session) : Prop :=
  is_u64 (active_epoch_index s) /\
  (exists e, epochs s !! active_epoch_index s = Some e /\ active_ok s e) /\
  Forall (fun t => task_epoch t = active_epoch_index s) (tasks s) /\
  (forall i e, epochs s !! i = Some e -> i <> active_epoch_index s ->
     i < active_epoch_index s /\ Epoch.state e = Finished /\ Epoch.pending_inputs e = 0 /\
     exists vrs nrs, epoch_ok vrs nrs e).

Lemma wp_on_epoch {A} i (m : M Epoch.Epoch Status A) s e Q R :
  epochs s !! i = Some e ->
  wp m e (fun a e' => Q a (set_epochs (<[i := e']> (epochs s)) s))
    (fun st e' => R st (set_epochs (<[i := e']> (epochs s)) s)) ->
  wp (on_epoch i m) s Q R.
Proof.
  intros He Hm. unfold wp, on_epoch, try_get_epoch, ok_or in *. rewrite He. by destruct (m e) as [[a|st|] e'].
Qed.

Lemma set_epochs_same s i e : epochs s !! i = Some e -> set_epochs (<[i := e]> (epochs s)) s = s.
Proof. intros He. rewrite insert_id by done. by destruct s. Qed.

Lemma epoch_new_ok {E} n : exists e, Epoch.new (E := E) n = Ok e /\
  Epoch.state e = Active /\ Epoch.pending_inputs e = 0 /\ Epoch.processed_inputs e = [] /\
  Epoch.processed_input_count_since_genesis e = n /\ (is_u64 n -> epoch_ok [] [] e).
Proof.
  unfold Epoch.new. rewrite (tree_new _ _ _ epoch_sizes). cbn [expect mbind outcome_bind].
  eexists. split; [done|]. do 4 (split; [done|]). intros Hn.
  assert (Ht : tree_with Epoch.LOG2_ROOT_SIZE Epoch.LOG2_KECCAK_SIZE Epoch.LOG2_KECCAK_SIZE (fun _ => [])
               = epoch_tree []).
  { apply tree_with_ext. intros k _. induction k as [|k IH]; [done|]. cbn. by rewrite <- IH. }
  split; [split; [done|split; [done|by cbn]]|]. split; [done|]. split; [done|]. split; [by intros|]. cbn. done.
Qed.

(** A change of the active epoch that keeps it well formed. *)
Lemma session_ok_active s e ts t :
  session_ok s -> Forall (fun t => task_epoch t = active_epoch_index s) ts ->
  active_ok (mkSession (active_epoch_index s) (epochs s) t ts) e ->
  session_ok (mkSession (active_epoch_index s) (<[active_epoch_index s := e]> (epochs s)) t ts).
Proof.
  intros (Hu & _ & _ & Hold) Hts He. split; [done|]. split; [|split; [done|]].
  - exists e. cbn. by rewrite lookup_insert_eq.
  - intros i e' Hi Hne. cbn in *. rewrite lookup_insert_ne in Hi by auto. by apply Hold.
Qed.

Lemma wp_try_advance a c req s :
  session_ok s ->
  wp (try_advance a c req) s
    (fun _ s' => session_ok s' /\ tainted s = None /\ a = active_epoch_index s /\
       (exists e, epochs s !! a = Some e /\ c = Epoch.get_current_input_index e) /\
       tasks s' = tasks s ++ [mkTask a req])
    (fun _ s' => s' = s).
Proof.
  intros Hs. pose proof Hs as (Hu & (e & He & Hst & Hpend & Hok) & Hts & Hold).
  unfold try_advance, check_epoch_index_overflow, check_tainted, check_active_epoch. wp_run. unfold ensure.
  destruct (_ =? 2 ^ 64 - 1); cbn [negb]; wp_run; [done|].
  case_bool_decide as Ht; cbn [negb]; wp_run; [done|]. apply eq_None_not_Some in Ht.
  destruct (Z.eqb_spec (active_epoch_index s) a) as [<-|]; wp_run; [|done].
  apply (wp_on_epoch _ _ _ e); [done|]. unfold Epoch.try_add_pending_input. wp_run.
  unfold Epoch.check_active, Epoch.check_current_input_index, Epoch.check_input_limit, ensure.
  rewrite bool_decide_true by done. wp_run.
  destruct (Z.eqb_spec (Epoch.get_current_input_index e) c) as [<-|]; wp_run; [|by apply set_epochs_same].
  rewrite Ht in Hok. destruct Hok as (vrs & nrs & Hok). pose proof Hok as (Htr & H1 & H2 & H3 & H4 & H5 & H6).
  unfold Epoch.get_num_processed_inputs_within_epoch.
  rewrite (u64_add_small (Epoch.pending_inputs e) (Z.of_nat _)), u64_add_small by (unfold is_u64; lia).
  change Epoch.MAX_INPUTS_IN_EPOCH with (2 ^ 32).
  destruct (Z.leb_spec (2 ^ 32) (Epoch.pending_inputs e + Z.of_nat (length (Epoch.processed_inputs e)) + 1));
    cbn [negb]; wp_run; [by apply set_epochs_same|].
  split; [|split; [done|split; [done|split; [by eexists|done]]]].
  unfold set_tasks, set_epochs. cbn. apply session_ok_active; [done| |].
  - apply Forall_app. split; [done|]. by repeat constructor.
  - split; [done|]. cbn [tasks tainted Epoch.pending_inputs Epoch.set_pending_inputs].
    rewrite length_app, u64_add_small by (unfold is_u64; lia). cbn [length]. split; [lia|]. rewrite Ht.
    exists vrs, nrs. unfold epoch_ok.
    cbn [Epoch.pending_inputs Epoch.set_pending_inputs Epoch.processed_inputs Epoch.processed_input_count_since_genesis].
    split_and!; try done; lia.
Qed.

Lemma epoch_ok_trees vrs nrs e : epoch_ok vrs nrs e -> trees_ok vrs nrs e.
Proof. by intros [? _]. Qed.

Lemma epoch_ok_snoc vrs nrs vr nr r e e' :
  epoch_ok vrs nrs e -> trees_ok (vrs ++ [vr]) (nrs ++ [nr]) e' -> result_ok vr nr r ->
  Epoch.processed_inputs e' = Epoch.processed_inputs e ++ [r] ->
  Epoch.pending_inputs e' = Epoch.pending_inputs e - 1 -> 0 < Epoch.pending_inputs e ->
  Epoch.processed_input_count_since_genesis e' = Epoch.processed_input_count_since_genesis e ->
  epoch_ok (vrs ++ [vr]) (nrs ++ [nr]) e'.
Proof.
  intros (_ & Hlv & Hln & Hres & Hp & Hmax & Hu) Ht Hr Hproc Hpend Hpos Hsince.
  split; [done|]. rewrite Hproc, Hpend, Hsince, !length_app. cbn [length]. split_and!; [lia|lia| |lia|lia|apply Hu..].
  intros i r' vr' nr' Hi Hvr Hnr. destruct (decide (i < length (Epoch.processed_inputs e))%nat) as [Hlt|Hge].
  - rewrite lookup_app_l in Hi by lia. rewrite lookup_app_l in Hvr by lia. rewrite lookup_app_l in Hnr by lia.
    by eapply Hres.
  - apply lookup_snoc_Some in Hi as [[? _]|[-> ->]]; [lia|].
    apply lookup_snoc_Some in Hvr as [[? _]|[_ ->]]; [lia|]. apply lookup_snoc_Some in Hnr as [[? _]|[_ ->]]; [lia|]. done.
Qed.

(** The tasks: a result is stored or taints the session. *)
Lemma wp_deliver i result s :
  session_ok s -> wp (deliver i result) s (fun _ s' => session_ok s') (fun _ _ => False).
Proof.
  intros Hs. pose proof Hs as (Hu & (e & He & Hst & Hpend & Hok) & Hts & Hold).
  unfold deliver. wp_run. destruct (tasks s !! i) as [task|] eqn:Hi; [|by wp_run].
  assert (Hts' : Forall (fun t => task_epoch t = active_epoch_index s) (delete i (tasks s))) by by apply Forall_delete.
  assert (Hlen : S (length (delete i (tasks s))) = length (tasks s)).
  { rewrite length_delete by done. apply lookup_lt_Some in Hi. lia. }
  destruct result as [result|]; wp_run.
  2:{ unfold set_tasks. rewrite <- (insert_id _ _ _ He). apply session_ok_active; [done|done|].
      split; [done|]. cbn [tasks tainted]. split; [lia|done]. }
  assert (Htask : task_epoch task = active_epoch_index s) by by eapply (Forall_lookup_1 _ _ _ _ Hts).
  rewrite Htask. set (s1 := set_tasks _ s).
  assert (Htr : exists vrs nrs, trees_ok vrs nrs e /\ (tainted s = None -> epoch_ok vrs nrs e)).
  { destruct (tainted s); destruct Hok as (vrs & nrs & Hok); exists vrs, nrs; split; try done.
    by eapply epoch_ok_trees. }
  destruct Htr as (vrs & nrs & Htr & Hstrong).
  assert (Hrun : wp (on_epoch (active_epoch_index s) (Epoch.add_processed_input result)) s1
    (fun _ s' => session_ok s') (fun st s' => session_ok (set_tainted (Some st) s'))).
  { apply (wp_on_epoch _ _ _ e); [done|].
    eapply wp_mono; [by apply wp_add_processed_input| |].
    - intros _ e' (vr & nr & r & Htr' & Hr & _ & Hproc & Hp' & Hst' & Hsi'). unfold set_epochs. cbn.
      rewrite u64_sub_small in Hp' by (unfold is_u64; lia).
      apply session_ok_active; [done|done|]. split; [congruence|]. cbn [tasks tainted]. split; [lia|].
      destruct (tainted s) eqn:Htaint; [by eauto|]. exists (vrs ++ [vr]), (nrs ++ [nr]).
      apply (epoch_ok_snoc vrs nrs vr nr r e); auto; lia.
    - intros st e' ((Hst' & Hp' & _) & Hsh). unfold set_epochs, set_tainted. cbn.
      apply session_ok_active; [done|done|]. split; [congruence|]. cbn [tasks tainted]. split; [lia|done]. }
  unfold store_result, wp in *. by destruct (on_epoch _ _ s1) as [[[]|st|] s2].
Qed.

Lemma wp_try_delete_epoch i s :
  session_ok s -> wp (try_delete_epoch i) s (fun _ s' => session_ok s' /\ i < active_epoch_index s) (fun _ s' => s' = s).
Proof.
  intros Hs. pose proof Hs as (Hu & (e & He & Hact) & Hts & Hold).
  unfold try_delete_epoch, check_tainted. wp_run. unfold ensure. case_bool_decide; cbn [negb]; wp_run; [done|].
  unfold try_get_epoch. destruct (epochs s !! i) as [ei|] eqn:Hi; cbn [ok_or]; wp_run; [|done].
  unfold Epoch.check_finished, Epoch.check_active, ensure. case_bool_decide as Hst; wp_run; [done|].
  assert (Hne : i <> active_epoch_index s).
  { intros ->. rewrite He in Hi. injection Hi as <-. by destruct Hact. }
  split; [|by apply (Hold i ei)]. split; [done|]. split; [exists e; split; [by cbn; rewrite lookup_delete_ne|done]|].
  split; [done|]. intros j ej Hj Hnej. cbn in *. apply lookup_delete_Some in Hj as [_ Hj]. by apply Hold.
Qed.

(** What finishing the active epoch must do: an [epoch_ok] response, and a new
    active epoch that starts where the finished one ended. *)
Definition epoch_finished (s s' : Session) (n : Z) (resp : FinishEpochResponse) : Prop :=
  exists e e' vrs nrs, epochs s !! active_epoch_index s = Some e /\ epoch_ok vrs nrs e /\
    Epoch.pending_inputs e = 0 /\ n = Z.of_nat (length (Epoch.processed_inputs e)) /\
    finish_response vrs nrs e (active_epoch_index s) resp /\
    active_epoch_index s' = active_epoch_index s + 1 /\ tasks s' = [] /\
    epochs s' = <[active_epoch_index s' := e']> (<[active_epoch_index s := Epoch.set_state Finished e]> (epochs s)) /\
    Epoch.processed_inputs e' = [] /\ Epoch.pending_inputs e' = 0 /\
    Epoch.processed_input_count_since_genesis e' = Epoch.processed_input_count_since_genesis e ⊞ n.

Lemma wp_try_finish_epoch a n s :
  session_ok s ->
  wp (try_finish_epoch a n) s
    (fun resp s' => session_ok s' /\ tainted s = None /\ a = active_epoch_index s /\ epoch_finished s s' n resp)
    (fun _ s' => s' = s).
Proof.
  intros Hs. pose proof Hs as (Hu & (e & He & Hst & Hpend & Hok) & Hts & Hold).
  unfold try_finish_epoch, check_epoch_index_overflow, check_tainted, check_active_epoch. wp_run. unfold ensure.
  destruct (Z.eqb_spec (active_epoch_index s) (2 ^ 64 - 1)); cbn [negb]; wp_run; [done|].
  case_bool_decide as Ht; cbn [negb]; wp_run; [done|]. apply eq_None_not_Some in Ht.
  destruct (Z.eqb_spec (active_epoch_index s) a) as [<-|]; wp_run; [|done].
  rewrite Ht in Hok. destruct Hok as (vrs & nrs & Hok).
  apply (wp_on_epoch _ _ _ e); [done|]. wp_run.
  eapply wp_mono; [by apply wp_try_finish| |by intros ? ? ->; apply set_epochs_same].
  intros resp e1 (_ & Hp0 & Hn & -> & Hresp). wp_run.
  destruct (epoch_new_ok (E := Status) (Epoch.processed_input_count_since_genesis e ⊞ n))
    as (e' & Hnew & Hst' & Hp' & Hproc' & Hsince' & Hok').
  cbn [Epoch.set_state Epoch.processed_input_count_since_genesis]. rewrite Hnew. wp_run.
  cbn [set_epochs set_active_epoch_index active_epoch_index epochs tasks tainted].
  assert (Hinc : active_epoch_index s ⊞ 1 = active_epoch_index s + 1).
  { apply u64_add_small. unfold is_u64 in *. lia. }
  rewrite Hinc. assert (Hnil : tasks s = []) by (destruct (tasks s); [done|cbn [length] in Hpend; lia]).
  specialize (Hok' ltac:(apply wrap_range; lia)).
  split; [|split; [done|split; [done|]]].
  - split; [unfold is_u64 in *; cbn; lia|]. split; [|split].
    + exists e'. cbn. rewrite lookup_insert_eq. split; [done|]. split; [done|].
      cbn [tasks tainted set_epochs set_active_epoch_index]. rewrite Hnil, Hp', Ht. cbn [length]. split; [lia|]. eauto.
    + cbn. rewrite Hnil. constructor.
    + intros i ei Hi Hne. cbn in Hi, Hne |- *. rewrite lookup_insert_ne in Hi by auto.
      destruct (decide (i = active_epoch_index s)) as [->|Hne'].
      * rewrite lookup_insert_eq in Hi. injection Hi as <-. split; [lia|]. split; [done|]. split; [done|].
        exists vrs, nrs. exact Hok.
      * rewrite lookup_insert_ne in Hi by auto. destruct (Hold i ei Hi Hne') as (? & ?). split; [lia|done].
  - exists e, e', vrs, nrs. refine (conj He (conj Hok (conj Hp0 (conj Hn (conj Hresp _))))). split_and!; done.
Qed.
End SessionLemmas.

(** ** Properties of the session *)

Section SessionTheorems.
Context `{Keccak, Ethabi}.
Import Session.

(** The calls that change a session, in any order. *)
Inductive op :=
| OpAdvance (active_epoch_index current_input_index : Z) (request : AdvanceStateRequest)
| OpDeliver (task : nat) (result : option HostAdvanceResult)
| OpFinish (active_epoch_index processed_input_count_within_epoch : Z)
| OpDelete (epoch_index : Z).

Definition run_op (o : op) : M Session Status unit :=
  match o with
  | OpAdvance a c request => try_advance a c request
  | OpDeliver i result => deliver i result
  | OpFinish a n => _ ← try_finish_epoch a n; mret tt
  | OpDelete i => try_delete_epoch i
  end.

(** The session after the calls, those that failed included; [None] after a panic. *)
Fixpoint run_ops (ops : list op) (s : Session) : option Session :=
  match ops with
  | [] => Some s
  | o :: ops =>
      match run_op o s with
      | (Panic, _) => None
      | (_, s') => run_ops ops s'
      end
  end.

Lemma session_new_ok {E} a n : is_u64 a -> is_u64 n -> exists s, Session.new (E := E) a n = Ok s /\ session_ok s.
Proof.
  intros Ha Hn. unfold Session.new. destruct (epoch_new_ok (E := E) n) as (e & -> & Hst & Hp & _ & _ & Hok).
  cbn [mbind outcome_bind]. eexists. split; [done|]. split; [done|]. split; [|split; [constructor|]].
  - exists e. cbn. rewrite lookup_singleton_eq. split; [done|]. split; [done|]. cbn [tasks tainted length].
    rewrite Hp. split; [lia|]. exists [], []. auto.
  - intros i e' Hi Hne. cbn in *. apply lookup_singleton_Some in Hi as [<- _]. done.
Qed.

Lemma wp_run_op o s : session_ok s -> wp (run_op o) s (fun _ s' => session_ok s') (fun _ s' => session_ok s').
Proof.
  intros Hs. destruct o as [a c request|i result|a n|i]; cbn [run_op].
  - eapply wp_mono; [by apply wp_try_advance|by intros ? ? [? _]|by intros ? ? ->].
  - eapply wp_mono; [by apply wp_deliver|done|done].
  - wp_run. eapply wp_mono; [by apply wp_try_finish_epoch|by intros ? ? [? _]; wp_run|by intros ? ? ->].
  - eapply wp_mono; [by apply wp_try_delete_epoch|by intros ? ? [? _]|by intros ? ? ->].
Qed.

Lemma run_ops_ok ops s : session_ok s -> exists s', run_ops ops s = Some s' /\ session_ok s'.
Proof.
  revert s. induction ops as [|o ops IH]; intros s Hs; [by exists s|]. cbn [run_ops].
  pose proof (wp_run_op o s Hs) as Ho. unfold wp in Ho.
  destruct (run_op o s) as [[a|e|] s1]; [by apply IH..|done].
Qed.

Lemma reachable_ok a0 n0 s0 ops s :
  is_u64 a0 -> is_u64 n0 -> Session.new (E := Status) a0 n0 = Ok s0 -> run_ops ops s0 = Some s -> session_ok s.
Proof.
  intros Ha Hn Hnew Hrun. destruct (session_new_ok (E := Status) a0 n0 Ha Hn) as (s1 & Hnew' & Hs1).
  rewrite Hnew in Hnew'. injection Hnew' as <-. destruct (run_ops_ok ops s0 Hs1) as (s' & Hrun' & Hs).
  rewrite Hrun in Hrun'. injection Hrun' as <-. exact Hs.
Qed.

(** C9. Whatever sequence of calls and results a session sees, none of them
    panics, and the session keeps its invariant: all epochs but the active one
    are finished, earlier and without pending inputs; every epoch holds one
    root in each of its trees and one valid proof per output for each of its
    processed inputs, unless a result could not be stored, which taints the
    session. *)
Theorem session_invariant a n ops :
  is_u64 a -> is_u64 n ->
  exists s0 s, Session.new (E := Status) a n = Ok s0 /\ run_ops ops s0 = Some s /\ session_ok s.
Proof.
  intros Ha Hn. destruct (session_new_ok (E := Status) a n Ha Hn) as (s0 & Hnew & Hs0).
  destruct (run_ops_ok ops s0 Hs0) as (s & Hrun & Hs). eauto.
Qed.

(** C8. The proofs of a finished epoch are valid. In every state that a session
    can reach, [try_finish_epoch] answers with the roots of the trees of the
    active epoch and one proof per output, in order: from the hash of the output to
    the root of the outputs of its input, and from there to the root of the epoch
    in the response. The next epoch starts at the input where this one ended;
    a call that is refused changes nothing. *)
Theorem finish_epoch_proofs_valid a0 n0 s0 ops s a n :
  is_u64 a0 -> is_u64 n0 -> Session.new (E := Status) a0 n0 = Ok s0 -> run_ops ops s0 = Some s ->
  wp (try_finish_epoch a n) s
    (fun resp s' => tainted s = None /\ a = active_epoch_index s /\ epoch_finished s s' n resp)
    (fun _ s' => s' = s).
Proof.
  intros Ha Hn Hnew Hrun. pose proof (reachable_ok a0 n0 s0 ops s Ha Hn Hnew Hrun) as Hs.
  eapply wp_mono; [by apply wp_try_finish_epoch|by intros ? ? [_ ?]|done].
Qed.

(** An input is accepted only for the active epoch of a session that is not
    tainted, and only with the next input index; it is then handed to exactly
    one task. A call that is refused changes nothing. *)
Theorem try_advance_accepts a0 n0 s0 ops s a c request :
  is_u64 a0 -> is_u64 n0 -> Session.new (E := Status) a0 n0 = Ok s0 -> run_ops ops s0 = Some s ->
  wp (try_advance a c request) s
    (fun _ s' => tainted s = None /\ a = active_epoch_index s /\
       (exists e, epochs s !! a = Some e /\ c = Epoch.get_current_input_index e) /\
       tasks s' = tasks s ++ [mkTask a request])
    (fun _ s' => s' = s).
Proof.
  intros Ha Hn Hnew Hrun. pose proof (reachable_ok a0 n0 s0 ops s Ha Hn Hnew Hrun) as Hs.
  eapply wp_mono; [by apply wp_try_advance|by intros ? ? [_ ?]|done].
Qed.
End SessionTheorems.

(** ** Witnesses *)

Module HostServerWitness.
Import KeccakRef.
#[local] Instance ethabi_ref : Ethabi := fun z => be 32 z.

Definition request (index : Z) : AdvanceStateRequest :=
  mkAdvanceStateRequest (mkAdvanceMetadata sample_address 0 index 7 70) [x01].
Definition accepted : HostAdvanceResult :=
  AdvanceResult_accepted [Voucher_new sample_address [x01]; Voucher_new sample_address []] [Notice_new [x02]] [].
Definition rejected : HostAdvanceResult := AdvanceResult_rejected [mkHostReport [x03]].

(** Two inputs, an accepted and a rejected one, whose results arrive. *)
Definition calls : list op :=
  [OpAdvance 3 10 (request 10); OpAdvance 3 11 (request 11); OpDeliver 0 (Some accepted);
   OpFinish 3 1; OpDeliver 0 (Some rejected); OpDelete 3].

Definition start : Session.Session :=
  match Session.new (E := Status) 3 10 with Ok s => s | _ => Session.mkSession 0 ∅ None [] end.
Definition reached : Session.Session := default start (run_ops calls start).

Lemma starts : Session.new (E := Status) 3 10 = Ok start.
Proof.
  unfold start. destruct (session_new_ok (E := Status) 3 10) as (s & Hs & _); [unfold is_u64; lia..|]. by rewrite Hs.
Qed.

Lemma reaches : run_ops calls start = Some reached.
Proof.
  unfold reached. assert (Hsome : bool_decide (is_Some (run_ops calls start)) = true) by (vm_compute; reflexivity).
  apply bool_decide_eq_true in Hsome as [s ->]. done.
Qed.

Lemma session_invariant_witness :
  exists s0 s, Session.new (E := Status) 3 10 = Ok s0 /\ run_ops calls s0 = Some s /\ session_ok s.
Proof. apply session_invariant; unfold is_u64; lia. Defined.

(** The epoch finishes with three proofs. *)
Lemma finish_epoch_proofs_valid_witness :
  length (fep_proofs (result_of (mkFinishEpochResponse None None None [])
    (Session.try_finish_epoch 3 2 reached))) = 3%nat /\
  wp (Session.try_finish_epoch 3 2) reached
    (fun resp s' => Session.tainted reached = None /\ 3 = Session.active_epoch_index reached /\
       epoch_finished reached s' 2 resp)
    (fun _ s' => s' = reached).
Proof.
  split; [vm_compute; reflexivity|].
  apply (finish_epoch_proofs_valid 3 10 start calls reached 3 2).
  - unfold is_u64. lia.
  - unfold is_u64. lia.
  - exact starts.
  - exact reaches.
Defined.

Lemma try_advance_accepts_witness :
  is_ok (Session.try_advance 3 12 (request 12) reached).1 = true /\
  wp (Session.try_advance 3 12 (request 12)) reached
    (fun _ s' => Session.tainted reached = None /\ 3 = Session.active_epoch_index reached /\
       (exists e, Session.epochs reached !! 3 = Some e /\ 12 = Epoch.get_current_input_index e) /\
       Session.tasks s' = Session.tasks reached ++ [Session.mkTask 3 (request 12)])
    (fun _ s' => s' = reached).
Proof.
  split; [vm_compute; reflexivity|].
  apply (try_advance_accepts 3 10 start calls reached).
  - unfold is_u64. lia.
  - unfold is_u64. lia.
  - exact starts.
  - exact reaches.
Defined.
End HostServerWitness.
