(* ===== verification/HostConcurrency.v ===== *)
(** * Overlapping calls of the host-runner

    [offchain/host-runner/src/grpc/server_manager.rs]: the methods of the service
    run concurrently. A session is behind an [Arc<Mutex<Session>>] in the entry of
    the manager; a method first clones the [Arc], then tries the lock. An inspect
    holds the lock until the controller answers; [try_del_session] gives it back
    between its check and the removal of the entry. The other methods hold the lock
    while they run, which is one step here; the tasks that wait for the results of
    the controller do not take it. *)

From S2P Require Import Prelude Codecs Events Grpc MerkleTree HostModel HostServer.

Import HostModel.

Module Overlap.
Import Session.

Section Overlap.
Context `{Keccak, Ethabi}.

Inductive Call :=
| AdvanceState (active_epoch_index current_input_index : Z) (request : AdvanceStateRequest)
| FinishEpoch_ (active_epoch_index processed_input_count_within_epoch : Z)
| DeleteEpoch (epoch_index : Z)
| GetSessionStatus
| GetEpochStatus (epoch_index : Z)
| InspectState (query_payload : list byte)
| EndSession.

Inductive Reply :=
| VoidReply
| FinishEpochReply (response : FinishEpochResponse)
| SessionStatusReply (response : GetSessionStatusResponse)
| EpochStatusReply (response : GetEpochStatusResponse)
| InspectReply (response : InspectStateResponse).

(** A call between its awaits: it has the [Arc]; it holds the lock and waits for the
    controller; or it has checked the session and is about to remove the entry. *)
Inductive Stage := HasArc | Inspecting | Endable.
#[export] Instance stage_eq_dec : EqDecision Stage.
Proof. solve_decision. Defined.
Record Flight := mkFlight { session_id : string; call : Call; arc : nat; stage : Stage }.

(** The sessions, each at its address; the entry of the manager; the calls under way
    and the replies, by the number of the call. *)
Record Server := mkServer {
  heap : list Session;
  entry : option (string * nat);
  flights : list (nat * Flight);
  replies : list (nat * outcome Status Reply);
  next : nat;
}.
Definition empty_server : Server := mkServer [] None [] [] 0.

Definition locked (a : nat) (srv : Server) : bool :=
  existsb (fun x => bool_decide (stage x.2 = Inspecting /\ arc x.2 = a)) (flights srv).
Definition flight (k : nat) (srv : Server) : option Flight :=
  snd <$> List.find (fun x => Nat.eqb x.1 k) (flights srv).
Definition without (k : nat) (srv : Server) : list (nat * Flight) :=
  filter (fun x => x.1 <> k) (flights srv).

Definition reply (k : nat) (o : outcome Status Reply) (srv : Server) : Server :=
  mkServer (heap srv) (entry srv) (without k srv) (replies srv ++ [(k, o)]) (next srv).
Definition set_stage (k : nat) (f : Flight) (st : Stage) (srv : Server) : Server :=
  mkServer (heap srv) (entry srv) (without k srv ++ [(k, mkFlight (session_id f) (call f) (arc f) st)])
    (replies srv) (next srv).
Definition set_session (a : nat) (s : Session) (srv : Server) : Server :=
  mkServer (<[a := s]> (heap srv)) (entry srv) (flights srv) (replies srv) (next srv).
Definition set_entry (e : option (string * nat)) (srv : Server) : Server :=
  mkServer (heap srv) e (flights srv) (replies srv) (next srv).

(** The methods that take the lock for one step *)
Definition body (id : string) (c : Call) : M Session Status Reply :=
  match c with
  | AdvanceState active current request => try_advance active current request ;; mret VoidReply
  | FinishEpoch_ active n => response ← try_finish_epoch active n; mret (FinishEpochReply response)
  | DeleteEpoch i => try_delete_epoch i ;; mret VoidReply
  | GetSessionStatus => s ← get; mret (SessionStatusReply (get_status s id))
  | GetEpochStatus i => s ← get; response ← lift (try_get_epoch_status s id i); mret (EpochStatusReply response)
  | InspectState _ | EndSession => mret VoidReply
  end.

Definition aborted : Status := mkStatus Aborted "concurrent call in session".

(** [None] is a panic. *)
Definition proceed (k : nat) (f : Flight) (srv : Server) : option Server :=
  match stage f with
  | Inspecting => Some srv
  | Endable => Some (reply k (Ok VoidReply) (set_entry None srv))
  | HasArc =>
      if locked (arc f) srv then Some (reply k (Err aborted) srv)
      else
        s ← heap srv !! arc f;
        match call f with
        | InspectState _ =>
            match check_tainted s with
            | Ok _ => Some (set_stage k f Inspecting srv)
            | Err e => Some (reply k (Err e) srv)
            | Panic => None
            end
        | EndSession =>
            match check_endable s with
            | Ok _ => Some (set_stage k f Endable srv)
            | Err e => Some (reply k (Err e) srv)
            | Panic => None
            end
        | c =>
            let '(o, s') := body (session_id f) c s in
            if is_panic o then None else Some (reply k o (set_session (arc f) s' srv))
        end
  end.

Inductive Event :=
| Start (id : string) (active_epoch_index processed_input_count : Z)
| Arrive (id : string) (c : Call)
| Proceed (k : nat)
| Answer (k : nat) (result : option InspectResult)
| Deliver (a task : nat) (result : option HostAdvanceResult).

Definition number (srv : Server) (f : option Flight) (o : outcome Status Reply) : Server :=
  match f with
  | Some f => mkServer (heap srv) (entry srv) (flights srv ++ [(next srv, f)]) (replies srv) (S (next srv))
  | None => mkServer (heap srv) (entry srv) (flights srv) (replies srv ++ [(next srv, o)]) (S (next srv))
  end.

Definition step (srv : Server) (e : Event) : option Server :=
  match e with
  | Start id active n =>
      if String.eqb id "" then Some (number srv None (Err (invalid_argument "session id is empty")))
      else match entry srv with
      | Some _ => Some (number srv None (Err (mkStatus AlreadyExists "session id is taken")))
      | None =>
          match Session.new (E := Status) active n with
          | Ok s => Some (number (mkServer (heap srv ++ [s]) (Some (id, length (heap srv))) (flights srv) (replies srv)
              (next srv)) None (Ok VoidReply))
          | Err e => Some (number srv None (Err e))
          | Panic => None
          end
      end
  | Arrive id c =>
      match entry srv with
      | Some (id', a) =>
          if String.eqb id' id then Some (number srv (Some (mkFlight id c a HasArc)) (Ok VoidReply))
          else Some (number srv None (Err (invalid_argument "session id not found")))
      | None => Some (number srv None (Err (invalid_argument "session id not found")))
      end
  | Proceed k => match flight k srv with Some f => proceed k f srv | None => Some srv end
  | Answer k result =>
      match flight k srv with
      | Some f =>
          match stage f with
          | Inspecting =>
              s ← heap srv !! arc f;
              Some (reply k (response ← inspected result s (session_id f); Ok (InspectReply response)) srv)
          | _ => Some srv
          end
      | None => Some srv
      end
  | Deliver a task result =>
      match heap srv !! a with
      | Some s => let '(o, s') := deliver task result s in if is_panic o then None else Some (set_session a s' srv)
      | None => Some srv
      end
  end.

Fixpoint run (srv : Server) (es : list Event) : option Server :=
  match es with [] => Some srv | e :: es => srv ← step srv e; run srv es end.
End Overlap.
End Overlap.

(** ** Interleavings *)

Section OverlapTheorems.
Context `{Keccak, Ethabi}.
Import Session Overlap.

Definition keys (srv : Server) : list nat := (flights srv).*1 ++ (replies srv).*1.
(** The sessions whose lock is held *)
Definition held (fl : list (nat * Flight)) : list nat :=
  (fun x => arc x.2) <$> filter (fun x => stage x.2 = Inspecting) fl.

Record server_ok (srv : Server) : Prop := {
  ok_heap : Forall session_ok (heap srv);
  ok_entry id a : entry srv = Some (id, a) -> (a < length (heap srv))%nat;
  ok_arcs : Forall (fun x => arc x.2 < length (heap srv))%nat (flights srv);
  ok_keys : NoDup (keys srv);
  ok_next : Forall (fun k => k < next srv)%nat (keys srv);
  ok_locks : NoDup (held (flights srv));
}.

Lemma flight_perm k srv f : NoDup (flights srv).*1 -> flight k srv = Some f ->
  flights srv ≡ₚ (k, f) :: without k srv.
Proof.
  unfold flight, without. induction (flights srv) as [|[k' f'] l IH]; [done|].
  cbn [fmap list_fmap fst List.find]. intros [Hk Hl]%NoDup_cons.
  destruct (Nat.eqb_spec k' k) as [->|Hne]; cbn [fmap option_fmap option_map snd].
  - intros [= <-]. rewrite filter_cons_False by naive_solver. constructor.
    rewrite filter_all; [done|]. intros [k'' f''] Hin ?. cbn in *. subst k''. apply Hk.
    by apply (list_elem_of_fmap_2 fst) in Hin.
  - intros Hf. rewrite filter_cons_True by done. rewrite Permutation_swap. constructor. by apply IH.
Qed.

Lemma held_perm fl fl' : fl ≡ₚ fl' -> held fl ≡ₚ held fl'.
Proof. unfold held. by intros ->. Qed.

Lemma locked_held a srv : locked a srv = false -> a ∉ held (flights srv).
Proof.
  unfold locked, held. intros Hl (x & -> & [Hst Hin]%list_elem_of_filter)%list_elem_of_fmap.
  assert (existsb (fun y => bool_decide (stage y.2 = Inspecting /\ arc y.2 = arc x.2)) (flights srv) = true); [|congruence].
  apply existsb_exists. exists x. split; [by apply list_elem_of_In|]. by rewrite bool_decide_true.
Qed.

Lemma reply_ok k f o srv : server_ok srv -> flight k srv = Some f -> server_ok (reply k o srv).
Proof.
  intros [Hh He Ha Hk Hn Hl] Hf. pose proof Hk as (Hk1 & _ & _)%NoDup_app.
  pose proof (flight_perm k srv f Hk1 Hf) as Hp.
  assert (keys (reply k o srv) ≡ₚ keys srv) as Hkeys.
  { unfold keys, reply. cbn. rewrite Hp, fmap_app. cbn. rewrite (app_assoc _ _ [k]), Permutation_app_comm. done. }
  split; cbn; [done|done| |by rewrite Hkeys|by rewrite Hkeys|].
  - rewrite Hp in Ha. by apply Forall_cons in Ha as [_ ?].
  - apply held_perm in Hp. rewrite Hp in Hl. unfold held in Hl. rewrite filter_cons in Hl.
    case_decide; [by apply NoDup_cons in Hl as [_ ?]|done].
Qed.

Lemma set_session_ok a s srv : server_ok srv -> session_ok s -> server_ok (set_session a s srv).
Proof.
  intros [Hh He Ha Hk Hn Hl] Hs. split; cbn; rewrite ?length_insert; try done. by apply Forall_insert.
Qed.

Lemma set_stage_ok k f st srv : server_ok srv -> flight k srv = Some f ->
  (st = Inspecting -> locked (arc f) srv = false) -> server_ok (set_stage k f st srv).
Proof.
  intros [Hh He Ha Hk Hn Hl] Hf Hlock. pose proof Hk as (Hk1 & _ & _)%NoDup_app.
  pose proof (flight_perm k srv f Hk1 Hf) as Hp.
  assert (keys (set_stage k f st srv) ≡ₚ keys srv) as Hkeys.
  { unfold keys, set_stage. cbn. rewrite Hp, fmap_app. cbn. rewrite (Permutation_app_comm _ [k]). done. }
  split; cbn; [done|done| |by rewrite Hkeys|by rewrite Hkeys|].
  - rewrite Hp in Ha. apply Forall_cons in Ha as [? ?]. by apply Forall_app; split; [|constructor].
  - pose proof (held_perm _ _ Hp) as Hp'. unfold held in *. rewrite filter_app, fmap_app.
    rewrite filter_cons in Hp'. cbn [stage snd] in *.
    assert (NoDup ((fun x : nat * Flight => arc x.2) <$> filter (fun x => stage x.2 = Inspecting) (without k srv))) as Hrest.
    { rewrite Hp' in Hl. case_decide; [by apply NoDup_cons in Hl as [_ ?]|done]. }
    rewrite filter_cons, filter_nil. cbn [stage snd].
    destruct (decide (st = Inspecting)) as [Hst|]; cbn [fmap list_fmap]; [|by rewrite app_nil_r].
    apply NoDup_app. split; [done|]. split; [|apply NoDup_singleton].
    intros a Hin ->%list_elem_of_singleton. apply (locked_held (arc f) srv (Hlock Hst)). unfold held. rewrite Hp'.
    case_decide; [by right|done].
Qed.

Lemma number_reply_ok o srv : server_ok srv -> server_ok (number srv None o).
Proof.
  intros [Hh He Ha Hk Hn Hl]. split; cbn; try done; unfold keys in *; cbn; rewrite fmap_app, app_assoc; cbn.
  - apply NoDup_app. split; [done|]. split; [|apply NoDup_singleton]. intros k Hin ->%list_elem_of_singleton.
    rewrite Forall_forall in Hn. apply Hn in Hin. lia.
  - apply Forall_app. split; [|constructor; [lia|done]]. eapply Forall_impl; [exact Hn|]. cbn. lia.
Qed.

Lemma number_flight_ok f o srv : server_ok srv -> (arc f < length (heap srv))%nat -> stage f = HasArc ->
  server_ok (number srv (Some f) o).
Proof.
  intros [Hh He Ha Hk Hn Hl] Harc Hst.
  assert (keys (number srv (Some f) o) ≡ₚ next srv :: keys srv) as Hkeys.
  { unfold keys, number. cbn. rewrite fmap_app. cbn. by rewrite (Permutation_app_comm _ [next srv]). }
  split; cbn; [done|done| | |  |].
  - apply Forall_app. by split; [|constructor].
  - rewrite Hkeys. constructor; [|done]. intros Hin. rewrite Forall_forall in Hn. apply Hn in Hin. lia.
  - rewrite Hkeys. constructor; [lia|]. eapply Forall_impl; [exact Hn|]. cbn. lia.
  - unfold held in *. rewrite filter_app, filter_cons_False, filter_nil, app_nil_r; [done|]. cbn. by rewrite Hst.
Qed.

Lemma set_entry_ok srv : server_ok srv -> server_ok (set_entry None srv).
Proof. by intros []. Qed.

Lemma body_ok id c s : session_ok s -> wp (body id c) s (fun _ s' => session_ok s') (fun _ s' => session_ok s').
Proof.
  intros Hs. destruct c as [a n request|a n|i| |i|payload|]; cbn [body]; wp_run; try done.
  - eapply wp_mono; [by apply (wp_run_op (OpAdvance a n request))| |done]. intros ? s' ?. by wp_run.
  - eapply wp_mono; [by apply wp_try_finish_epoch| |by intros ? ? ->]. intros ? s' [? _]. by wp_run.
  - eapply wp_mono; [by apply (wp_run_op (OpDelete i))| |done]. intros ? s' ?. by wp_run.
  - unfold try_get_epoch_status, try_get_epoch. by destruct (epochs s !! i); cbn; wp_run.
Qed.

Lemma check_endable_total s : is_panic (check_endable s) = false.
Proof.
  unfold check_endable, try_get_epoch. case_bool_decide; [done|]. destruct (epochs s !! _) as [e|]; [|done]. cbn.
  unfold Epoch.check_endable, Epoch.check_pending_inputs, Epoch.check_no_processed_inputs, ensure.
  destruct (Epoch.pending_inputs e =? 0); cbn; [|done].
  by destruct (Epoch.get_num_processed_inputs_within_epoch e =? 0).
Qed.

(** The numbers of a request are [u64]s. *)
Definition event_ok (e : Event) : Prop :=
  match e with Start _ a n => is_u64 a /\ is_u64 n | _ => True end.

Lemma heap_session srv f k : server_ok srv -> flight k srv = Some f -> exists s, heap srv !! arc f = Some s /\ session_ok s.
Proof.
  intros [Hh _ Ha Hk _ _] Hf. pose proof Hk as (Hk1 & _ & _)%NoDup_app. pose proof (flight_perm k srv f Hk1 Hf) as Hp.
  rewrite Hp in Ha. apply Forall_cons in Ha as [Hlt _]. cbn in Hlt. apply lookup_lt_is_Some in Hlt as [s Hs].
  exists s. split; [done|]. by eapply Forall_lookup_1.
Qed.

Lemma proceed_ok k f srv : server_ok srv -> flight k srv = Some f ->
  exists srv', proceed k f srv = Some srv' /\ server_ok srv'.
Proof.
  intros Hok Hf. unfold proceed. destruct (stage f) eqn:Hst.
  - destruct (locked (arc f) srv) eqn:Hlock; [eexists; split; [done|by eapply reply_ok]|].
    destruct (heap_session srv f k Hok Hf) as (s & Hs & Hsok). rewrite Hs. cbn [mbind option_bind].
    destruct (call f) eqn:Hcall.
    6:{ destruct (check_tainted s) eqn:Ht; [|by eexists; split; [done|by eapply reply_ok]|].
        - eexists. split; [done|]. by eapply set_stage_ok.
        - unfold check_tainted, ensure in Ht. by destruct (negb _). }
    6:{ pose proof (check_endable_total s) as Ht. destruct (check_endable s); [|by eexists; split; [done|by eapply reply_ok]|done].
        eexists. split; [done|]. by eapply set_stage_ok. }
    all: rewrite <-Hcall; pose proof (body_ok (session_id f) (call f) s Hsok) as Hb; unfold wp in Hb;
      destruct (body (session_id f) (call f) s) as [[r|e|] s']; [| |done]; cbn [is_panic];
      (eexists; split; [done|]; by eapply reply_ok; [apply set_session_ok|]).
  - by exists srv.
  - eexists. split; [done|]. eapply reply_ok; [by apply set_entry_ok|done].
Qed.

Lemma step_ok srv e : server_ok srv -> event_ok e -> exists srv', step srv e = Some srv' /\ server_ok srv'.
Proof.
  intros Hok He. pose proof Hok as [Hh Hen _ _ _ _]. destruct e as [id a n|id c|k|k result|a task result]; cbn [step].
  - destruct (String.eqb id ""); [eexists; split; [done|by apply number_reply_ok]|].
    destruct (entry srv) eqn:Hent; [eexists; split; [done|by apply number_reply_ok]|].
    destruct He as [Ha Hn]. destruct (session_new_ok (E := Status) a n Ha Hn) as (s & -> & Hs).
    eexists. split; [done|]. apply number_reply_ok. destruct Hok. split; cbn; rewrite ?length_app; cbn; try done.
    + by apply Forall_app; split; [|constructor].
    + intros id' a' [= _ <-]. lia.
    + eapply Forall_impl; [done|]. cbn. lia.
  - destruct (entry srv) as [[id' a]|] eqn:Hent; [|eexists; split; [done|by apply number_reply_ok]].
    destruct (String.eqb id' id); [|eexists; split; [done|by apply number_reply_ok]].
    eexists. split; [done|]. apply number_flight_ok; [done| |done]. by eapply Hen.
  - destruct (flight k srv) as [f|] eqn:Hf; [by apply proceed_ok|by exists srv].
  - destruct (flight k srv) as [f|] eqn:Hf; [|by exists srv].
    destruct (stage f); [by exists srv| |by exists srv].
    destruct (heap_session srv f k Hok Hf) as (s & -> & _). cbn. eexists. split; [done|]. by eapply reply_ok.
  - destruct (heap srv !! a) as [s|] eqn:Hs; [|by exists srv].
    assert (session_ok s) as Hsok by by eapply Forall_lookup_1.
    pose proof (wp_deliver task result s Hsok) as Hd. unfold wp in Hd.
    destruct (deliver task result s) as [[[]|e|] s']; [|done|done]. eexists. split; [done|]. by apply set_session_ok.
Qed.

Lemma run_events_ok es srv : server_ok srv -> Forall event_ok es -> exists srv', run srv es = Some srv' /\ server_ok srv'.
Proof.
  intros Hok Hes. revert srv Hok. induction Hes as [|e es He Hes IH]; intros srv Hok; [by exists srv|].
  cbn [run]. destruct (step_ok srv e Hok He) as (srv1 & -> & Hok1). by apply IH.
Qed.

Lemma empty_server_ok : server_ok empty_server.
Proof. split; cbn; try done; repeat constructor. Qed.

(** C11. Overlapping calls are safe: however calls, answers of the controller and results
    of inputs interleave, no method panics, every session keeps its invariant, each
    call is answered at most once and not while it is under way, and no two calls hold
    the lock of one session. A call that finds its session locked by an inspect is
    refused as a concurrent call, and changes nothing. *)
Theorem overlapping_calls_safe es : Forall event_ok es ->
  exists srv, run empty_server es = Some srv /\ server_ok srv /\
    forall k f, flight k srv = Some f -> stage f = HasArc -> locked (arc f) srv = true ->
      step srv (Proceed k) = Some (reply k (Err aborted) srv).
Proof.
  intros Hes. destruct (run_events_ok es empty_server empty_server_ok Hes) as (srv & Hrun & Hok). exists srv.
  split; [done|]. split; [done|]. intros k f Hf Hst Hlock. cbn [step]. rewrite Hf. unfold proceed. by rewrite Hst, Hlock.
Qed.

(** C36. The check of [end_session] does not protect the removal: when a call of
    [end_session] has checked the session and a call of [advance_state] has its
    address, both succeed. The session is removed with the pending input that the
    service has just accepted, whose result nobody can ask for. *)
Theorem end_session_race srv ke fe ka fa active current request s s' :
  server_ok srv -> flight ke srv = Some fe -> stage fe = Endable ->
  flight ka srv = Some fa -> stage fa = HasArc -> call fa = AdvanceState active current request ->
  locked (arc fa) srv = false -> heap srv !! arc fa = Some s -> try_advance active current request s = (Ok tt, s') ->
  exists srv', run srv [Proceed ka; Proceed ke] = Some srv' /\ entry srv' = None /\
    heap srv' !! arc fa = Some s' /\ tasks s' = tasks s ++ [mkTask active request] /\
    (ka, Ok VoidReply) ∈ replies srv' /\ (ke, Ok VoidReply) ∈ replies srv'.
Proof.
  intros Hok Hke Hse Hka Hsa Hcall Hlock Hs Hadv. assert (ke <> ka) as Hne by (intros ->; congruence).
  assert (session_ok s) as Hsok by (eapply Forall_lookup_1; [apply Hok|done]).
  pose proof (wp_try_advance active current request s Hsok) as Htasks. unfold wp in Htasks. rewrite Hadv in Htasks.
  destruct Htasks as (_ & _ & _ & _ & Htasks).
  set (srv1 := reply ka (Ok VoidReply) (set_session (arc fa) s' srv)).
  assert (step srv (Proceed ka) = Some srv1) as Hstep.
  { cbn [step]. rewrite Hka. unfold proceed. rewrite Hsa, Hlock, Hs, Hcall. cbn [mbind option_bind body].
    assert ((try_advance active current request ;; mret VoidReply) s = (Ok VoidReply, s')) as ->; [|done].
    unfold mbind, M_bind. by rewrite Hadv. }
  assert (flight ke srv1 = Some fe) as Hke1.
  { unfold srv1, reply, flight, without. cbn. revert Hke. unfold flight. clear -Hne.
    induction (flights srv) as [|[k f] l IH]; [done|]. cbn [List.find fst]. rewrite filter_cons. cbn [fst].
    destruct (Nat.eqb_spec k ke) as [->|Hk].
    - intros Hf. rewrite decide_True by done. cbn [List.find fst]. by rewrite Nat.eqb_refl.
    - intros Hf. case_decide; [|by apply IH]. cbn [List.find fst]. rewrite (proj2 (Nat.eqb_neq _ _) Hk). by apply IH. }
  cbn [run]. rewrite Hstep. cbn [mbind option_bind step]. rewrite Hke1. unfold proceed. rewrite Hse.
  eexists. split; [done|]. cbn. split; [done|].
  split; [apply list_lookup_insert_eq; by eapply lookup_lt_Some|]. split; [done|]. set_solver.
Qed.
End OverlapTheorems.

(** ** Witnesses *)

Module OverlapWitness.
Import KeccakRef Overlap HostServerWitness.
#[local] Existing Instance ethabi_ref.

(** A session with its end under way when an input arrives *)
Definition events : list Event :=
  [Start "rollup" 3 10; Arrive "rollup" EndSession; Proceed 1; Arrive "rollup" (AdvanceState 3 10 (request 10))].
Definition before : Server :=
  mkServer [start] (Some ("rollup", 0%nat))
    [(1%nat, mkFlight "rollup" EndSession 0 Endable);
     (2%nat, mkFlight "rollup" (AdvanceState 3 10 (request 10)) 0 HasArc)]
    [(0%nat, Ok VoidReply)] 3.

Lemma endable : Session.check_endable start = Ok tt.
Proof.
  assert (is_ok (Session.check_endable start) = true) as Hok by (vm_compute; reflexivity).
  by destruct (Session.check_endable start) as [[]| |].
Qed.
Lemma before_reached : run empty_server events = Some before.
Proof.
  unfold events, run. cbn -[start Session.check_endable Session.new]. rewrite starts.
  cbn -[start Session.check_endable]. by rewrite endable.
Qed.

Lemma overlapping_calls_safe_witness :
  exists srv, run empty_server (events ++ [Arrive "rollup" (InspectState []); Proceed 3; Proceed 2]) = Some srv /\
    server_ok srv.
Proof.
  destruct (overlapping_calls_safe (events ++ [Arrive "rollup" (InspectState []); Proceed 3; Proceed 2]))
    as (srv & Hrun & Hok & _).
  - repeat constructor; cbn; unfold is_u64; lia.
  - exists srv. split; [exact Hrun|exact Hok].
Defined.

Lemma before_ok : server_ok before.
Proof.
  destruct (run_events_ok events empty_server empty_server_ok) as (srv & Hrun & Hok);
    [repeat constructor; cbn; unfold is_u64; lia|]. rewrite before_reached in Hrun.
  apply (inj Some) in Hrun. rewrite Hrun. exact Hok.
Qed.

Lemma end_session_race_witness : exists srv', run before [Proceed 2; Proceed 1] = Some srv' /\
  entry srv' = None /\ (2%nat, Ok VoidReply) ∈ replies srv' /\ (1%nat, Ok VoidReply) ∈ replies srv'.
Proof.
  assert (is_ok (Session.try_advance 3 10 (request 10) start).1 = true) as Hadv by (vm_compute; reflexivity).
  destruct (Session.try_advance 3 10 (request 10) start) as [[[]|e|] s'] eqn:E; [|done|done].
  destruct (end_session_race before 1 (mkFlight "rollup" EndSession 0 Endable) 2
    (mkFlight "rollup" (AdvanceState 3 10 (request 10)) 0 HasArc) 3 10 (request 10) start s' before_ok
    eq_refl eq_refl eq_refl eq_refl eq_refl eq_refl eq_refl E) as (srv' & Hrun & He & _ & _ & Ha & Hend).
  exists srv'. split; [exact Hrun|]. split; [exact He|]. split; [exact Ha|exact Hend].
Defined.
End OverlapWitness.
