(* ===== verification/Controller.v ===== *)
(** * The controller of the host-runner

    [offchain/host-runner/src/controller.rs]: the state machine between the
    gRPC service, which sends inputs, and the HTTP server, through which the
    rollup asks for inputs and inserts outputs. A channel is the list of the
    requests in it; a one-shot channel for a response is a number, and the
    responses that were sent are a list. *)

From stdpp Require Import gmap gmultiset.
From S2P Require Import Prelude Codecs Events MerkleTree HostModel.
Import HostModel.

Module Controller.
Inductive ControllerError :=
| FetchRequestTimeout
| InvalidRequest (request_name state_name : string).

(** A request with the channel of its response. *)
Record SyncRequest (T : Type) := mkSyncRequest { request : T; response_tx : nat }.
Arguments mkSyncRequest {T} request response_tx.
Arguments request {T} _.
Arguments response_tx {T} _.

(** The receivers of the channels. *)
Record SharedStateData := mkData {
  advance_rx : list (SyncRequest AdvanceStateRequest);
  inspect_rx : list (SyncRequest InspectStateRequest);
  finish_rx : list (SyncRequest FinishStatus);
  voucher_rx : list (SyncRequest HostVoucher);
  notice_rx : list (SyncRequest HostNotice);
  report_rx : list (SyncRequest HostReport);
  exception_rx : list (SyncRequest RollupException);
  shutdown_rx : list (SyncRequest unit);
}.

Definition empty_data : SharedStateData := mkData [] [] [] [] [] [] [] [].

(** What is sent to a response channel. *)
Inductive Response :=
| RAdvance (tx : nat) (result : HostAdvanceResult)
| RInspect (tx : nat) (result : InspectResult)
| RFinish (tx : nat) (result : outcome ControllerError RollupRequest)
| ROutput (tx : nat) (result : outcome ControllerError nat)
| RUnit (tx : nat) (result : outcome ControllerError unit)
| RShutdown (tx : nat).

Definition response_to (r : Response) : nat :=
  match r with
  | RAdvance tx _ | RInspect tx _ | RFinish tx _ | ROutput tx _ | RUnit tx _ | RShutdown tx => tx
  end.

Inductive State :=
| IdleState
| FetchRequestState (finish_response_tx : nat)
| InspectState (inspect_response_tx : nat) (reports : list HostReport)
| AdvanceState (advance_response_tx : nat) (vouchers : list HostVoucher)
    (notices : list HostNotice) (reports : list HostReport).

Definition name (s : State) : string :=
  match s with
  | IdleState => "idle"
  | FetchRequestState _ => "fetch request"
  | InspectState _ _ => "inspect"
  | AdvanceState _ _ _ _ => "advance"
  end.

(** [process] ends with the next state ([None]: the service terminates), what is
    left in the channels and the responses that were sent. *)
Definition Step : Type := option State * SharedStateData * list Response.

(** A branch of [tokio::select!]: taken when the channel has a request. *)
Definition recv {T} (rx : list T) (branch : T -> list T -> Step) (otherwise : option Step) : option Step :=
  match rx with
  | [] => otherwise
  | r :: rx => Some (branch r rx)
  end.

Definition set_advance_rx x (d : SharedStateData) : SharedStateData :=
  mkData x (inspect_rx d) (finish_rx d) (voucher_rx d) (notice_rx d) (report_rx d) (exception_rx d) (shutdown_rx d).
Definition set_inspect_rx x (d : SharedStateData) : SharedStateData :=
  mkData (advance_rx d) x (finish_rx d) (voucher_rx d) (notice_rx d) (report_rx d) (exception_rx d) (shutdown_rx d).
Definition set_finish_rx x (d : SharedStateData) : SharedStateData :=
  mkData (advance_rx d) (inspect_rx d) x (voucher_rx d) (notice_rx d) (report_rx d) (exception_rx d) (shutdown_rx d).
Definition set_voucher_rx x (d : SharedStateData) : SharedStateData :=
  mkData (advance_rx d) (inspect_rx d) (finish_rx d) x (notice_rx d) (report_rx d) (exception_rx d) (shutdown_rx d).
Definition set_notice_rx x (d : SharedStateData) : SharedStateData :=
  mkData (advance_rx d) (inspect_rx d) (finish_rx d) (voucher_rx d) x (report_rx d) (exception_rx d) (shutdown_rx d).
Definition set_report_rx x (d : SharedStateData) : SharedStateData :=
  mkData (advance_rx d) (inspect_rx d) (finish_rx d) (voucher_rx d) (notice_rx d) x (exception_rx d) (shutdown_rx d).
Definition set_exception_rx x (d : SharedStateData) : SharedStateData :=
  mkData (advance_rx d) (inspect_rx d) (finish_rx d) (voucher_rx d) (notice_rx d) (report_rx d) x (shutdown_rx d).
Definition set_shutdown_rx x (d : SharedStateData) : SharedStateData :=
  mkData (advance_rx d) (inspect_rx d) (finish_rx d) (voucher_rx d) (notice_rx d) (report_rx d) (exception_rx d) x.

Definition invalid (request_name : string) (s : State) : ControllerError := InvalidRequest request_name (name s).

(** [Service::handle_invalid] for each kind of request, and [Service::shutdown]. *)
Definition invalid_voucher (s : State) (d : SharedStateData) (r : SyncRequest HostVoucher) rx : Step :=
  (Some s, set_voucher_rx rx d, [ROutput (response_tx r) (Err (invalid "voucher" s))]).
Definition invalid_notice (s : State) (d : SharedStateData) (r : SyncRequest HostNotice) rx : Step :=
  (Some s, set_notice_rx rx d, [ROutput (response_tx r) (Err (invalid "notice" s))]).
Definition invalid_report (s : State) (d : SharedStateData) (r : SyncRequest HostReport) rx : Step :=
  (Some s, set_report_rx rx d, [RUnit (response_tx r) (Err (invalid "report" s))]).
Definition invalid_exception (s : State) (d : SharedStateData) (r : SyncRequest RollupException) rx : Step :=
  (Some s, set_exception_rx rx d, [RUnit (response_tx r) (Err (invalid "exception" s))]).
Definition shutdown (d : SharedStateData) (r : SyncRequest unit) rx : Step :=
  (None, set_shutdown_rx rx d, [RShutdown (response_tx r)]).

(** [process] of the four states; [None] when no branch is ready. *)
Definition process_idle (d : SharedStateData) : option Step :=
  let s := IdleState in
  recv (finish_rx d) (fun r rx => (Some (FetchRequestState (response_tx r)), set_finish_rx rx d, []))
  (recv (voucher_rx d) (invalid_voucher s d)
  (recv (notice_rx d) (invalid_notice s d)
  (recv (report_rx d) (invalid_report s d)
  (recv (exception_rx d) (invalid_exception s d)
  (recv (shutdown_rx d) (shutdown d) None))))).

(** [timed_out]: [finish_timeout] has passed since the call. *)
Definition process_fetch (timed_out : bool) (finish_response_tx : nat) (d : SharedStateData) : option Step :=
  let s := FetchRequestState finish_response_tx in
  if timed_out then Some (Some IdleState, d, [RFinish finish_response_tx (Err FetchRequestTimeout)])
  else
  recv (inspect_rx d) (fun r rx =>
    (Some (InspectState (response_tx r) []), set_inspect_rx rx d,
     [RFinish finish_response_tx (Ok (HostModel.InspectState (request r)))]))
  (recv (advance_rx d) (fun r rx =>
    (Some (AdvanceState (response_tx r) [] [] []), set_advance_rx rx d,
     [RFinish finish_response_tx (Ok (HostModel.AdvanceState (request r)))]))
  (recv (finish_rx d) (fun r rx =>
    (Some (FetchRequestState (response_tx r)), set_finish_rx rx d,
     [RFinish finish_response_tx (Err FetchRequestTimeout)]))
  (recv (voucher_rx d) (invalid_voucher s d)
  (recv (notice_rx d) (invalid_notice s d)
  (recv (report_rx d) (invalid_report s d)
  (recv (exception_rx d) (invalid_exception s d)
  (recv (shutdown_rx d) (shutdown d) None))))))).

Definition process_inspect (tx : nat) (reports : list HostReport) (d : SharedStateData) : option Step :=
  let s := InspectState tx reports in
  recv (finish_rx d) (fun r rx =>
    let result := match request r with
      | Accept => InspectResult_accepted reports
      | Reject => InspectResult_rejected reports
      end in
    (Some (FetchRequestState (response_tx r)), set_finish_rx rx d, [RInspect tx result]))
  (recv (report_rx d) (fun r rx =>
    (Some (InspectState tx (reports ++ [request r])), set_report_rx rx d, [RUnit (response_tx r) (Ok tt)]))
  (recv (exception_rx d) (fun r rx =>
    (Some IdleState, set_exception_rx rx d,
     [RInspect tx (InspectResult_exception reports (request r)); RUnit (response_tx r) (Ok tt)]))
  (recv (voucher_rx d) (invalid_voucher s d)
  (recv (notice_rx d) (invalid_notice s d)
  (recv (shutdown_rx d) (shutdown d) None))))).

Definition process_advance (tx : nat) (vouchers : list HostVoucher) (notices : list HostNotice)
    (reports : list HostReport) (d : SharedStateData) : option Step :=
  recv (finish_rx d) (fun r rx =>
    let result := match request r with
      | Accept => AdvanceResult_accepted vouchers notices reports
      | Reject => AdvanceResult_rejected reports
      end in
    (Some (FetchRequestState (response_tx r)), set_finish_rx rx d, [RAdvance tx result]))
  (recv (voucher_rx d) (fun r rx =>
    let vouchers := vouchers ++ [request r] in
    (Some (AdvanceState tx vouchers notices reports), set_voucher_rx rx d,
     [ROutput (response_tx r) (Ok (length vouchers - 1)%nat)]))
  (recv (notice_rx d) (fun r rx =>
    let notices := notices ++ [request r] in
    (Some (AdvanceState tx vouchers notices reports), set_notice_rx rx d,
     [ROutput (response_tx r) (Ok (length notices - 1)%nat)]))
  (recv (report_rx d) (fun r rx =>
    (Some (AdvanceState tx vouchers notices (reports ++ [request r])), set_report_rx rx d,
     [RUnit (response_tx r) (Ok tt)]))
  (recv (exception_rx d) (fun r rx =>
    (Some IdleState, set_exception_rx rx d,
     [RAdvance tx (AdvanceResult_exception (request r) reports); RUnit (response_tx r) (Ok tt)]))
  (recv (shutdown_rx d) (shutdown d) None))))).

Definition process (timed_out : bool) (s : State) (d : SharedStateData) : option Step :=
  match s with
  | IdleState => process_idle d
  | FetchRequestState tx => process_fetch timed_out tx d
  | InspectState tx reports => process_inspect tx reports d
  | AdvanceState tx vouchers notices reports => process_advance tx vouchers notices reports d
  end.

(** The methods of [Controller]: one request each. *)
Inductive Call :=
| CAdvance (request : AdvanceStateRequest)
| CInspect (request : InspectStateRequest)
| CFinish (status : FinishStatus)
| CVoucher (voucher : HostVoucher)
| CNotice (notice : HostNotice)
| CReport (report : HostReport)
| CException (exception : RollupException)
| CShutdown.

(** [SyncRequest::send] *)
Definition send (c : Call) (tx : nat) (d : SharedStateData) : SharedStateData :=
  match c with
  | CAdvance r => set_advance_rx (advance_rx d ++ [mkSyncRequest r tx]) d
  | CInspect r => set_inspect_rx (inspect_rx d ++ [mkSyncRequest r tx]) d
  | CFinish r => set_finish_rx (finish_rx d ++ [mkSyncRequest r tx]) d
  | CVoucher r => set_voucher_rx (voucher_rx d ++ [mkSyncRequest r tx]) d
  | CNotice r => set_notice_rx (notice_rx d ++ [mkSyncRequest r tx]) d
  | CReport r => set_report_rx (report_rx d ++ [mkSyncRequest r tx]) d
  | CException r => set_exception_rx (exception_rx d ++ [mkSyncRequest r tx]) d
  | CShutdown => set_shutdown_rx (shutdown_rx d ++ [mkSyncRequest tt tx]) d
  end.
End Controller.

(** ** The controller and its callers *)

Section System.
Import Controller.

(** [calls] are all the calls that were made; a call is known by its position. *)
Record System := mkSystem {
  sys_state : option State;
  sys_data : SharedStateData;
  sys_responses : list Response;
  sys_calls : list Call;
}.

Definition initial : System := mkSystem (Some IdleState) empty_data [] [].

(** Calls and turns of the service interleave freely. *)
Inductive sys_step : System -> System -> Prop :=
| step_call st d rs cs c :
    sys_step (mkSystem (Some st) d rs cs) (mkSystem (Some st) (send c (length cs) d) rs (cs ++ [c]))
| step_process timed_out st d rs cs st' d' rs' :
    process timed_out st d = Some (st', d', rs') ->
    sys_step (mkSystem (Some st) d rs cs) (mkSystem st' d' (rs ++ rs') cs).

Definition reachable (s : System) : Prop := rtc sys_step initial s.

Lemma reachable_inv (I : System -> Prop) s :
  I initial -> (forall s1 s2, reachable s1 -> I s1 -> sys_step s1 s2 -> I s2) -> reachable s -> I s.
Proof.
  intros H0 Hstep. apply (rtc_ind_r I initial H0). eauto.
Qed.

(** *** Every call is answered at most once, and none is lost *)

Definition ids {T} (l : list (SyncRequest T)) : gmultiset nat := list_to_set_disj (response_tx <$> l).
Definition waiting (d : SharedStateData) : gmultiset nat :=
  ids (advance_rx d) ⊎ ids (inspect_rx d) ⊎ ids (finish_rx d) ⊎ ids (voucher_rx d) ⊎
  ids (notice_rx d) ⊎ ids (report_rx d) ⊎ ids (exception_rx d) ⊎ ids (shutdown_rx d).
(** The call that the state will answer. *)
Definition held (st : State) : list nat :=
  match st with
  | IdleState => []
  | FetchRequestState tx | InspectState tx _ | AdvanceState tx _ _ _ => [tx]
  end.
Definition answered (rs : list Response) : gmultiset nat := list_to_set_disj (response_to <$> rs).
Definition made (cs : list Call) : gmultiset nat := list_to_set_disj (seq 0 (length cs)).

Definition conserved (s : System) : Prop :=
  match sys_state s with
  | Some st => waiting (sys_data s) ⊎ list_to_set_disj (held st) ⊎ answered (sys_responses s) = made (sys_calls s)
  | None => answered (sys_responses s) ⊆ made (sys_calls s)
  end.

Lemma ids_snoc {T} (l : list (SyncRequest T)) r : ids (l ++ [r]) = ids l ⊎ {[+ response_tx r +]}.
Proof.
  unfold ids. rewrite fmap_app, list_to_set_disj_app. change (response_tx <$> [r]) with [response_tx r].
  rewrite list_to_set_disj_cons, list_to_set_disj_nil. multiset_solver.
Qed.

Lemma ids_cons {T} (l : list (SyncRequest T)) r : ids (r :: l) = {[+ response_tx r +]} ⊎ ids l.
Proof. reflexivity. Qed.

Lemma ids_nil {T} : ids (T := T) [] = ∅.
Proof. reflexivity. Qed.

Lemma answered_app rs rs' : answered (rs ++ rs') = answered rs ⊎ answered rs'.
Proof. unfold answered. by rewrite fmap_app, list_to_set_disj_app. Qed.

Lemma answered_cons r rs : answered (r :: rs) = {[+ response_to r +]} ⊎ answered rs.
Proof. reflexivity. Qed.

Lemma answered_nil : answered [] = ∅.
Proof. reflexivity. Qed.

Lemma held_nil : list_to_set_disj [] =@{gmultiset nat} ∅.
Proof. reflexivity. Qed.

Lemma held_one tx : list_to_set_disj [tx] =@{gmultiset nat} {[+ tx +]}.
Proof. rewrite list_to_set_disj_cons, list_to_set_disj_nil. multiset_solver. Qed.

Lemma made_snoc cs c : made (cs ++ [c]) = made cs ⊎ {[+ length cs +]}.
Proof.
  unfold made. rewrite length_app, Nat.add_1_r, seq_S, list_to_set_disj_app.
  rewrite list_to_set_disj_cons, list_to_set_disj_nil. cbn [Nat.add]. multiset_solver.
Qed.
End System.

(** Case analysis on the branches of [process]. *)
Ltac process_cases Hp :=
  unfold Controller.process, Controller.process_idle, Controller.process_fetch, Controller.process_inspect,
    Controller.process_advance, Controller.recv in Hp;
  repeat match type of Hp with
    | context [match ?x with _ => _ end] =>
        lazymatch x with
        | context [match _ with _ => _ end] => fail
        | _ => destruct x eqn:?
        end
    end;
  try discriminate Hp; injection Hp as <- <- <-.

Section Conservation.
Import Controller.

(** Equations and inclusions of unions, element by element. *)
#[local] Ltac count :=
  first [apply gmultiset_eq; intros ?|intros ?];
  rewrite ?multiplicity_disj_union, ?multiplicity_empty; lia.

#[local] Ltac fields := cbn [sys_state sys_data sys_responses sys_calls send set_advance_rx set_inspect_rx set_finish_rx
  set_voucher_rx set_notice_rx set_report_rx set_exception_rx set_shutdown_rx advance_rx inspect_rx finish_rx
  voucher_rx notice_rx report_rx exception_rx shutdown_rx held fst snd] in *.

Lemma conserved_step s1 s2 : conserved s1 -> sys_step s1 s2 -> conserved s2.
Proof.
  intros Hc Hstep. destruct Hstep as [st d rs cs c|b st d rs cs st' d' rs' Hp]; unfold conserved in *; fields.
  - rewrite made_snoc, <- Hc. unfold waiting. destruct c; fields; rewrite ids_snoc; cbn [response_tx]; count.
  - rewrite answered_app, <- Hc. unfold waiting. clear Hc. process_cases Hp;
      unfold invalid_voucher, invalid_notice, invalid_report, invalid_exception, shutdown in *; fields;
      repeat match goal with E : _ = _ :: _ |- _ => rewrite ?E; clear E | E : _ = [] |- _ => rewrite ?E; clear E end;
      rewrite ?answered_cons, ?answered_nil, ?held_nil, ?held_one, ?ids_cons, ?ids_nil; cbn [response_to]; count.
Qed.

Lemma conserved_reachable s : reachable s -> conserved s.
Proof. apply (reachable_inv conserved); [done|]. intros s1 s2 _. apply conserved_step. Qed.

Lemma multiplicity_list (l : list nat) x : x ∈ l <-> (0 < multiplicity x (list_to_set_disj l))%nat.
Proof. by rewrite <- elem_of_multiplicity, elem_of_list_to_set_disj. Qed.

Lemma NoDup_multiplicity (l : list nat) :
  (forall x, multiplicity x (list_to_set_disj l) <= 1)%nat -> NoDup l.
Proof.
  induction l as [|x l IH]; intros Hl; constructor.
  - rewrite multiplicity_list. specialize (Hl x).
    rewrite list_to_set_disj_cons, multiplicity_disj_union, multiplicity_singleton, decide_True in Hl by done. lia.
  - apply IH. intros y. specialize (Hl y). rewrite list_to_set_disj_cons, multiplicity_disj_union in Hl. lia.
Qed.

Lemma multiplicity_made cs x :
  multiplicity x (made cs) = if decide (x < length cs)%nat then 1%nat else 0%nat.
Proof.
  unfold made. induction (length cs) as [|n IH]; [by rewrite decide_False by lia|].
  rewrite seq_S, list_to_set_disj_app, multiplicity_disj_union, IH. cbn [Nat.add].
  rewrite list_to_set_disj_cons, list_to_set_disj_nil, multiplicity_disj_union, multiplicity_empty.
  destruct (decide (x = n)) as [->|Hne].
  - rewrite multiplicity_singleton. repeat case_decide; lia.
  - rewrite multiplicity_singleton. repeat case_decide; lia.
Qed.

(** *** Responses have the kind of their call *)

Definition answers (cs : list Call) (r : Response) : Prop :=
  match r, cs !! response_to r with
  | RAdvance _ _, Some (CAdvance _) | RInspect _ _, Some (CInspect _) | RFinish _ _, Some (CFinish _)
  | ROutput _ _, Some (CVoucher _ | CNotice _) | RUnit _ _, Some (CReport _ | CException _)
  | RShutdown _, Some CShutdown => True
  | _, _ => False
  end.

(** The requests in a channel are calls of its kind. *)
Definition calls_of {T} (cs : list Call) (mk : T -> Call) (rx : list (SyncRequest T)) : Prop :=
  Forall (fun r => cs !! response_tx r = Some (mk (request r))) rx.

Definition queued (cs : list Call) (d : SharedStateData) : Prop :=
  calls_of cs CAdvance (advance_rx d) /\ calls_of cs CInspect (inspect_rx d) /\
  calls_of cs CFinish (finish_rx d) /\ calls_of cs CVoucher (voucher_rx d) /\
  calls_of cs CNotice (notice_rx d) /\ calls_of cs CReport (report_rx d) /\
  calls_of cs CException (exception_rx d) /\ calls_of cs (fun _ => CShutdown) (shutdown_rx d).

Definition state_kind (cs : list Call) (st : State) : Prop :=
  match st with
  | IdleState => True
  | FetchRequestState tx => exists x, cs !! tx = Some (CFinish x)
  | InspectState tx _ => exists x, cs !! tx = Some (CInspect x)
  | AdvanceState tx _ _ _ => exists x, cs !! tx = Some (CAdvance x)
  end.

Definition kinded (s : System) : Prop :=
  queued (sys_calls s) (sys_data s) /\ Forall (answers (sys_calls s)) (sys_responses s) /\
  match sys_state s with Some st => state_kind (sys_calls s) st | None => True end.

Lemma lookup_snoc_mono (cs : list Call) c i x : cs !! i = Some x -> (cs ++ [c]) !! i = Some x.
Proof. intros Hi. by apply lookup_app_l_Some. Qed.

Lemma calls_of_mono {T} cs c (mk : T -> Call) rx : calls_of cs mk rx -> calls_of (cs ++ [c]) mk rx.
Proof. intros Hrx. eapply Forall_impl; [exact Hrx|]. intros r. apply lookup_snoc_mono. Qed.

Lemma calls_of_snoc {T} cs (mk : T -> Call) rx x :
  calls_of cs mk rx -> calls_of (cs ++ [mk x]) mk (rx ++ [mkSyncRequest x (length cs)]).
Proof.
  intros Hrx. apply Forall_app. split; [by apply calls_of_mono|]. repeat constructor. cbn. apply list_lookup_middle.
  done.
Qed.

Lemma answers_mono cs c r : answers cs r -> answers (cs ++ [c]) r.
Proof.
  destruct r as [tx ?|tx ?|tx ?|tx ?|tx ?|tx]; cbn; (destruct (cs !! tx) as [x|] eqn:Hx; [|done]);
    by rewrite (lookup_snoc_mono _ _ _ _ Hx).
Qed.

Lemma kinded_step s1 s2 : kinded s1 -> sys_step s1 s2 -> kinded s2.
Proof.
  intros (Hq & Hrs & Hst) Hstep. destruct Hstep as [st d rs cs c|b st d rs cs st' d' rs' Hp]; fields.
  - assert (Hmono : queued (cs ++ [c]) d).
    { destruct Hq as (?&?&?&?&?&?&?&?). unfold queued. split_and!; by apply calls_of_mono. }
    split; [|split]; fields.
    + destruct Hq as (?&?&?&?&?&?&?&?), Hmono as (?&?&?&?&?&?&?&?).
      destruct c; unfold queued; fields; split_and!; try done; try by apply calls_of_snoc.
      by apply (calls_of_snoc cs (fun _ => CShutdown) _ tt).
    + eapply Forall_impl; [exact Hrs|]. intros r. apply answers_mono.
    + destruct st; try done; destruct Hst as [x Hx]; exists x; by apply lookup_snoc_mono.
  - unfold kinded, queued in *. fields. destruct Hq as (H1&H2&H3&H4&H5&H6&H7&H8).
    process_cases Hp; unfold invalid_voucher, invalid_notice, invalid_report, invalid_exception, shutdown in *; fields;
      cbn [state_kind] in Hst;
      repeat match goal with E : _ = _ :: _ |- _ => rewrite ?E in *; clear E | E : _ = [] |- _ => rewrite ?E in *; clear E end;
      repeat match goal with Hc : calls_of _ _ (_ :: _) |- _ => apply Forall_cons in Hc as [? ?] end;
      (split; [by split_and!|]); (split; [apply Forall_app; split; [done|]; repeat constructor; unfold answers; cbn [response_to];
        repeat match goal with E : cs !! _ = Some _ |- _ => rewrite E; clear E
          | E : ex _ |- _ => destruct E as [? E] end; done|]); cbn [state_kind]; eauto.
Qed.

Lemma kinded_reachable s : reachable s -> kinded s.
Proof.
  apply (reachable_inv kinded); [|intros s1 s2 _; apply kinded_step].
  split; [by repeat constructor|]. by repeat constructor.
Qed.

(** C19. Every call on the controller is answered at most once, with a response
    of its own kind, whatever the interleaving of callers, timeouts and the
    service; until a shutdown no call is lost: it was answered, the current state
    owes it an answer, or it waits in a channel. *)
Theorem controller_answers_once s :
  reachable s ->
  NoDup (response_to <$> sys_responses s) /\ Forall (answers (sys_calls s)) (sys_responses s) /\
  forall st i, sys_state s = Some st -> (i < length (sys_calls s))%nat ->
    i ∈ response_to <$> sys_responses s \/ i ∈ held st \/ i ∈ waiting (sys_data s).
Proof.
  intros Hs. pose proof (conserved_reachable s Hs) as Hc. destruct (kinded_reachable s Hs) as (_ & Hk & _).
  unfold conserved, answered in Hc. split; [|split; [done|]].
  - apply NoDup_multiplicity. intros x. pose proof (multiplicity_made (sys_calls s) x) as Hm.
    destruct (sys_state s) as [st|].
    + rewrite <- Hc, !multiplicity_disj_union in Hm. case_decide; lia.
    + specialize (Hc x). rewrite Hm in Hc. case_decide; lia.
  - intros st i Hst Hi. rewrite Hst in Hc. pose proof (multiplicity_made (sys_calls s) i) as Hm.
    rewrite decide_True, <- Hc, !multiplicity_disj_union in Hm by done.
    rewrite !multiplicity_list, elem_of_multiplicity. lia.
Qed.

(** *** Advance requests are served in order *)

Definition advance_call (c : Call) : option AdvanceStateRequest :=
  match c with CAdvance r => Some r | _ => None end.
(** The request that a response hands to the rollup. *)
Definition handed (r : Response) : option AdvanceStateRequest :=
  match r with RFinish _ (Ok (HostModel.AdvanceState q)) => Some q | _ => None end.
(** The channel of the advance request that a response is the result of. *)
Definition result_for (r : Response) : option nat :=
  match r with RAdvance tx _ => Some tx | _ => None end.
(** The positions of the advance requests among the calls. *)
Definition advance_ids (cs : list Call) : list nat :=
  omap (M := list) id (imap (fun i c => (fun _ => i) <$> advance_call c) cs).
Definition held_advance (st : State) : list nat :=
  match st with AdvanceState tx _ _ _ => [tx] | _ => [] end.

Definition in_order (s : System) : Prop :=
  match sys_state s with
  | Some st =>
      omap advance_call (sys_calls s) = omap handed (sys_responses s) ++ (request <$> advance_rx (sys_data s)) /\
      advance_ids (sys_calls s) =
        omap result_for (sys_responses s) ++ held_advance st ++ (response_tx <$> advance_rx (sys_data s))
  | None =>
      omap handed (sys_responses s) `prefix_of` omap advance_call (sys_calls s) /\
      omap result_for (sys_responses s) `prefix_of` advance_ids (sys_calls s) /\
      (length (omap handed (sys_responses s)) <= length (omap result_for (sys_responses s)) + 1)%nat
  end.

Lemma advance_ids_snoc cs c :
  advance_ids (cs ++ [c]) = advance_ids cs ++ match advance_call c with Some _ => [length cs] | None => [] end.
Proof.
  unfold advance_ids. rewrite imap_app, omap_app. f_equal. cbn. rewrite Nat.add_0_r. by destruct (advance_call c).
Qed.

Lemma advance_ids_length cs : length (advance_ids cs) = length (omap advance_call cs).
Proof.
  induction cs as [|c cs IH] using rev_ind; [done|]. rewrite advance_ids_snoc, omap_app, !length_app, IH.
  f_equal. by destruct c.
Qed.

(** At most one request is at work. *)
Lemma in_order_one s st : in_order s -> sys_state s = Some st ->
  (length (omap handed (sys_responses s)) <= length (omap result_for (sys_responses s)) + 1)%nat.
Proof.
  unfold in_order. intros Ho Hst. rewrite Hst in Ho. destruct Ho as [Hreq Hids].
  apply (f_equal length) in Hreq, Hids. rewrite advance_ids_length, Hreq, !length_app, !length_fmap in Hids.
  destruct st; cbn in Hids; lia.
Qed.

Lemma in_order_step s1 s2 : in_order s1 -> sys_step s1 s2 -> in_order s2.
Proof.
  intros Ho Hstep. destruct Hstep as [st d rs cs c|b st d rs cs st' d' rs' Hp].
  - unfold in_order in *; fields. destruct Ho as [Hreq Hids]. rewrite omap_app, advance_ids_snoc, Hreq, Hids.
    destruct c; cbn; rewrite ?fmap_app, ?(right_id_L [] (++)), <- ?(assoc_L (++)); done.
  - pose proof (in_order_one _ st Ho eq_refl) as Hone. unfold in_order in *; fields. destruct Ho as [Hreq Hids].
    rewrite !omap_app, Hreq, Hids. process_cases Hp;
      unfold invalid_voucher, invalid_notice, invalid_report, invalid_exception, shutdown in *; fields;
      repeat match goal with E : _ = _ :: _ |- _ => rewrite ?E in *; clear E | E : _ = [] |- _ => rewrite ?E in *; clear E end;
      cbn; rewrite ?(right_id_L [] (++)), <- ?(assoc_L (++)); split_and?; try done; by eexists.
Qed.

(** The rollup gets the advance requests in the order of the calls, each
    once, and their results come back in that order; there is never more than
    one advance request at work. *)
Theorem controller_advance_fifo s :
  reachable s ->
  omap handed (sys_responses s) `prefix_of` omap advance_call (sys_calls s) /\
  omap result_for (sys_responses s) `prefix_of` advance_ids (sys_calls s) /\
  (length (omap handed (sys_responses s)) <= length (omap result_for (sys_responses s)) + 1)%nat.
Proof.
  intros Hs. assert (Ho : in_order s).
  { revert Hs. apply (reachable_inv in_order); [done|]. intros s1 s2 _. apply in_order_step. }
  pose proof (in_order_one s) as Hone. destruct (sys_state s) as [st|] eqn:Hst.
  - pose proof (Hone st Ho eq_refl). unfold in_order in Ho. rewrite Hst in Ho. destruct Ho as [-> ->].
    split; [by eexists|]. split; [by eexists|done].
  - unfold in_order in Ho. by rewrite Hst in Ho.
Qed.

(** *** The result of an advance request *)

(** The outputs whose insertion was acknowledged, with their index. *)
Definition acked_voucher (cs : list Call) (r : Response) : option (nat * HostVoucher) :=
  match r with
  | ROutput tx (Ok k) => match cs !! tx with Some (CVoucher v) => Some (k, v) | _ => None end
  | _ => None
  end.
Definition acked_notice (cs : list Call) (r : Response) : option (nat * HostNotice) :=
  match r with
  | ROutput tx (Ok k) => match cs !! tx with Some (CNotice n) => Some (k, n) | _ => None end
  | _ => None
  end.
Definition acked_report (cs : list Call) (r : Response) : option HostReport :=
  match r with
  | RUnit tx (Ok _) => match cs !! tx with Some (CReport x) => Some x | _ => None end
  | _ => None
  end.

(** Since the request [q] was handed over, the responses [post] were sent, and
    they acknowledged exactly the given outputs. *)
Definition outputs_since (cs : list Call) (rs : list Response) (tx : nat) (vs : list HostVoucher)
    (ns : list HostNotice) (reports : list HostReport) : Prop :=
  exists pre f q post, rs = pre ++ RFinish f (Ok (HostModel.AdvanceState q)) :: post /\
    cs !! tx = Some (CAdvance q) /\
    omap (acked_voucher cs) post = imap pair vs /\ omap (acked_notice cs) post = imap pair ns /\
    omap (acked_report cs) post = reports.

Definition working (s : System) : Prop :=
  match sys_state s with
  | Some (AdvanceState tx vs ns reports) => outputs_since (sys_calls s) (sys_responses s) tx vs ns reports
  | _ => True
  end.

Lemma acked_mono cs c post :
  Forall (answers cs) post ->
  omap (acked_voucher (cs ++ [c])) post = omap (acked_voucher cs) post /\
  omap (acked_notice (cs ++ [c])) post = omap (acked_notice cs) post /\
  omap (acked_report (cs ++ [c])) post = omap (acked_report cs) post.
Proof.
  induction 1 as [|r post Hr _ (IHv & IHn & IHr)]; [done|]. cbn. rewrite IHv, IHn, IHr.
  destruct r as [tx ?|tx ?|tx ?|tx [?| |]|tx [?| |]|tx]; try done; cbn in Hr |- *;
    (destruct (cs !! tx) as [x|] eqn:Hx; [|done]); by rewrite (lookup_snoc_mono _ _ _ _ Hx).
Qed.

(** More responses after the hand over. *)
Lemma outputs_since_app cs rs tx vs ns reports rs' vs' ns' reports' :
  outputs_since cs rs tx vs ns reports ->
  imap pair vs ++ omap (acked_voucher cs) rs' = imap pair vs' ->
  imap pair ns ++ omap (acked_notice cs) rs' = imap pair ns' ->
  reports ++ omap (acked_report cs) rs' = reports' ->
  outputs_since cs (rs ++ rs') tx vs' ns' reports'.
Proof.
  intros (pre & f & q & post & -> & Hq & Hv & Hn & Hr) Hv' Hn' <-. exists pre, f, q, (post ++ rs').
  rewrite <- (assoc_L (++)), !omap_app, Hv, Hn, Hr. done.
Qed.

Lemma imap_pair_snoc {A} (l : list A) x : imap pair (l ++ [x]) = imap pair l ++ [(length l, x)].
Proof. rewrite imap_app. cbn. by rewrite Nat.add_0_r. Qed.

Lemma working_step s1 s2 : kinded s1 -> working s1 -> sys_step s1 s2 -> working s2.
Proof.
  intros (Hq & Hans & Hst) Hw Hstep. destruct Hstep as [st d rs cs c|b st d rs cs st' d' rs' Hp]; unfold working in *; fields.
  - destruct st as [| | |tx vs ns reports]; try done. destruct Hw as (pre & f & q & post & -> & Hx & Hv & Hn & Hr).
    exists pre, f, q, post. apply Forall_app in Hans as [_ [_ Hans]%Forall_cons].
    destruct (acked_mono cs c post Hans) as (-> & -> & ->). split; [done|]. split; [by apply lookup_snoc_mono|done].
  - destruct Hq as (H1&H2&H3&H4&H5&H6&H7&H8). process_cases Hp;
      unfold invalid_voucher, invalid_notice, invalid_report, invalid_exception, shutdown in *; fields; try done;
      repeat match goal with E : _ = _ :: _ |- _ => rewrite ?E in *; clear E | E : _ = [] |- _ => rewrite ?E in *; clear E end;
      repeat match goal with Hc : calls_of _ _ (_ :: _) |- _ => apply Forall_cons in Hc as [? ?] end.
    1: { exists rs. eexists _, _, []. split; [done|]. by split. }
    all: eapply outputs_since_app; [exact Hw|..];
      cbn [omap list_omap option_bind acked_voucher acked_notice acked_report];
      repeat match goal with E : _ !! _ = Some (_ (request _))  |- _ => rewrite E; clear E end;
      rewrite ?imap_pair_snoc, ?length_app, ?Nat.add_sub, ?(right_id_L [] (++)); done.
Qed.

Lemma working_reachable s : reachable s -> working s.
Proof.
  apply (reachable_inv working); [done|]. intros s1 s2 Hs1. by apply working_step, kinded_reachable.
Qed.

(** The result of an advance request holds exactly the outputs whose
    insertion was acknowledged since the request was handed to the rollup, in
    order and under the indices that were acknowledged; it is accepted,
    rejected or an exception as the rollup said. *)
Theorem advance_result_exact s st timed_out st' d' rs' tx result :
  reachable s -> sys_state s = Some st -> process timed_out st (sys_data s) = Some (st', d', rs') ->
  RAdvance tx result ∈ rs' ->
  exists vs ns, outputs_since (sys_calls s) (sys_responses s) tx vs ns (har_reports result) /\
    match har_status result with
    | HostAccepted vs' ns' => vs' = vs /\ ns' = ns /\ request <$> head (finish_rx (sys_data s)) = Some Accept
    | HostRejected => request <$> head (finish_rx (sys_data s)) = Some Reject
    | HostException x => request <$> head (exception_rx (sys_data s)) = Some x
    end.
Proof.
  intros Hs Hst Hp Hin. pose proof (working_reachable s Hs) as Hw. unfold working in Hw. rewrite Hst in Hw.
  process_cases Hp; unfold invalid_voucher, invalid_notice, invalid_report, invalid_exception, shutdown in *;
    repeat (apply elem_of_cons in Hin as [Hin|Hin]; [try discriminate Hin|]); try by apply not_elem_of_nil in Hin.
  all: injection Hin as -> ->; do 2 eexists; (split; [exact Hw|]).
  all: repeat match goal with E : _ = _ :: _ |- _ => rewrite E | E : _ = [] |- _ => clear E end; cbn; try done;
    match goal with E : request _ = _ |- _ => by rewrite E end.
Qed.
End Conservation.

(** ** Witnesses *)

Module ControllerWitness.
Import Controller KeccakRef.

(** An input with one voucher and one report, which the rollup accepts. *)
Definition input : AdvanceStateRequest :=
  mkAdvanceStateRequest (mkAdvanceMetadata sample_address 0 0 7 70) [x01].
Definition voucher : HostVoucher := Voucher_new sample_address [x02].
Definition report : HostReport := mkHostReport [x03].

(** The calls, and how many turns the service takes after each. *)
Definition script : list (Call * nat) :=
  [(CAdvance input, 0); (CVoucher voucher, 1); (CFinish Accept, 2); (CVoucher voucher, 1); (CReport report, 1);
   (CFinish Accept, 0)]%nat.

(** A turn of the service, when a request is ready. *)
Definition turn (s : System) : System :=
  match sys_state s with
  | Some st =>
      match process false st (sys_data s) with
      | Some (st', d', rs') => mkSystem st' d' (sys_responses s ++ rs') (sys_calls s)
      | None => s
      end
  | None => s
  end.
Definition call (c : Call) (s : System) : System :=
  match sys_state s with
  | Some _ => mkSystem (sys_state s) (send c (length (sys_calls s)) (sys_data s)) (sys_responses s) (sys_calls s ++ [c])
  | None => s
  end.
Definition play (s : System) (x : Call * nat) : System := Nat.iter x.2 turn (call x.1 s).
Definition reached : System := foldl play initial script.

Lemma turn_reachable s : reachable s -> reachable (turn s).
Proof.
  intros Hs. unfold turn. destruct s as [[st|] d rs cs]; [|done]. cbn.
  destruct (process false st d) as [[[st' d'] rs']|] eqn:Hp; [|done].
  eapply rtc_r; [exact Hs|]. by econstructor.
Qed.

Lemma call_reachable c s : reachable s -> reachable (call c s).
Proof. intros Hs. destruct s as [[st|] d rs cs]; [|done]. eapply rtc_r; [exact Hs|]. constructor. Qed.

Lemma play_reachable xs s : reachable s -> reachable (foldl play s xs).
Proof.
  revert s. induction xs as [|[c n] xs IH]; intros s Hs; [done|]. cbn. apply IH. unfold play. cbn.
  induction n as [|n IHn]; cbn; [by apply call_reachable|by apply turn_reachable].
Qed.

Lemma reached_reachable : reachable reached.
Proof. apply play_reachable. constructor. Qed.

Lemma controller_answers_once_witness :
  NoDup (response_to <$> sys_responses reached) /\ Forall (answers (sys_calls reached)) (sys_responses reached) /\
  forall st i, sys_state reached = Some st -> (i < length (sys_calls reached))%nat ->
    i ∈ response_to <$> sys_responses reached \/ i ∈ held st \/ i ∈ waiting (sys_data reached).
Proof. exact (controller_answers_once reached reached_reachable). Defined.

Lemma controller_advance_fifo_witness :
  omap handed (sys_responses reached) `prefix_of` omap advance_call (sys_calls reached) /\
  omap result_for (sys_responses reached) `prefix_of` advance_ids (sys_calls reached) /\
  (length (omap handed (sys_responses reached)) <= length (omap result_for (sys_responses reached)) + 1)%nat.
Proof. exact (controller_advance_fifo reached reached_reachable). Defined.

(** The last turn answers the input with the voucher and the report. *)
Lemma advance_result_exact_witness :
  exists vs ns, outputs_since (sys_calls reached) (sys_responses reached) 0 vs ns [report] /\
    [voucher] = vs /\ [] = ns /\ request <$> head (finish_rx (sys_data reached)) = Some Accept.
Proof.
  eapply (advance_result_exact reached (AdvanceState 0 [voucher] [] [report]) false
    (Some (FetchRequestState 5)) empty_data [RAdvance 0 (AdvanceResult_accepted [voucher] [] [report])] 0
    (AdvanceResult_accepted [voucher] [] [report])).
  - exact reached_reachable.
  - reflexivity.
  - reflexivity.
  - left.
Defined.
End ControllerWitness.
