(* ===== verification/Pagination.v ===== *)
(** * Pagination of query results

    [offchain/data/src/pagination.rs] and [offchain/data/src/error.rs]: cursors,
    the arguments [first]/[after] and [last]/[before], and the connection (the
    edges and the page information) returned to a client. The [base64] crate is
    a parameter; integer printing and parsing and UTF-8 validation are those of
    the Rust standard library. *)

From S2P Require Import Prelude Codecs.
From Stdlib Require Import Ascii.

#[local] Arguments Nat.mul : simpl never.

(** ** Text of the standard library *)

Module StdText.

(** [i32] arithmetic of the release profile *)
Definition i32_add (a b : Z) : Z := swrap 32 (a + b).
Definition i32_sub (a b : Z) : Z := swrap 32 (a - b).
(** [z] is a signed integer of [w] bits *)
Definition is_int (w z : Z) : Prop := - 2 ^ (w - 1) <= z < 2 ^ (w - 1).
Definition is_intb (w z : Z) : bool := (- 2 ^ (w - 1) <=? z) && (z <? 2 ^ (w - 1)).

Inductive ParseIntError := Empty | InvalidDigit | PosOverflow | NegOverflow.

#[export] Instance ParseIntError_eq_dec : EqDecision ParseIntError.
Proof. solve_decision. Defined.

(** [char::to_digit(10)] *)
Definition to_digit (c : Ascii.ascii) : option Z :=
  let n := Z.of_N (Ascii.N_of_ascii c) in
  if (48 <=? n) && (n <=? 57) then Some (n - 48) else None.

(** The loop of [from_str_radix(_, 10)] of the signed integers of [w] bits:
    checked multiplication, then checked addition (subtraction after a minus
    sign). *)
Fixpoint parse_digits (w : Z) (neg : bool) (acc : Z) (s : string) : outcome ParseIntError Z :=
  match s with
  | EmptyString => Ok acc
  | String c s =>
      x ← ok_or (to_digit c) InvalidDigit;
      let overflow := if neg then NegOverflow else PosOverflow in
      ensure (is_intb w (acc * 10)) overflow ;;
      let acc' := if neg then acc * 10 - x else acc * 10 + x in
      ensure (is_intb w acc') overflow ;;
      parse_digits w neg acc' s
  end.

(** [str::parse] *)
Definition parse_int (w : Z) (s : string) : outcome ParseIntError Z :=
  match s with
  | EmptyString => Err Empty
  | String c rest =>
      if Ascii.eqb c "+"%char then
        match rest with EmptyString => Err InvalidDigit | _ => parse_digits w false 0 rest end
      else if Ascii.eqb c "-"%char then
        match rest with EmptyString => Err InvalidDigit | _ => parse_digits w true 0 rest end
      else parse_digits w false 0 s
  end.
Definition parse_i32 : string -> outcome ParseIntError Z := parse_int 32.
Definition parse_i64 : string -> outcome ParseIntError Z := parse_int 64.

(** [to_string] *)
Definition i32_to_string (z : Z) : string := pretty z.
Definition i64_to_string (z : Z) : string := pretty z.

(** [lo <= b <= hi] *)
Definition byte_in (lo hi : Z) (b : byte) : bool := (lo <=? Z_of_byte b) && (Z_of_byte b <=? hi).

(** [std::str::from_utf8]: the well-formed sequences of bytes, without overlong
    forms and surrogates. *)
Fixpoint utf8_valid (bs : list byte) : bool :=
  match bs with
  | [] => true
  | a :: r0 =>
      if byte_in 0 127 a then utf8_valid r0 else
      match r0 with
      | [] => false
      | b :: r1 =>
          if byte_in 194 223 a then byte_in 128 191 b && utf8_valid r1 else
          match r1 with
          | [] => false
          | c :: r2 =>
              if byte_in 224 239 a then
                (if byte_in 224 224 a then byte_in 160 191 b
                 else if byte_in 237 237 a then byte_in 128 159 b
                 else byte_in 128 191 b)
                && byte_in 128 191 c && utf8_valid r2
              else
              match r2 with
              | [] => false
              | d :: r3 =>
                  if byte_in 240 244 a then
                    (if byte_in 240 240 a then byte_in 144 191 b
                     else if byte_in 244 244 a then byte_in 128 143 b
                     else byte_in 128 191 b)
                    && byte_in 128 191 c && byte_in 128 191 d && utf8_valid r3
                  else false
              end
          end
      end
  end.

Inductive Utf8Error := invalid_utf8.

Definition from_utf8 (bs : list byte) : outcome Utf8Error string :=
  if utf8_valid bs then Ok (String.string_of_list_byte bs) else Err invalid_utf8.

(** [str::as_bytes] *)
Definition as_bytes (s : string) : list byte := String.list_byte_of_string s.
End StdText.
Import StdText.

(** ** Errors of the data crate *)

Inductive PoolError := pool_error (detail : string).

Inductive DieselError :=
| ForeignKeyViolation
| OtherDatabaseError (detail : string).

Module DataError.
Inductive Error :=
| DatabaseConnectionError (source : PoolError)
| DatabaseError (source : DieselError)
| ItemNotFound (item_type : string)
| DecodeUTF8CursorError (source : Utf8Error)
| DecodeBase64CursorError (source : DecodeError64)
| ParseCursorError (source : ParseIntError)
| MixedPaginationError
| PaginationCursorError (arg : string)
| PaginationLimitError (arg : string).
End DataError.
Import DataError.

(** ** [Cursor], [Pagination] and [Connection] *)

Module Cursor.
Section Cursor.
Context `{Base64Crate}.

Definition encode (offset : Z) : string := base64_encode (as_bytes (i32_to_string offset)).

Definition decode (value : string) : outcome Error Z :=
  bytes ← map_err DecodeBase64CursorError (base64_decode value);
  text ← map_err DecodeUTF8CursorError (from_utf8 bytes);
  map_err ParseCursorError (parse_i32 text).
End Cursor.
End Cursor.

Record Pagination := mkPagination {
  total_count : Z;
  offset : Z;
  limit : Z;
}.

Record Edge (N : Type) := mkEdge { edge_node : N; edge_cursor : Z }.
Arguments mkEdge {N} edge_node edge_cursor.
Arguments edge_node {N} _.
Arguments edge_cursor {N} _.

Record PageInfo := mkPageInfo {
  start_cursor : option Z;
  end_cursor : option Z;
  has_next_page : bool;
  has_previous_page : bool;
}.

Record Connection (N : Type) := mkConnection {
  conn_total_count : Z;
  edges : list (Edge N);
  page_info : PageInfo;
}.
Arguments mkConnection {N} conn_total_count edges page_info.
Arguments conn_total_count {N} _.
Arguments edges {N} _.
Arguments page_info {N} _.

Module Page.
Definition DEFAULT_PAGINATION_LIMIT : Z := 1000.

Section New.
Context `{Base64Crate}.

(** [ensure_cursor!(arg, total_count)] *)
Definition ensure_cursor (arg : string) (value : string) (total_count : Z) : outcome Error Z :=
  cursor ← Cursor.decode value;
  ensure ((0 <=? cursor) && (cursor <? total_count)) (PaginationCursorError arg) ;;
  Ok cursor.

(** [ensure_limit!(arg)] *)
Definition ensure_limit (arg : string) (value : option Z) : outcome Error Z :=
  match value with
  | Some limit =>
      ensure (0 <=? limit) (PaginationLimitError arg) ;;
      Ok (Z.min limit DEFAULT_PAGINATION_LIMIT)
  | None => Ok DEFAULT_PAGINATION_LIMIT
  end.

Definition new (first last : option Z) (after before : option string) (total_count : Z) :
    outcome Error Pagination :=
  let forward := bool_decide (is_Some first) || bool_decide (is_Some after) in
  let backward := bool_decide (is_Some last) || bool_decide (is_Some before) in
  ensure (negb forward || negb backward) MixedPaginationError ;;
  if backward then
    before_offset ← match before with
                    | Some before => ensure_cursor "before" before total_count
                    | None => Ok total_count
                    end;
    limit ← ensure_limit "last" last;
    if before_offset <=? limit
    then Ok (mkPagination total_count 0 before_offset)
    else Ok (mkPagination total_count (i32_sub before_offset limit) limit)
  else
    offset ← match after with
             | Some after => cursor ← ensure_cursor "after" after total_count; Ok (i32_add cursor 1)
             | None => Ok 0
             end;
    limit ← ensure_limit "first" first;
    if total_count <? i32_add offset limit
    then Ok (mkPagination total_count offset (i32_sub total_count offset))
    else Ok (mkPagination total_count offset limit).
End New.

Definition create_connection {N} (self : Pagination) (nodes : list N) : Connection N :=
  let edges := imap (fun i node => mkEdge node (i32_add (offset self) (swrap 32 (Z.of_nat i)))) nodes in
  let '(start_cursor, has_previous_page) :=
    match head edges with
    | Some edge => (Some (edge_cursor edge), 0 <? edge_cursor edge)
    | None => (None, false)
    end in
  let '(end_cursor, has_next_page) :=
    match last edges with
    | Some edge => (Some (edge_cursor edge), edge_cursor edge <? i32_sub (total_count self) 1)
    | None => (None, false)
    end in
  mkConnection (total_count self) edges
    (mkPageInfo start_cursor end_cursor has_next_page has_previous_page).
End Page.

(** ** Lemmas on text *)

Lemma is_intb_spec w z : is_intb w z = true <-> is_int w z.
Proof. unfold is_intb, is_int. rewrite andb_true_iff, Z.leb_le, Z.ltb_lt. done. Qed.

Lemma i32_add_small a b : is_i32 (a + b) -> i32_add a b = a + b.
Proof. intros Hab. apply swrap_small; [lia|exact Hab]. Qed.

Lemma i32_sub_small a b : is_i32 (a - b) -> i32_sub a b = a - b.
Proof. intros Hab. apply swrap_small; [lia|exact Hab]. Qed.

Lemma to_digit_pretty (x : N) : (x < 10)%N -> to_digit (pretty_N_char x) = Some (Z.of_N x).
Proof. revert x. by apply digit_cases. Qed.

Definition signed (neg : bool) (x : N) : Z := if neg then - Z.of_N x else Z.of_N x.

(** Reading the decimal digits of [x] amounts to having read [x]. *)
Lemma parse_digits_pretty w neg (x : N) s :
  is_int w (signed neg x) -> parse_digits w neg 0 (pretty_N_go x s) = parse_digits w neg (signed neg x) s.
Proof.
  intros Hx. rewrite <-(pretty_N_go_run (fun n => parse_digits w neg (signed neg n)) (fun n => is_int w (signed neg n)));
    [by destruct neg| |done].
  clear x s Hx. intros q r s Hr Hx. cbn [parse_digits]. rewrite to_digit_pretty by done. cbn [ok_or mbind outcome_bind].
  assert (Hr' : is_int w (signed neg q) /\ is_int w (signed neg q * 10) /\
    signed neg (10 * q + r) = (if neg then signed neg q * 10 - Z.of_N r else signed neg q * 10 + Z.of_N r)).
  { revert Hx. unfold is_int, signed. generalize (2 ^ (w - 1)). intros b Hx. destruct neg; lia. }
  destruct Hr' as (Hq & Hq10 & Hval). split; [done|].
  by rewrite <- Hval, (proj2 (is_intb_spec _ _) Hq10), (proj2 (is_intb_spec _ _) Hx).
Qed.

(** The first character is a digit, so it is not taken for a sign. *)
Lemma pretty_N_go_head (x : N) s :
  (0 < x)%N -> exists c s', pretty_N_go x s = String c s' /\ is_Some (to_digit c).
Proof.
  intros (r & s' & Hs & _ & Hr)%(fun H => pretty_N_go_start x s H). do 2 eexists. split; [done|].
  by rewrite to_digit_pretty.
Qed.

Lemma digit_not_sign c : is_Some (to_digit c) -> Ascii.eqb c "+"%char = false /\ Ascii.eqb c "-"%char = false.
Proof. destruct c as [[] [] [] [] [] [] [] []]; cbn; intros [? ?]; done. Qed.

Lemma parse_int_pretty w z : is_int w z -> parse_int w (pretty z) = Ok z.
Proof.
  intros Hz. unfold pretty, pretty_Z. destruct z as [|p|p].
  - apply is_intb_spec in Hz.
    transitivity (ensure (is_intb w 0) PosOverflow ;; ensure (is_intb w 0) PosOverflow ;; Ok 0 : outcome ParseIntError Z);
      [reflexivity|by rewrite Hz].
  - unfold pretty, pretty_positive, pretty, pretty_N. rewrite decide_False by done.
    destruct (pretty_N_go_head (Npos p) "" eq_refl) as (c & s' & E & Hd).
    pose proof (parse_digits_pretty w false (Npos p) "" Hz) as Hp. rewrite E in Hp |- *.
    destruct (digit_not_sign c Hd) as [E1 E2]. unfold parse_int. rewrite E1, E2. exact Hp.
  - unfold pretty, pretty_positive, pretty, pretty_N. rewrite decide_False by done.
    destruct (pretty_N_go_head (Npos p) "" eq_refl) as (c & s' & E & Hd).
    pose proof (parse_digits_pretty w true (Npos p) "" Hz) as Hp. rewrite E in Hp |- *. exact Hp.
Qed.

Lemma parse_i32_pretty z : is_i32 z -> parse_i32 (i32_to_string z) = Ok z.
Proof. apply (parse_int_pretty 32). Qed.

(** Printed integers are ASCII, hence UTF-8. *)
Definition is_ascii (c : ascii) : bool := match c with Ascii _ _ _ _ _ _ _ b => negb b end.

Lemma utf8_valid_ascii s : string_forall is_ascii s = true -> utf8_valid (as_bytes s) = true.
Proof.
  induction s as [|c s IH]; [done|]. cbn [string_forall]. intros [Hc Hs]%andb_prop.
  change (utf8_valid (byte_of_ascii c :: as_bytes s) = true). cbn [utf8_valid].
  replace (byte_in 0 127 (byte_of_ascii c)) with true; [auto|].
  destruct c as [[] [] [] [] [] [] [] []]; first [reflexivity|by cbv in Hc].
Qed.

Lemma pretty_N_go_ascii (x : N) s :
  string_forall is_ascii s = true -> string_forall is_ascii (pretty_N_go x s) = true.
Proof.
  revert s. induction (N.lt_wf_0 x) as [x _ IH]. intros s Hs.
  assert (x = 0 \/ 0 < x)%N as [->|Hpos] by lia; [done|].
  rewrite pretty_N_go_step by done. apply IH; [by apply N.div_lt|]. cbn [string_forall].
  rewrite Hs, andb_true_r. unfold pretty_N_char. by repeat case_match.
Qed.

Lemma i32_to_string_ascii z : string_forall is_ascii (i32_to_string z) = true.
Proof.
  assert (Hp : forall p : positive, string_forall is_ascii (pretty p) = true).
  { intros p. unfold pretty, pretty_positive, pretty, pretty_N. rewrite decide_False by done.
    by apply pretty_N_go_ascii. }
  destruct z as [|p|p]; [done|exact (Hp p)|exact (Hp p)].
Qed.

Lemma parse_digits_total w neg acc s : is_panic (parse_digits w neg acc s) = false.
Proof.
  revert acc. induction s as [|c s IH]; intros acc; [done|]. cbn [parse_digits].
  apply outcome_bind_total; [by destruct (to_digit c)|]. intros x. cbv zeta.
  apply outcome_bind_total; [by destruct (is_intb _ _)|]. intros _.
  apply outcome_bind_total; [by destruct (is_intb _ _)|]. intros _. apply IH.
Qed.

Lemma parse_int_total w s : is_panic (parse_int w s) = false.
Proof.
  destruct s as [|c s]; [done|]. unfold parse_int.
  repeat case_match; try done; apply parse_digits_total.
Qed.

(** ** Cursors *)

Section CursorTheorems.
Context `{Base64CrateLaws}.

Lemma decode_encode_cursor (z : Z) : is_i32 z -> Cursor.decode (Cursor.encode z) = Ok z.
Proof.
  intros Hz. unfold Cursor.decode, Cursor.encode. rewrite base64_decode_encode. cbn [map_err mbind outcome_bind].
  unfold from_utf8. rewrite utf8_valid_ascii by apply i32_to_string_ascii.
  cbn [map_err mbind outcome_bind]. unfold as_bytes. rewrite String.string_of_list_byte_of_string.
  by rewrite parse_i32_pretty.
Qed.

Lemma decode_cursor_total v : is_panic (Cursor.decode v) = false.
Proof.
  unfold Cursor.decode. pose proof (base64_decode_total v) as Hb.
  apply outcome_bind_total; [by destruct (base64_decode v)|]. intros bs.
  apply outcome_bind_total; [by unfold from_utf8; destruct (utf8_valid bs)|]. intros s.
  unfold parse_i32. pose proof (parse_int_total 32 s). by destruct (parse_int 32 s).
Qed.

(** The cursor argument [v] denotes the position [i] of a table of [total] rows. *)
Definition points_to (v : string) (total i : Z) : Prop :=
  Cursor.decode v = Ok i /\ 0 <= i < total.

Lemma ensure_cursor_ok arg v total i :
  Page.ensure_cursor arg v total = Ok i <-> points_to v total i.
Proof.
  unfold Page.ensure_cursor, points_to. destruct (Cursor.decode v) as [c| |]; cbn [mbind outcome_bind].
  - unfold ensure. destruct ((0 <=? c) && (c <? total)) eqn:E; cbn [mbind outcome_bind].
    + apply andb_prop in E as [E1%Z.leb_le E2%Z.ltb_lt]. split; [intros [= ->]; auto|by intros [[= ->] _]].
    + split; [done|]. intros [[= ->] [H1 H2]]. apply andb_false_iff in E as [E%Z.leb_gt|E%Z.ltb_ge]; lia.
  - split; [done|by intros [? _]].
  - split; [done|by intros [? _]].
Qed.

(** The number of rows asked for, at most 1000. *)
Definition page_size (value : option Z) : Z :=
  match value with Some n => Z.min n 1000 | None => 1000 end.

Lemma ensure_limit_ok arg value n :
  Page.ensure_limit arg value = Ok n <-> (forall m, value = Some m -> 0 <= m) /\ n = page_size value.
Proof.
  destruct value as [m|]; cbn -[Z.min].
  - unfold ensure. destruct (0 <=? m) eqn:E; cbn -[Z.min].
    + apply Z.leb_le in E. unfold Page.DEFAULT_PAGINATION_LIMIT. split.
      * intros [= <-]. split; [by intros ? [= <-]|done].
      * by intros [_ ->].
    + apply Z.leb_gt in E. split; [done|]. intros [Hm _]. specialize (Hm m eq_refl). lia.
  - split; [by intros [= <-]|by intros [_ ->]].
Qed.
End CursorTheorems.

(** ** Pages

    The rows of a page, and the page that the cursor connections specification
    of Relay prescribes: cut the list at the cursors, then keep the first or
    the last rows. *)

Definition slice {A} (p : Pagination) (l : list A) : list A :=
  take (Z.to_nat (limit p)) (drop (Z.to_nat (offset p)) l).

Definition last_n {A} (n : nat) (l : list A) : list A := drop (length l - n) l.

Definition relay_page {A} (first last after before : option Z) (l : list A) : list A :=
  let l := match before with Some b => take (Z.to_nat b) l | None => l end in
  let l := match after with Some a => drop (Z.to_nat (a + 1)) l | None => l end in
  if bool_decide (is_Some last) || bool_decide (is_Some before)
  then last_n (Z.to_nat (page_size last)) l
  else take (Z.to_nat (page_size first)) l.

Section PageTheorems.
Context `{Base64CrateLaws}.

(** An optional cursor argument and the position it denotes. *)
Definition denotes (total : Z) (arg : option string) (pos : option Z) : Prop :=
  match arg, pos with
  | Some v, Some i => points_to v total i
  | None, None => True
  | _, _ => False
  end.

Record valid_args (first last : option Z) (after before : option string) (total : Z)
    (a b : option Z) : Prop := {
  va_not_mixed : (first = None /\ after = None) \/ (last = None /\ before = None);
  va_first n : first = Some n -> 0 <= n;
  va_last n : last = Some n -> 0 <= n;
  va_after : denotes total after a;
  va_before : denotes total before b;
}.

Lemma page_size_range v : (forall m, v = Some m -> 0 <= m) -> 0 <= page_size v <= 1000.
Proof. intros Hv. destruct v as [m|]; unfold page_size; [specialize (Hv m eq_refl)|]; lia. Qed.

(** Forward: the rows from position [o] on. *)
Lemma forward_slice {A} (l : list A) total o n :
  Z.of_nat (length l) = total -> is_i32 total -> 0 <= o <= total -> 0 <= n <= 1000 ->
  let p := if total <? i32_add o n then mkPagination total o (i32_sub total o)
           else mkPagination total o n in
  slice p l = take (Z.to_nat n) (drop (Z.to_nat o) l) /\ total_count p = total /\
  offset p = o /\ 0 <= limit p <= 1000.
Proof.
  intros Hlen Ht Ho Hn. assert (is_i32 (total - o)) as Hsub by (unfold is_i32 in *; lia).
  cbv zeta. destruct (total <? i32_add o n) eqn:E; cbn [total_count offset limit]; [|done].
  apply Z.ltb_lt in E. rewrite i32_sub_small by done.
  assert (i32_add o n = o + n) as Hadd.
  { destruct (decide (o + n < 2 ^ 31)) as [Hlt|Hge]; [apply i32_add_small; unfold is_i32; lia|].
    exfalso. unfold i32_add, swrap in E. replace (o + n + 2 ^ (32 - 1)) with (o + n - 2 ^ 31 + 1 * 2 ^ 32) in E by lia.
    rewrite Z_mod_plus_full, Z.mod_small in E by (unfold is_i32 in *; lia). unfold is_i32 in *; lia. }
  rewrite Hadd in E. split; [|done || (repeat split; lia)].
  unfold slice. cbn [limit offset]. rewrite !take_ge; [done| |]; rewrite length_drop; lia.
Qed.

(** Backward: the rows before position [b]. *)
Lemma backward_slice {A} (l : list A) total b n :
  Z.of_nat (length l) = total -> is_i32 total -> 0 <= b <= total -> 0 <= n <= 1000 ->
  let p := if b <=? n then mkPagination total 0 b else mkPagination total (i32_sub b n) n in
  slice p l = last_n (Z.to_nat n) (take (Z.to_nat b) l) /\ total_count p = total /\
  offset p = Z.max 0 (b - n) /\ 0 <= limit p <= 1000.
Proof.
  intros Hlen Ht Hb Hn. assert (is_i32 (b - n)) as Hsub by (unfold is_i32 in *; lia).
  assert (length (take (Z.to_nat b) l) = Z.to_nat b) as Hl by (rewrite length_take; lia).
  cbv zeta. unfold last_n. rewrite Hl. destruct (b <=? n) eqn:E; cbn [total_count offset limit].
  - apply Z.leb_le in E. replace (Z.to_nat b - Z.to_nat n)%nat with 0%nat by lia.
    unfold slice. cbn [limit offset]. split; [by rewrite !drop_0|]. repeat split; lia.
  - apply Z.leb_gt in E. rewrite i32_sub_small by done. split; [|repeat split; lia].
    unfold slice. cbn [limit offset]. rewrite skipn_firstn_comm.
    f_equal; [lia|]. f_equal. lia.
Qed.

(** The two directions of [Pagination::new], as one computation each. *)
Lemma new_forward first after total :
  Page.new first None after None total =
    (o ← match after with
         | Some after => c ← Page.ensure_cursor "after" after total; Ok (i32_add c 1)
         | None => Ok 0
         end;
     n ← Page.ensure_limit "first" first;
     Ok (if total <? i32_add o n then mkPagination total o (i32_sub total o)
         else mkPagination total o n)).
Proof.
  unfold Page.new. rewrite !(bool_decide_false (is_Some None)) by (by intros [? ?]).
  rewrite orb_true_r. cbn [orb ensure mbind outcome_bind negb].
  destruct (match after with Some _ => _ | None => _ end); cbn; [|done|done].
  destruct (Page.ensure_limit "first" first); cbn; [|done|done]. by destruct (total <? _).
Qed.

Lemma new_backward last before total :
  last <> None \/ before <> None ->
  Page.new None last None before total =
    (b ← match before with
         | Some before => Page.ensure_cursor "before" before total
         | None => Ok total
         end;
     n ← Page.ensure_limit "last" last;
     Ok (if b <=? n then mkPagination total 0 b else mkPagination total (i32_sub b n) n)).
Proof.
  intros Hb. unfold Page.new. rewrite !(bool_decide_false (is_Some None)) by (by intros [? ?]).
  replace (bool_decide (is_Some last) || bool_decide (is_Some before)) with true.
  2:{ destruct last, before; try done. by destruct Hb. }
  cbn [orb ensure mbind outcome_bind negb].
  destruct (match before with Some _ => _ | None => _ end); cbn; [|done|done].
  destruct (Page.ensure_limit "last" last); cbn; [|done|done]. by destruct (_ <=? _).
Qed.

Lemma new_mixed first last after before total :
  (first <> None \/ after <> None) -> (last <> None \/ before <> None) ->
  Page.new first last after before total = Err MixedPaginationError.
Proof. intros Hf Hb. unfold Page.new. destruct first, after, last, before; try done; tauto. Qed.

Lemma ensure_cursor_total arg v total : is_panic (Page.ensure_cursor arg v total) = false.
Proof.
  apply outcome_bind_total; [apply decode_cursor_total|]. intros c. by destruct (_ && _).
Qed.

Lemma ensure_limit_total arg v : is_panic (Page.ensure_limit arg v) = false.
Proof. destruct v as [n|]; [|done]. cbn. by destruct (0 <=? n). Qed.

Lemma new_total first last after before total : is_panic (Page.new first last after before total) = false.
Proof.
  unfold Page.new. apply outcome_bind_total; [by destruct (_ || _)|]. intros _.
  destruct (bool_decide (is_Some last) || _).
  - apply outcome_bind_total; [destruct before; [apply ensure_cursor_total|done]|]. intros b.
    apply outcome_bind_total; [apply ensure_limit_total|]. intros n. by destruct (_ <=? _).
  - apply outcome_bind_total.
    { destruct after; [|done]. by apply outcome_bind_total; [apply ensure_cursor_total|]. }
    intros o. apply outcome_bind_total; [apply ensure_limit_total|]. intros n. by destruct (_ <? _).
Qed.

(** The position where a forward page starts. *)
Definition next_pos (a : option Z) : Z := match a with Some a => a + 1 | None => 0 end.

Lemma forward_cases {A} (l : list A) first after :
  let total := Z.of_nat (length l) in
  is_i32 total ->
  match Page.new first None after None total with
  | Ok p => exists a, denotes total after a /\ (forall m, first = Some m -> 0 <= m) /\
      0 <= next_pos a <= total /\
      slice p l = take (Z.to_nat (page_size first)) (drop (Z.to_nat (next_pos a)) l) /\
      total_count p = total /\ offset p = next_pos a /\ 0 <= limit p <= 1000
  | Err _ => ~ exists a, denotes total after a /\ (forall m, first = Some m -> 0 <= m)
  | Panic => False
  end.
Proof.
  intros total Ht. rewrite new_forward.
  pose proof (ensure_limit_total "first" first) as Hlt.
  assert (Hpos : match (match after with
         | Some after => c ← Page.ensure_cursor "after" after total; Ok (i32_add c 1)
         | None => Ok 0
         end) with
     | Ok o => exists a, denotes total after a /\ o = next_pos a /\ 0 <= o <= total
     | Err _ => ~ exists a, denotes total after a
     | Panic => False
     end).
  { destruct after as [v|]; [|exists None; cbn; repeat split; lia].
    pose proof (ensure_cursor_total "after" v total) as Hct.
    destruct (Page.ensure_cursor "after" v total) as [c|e|] eqn:Ec; [|..|done]; cbn [mbind outcome_bind].
    - apply ensure_cursor_ok in Ec as Hc. exists (Some c). destruct Hc.
      rewrite i32_add_small by (unfold is_i32 in *; lia). cbn. repeat split; try done; lia.
    - intros ([a|] & Ha); [|done]. apply (proj2 (ensure_cursor_ok "after" v total a)) in Ha. congruence. }
  destruct (match after with Some _ => _ | None => _ end) as [o|e|]; cbn [mbind outcome_bind];
    [|by intros (a & Ha & _); apply Hpos; exists a|done].
  destruct Hpos as (a & Hden & -> & Hr).
  destruct (Page.ensure_limit "first" first) as [n|e|] eqn:En; [|..|done]; cbn [mbind outcome_bind].
  - apply ensure_limit_ok in En as [Hf ->]. exists a.
    pose proof (forward_slice l total _ _ eq_refl Ht Hr (page_size_range first Hf)) as Hs.
    cbv zeta in Hs. auto.
  - intros (a' & _ & Hf). pose proof (proj2 (ensure_limit_ok "first" first _) (conj Hf eq_refl)). congruence.
Qed.

(** The position where a backward page ends. *)
Definition prev_pos (total : Z) (b : option Z) : Z := default total b.

Lemma backward_cases {A} (l : list A) last before :
  let total := Z.of_nat (length l) in
  is_i32 total -> last <> None \/ before <> None ->
  match Page.new None last None before total with
  | Ok p => exists b, denotes total before b /\ (forall m, last = Some m -> 0 <= m) /\
      0 <= prev_pos total b <= total /\
      slice p l = last_n (Z.to_nat (page_size last)) (take (Z.to_nat (prev_pos total b)) l) /\
      total_count p = total /\ offset p = Z.max 0 (prev_pos total b - page_size last) /\ 0 <= limit p <= 1000
  | Err _ => ~ exists b, denotes total before b /\ (forall m, last = Some m -> 0 <= m)
  | Panic => False
  end.
Proof.
  intros total Ht Hb. rewrite new_backward by done.
  pose proof (ensure_limit_total "last" last) as Hlt.
  assert (Hpos : match (match before with
         | Some before => Page.ensure_cursor "before" before total
         | None => Ok total
         end) with
     | Ok c => exists b, denotes total before b /\ c = prev_pos total b /\ 0 <= c <= total
     | Err _ => ~ exists b, denotes total before b
     | Panic => False
     end).
  { destruct before as [v|]; [|exists None; cbn; repeat split; lia].
    pose proof (ensure_cursor_total "before" v total) as Hct.
    destruct (Page.ensure_cursor "before" v total) as [c|e|] eqn:Ec; [|..|done].
    - apply ensure_cursor_ok in Ec as Hc. exists (Some c). destruct Hc. cbn. repeat split; try done; lia.
    - intros ([b|] & Hb'); [|done]. apply (proj2 (ensure_cursor_ok "before" v total b)) in Hb'. congruence. }
  destruct (match before with Some _ => _ | None => _ end) as [c|e|]; cbn [mbind outcome_bind];
    [|by intros (b & Hb' & _); apply Hpos; exists b|done].
  destruct Hpos as (b & Hden & -> & Hr).
  destruct (Page.ensure_limit "last" last) as [n|e|] eqn:En; [|..|done]; cbn [mbind outcome_bind].
  - apply ensure_limit_ok in En as [Hf ->]. exists b.
    pose proof (backward_slice l total _ _ eq_refl Ht Hr (page_size_range last Hf)) as Hs.
    cbv zeta in Hs. auto.
  - intros (b' & _ & Hf). pose proof (proj2 (ensure_limit_ok "last" last _) (conj Hf eq_refl)). congruence.
Qed.

(** *** Connections *)

Definition nodes {A} (c : Connection A) : list A := edge_node <$> edges c.

(** The cursors of a page of an [i32]-sized table do not wrap around. *)
Lemma cursors_exact {A} (p : Pagination) (l : list A) :
  is_i32 (Z.of_nat (length l)) -> 0 <= offset p <= Z.of_nat (length l) ->
  imap (fun i x => mkEdge x (i32_add (offset p) (swrap 32 (Z.of_nat i)))) (slice p l) =
  imap (fun i x => mkEdge x (offset p + Z.of_nat i)) (slice p l).
Proof.
  intros Hl Ho. assert (Hlen : (length (slice p l) <= length l - Z.to_nat (offset p))%nat).
  { unfold slice. rewrite length_take, length_drop. lia. }
  apply imap_ext. intros i x Ei%lookup_lt_Some. cbn.
  rewrite swrap_small, i32_add_small by (unfold is_i32 in *; lia). done.
Qed.

Lemma connection_edges {A} (p : Pagination) (l : list A) :
  is_i32 (Z.of_nat (length l)) -> 0 <= offset p <= Z.of_nat (length l) ->
  edges (Page.create_connection p (slice p l)) =
    imap (fun i x => mkEdge x (offset p + Z.of_nat i)) (slice p l).
Proof.
  intros Hl Ho. unfold Page.create_connection. rewrite cursors_exact by done.
  by repeat case_match.
Qed.

(** The information of a page that holds [k] rows from position [o] on. *)
Definition info_of (total o : Z) (k : nat) : PageInfo :=
  match k with
  | O => mkPageInfo None None false false
  | S k => mkPageInfo (Some o) (Some (o + Z.of_nat k)) (o + Z.of_nat k <? total - 1) (0 <? o)
  end.

Lemma connection_info {A} (p : Pagination) (l : list A) :
  is_i32 (Z.of_nat (length l)) -> 0 <= offset p <= Z.of_nat (length l) ->
  total_count p = Z.of_nat (length l) ->
  page_info (Page.create_connection p (slice p l)) =
    info_of (Z.of_nat (length l)) (offset p) (length (slice p l)).
Proof.
  intros Hl Ho Ht. unfold Page.create_connection. rewrite cursors_exact by done.
  rewrite Ht, i32_sub_small by (unfold is_i32 in *; lia).
  destruct (slice p l) as [|x r _] using rev_ind; [done|].
  rewrite imap_app. cbn [imap]. rewrite last_snoc, length_app. cbn [length]. rewrite Nat.add_1_r. cbn [info_of].
  replace (head _) with (Some (mkEdge (default x (head r)) (offset p))).
  2:{ destruct r; cbn; by rewrite Z.add_0_r. }
  cbn. by rewrite Nat.add_0_r.
Qed.

(** What a client gets for a list of rows: the page and its connection. *)
Definition page {A} (first last : option Z) (after before : option string) (l : list A) :
    outcome Error (Connection A) :=
  p ← Page.new first last after before (Z.of_nat (length l));
  Ok (Page.create_connection p (slice p l)).

Lemma nodes_slice {A} (p : Pagination) (l : list A) :
  is_i32 (Z.of_nat (length l)) -> 0 <= offset p <= Z.of_nat (length l) ->
  nodes (Page.create_connection p (slice p l)) = slice p l.
Proof.
  intros Hl Ho. unfold nodes. rewrite connection_edges by done.
  apply list_eq. intros i. rewrite list_lookup_fmap, list_lookup_imap. by destruct (slice p l !! i).
Qed.

(** A connection whose edges are rows of [l] under the cursors of their positions. *)
Definition edges_of {A} (l : list A) (c : Connection A) : Prop :=
  (length (edges c) <= 1000)%nat /\
  forall e, e ∈ edges c -> is_i32 (edge_cursor e) /\ l !! Z.to_nat (edge_cursor e) = Some (edge_node e).

Lemma edges_of_slice {A} (p : Pagination) (l : list A) :
  is_i32 (Z.of_nat (length l)) -> 0 <= offset p <= Z.of_nat (length l) -> 0 <= limit p <= 1000 ->
  edges_of l (Page.create_connection p (slice p l)).
Proof.
  intros Hl Ho Hlim. unfold edges_of. rewrite connection_edges, length_imap by done. split.
  - unfold slice. rewrite length_take. lia.
  - intros e [i Hi]%list_elem_of_lookup. rewrite list_lookup_imap in Hi.
    destruct (slice p l !! i) as [x|] eqn:Ei; simplify_eq/=.
    unfold slice in Ei. apply lookup_take_Some in Ei as [Ei Hi]. rewrite lookup_drop in Ei.
    apply lookup_lt_Some in Ei as Hlt. split; [unfold is_i32 in *; lia|].
    rewrite <- Ei. f_equal. lia.
Qed.

(** C25. A page is the page of the Relay specification, with at most 1000 rows:
    [Pagination::new] accepts exactly the arguments that do not mix directions,
    have non-negative limits and cursors inside the table; [create_connection]
    then returns the rows that the cursors and the limit select, each under a
    cursor that denotes its position. *)
Theorem pagination_is_relay {A} (first last : option Z) (after before : option string) (l : list A) :
  is_i32 (Z.of_nat (length l)) ->
  match page first last after before l with
  | Ok c => edges_of l c /\ exists a b,
      valid_args first last after before (Z.of_nat (length l)) a b /\
      nodes c = relay_page first last a b l
  | Err _ => ~ exists a b, valid_args first last after before (Z.of_nat (length l)) a b
  | Panic => False
  end.
Proof.
  intros Hl. unfold page. destruct (decide ((first <> None \/ after <> None) /\ (last <> None \/ before <> None))) as [[Hf Hb]|Hd].
  { rewrite new_mixed by done. intros (a & b & [[] _ _ _ _]); tauto. }
  destruct (decide (last <> None \/ before <> None)) as [Hb|Hb].
  - assert (first = None /\ after = None) as [-> ->] by (split; apply dec_stable; tauto).
    pose proof (backward_cases l last before Hl Hb) as Hc. cbv zeta in Hc.
    destruct (Page.new _ _ _ _ _) as [p|e|]; cbn [mbind outcome_bind]; [|..|done].
    + destruct Hc as (b & Hden & Hn & Hr & Hs & Ht & Ho & Hlim).
      pose proof (page_size_range last Hn). split; [apply edges_of_slice; done || lia|].
      exists None, b. split; [by split; auto|]. rewrite nodes_slice, Hs by (done || lia). unfold relay_page.
      replace (bool_decide (is_Some last) || bool_decide (is_Some b)) with true.
      * destruct b; [done|]. cbn. rewrite take_ge by lia. done.
      * destruct last; [done|]. destruct before, b; done || tauto.
    + intros (a & b & [_ _ Hn _ Hden]). eauto.
  - assert (last = None /\ before = None) as [-> ->] by (split; apply dec_stable; tauto).
    pose proof (forward_cases l first after Hl) as Hc. cbv zeta in Hc.
    destruct (Page.new _ _ _ _ _) as [p|e|]; cbn [mbind outcome_bind]; [|..|done].
    + destruct Hc as (a & Hden & Hn & Hr & Hs & Ht & Ho & Hlim).
      split; [apply edges_of_slice; done || lia|].
      exists a, None. split; [by split; auto|]. rewrite nodes_slice, Hs by (done || lia). unfold relay_page. cbn.
      by destruct a.
    + intros (a & b & [_ Hn _ Hden _]). eauto.
Qed.

(** *** Reading a whole table page by page *)

(** A client that asks for [n] rows after the last cursor it got, while
    [has_next_page]. *)
Fixpoint walk_forward {A} (fuel : nat) (n : Z) (after : option string) (l : list A) : list A :=
  match fuel with
  | O => []
  | S fuel =>
      match page (Some n) None after None l with
      | Ok c => nodes c ++
          (if has_next_page (page_info c)
           then walk_forward fuel n (Cursor.encode <$> end_cursor (page_info c)) l else [])
      | _ => []
      end
  end.

(** One that asks for [n] rows before the first cursor it got, while
    [has_previous_page]. *)
Fixpoint walk_backward {A} (fuel : nat) (n : Z) (before : option string) (l : list A) : list A :=
  match fuel with
  | O => []
  | S fuel =>
      match page None (Some n) None before l with
      | Ok c =>
          (if has_previous_page (page_info c)
           then walk_backward fuel n (Cursor.encode <$> start_cursor (page_info c)) l else []) ++ nodes c
      | _ => []
      end
  end.

Lemma points_to_encode total i : is_i32 total -> 0 <= i < total -> points_to (Cursor.encode i) total i.
Proof. intros Ht Hi. split; [|done]. apply decode_encode_cursor. unfold is_i32 in *. lia. Qed.

Lemma denotes_fun total v a a' : denotes total v a -> denotes total v a' -> a = a'.
Proof.
  destruct v as [v|], a as [a|], a' as [a'|]; try done.
  intros [E _] [E' _]. cbn in *. congruence.
Qed.

Lemma page_forward {A} (l : list A) n after a :
  is_i32 (Z.of_nat (length l)) -> 0 <= n -> denotes (Z.of_nat (length l)) after a ->
  exists c, page (Some n) None after None l = Ok c /\
    let rows := take (Z.to_nat (page_size (Some n))) (drop (Z.to_nat (next_pos a)) l) in
    nodes c = rows /\ page_info c = info_of (Z.of_nat (length l)) (next_pos a) (length rows) /\
    0 <= next_pos a <= Z.of_nat (length l).
Proof.
  intros Hl Hn Ha. unfold page. pose proof (forward_cases l (Some n) after Hl) as Hc. cbv zeta in Hc.
  destruct (Page.new _ _ _ _ _) as [p|e|]; cbn [mbind outcome_bind]; [|exfalso|done].
  - destruct Hc as (a' & Hden & _ & Hr & Hs & Ht & Ho & Hlim).
    rewrite (denotes_fun _ _ _ _ Hden Ha) in *. eexists. split; [done|]. cbv zeta.
    rewrite nodes_slice, connection_info, Hs, Ho by (done || lia). done.
  - apply Hc. exists a. split; [done|]. by intros m [= <-].
Qed.

Lemma page_backward {A} (l : list A) n before b :
  is_i32 (Z.of_nat (length l)) -> 0 <= n -> denotes (Z.of_nat (length l)) before b ->
  exists c, page None (Some n) None before l = Ok c /\
    let e := prev_pos (Z.of_nat (length l)) b in
    let rows := last_n (Z.to_nat (page_size (Some n))) (take (Z.to_nat e) l) in
    nodes c = rows /\
    page_info c = info_of (Z.of_nat (length l)) (Z.max 0 (e - page_size (Some n))) (length rows) /\
    0 <= e <= Z.of_nat (length l).
Proof.
  intros Hl Hn Hb. unfold page.
  pose proof (backward_cases l (Some n) before Hl ltac:(by left)) as Hc. cbv zeta in Hc.
  pose proof (page_size_range (Some n) ltac:(by intros ? [= <-])).
  destruct (Page.new _ _ _ _ _) as [p|e|]; cbn [mbind outcome_bind]; [|exfalso|done].
  - destruct Hc as (b' & Hden & _ & Hr & Hs & Ht & Ho & Hlim).
    rewrite (denotes_fun _ _ _ _ Hden Hb) in *. eexists. split; [done|]. cbv zeta.
    rewrite nodes_slice, connection_info, Hs, Ho by (done || lia). done.
  - apply Hc. exists b. split; [done|]. by intros m [= <-].
Qed.

Lemma walk_forward_from {A} (l : list A) n fuel after a :
  is_i32 (Z.of_nat (length l)) -> 0 < n -> denotes (Z.of_nat (length l)) after a ->
  (length l < fuel + Z.to_nat (next_pos a))%nat ->
  walk_forward fuel n after l = drop (Z.to_nat (next_pos a)) l.
Proof.
  intros Hl Hn. assert (Hsz : 0 < page_size (Some n)) by (unfold page_size; lia).
  revert after a. induction fuel as [|fuel IH]; intros after a Ha Hf.
  { cbn [walk_forward]. rewrite drop_ge by lia. done. }
  cbn [walk_forward]. destruct (page_forward l n after a Hl ltac:(lia) Ha) as (c & -> & -> & -> & Hr).
  set (o := Z.to_nat (next_pos a)) in *. set (k := Z.to_nat (page_size (Some n))) in *.
  assert (Hk : (0 < k)%nat) by lia. rewrite length_take, length_drop.
  destruct (k `min` (length l - o))%nat as [|m] eqn:Em; cbn [info_of has_next_page end_cursor].
  { rewrite (drop_ge l) by lia. by rewrite take_nil. }
  destruct (_ <? _) eqn:Elt.
  - apply Z.ltb_lt in Elt. cbn [fmap option_fmap option_map].
    rewrite (IH _ (Some (next_pos a + Z.of_nat m))).
    + cbn [next_pos]. replace (Z.to_nat (next_pos a + Z.of_nat m + 1)) with (o + k)%nat by lia.
      rewrite <- drop_drop. apply take_drop.
    + cbn. apply points_to_encode; [done|lia].
    + cbn [next_pos]. lia.
  - apply Z.ltb_ge in Elt. rewrite app_nil_r. apply take_ge. rewrite length_drop. lia.
Qed.

Lemma walk_backward_from {A} (l : list A) n fuel before b :
  is_i32 (Z.of_nat (length l)) -> 0 < n -> denotes (Z.of_nat (length l)) before b ->
  prev_pos (Z.of_nat (length l)) b < Z.of_nat fuel ->
  walk_backward fuel n before l = take (Z.to_nat (prev_pos (Z.of_nat (length l)) b)) l.
Proof.
  intros Hl Hn. assert (Hsz : 0 < page_size (Some n)) by (unfold page_size; lia).
  revert before b. induction fuel as [|fuel IH]; intros before b Hb Hf.
  { destruct (page_backward l n before b Hl ltac:(lia) Hb) as (c & _ & _ & _ & Hr). lia. }
  cbn [walk_backward]. destruct (page_backward l n before b Hl ltac:(lia) Hb) as (c & -> & -> & -> & Hr).
  set (e := prev_pos _ b) in *. set (k := page_size (Some n)) in *.
  unfold last_n. assert (Hlen : length (take (Z.to_nat e) l) = Z.to_nat e) by (rewrite length_take; lia).
  rewrite length_drop, Hlen.
  destruct (Z.to_nat e - (Z.to_nat e - Z.to_nat k))%nat as [|m] eqn:Em; cbn [info_of has_previous_page start_cursor].
  { replace (Z.to_nat e) with 0%nat by lia. done. }
  destruct (0 <? _) eqn:Elt.
  - apply Z.ltb_lt in Elt. cbn [fmap option_fmap option_map].
    rewrite (IH _ (Some (Z.max 0 (e - k)))).
    + cbn [prev_pos default]. replace (Z.to_nat (Z.max 0 (e - k))) with (Z.to_nat e - Z.to_nat k)%nat by lia.
      trans (take (Z.to_nat e - Z.to_nat k) (take (Z.to_nat e) l) ++
             drop (Z.to_nat e - Z.to_nat k) (take (Z.to_nat e) l)); [|apply take_drop].
      f_equal. rewrite take_take. f_equal. unfold id. lia.
    + cbn. apply points_to_encode; [done|lia].
    + cbn. lia.
  - apply Z.ltb_ge in Elt. replace (Z.to_nat e - Z.to_nat k)%nat with 0%nat by lia. by rewrite drop_0.
Qed.

(** Following the cursors enumerates the table: a client that asks for
    pages of [n > 0] rows after [end_cursor] while [has_next_page] receives
    every row once and in order, and so does one that goes backwards with
    [start_cursor] and [has_previous_page]; both stop after at most one page
    more than there are rows. *)
Theorem cursor_walks_complete {A} (l : list A) n fuel :
  is_i32 (Z.of_nat (length l)) -> 0 < n -> (length l < fuel)%nat ->
  walk_forward fuel n None l = l /\ walk_backward fuel n None l = l.
Proof.
  intros Hl Hn Hf. split.
  - by rewrite (walk_forward_from l n fuel None None) by (done || cbn; lia).
  - rewrite (walk_backward_from l n fuel None None) by (done || cbn; lia). cbn. apply take_ge. lia.
Qed.

(** A cursor is read back as the position it was made from, for every
    [i32], and [Cursor::decode] reports every other string as an error. *)
Theorem cursor_roundtrip z v :
  is_i32 z -> Cursor.decode (Cursor.encode z) = Ok z /\ is_panic (Cursor.decode v) = false.
Proof. intros Hz. split; [by apply decode_encode_cursor|apply decode_cursor_total]. Qed.
End PageTheorems.

(** ** Witnesses *)

Module PaginationWitness.
Import HexRef.

Definition rows : list Z := [10; 11; 12; 13; 14].

Lemma pagination_is_relay_witness :
  match page (Some 2) None (Some (Cursor.encode 0)) None rows with
  | Ok c => nodes c = [11; 12]
  | _ => False
  end.
Proof.
  pose proof (pagination_is_relay (Some 2) None (Some (Cursor.encode 0)) None rows
    ltac:(unfold is_i32; cbn; lia)) as Hc.
  destruct (page _ _ _ _ rows) as [c|e|]; [|..|done].
  - destruct Hc as (_ & a & b & [_ _ _ Ha Hb] & ->). destruct a as [a|]; [|done]. destruct b; [done|].
    destruct Ha as [Ha _]. rewrite (decode_encode_cursor 0 ltac:(unfold is_i32; lia)) in Ha.
    injection Ha as <-. reflexivity.
  - apply Hc. exists (Some 0), None. split; [by right|by intros ? [= <-]|done| |done].
    split; [apply decode_encode_cursor; unfold is_i32; lia|cbn; lia].
Defined.

Lemma cursor_walks_complete_witness :
  walk_forward 6 2 None rows = rows /\ walk_backward 6 2 None rows = rows.
Proof. apply (cursor_walks_complete rows 2 6); [unfold is_i32; cbn; lia|lia|cbn; lia]. Defined.

Lemma cursor_roundtrip_witness :
  Cursor.decode (Cursor.encode (-2147483648)) = Ok (-2147483648) /\
  is_panic (Cursor.decode "invalid") = false.
Proof. apply (cursor_roundtrip (-2147483648) "invalid"). unfold is_i32. lia. Defined.
End PaginationWitness.
