(* ===== verification/Repository.v ===== *)
(** * The database of the node

    [offchain/data/src]: [types.rs] (rows and enumerations), [schema.rs] and
    the migrations (primary and foreign keys), [config.rs] and [repository.rs]
    (the queries of the indexer and of the GraphQL server). Diesel, the
    connection pool and PostgreSQL are a parameter: what the queries rely on of
    the server is stated in the laws [PostgresLaws]. *)

From S2P Require Import Prelude Codecs Retry Pagination.
Import StdText DataError.

(** ** Rows *)

Module Data.
Inductive CompletionStatus :=
| Unprocessed | Accepted | Rejected | Exception | MachineHalted
| CycleLimitExceeded | TimeLimitExceeded | PayloadLengthLimitExceeded.

#[export] Instance CompletionStatus_eq_dec : EqDecision CompletionStatus.
Proof. solve_decision. Defined.

(** [ToSql::to_sql], the bytes written *)
Definition CompletionStatus_to_sql (self : CompletionStatus) : string :=
  match self with
  | Unprocessed => "Unprocessed"
  | Accepted => "Accepted"
  | Rejected => "Rejected"
  | Exception => "Exception"
  | MachineHalted => "MachineHalted"
  | CycleLimitExceeded => "CycleLimitExceeded"
  | TimeLimitExceeded => "TimeLimitExceeded"
  | PayloadLengthLimitExceeded => "PayloadLengthLimitExceeded"
  end.

Inductive FromSqlError := unrecognized_enum_variant.

(** [FromSql::from_sql] *)
Definition CompletionStatus_from_sql (bytes : string) : outcome FromSqlError CompletionStatus :=
  if String.eqb bytes "Unprocessed" then Ok Unprocessed
  else if String.eqb bytes "Accepted" then Ok Accepted
  else if String.eqb bytes "Rejected" then Ok Rejected
  else if String.eqb bytes "Exception" then Ok Exception
  else if String.eqb bytes "MachineHalted" then Ok MachineHalted
  else if String.eqb bytes "CycleLimitExceeded" then Ok CycleLimitExceeded
  else if String.eqb bytes "TimeLimitExceeded" then Ok TimeLimitExceeded
  else if String.eqb bytes "PayloadLengthLimitExceeded" then Ok PayloadLengthLimitExceeded
  else Err unrecognized_enum_variant.

Inductive OutputEnum := OutputVoucher | OutputNotice.

#[export] Instance OutputEnum_eq_dec : EqDecision OutputEnum.
Proof. solve_decision. Defined.

Definition OutputEnum_to_sql (self : OutputEnum) : string :=
  match self with OutputVoucher => "voucher" | OutputNotice => "notice" end.

Definition OutputEnum_from_sql (bytes : string) : outcome FromSqlError OutputEnum :=
  if String.eqb bytes "voucher" then Ok OutputVoucher
  else if String.eqb bytes "notice" then Ok OutputNotice
  else Err unrecognized_enum_variant.

(** The value of the timestamp, a [SystemTime], is its distance in seconds from
    [UNIX_EPOCH]. *)
Record Input := mkInput {
  in_index : Z;
  in_msg_sender : list byte;
  in_tx_hash : list byte;
  in_block_number : Z;
  in_timestamp : Z;
  in_payload : list byte;
  in_status : CompletionStatus;
}.

Record Notice := mkNotice {
  no_input_index : Z;
  no_index : Z;
  no_payload : list byte;
}.

Record Voucher := mkVoucher {
  vo_input_index : Z;
  vo_index : Z;
  vo_destination : list byte;
  vo_payload : list byte;
}.

Record Report := mkReport {
  re_input_index : Z;
  re_index : Z;
  re_payload : list byte;
}.

Record Proof_ := mkProof {
  pr_input_index : Z;
  pr_output_index : Z;
  pr_output_enum : OutputEnum;
  validity_input_index_within_epoch : Z;
  validity_output_index_within_input : Z;
  validity_output_hashes_root_hash : list byte;
  validity_vouchers_epoch_root_hash : list byte;
  validity_notices_epoch_root_hash : list byte;
  validity_machine_state_hash : list byte;
  validity_output_hash_in_output_hashes_siblings : list (option (list byte));
  validity_output_hashes_in_epoch_siblings : list (option (list byte));
  pr_context : list byte;
}.

Record InputQueryFilter := mkInputQueryFilter {
  index_greater_than : option Z;
  index_lower_than : option Z;
}.

(** [VoucherQueryFilter], [NoticeQueryFilter] and [ReportQueryFilter] *)
Record OutputQueryFilter := mkOutputQueryFilter {
  filter_input_index : option Z;
}.

Definition set_status (status : CompletionStatus) (r : Input) : Input :=
  mkInput (in_index r) (in_msg_sender r) (in_tx_hash r) (in_block_number r) (in_timestamp r)
    (in_payload r) status.
End Data.
Import Data.

Lemma CompletionStatus_sql_roundtrip s : CompletionStatus_from_sql (CompletionStatus_to_sql s) = Ok s.
Proof. by destruct s. Qed.

Lemma OutputEnum_sql_roundtrip e : OutputEnum_from_sql (OutputEnum_to_sql e) = Ok e.
Proof. by destruct e. Qed.

(** ** Tables

    The tables of the schema; a primary key is the list of its columns, where
    an enumeration counts in the order of its declaration. *)

Module Schema.
Inductive table : Type -> Type :=
| inputs : table Input
| vouchers : table Voucher
| notices : table Notice
| reports : table Report
| proofs : table Proof_.

Definition OutputEnum_ordinal (e : OutputEnum) : Z :=
  match e with OutputVoucher => 0 | OutputNotice => 1 end.

Definition primary_key {Row} (t : table Row) : Row -> list Z :=
  match t with
  | inputs => fun r => [in_index r]
  | vouchers => fun r => [vo_input_index r; vo_index r]
  | notices => fun r => [no_input_index r; no_index r]
  | reports => fun r => [re_input_index r; re_index r]
  | proofs => fun r => [pr_input_index r; pr_output_index r; OutputEnum_ordinal (pr_output_enum r)]
  end.

(** The key of [inputs] that a foreign key constraint makes a row refer to. *)
Definition references {Row} (t : table Row) : Row -> option (list Z) :=
  match t with
  | inputs => fun _ => None
  | vouchers => fun r => Some [vo_input_index r]
  | notices => fun r => Some [no_input_index r]
  | reports => fun r => Some [re_input_index r]
  | proofs => fun _ => None
  end.

Record Tables := mkTables {
  t_inputs : gmap (list Z) Input;
  t_vouchers : gmap (list Z) Voucher;
  t_notices : gmap (list Z) Notice;
  t_reports : gmap (list Z) Report;
  t_proofs : gmap (list Z) Proof_;
}.

(** After the migrations of a new database. *)
Definition empty_tables : Tables := mkTables ∅ ∅ ∅ ∅ ∅.

Definition get_table {Row} (t : table Row) : Tables -> gmap (list Z) Row :=
  match t with
  | inputs => t_inputs
  | vouchers => t_vouchers
  | notices => t_notices
  | reports => t_reports
  | proofs => t_proofs
  end.

Definition set_table {Row} (t : table Row) : gmap (list Z) Row -> Tables -> Tables :=
  match t with
  | inputs => fun m db => mkTables m (t_vouchers db) (t_notices db) (t_reports db) (t_proofs db)
  | vouchers => fun m db => mkTables (t_inputs db) m (t_notices db) (t_reports db) (t_proofs db)
  | notices => fun m db => mkTables (t_inputs db) (t_vouchers db) m (t_reports db) (t_proofs db)
  | reports => fun m db => mkTables (t_inputs db) (t_vouchers db) (t_notices db) m (t_proofs db)
  | proofs => fun m db => mkTables (t_inputs db) (t_vouchers db) (t_notices db) (t_reports db) m
  end.
End Schema.
Import Schema.

(** ** Statements and queries

    What Diesel's query builder is asked for, and what SQL prescribes. *)

Inductive statement : Type :=
| InsertOnConflictDoNothing {Row} (t : table Row) (row : Row)
| UpdateInputStatus (index : Z) (status : CompletionStatus).

(** An insertion that meets a row with its primary key does nothing; otherwise
    the foreign key is checked. *)
Definition insert_row {Row} (t : table Row) (row : Row) (db : Tables) : outcome DieselError Tables :=
  let key := primary_key t row in
  match get_table t db !! key with
  | Some _ => Ok db
  | None =>
      match references t row with
      | Some fk =>
          ensure (bool_decide (is_Some (t_inputs db !! fk))) ForeignKeyViolation ;;
          Ok (set_table t (<[key := row]> (get_table t db)) db)
      | None => Ok (set_table t (<[key := row]> (get_table t db)) db)
      end
  end.

Definition update_status (index : Z) (status : CompletionStatus) (db : Tables) : Tables :=
  set_table inputs (alter (set_status status) [index] (t_inputs db)) db.

Definition perform (st : statement) (db : Tables) : outcome DieselError Tables :=
  match st with
  | InsertOnConflictDoNothing t row => insert_row t row db
  | UpdateInputStatus index status => Ok (update_status index status db)
  end.

(** Lexicographic order of the keys. *)
Fixpoint key_le (a b : list Z) : bool :=
  match a, b with
  | [], _ => true
  | _ :: _, [] => false
  | x :: a, y :: b => (x <? y) || ((x =? y) && key_le a b)
  end.

#[export] Instance key_le_dec {V} : RelDecision (fun x y : list Z * V => key_le x.1 y.1 = true) :=
  fun x y => bool_eq_dec _ _.

(** The rows of a table in the order of its primary key. *)
Definition rows {Row} (t : table Row) (db : Tables) : list Row :=
  snd <$> merge_sort (fun x y : list Z * Row => key_le x.1 y.1 = true) (map_to_list (get_table t db)).

(** The rows that pass a filter. *)
Definition select {Row} (t : table Row) (p : Row -> bool) (db : Tables) : list Row :=
  filter (fun r => p r = true) (rows t db).

Record query (Row : Type) := mkQuery {
  q_table : table Row;
  q_filter : Row -> bool;
  q_window : option (Z * Z);   (** [LIMIT] and [OFFSET] of an ordered query *)
}.
Arguments mkQuery {Row} q_table q_filter q_window.
Arguments q_table {Row} _.
Arguments q_filter {Row} _.
Arguments q_window {Row} _.

(** Without [ORDER BY] the order of the rows is not determined. *)
Definition answers {Row} (q : query Row) (db : Tables) (result : list Row) : Prop :=
  match q_window q with
  | Some (limit, offset) =>
      result = take (Z.to_nat limit) (drop (Z.to_nat offset) (select (q_table q) (q_filter q) db))
  | None => result ≡ₚ select (q_table q) (q_filter q) db
  end.

(** The connection pool and the server. *)
Class Postgres (D : Type) : Type := {
  pool_build (max_size : Z) (endpoint : string) : M D PoolError unit;
  pool_get : M D PoolError unit;
  execute : statement -> M D DieselError unit;
  load : forall Row, query Row -> M D DieselError (list Row);
  get_count : forall Row, query Row -> M D DieselError Z;
}.
Arguments load {D _} {Row} _.
Arguments get_count {D _} {Row} _.

(** [tables d] are the committed rows, and [others] what other clients may do
    to them meanwhile. A connection that breaks may leave a statement done. *)
Class PostgresLaws (D : Type) `{Postgres D} (tables : D -> Tables)
    (others : Tables -> Tables -> Prop) : Prop := {
  others_preorder : PreOrder others;
  pool_build_spec d n e :
    wp (pool_build n e) d (fun _ d' => others (tables d) (tables d'))
      (fun _ d' => others (tables d) (tables d'));
  pool_get_spec d :
    wp pool_get d (fun _ d' => others (tables d) (tables d'))
      (fun _ d' => others (tables d) (tables d'));
  execute_spec d st :
    wp (execute st) d
      (fun _ d' => exists db, others (tables d) db /\ perform st db = Ok (tables d'))
      (fun e d' => exists db, others (tables d) db /\
         ((perform st db = Err e /\ tables d' = db) \/
          (e <> ForeignKeyViolation /\ (tables d' = db \/ perform st db = Ok (tables d')))));
  load_spec d Row (q : query Row) :
    wp (load q) d
      (fun result d' => others (tables d) (tables d') /\ answers q (tables d') result)
      (fun e d' => others (tables d) (tables d') /\ e <> ForeignKeyViolation);
  get_count_spec d Row (q : query Row) :
    wp (get_count q) d
      (fun n d' => others (tables d) (tables d') /\
         n = Z.of_nat (length (select (q_table q) (q_filter q) (tables d'))))
      (fun e d' => others (tables d) (tables d') /\ e <> ForeignKeyViolation);
}.

(** ** [Repository] *)

(** [config.rs]; a [RedactedUrl] is its URL. *)
Record RepositoryConfig := mkRepositoryConfig {
  redacted_endpoint : option string;
  connection_pool_size : Z;
  backoff_max_elapsed_time : Z;
}.

Record RepositoryCLIConfig := mkRepositoryCLIConfig {
  postgres_endpoint : option string;
  postgres_connection_pool_size : Z;
  postgres_backoff_max_elapsed_duration : Z;
}.

Module Repository.
Definition POOL_CONNECTION_SIZE : Z := 3.

Definition endpoint (self : RepositoryConfig) : string :=
  match redacted_endpoint self with
  | None => ""
  | Some endpoint => endpoint
  end.

(** [url_parse] is [Url::parse] followed by [to_string]. *)
Definition config_from (url_parse : string -> outcome string string)
    (cli_config : RepositoryCLIConfig) : outcome Error RepositoryConfig :=
  redacted_endpoint ← match postgres_endpoint cli_config with
                      | None => Ok None
                      | Some endpoint =>
                          if String.eqb endpoint "" then Ok None
                          else (url ← expect (url_parse endpoint); Ok (Some url))
                      end;
  Ok (mkRepositoryConfig redacted_endpoint (postgres_connection_pool_size cli_config)
        (postgres_backoff_max_elapsed_duration cli_config)).

Section Ops.
Context {D : Type} `{Postgres D, Retry}.

Definition new (config : RepositoryConfig) : M D Error unit :=
  context DatabaseConnectionError (retry (context Transient
    (pool_build POOL_CONNECTION_SIZE (endpoint config)))).

Definition conn : M D Error unit :=
  context DatabaseConnectionError (retry (context Transient pool_get)).

(** [iter.load(&mut conn).context(DatabaseSnafu)?.pop().ok_or(ItemNotFound)] *)
Definition pop_or_not_found {Row} (item_type : string) (found : list Row) : outcome Error Row :=
  ok_or (last found) (ItemNotFound item_type).

Definition get_input (index : Z) : M D Error Input :=
  conn ;;
  found ← context DatabaseError (load (mkQuery inputs (fun r => in_index r =? index) None));
  lift (pop_or_not_found "input" found).

Definition get_voucher (index input_index : Z) : M D Error Voucher :=
  conn ;;
  found ← context DatabaseError (load (mkQuery vouchers
    (fun r => (vo_index r =? index) && (vo_input_index r =? input_index)) None));
  lift (pop_or_not_found "voucher" found).

Definition get_notice (index input_index : Z) : M D Error Notice :=
  conn ;;
  found ← context DatabaseError (load (mkQuery notices
    (fun r => (no_index r =? index) && (no_input_index r =? input_index)) None));
  lift (pop_or_not_found "notice" found).

Definition get_report (index input_index : Z) : M D Error Report :=
  conn ;;
  found ← context DatabaseError (load (mkQuery reports
    (fun r => (re_index r =? index) && (re_input_index r =? input_index)) None));
  lift (pop_or_not_found "report" found).

Definition get_proof (input_index output_index : Z) (output_enum : OutputEnum) : M D Error (option Proof_) :=
  conn ;;
  found ← context DatabaseError (load (mkQuery proofs
    (fun r => (pr_input_index r =? input_index) && (pr_output_index r =? output_index) &&
              bool_decide (pr_output_enum r = output_enum)) None));
  mret (last found).

Definition insert_input (input : Input) : M D Error unit :=
  conn ;; context DatabaseError (execute (InsertOnConflictDoNothing inputs input)).

Definition insert_notice (notice : Notice) : M D Error unit :=
  conn ;; context DatabaseError (execute (InsertOnConflictDoNothing notices notice)).

Definition insert_voucher (voucher : Voucher) : M D Error unit :=
  conn ;; context DatabaseError (execute (InsertOnConflictDoNothing vouchers voucher)).

Definition insert_report (report : Report) : M D Error unit :=
  conn ;; context DatabaseError (execute (InsertOnConflictDoNothing reports report)).

Definition insert_proof (proof : Proof_) : M D Error unit :=
  conn ;; context DatabaseError (execute (InsertOnConflictDoNothing proofs proof)).

Definition update_input_status (input_index : Z) (status : CompletionStatus) : M D Error unit :=
  conn ;; context DatabaseError (execute (UpdateInputStatus input_index status)).

(** [InputQueryFilter::to_query] and [impl_output_filter_to_query!] *)
Definition input_to_query (self : InputQueryFilter) (r : Input) : bool :=
  match index_greater_than self with Some other => other <? in_index r | None => true end &&
  match index_lower_than self with Some other => in_index r <? other | None => true end.

Definition output_to_query {Row} (input_index : Row -> Z) (self : OutputQueryFilter) (r : Row) : bool :=
  match filter_input_index self with Some other => input_index r =? other | None => true end.

(** [impl_paginated_query!] *)
Definition paginated_query {Row} (t : table Row) (filter : Row -> bool)
    (first last : option Z) (after before : option string) `{Base64Crate} : M D Error (Connection Row) :=
  conn ;;
  count ← context DatabaseError (get_count (mkQuery t filter None));
  pagination ← lift (Page.new first last after before (swrap 32 count));
  nodes ← (if 0 <? limit pagination
           then context DatabaseError
                  (load (mkQuery t filter (Some (limit pagination, offset pagination))))
           else mret []);
  mret (Page.create_connection pagination nodes).

Context `{Base64Crate}.

Definition get_inputs first last after before (filter : InputQueryFilter) : M D Error (Connection Input) :=
  paginated_query inputs (input_to_query filter) first last after before.
Definition get_vouchers first last after before (filter : OutputQueryFilter) : M D Error (Connection Voucher) :=
  paginated_query vouchers (output_to_query vo_input_index filter) first last after before.
Definition get_notices first last after before (filter : OutputQueryFilter) : M D Error (Connection Notice) :=
  paginated_query notices (output_to_query no_input_index filter) first last after before.
Definition get_reports first last after before (filter : OutputQueryFilter) : M D Error (Connection Report) :=
  paginated_query reports (output_to_query re_input_index filter) first last after before.
End Ops.
End Repository.

(** ** Integrity of the tables *)

(** Rows are stored under their primary keys, and foreign keys are met. *)
Record tables_ok (db : Tables) : Prop := {
  keyed : forall Row (t : table Row) k r, get_table t db !! k = Some r -> primary_key t r = k;
  linked : forall Row (t : table Row) k r fk,
    get_table t db !! k = Some r -> references t r = Some fk -> is_Some (t_inputs db !! fk);
}.

Lemma empty_tables_ok : tables_ok empty_tables.
Proof. split; intros Row t k r; destruct t; cbn; by rewrite lookup_empty. Qed.

(** What an insertion leaves in a table: its row, or what was there before. *)
Lemma insert_row_lookup {Row Row'} (t : table Row) (t' : table Row') row db db' k r :
  insert_row t row db = Ok db' -> get_table t' db' !! k = Some r ->
  get_table t' db !! k = Some r \/
  (primary_key t' r = k /\ forall fk, references t' r = Some fk -> is_Some (t_inputs db !! fk)).
Proof.
  unfold insert_row. destruct (get_table t db !! _) eqn:Ek; [by intros [= <-]; left|].
  destruct (references t row) as [fk|] eqn:Er.
  - unfold ensure. destruct (bool_decide _) eqn:Efk; [|done]. apply bool_decide_eq_true in Efk.
    intros [= <-]. destruct t, t'; cbn in *; auto; rewrite lookup_insert_Some;
      intros [[<- <-]|[_ ?]]; auto; right; (split; [done|]); intros ? [= <-]; by simplify_eq.
  - intros [= <-]. destruct t, t'; cbn in *; auto; try done; rewrite lookup_insert_Some;
      intros [[<- <-]|[_ ?]]; auto; right; done.
Qed.

Lemma insert_row_inputs {Row} (t : table Row) row db db' k :
  insert_row t row db = Ok db' -> is_Some (t_inputs db !! k) -> t_inputs db' !! k = t_inputs db !! k.
Proof.
  unfold insert_row. destruct (get_table t db !! _) eqn:Ek; [by intros [= <-]|].
  intros Hi Hk. assert (Hdb : db' = set_table t (<[primary_key t row := row]> (get_table t db)) db).
  { destruct (references t row); [|congruence]. destruct (ensure _ _); [|done|done]. cbn in Hi. congruence. }
  subst db'. destruct t; cbn in *; try done. rewrite lookup_insert_ne; [done|].
  intros <-. rewrite Ek in Hk. by destruct Hk.
Qed.

Lemma perform_ok st db db' : tables_ok db -> perform st db = Ok db' -> tables_ok db'.
Proof.
  intros [Hk Hl]. destruct st as [Row t row|index status]; cbn [perform].
  - intros Hi. split.
    + intros Row' t' k r Hr. destruct (insert_row_lookup t t' row db db' k r Hi Hr) as [?|[? _]]; eauto.
    + intros Row' t' k r fk Hr Hfk.
      assert (is_Some (t_inputs db !! fk)) as Hs.
      { destruct (insert_row_lookup t t' row db db' k r Hi Hr) as [?|[_ ?]]; eauto. }
      by rewrite (insert_row_inputs t row db db' fk Hi Hs).
  - intros [= <-]. split.
    + intros Row' t' k r Hr. destruct t'; cbn in *; try (by eapply (Hk _ vouchers)); try (by eapply (Hk _ notices));
        try (by eapply (Hk _ reports)); try (by eapply (Hk _ proofs)).
      destruct (decide ([index] = k)) as [<-|Hne].
      * rewrite lookup_alter_eq in Hr. destruct (t_inputs db !! [index]) as [r0|] eqn:E0; simplify_eq/=.
        exact (Hk _ inputs _ _ E0).
      * rewrite lookup_alter_ne in Hr by done. exact (Hk _ inputs _ _ Hr).
    + intros Row' t' k r fk Hr Hfk. cbn.
      assert (is_Some (t_inputs db !! fk)) as Hs.
      { destruct t'; cbn in Hr; [done|by eapply (Hl _ vouchers)|by eapply (Hl _ notices)|by eapply (Hl _ reports)|done]. }
      destruct (decide ([index] = fk)) as [<-|Hne]; [|by rewrite lookup_alter_ne].
      rewrite lookup_alter_eq. destruct Hs as [? ->]. by eexists.
Qed.

(** ** Rows and keys *)

Lemma filter_snd {A B} (P : B -> Prop) `{forall x, Decision (P x)} (l : list (A * B)) :
  filter P (snd <$> l) = snd <$> filter (fun x => P x.2) l.
Proof.
  induction l as [|[a b] l IH]; [done|].
  rewrite fmap_cons, !filter_cons. cbn [snd]. destruct (decide (P b)); cbn; by rewrite IH.
Qed.

Lemma NoDup_all_eq {A} (l : list A) a : NoDup l -> (forall x, x ∈ l -> x = a) -> a ∈ l -> l = [a].
Proof.
  intros Hnd Hall Ha. destruct l as [|x [|y l]]; [by apply elem_of_nil in Ha| |].
  - rewrite (Hall x) by left. done.
  - exfalso. apply NoDup_cons in Hnd as [Hx _]. apply Hx.
    rewrite (Hall x) by left. rewrite (Hall y) by (right; left). left.
Qed.

Lemma rows_perm {Row} (t : table Row) db : rows t db ≡ₚ snd <$> map_to_list (get_table t db).
Proof. unfold rows. by rewrite merge_sort_Permutation. Qed.

(** The filter on the columns of the primary key selects the row of that key. *)
Lemma select_key {Row} (t : table Row) (p : Row -> bool) k db :
  tables_ok db -> (forall r, p r = true <-> primary_key t r = k) ->
  select t p db ≡ₚ option_list (get_table t db !! k).
Proof.
  intros [Hk _] Hp. unfold select. rewrite rows_perm, filter_snd.
  set (l := map_to_list (get_table t db)).
  assert (Hin : forall x, x ∈ filter (fun x => p x.2 = true) l <->
    x.1 = k /\ get_table t db !! k = Some x.2).
  { intros [k' r]. rewrite list_elem_of_filter. unfold l. rewrite elem_of_map_to_list. cbn.
    rewrite Hp. split.
    - intros [Hkey Hr]. rewrite (Hk _ t k' r Hr) in Hkey. by subst k'.
    - intros [-> Hr]. split; [by apply (Hk _ t)|done]. }
  assert (Hnd : NoDup (filter (fun x => p x.2 = true) l)) by apply NoDup_filter, NoDup_map_to_list.
  destruct (get_table t db !! k) as [row|].
  - rewrite (NoDup_all_eq _ (k, row)); [done|done| |].
    + intros [k' r] [Hk' Hr]%Hin. cbn in *. congruence.
    + by apply Hin.
  - assert (filter (fun x => p x.2 = true) l = []) as ->; [|done].
    apply elem_of_nil_inv. intros x [_ Hx]%Hin. done.
Qed.

Lemma last_perm_option {A} (l : list A) (o : option A) : l ≡ₚ option_list o -> last l = o.
Proof.
  destruct o as [x|]; cbn.
  - by intros ->%Permutation_singleton_r.
  - by intros ->%Permutation_nil_r.
Qed.

(** After an insertion that succeeds the row of the key is the first that was
    ever inserted under it. *)
Lemma insert_row_key {Row} (t : table Row) row db db' :
  insert_row t row db = Ok db' ->
  get_table t db' !! primary_key t row = Some (default row (get_table t db !! primary_key t row)).
Proof.
  unfold insert_row. destruct (get_table t db !! _) eqn:Ek; [by intros [= <-]|].
  intros Hi. assert (Hdb : db' = set_table t (<[primary_key t row := row]> (get_table t db)) db).
  { destruct (references t row); [|congruence]. destruct (ensure _ _); [|done|done]. cbn in Hi. congruence. }
  subst db'. destruct t; cbn; by rewrite lookup_insert_eq.
Qed.

(** ** Properties of the repository *)

Section RepositoryTheorems.
Context {D : Type} `{PL : PostgresLaws D tables others} `{RT : RetryLaws}.
Import Repository.

(** Errors that come from the pool or from the connection to the server. *)
Definition unavailable (e : Error) : Prop :=
  match e with
  | DatabaseConnectionError _ => True
  | DatabaseError ForeignKeyViolation => False
  | DatabaseError (OtherDatabaseError _) => True
  | _ => False
  end.

Lemma wp_conn d Q R :
  (forall d', others (tables d) (tables d') -> Q tt d') ->
  (forall x d', others (tables d) (tables d') -> R (DatabaseConnectionError x) d') ->
  wp conn d Q R.
Proof.
  pose proof others_preorder. intros HQ HR. unfold conn. wp_run.
  apply (wp_retry (fun d' => others (tables d) (tables d'))); [done|].
  intros d1 Hd1. wp_run. eapply wp_mono; [apply (pool_get_spec d1)| |].
  - intros [] d' Hd'. apply HQ. by etrans.
  - intros e d' Hd'. cbn. split; [by etrans|]. apply HR. by etrans.
Qed.

(** A statement that fails may have been done. *)
Definition maybe_done (d : D) (st : statement) (d' : D) : Prop :=
  exists db, others (tables d) db /\ (tables d' = db \/ perform st db = Ok (tables d')).

Lemma wp_execute d st Q R :
  (forall db d', others (tables d) db -> perform st db = Ok (tables d') -> Q tt d') ->
  (forall e d', maybe_done d st d' -> (unavailable e \/
     exists db, others (tables d) db /\ perform st db = Err ForeignKeyViolation /\ e = DatabaseError ForeignKeyViolation) ->
     R e d') ->
  wp (conn ;; context DatabaseError (execute st)) d Q R.
Proof.
  pose proof others_preorder. intros HQ HR. wp_run. apply wp_conn.
  - intros d1 Hd1. wp_run. eapply wp_mono; [apply (execute_spec d1 st)| |].
    + intros [] d' (db & Hdb & Hp). eapply HQ; [|done]. by etrans.
    + intros e d' (db & Hdb & Hc). apply HR; [exists db; split; [by etrans|by destruct Hc as [[_ ?]|[_ ?]]; auto]|].
      destruct e as [|detail]; [|by left].
      destruct Hc as [[Hp _]|[Hne _]]; [|done]. right. exists db. split; [by etrans|done].
  - intros x d' Hd'. apply HR; [|by left]. exists (tables d'). auto.
Qed.

Lemma wp_load {Row} d (q : query Row) Q R :
  (forall rows d', others (tables d) (tables d') -> answers q (tables d') rows -> Q rows d') ->
  (forall e d', unavailable (DatabaseError e) -> others (tables d) (tables d') -> R e d') ->
  wp (load q) d Q R.
Proof.
  intros HQ HR. eapply wp_mono; [apply (load_spec d Row q)| |].
  - intros rows d' [? ?]. eauto.
  - intros e d' [? Hne]. apply HR; [|done]. by destruct e.
Qed.

(** What the reads of the rows of one key return. *)
Lemma wp_lookup {Row} d (t : table Row) p k (A : Type) (f : list Row -> outcome Error A) Q R :
  (forall r, p r = true <-> primary_key t r = k) ->
  (forall db, others (tables d) db -> tables_ok db) ->
  (forall d' found, others (tables d) (tables d') -> last found = get_table t (tables d') !! k ->
     match f found with Ok a => Q a d' | Err e => R e d' | Panic => False end) ->
  (forall e d', unavailable e -> R e d') ->
  wp (conn ;; found ← context DatabaseError (load (mkQuery t p None)); lift (f found)) d Q R.
Proof.
  pose proof others_preorder. intros Hp Hok HQ HR. wp_run. apply wp_conn; [|intros; by apply HR].
  intros d1 Hd1. wp_run. apply wp_load; [|intros; by apply HR].
  intros found d' Hd' Ha. wp_run. apply HQ; [by etrans|]. apply last_perm_option.
  unfold answers in Ha. cbn in Ha. rewrite Ha. apply select_key; [apply Hok; by etrans|done].
Qed.

(** The other clients keep the tables in order and do not delete or change the
    rows of [t]. *)
Definition keeps {Row} (t : table Row) : Prop :=
  forall db db', others db db' -> (tables_ok db -> tables_ok db') /\
    forall k r, get_table t db !! k = Some r -> get_table t db' !! k = Some r.

(** The row read back is the first that was inserted under the key. *)
Definition first_row {Row} (t : table Row) (row : Row) (d : D) (r : Row) : Prop :=
  exists db, others (tables d) db /\ r = default row (get_table t db !! primary_key t row).

(** The only error that is not a failure of the pool or of the connection is
    that of a missing input. *)
Definition no_input {Row} (t : table Row) (row : Row) (d : D) (e : Error) : Prop :=
  unavailable e \/ (e = DatabaseError ForeignKeyViolation /\
    exists db fk, others (tables d) db /\ references t row = Some fk /\ t_inputs db !! fk = None).

Lemma insert_row_err {Row} (t : table Row) row db e :
  insert_row t row db = Err e -> exists fk, references t row = Some fk /\ t_inputs db !! fk = None.
Proof.
  unfold insert_row. destruct (get_table t db !! _); [done|]. destruct (references t row) as [fk|]; [|done].
  unfold ensure. destruct (bool_decide _) eqn:E; [done|]. intros _. exists fk. split; [done|].
  apply bool_decide_eq_false in E. by apply eq_None_not_Some.
Qed.

Lemma wp_insert_then {Row A} (t : table Row) row d (k : M D Error A) Q R :
  (forall d1 db, others (tables d) db -> insert_row t row db = Ok (tables d1) -> wp k d1 Q R) ->
  (forall e d', no_input t row d e -> R e d') ->
  wp ((conn ;; context DatabaseError (execute (InsertOnConflictDoNothing t row))) ;; k) d Q R.
Proof.
  intros Hk HR. rewrite wp_bind. apply wp_execute.
  - intros db d' Hdb Hp. by eapply Hk.
  - intros e d' _ [He|(db & Hdb & Hp & ->)]; apply HR; [by left|]. right. split; [done|].
    apply insert_row_err in Hp as (fk & ? & ?). eauto 10.
Qed.

Lemma insert_lookup {Row A} (t : table Row) p row d (f : list Row -> outcome Error A) (g : Row -> A) :
  keeps t -> tables_ok (tables d) ->
  (forall r, p r = true <-> primary_key t r = primary_key t row) ->
  (forall l r, last l = Some r -> f l = Ok (g r)) ->
  wp ((conn ;; context DatabaseError (execute (InsertOnConflictDoNothing t row))) ;;
      conn ;; found ← context DatabaseError (load (mkQuery t p None)); lift (f found)) d
    (fun a _ => exists r, a = g r /\ first_row t row d r) (fun e _ => no_input t row d e).
Proof.
  intros Hkeep Hok Hp Hf. apply wp_insert_then; [|done]. intros d1 db Hdb Hi.
  assert (Hok1 : tables_ok (tables d1)).
  { eapply (perform_ok (InsertOnConflictDoNothing t row)); [|exact Hi]. by apply (Hkeep (tables d)). }
  apply (wp_lookup d1 t p (primary_key t row)); [done| | |intros; by left].
  - intros db' Hdb'. by apply (Hkeep (tables d1)).
  - intros d' found Hd' Hlast. apply insert_row_key in Hi.
    apply (proj2 (Hkeep _ _ Hd')) in Hi. rewrite Hi in Hlast. rewrite (Hf _ _ Hlast).
    eexists. split; [done|]. by exists db.
Qed.

Lemma pair_key (a b x y : Z) : (a =? x) && (b =? y) = true <-> [b; a] = [y; x].
Proof. rewrite andb_true_iff, !Z.eqb_eq. split; [by intros [-> ->]|by intros [= -> ->]]. Qed.

(** What an insertion stores is what the lookup by key returns: after
    [insert_voucher], [get_voucher] with the indices of the voucher returns the
    row that was first inserted under that key (the voucher itself unless it
    was a repetition), and the same holds of notices, reports and proofs. The
    insertion fails, apart from a lost connection, only when the input that
    the row refers to is not in the database. *)
Theorem insert_get_roundtrip d :
  keeps vouchers -> keeps notices -> keeps reports -> keeps proofs -> tables_ok (tables d) ->
  (forall v, wp (insert_voucher v ;; get_voucher (vo_index v) (vo_input_index v)) d
     (fun r _ => first_row vouchers v d r) (fun e _ => no_input vouchers v d e)) /\
  (forall n, wp (insert_notice n ;; get_notice (no_index n) (no_input_index n)) d
     (fun r _ => first_row notices n d r) (fun e _ => no_input notices n d e)) /\
  (forall r0, wp (insert_report r0 ;; get_report (re_index r0) (re_input_index r0)) d
     (fun r _ => first_row reports r0 d r) (fun e _ => no_input reports r0 d e)) /\
  (forall p, wp (insert_proof p ;; get_proof (pr_input_index p) (pr_output_index p) (pr_output_enum p)) d
     (fun r _ => exists p', r = Some p' /\ first_row proofs p d p') (fun e _ => no_input proofs p d e)).
Proof.
  intros Hv Hn Hr Hp Hok. repeat split.
  - intros v. eapply wp_mono; [apply (insert_lookup vouchers _ v d _ id)|by intros ? ? (? & -> & ?)|done]; try done.
    + intros r. apply pair_key.
    + intros l r. unfold pop_or_not_found. by intros ->.
  - intros v. eapply wp_mono; [apply (insert_lookup notices _ v d _ id)|by intros ? ? (? & -> & ?)|done]; try done.
    + intros r. apply pair_key.
    + intros l r. unfold pop_or_not_found. by intros ->.
  - intros v. eapply wp_mono; [apply (insert_lookup reports _ v d _ id)|by intros ? ? (? & -> & ?)|done]; try done.
    + intros r. apply pair_key.
    + intros l r. unfold pop_or_not_found. by intros ->.
  - intros p. apply (insert_lookup proofs _ p d (fun l => Ok (last l)) Some); [done..| |by intros ? ? ->].
    intros r. cbn. rewrite !andb_true_iff, !Z.eqb_eq, bool_decide_eq_true. split.
    + intros [[-> ->] ->]. done.
    + intros [= ? ? He]. repeat split; try done. by destruct (pr_output_enum r), (pr_output_enum p).
Qed.

(** A paginated query returns the page of the selected rows in the order of
    the primary key, or reports what is wrong with the arguments, as long as
    the other clients leave the selected rows as they are while it runs; the
    count and the rows come from two separate statements. *)
Theorem paginated_query_page `{B64 : Base64CrateLaws} {Row} (t : table Row) (filter : Row -> bool)
    first last after before d (l : list Row) :
  (forall db, others (tables d) db -> select t filter db = l) -> is_i32 (Z.of_nat (length l)) ->
  wp (paginated_query t filter first last after before) d
    (fun c _ => page first last after before l = Ok c)
    (fun e _ => unavailable e \/ page first last after before l = Err e).
Proof.
  pose proof others_preorder as Hpre. intros Hsel Hl. unfold paginated_query. wp_run.
  apply wp_conn; [|by left]. intros d1 Hd1. wp_run.
  eapply wp_mono; [apply (get_count_spec d1)| |].
  2:{ intros e d' [_ Hne]. left. by destruct e. }
  intros n d2 [Hd2 ->]. cbn [q_table q_filter]. rewrite Hsel by (by etrans). wp_run.
  rewrite swrap_small by (unfold is_i32 in Hl; lia).
  unfold page. pose proof (new_total first last after before (Z.of_nat (length l))) as Hnp.
  destruct (Page.new first last after before _) as [p|e|]; cbn [mbind outcome_bind]; [|by right|done].
  destruct (0 <? limit p) eqn:Elim; wp_run.
  - apply wp_load; [|by left]. intros rows d3 Hd3 Ha. wp_run. unfold answers in Ha.
    cbn [q_window q_table q_filter] in Ha. rewrite Hsel in Ha by (by repeat (etrans; [done|])). by rewrite Ha.
  - apply Z.ltb_ge in Elim. unfold slice. by replace (Z.to_nat (limit p)) with 0%nat by lia.
Qed.
End RepositoryTheorems.

(** ** A reference server

    One client, and a server that does not fail. *)

Module PostgresRef.
#[export] Instance postgres : Postgres Tables := {|
  pool_build _ _ := mret tt;
  pool_get := mret tt;
  execute st := fun db => match perform st db with Ok db' => (Ok tt, db') | Err e => (Err e, db) | Panic => (Panic, db) end;
  load Row q := fun db =>
    (Ok (match q_window q with
         | Some (limit, offset) => take (Z.to_nat limit) (drop (Z.to_nat offset) (select (q_table q) (q_filter q) db))
         | None => select (q_table q) (q_filter q) db
         end), db);
  get_count Row q := fun db => (Ok (Z.of_nat (length (select (q_table q) (q_filter q) db))), db) |}.

Lemma perform_total st db : is_panic (perform st db) = false.
Proof.
  destruct st as [Row t row|]; [|done]. cbn. unfold insert_row.
  destruct (_ !! _); [done|]. destruct (references t row); [|done].
  apply outcome_bind_total; [|done]. by destruct (bool_decide _).
Qed.

#[export] Instance laws : PostgresLaws Tables id eq.
Proof.
  split.
  - apply _.
  - done.
  - done.
  - intros db st. unfold wp. cbn. pose proof (perform_total st db).
    destruct (perform st db) eqn:E; [eauto|eauto 10|done].
  - intros db Row q. unfold wp. cbn. split; [done|]. unfold answers. by destruct (q_window q) as [[]|].
  - intros db Row q. unfold wp. cbn. done.
Qed.
End PostgresRef.

(** ** Witnesses *)

Module RepositoryWitness.
Import HexRef RetryRef PostgresRef Repository.

Definition row (n : Z) : Input := mkInput n [] [] n n [x01] Unprocessed.
Definition sample_db : Tables :=
  set_table inputs (list_to_map ((fun n => ([n], row n)) <$> [2; 0; 1])) empty_tables.

Lemma sample_db_ok : tables_ok sample_db.
Proof.
  split.
  - intros Row t k r Hr. destruct t; cbn in *; try (by rewrite lookup_empty in Hr).
    rewrite !lookup_insert_Some, lookup_empty in Hr. by destruct Hr as [[<- <-]|[_ [[<- <-]|[_ [[<- <-]|[_ ?]]]]]].
  - intros Row t k r fk Hr Hfk. destruct t; cbn in *; by rewrite ?lookup_empty in Hr.
Qed.

Lemma insert_get_roundtrip_witness :
  tables_ok sample_db /\
  wp (insert_voucher (mkVoucher 1 0 [x02] [x03]) ;; get_voucher 0 1) sample_db
    (fun r _ => first_row (D := Tables) (tables := id) (others := eq) vouchers (mkVoucher 1 0 [x02] [x03]) sample_db r)
    (fun e _ => no_input (D := Tables) (tables := id) (others := eq) vouchers (mkVoucher 1 0 [x02] [x03]) sample_db e).
Proof.
  split; [exact sample_db_ok|].
  destruct (insert_get_roundtrip (D := Tables) (tables := id) (others := eq) sample_db
    ltac:(by intros ? ? ->) ltac:(by intros ? ? ->) ltac:(by intros ? ? ->) ltac:(by intros ? ? ->) sample_db_ok) as [Hv _].
  exact (Hv (mkVoucher 1 0 [x02] [x03])).
Defined.

Lemma paginated_query_page_witness :
  wp (get_inputs (Some 2) None None None (mkInputQueryFilter (Some 0) None)) sample_db
    (fun c _ => page (Some 2) None None None [row 1; row 2] = Ok c)
    (fun e _ => unavailable e \/ page (Some 2) None None None [row 1; row 2] = Err e).
Proof.
  apply (paginated_query_page (tables := id) (others := eq) inputs
    (input_to_query (mkInputQueryFilter (Some 0) None)) (Some 2) None None None sample_db).
  - intros db <-. vm_compute. reflexivity.
  - unfold is_i32. cbn. lia.
Defined.
End RepositoryWitness.
