(* ===== verification/Indexer.v ===== *)
(** * The indexer

    [offchain/indexer/src]: [conversions.rs] (events to rows), [indexer.rs]
    (the loop that copies the inputs and outputs streams of the broker into the
    database) and [error.rs]. *)

From S2P Require Import Prelude Codecs Retry Events Broker Pagination Repository.
Import Schema.

(** ** Conversions *)

Module IndexerConversions.
Definition convert_status (status : RollupsCompletionStatus) : Data.CompletionStatus :=
  match status with
  | Accepted => Data.Accepted
  | Rejected => Data.Rejected
  | Exception => Data.Exception
  | MachineHalted => Data.MachineHalted
  | CycleLimitExceeded => Data.CycleLimitExceeded
  | TimeLimitExceeded => Data.TimeLimitExceeded
  | PayloadLengthLimitExceeded => Data.PayloadLengthLimitExceeded
  end.

(** [z as i32] and [z as i64] *)
Definition as_i32 (z : Z) : Z := swrap 32 z.
Definition as_i64 (z : Z) : Z := swrap 64 z.

(** [UNIX_EPOCH + Duration::from_secs(secs)]: the seconds of a [SystemTime] are
    an [i64], and the addition panics when it overflows. *)
Definition after_epoch {E} (secs : Z) : outcome E Z :=
  if secs <? 2 ^ 63 then Ok secs else Panic.

Definition convert_input {E} (input : RollupsAdvanceStateInput) : outcome E Data.Input :=
  timestamp ← after_epoch (timestamp (rai_metadata input));
  Ok (Data.mkInput
    (as_i32 (input_index (rai_metadata input)))
    (msg_sender (rai_metadata input))
    (rai_tx_hash input)
    (as_i64 (block_number (rai_metadata input)))
    timestamp
    (rai_payload input)
    Data.Unprocessed).

Definition convert_voucher (voucher : RollupsVoucher) : Data.Voucher :=
  Data.mkVoucher (as_i32 (rv_input_index voucher)) (as_i32 (rv_index voucher))
    (rv_destination voucher) (rv_payload voucher).

Definition convert_notice (notice : RollupsNotice) : Data.Notice :=
  Data.mkNotice (as_i32 (rn_input_index notice)) (as_i32 (rn_index notice)) (rn_payload notice).

Definition convert_report (report : RollupsReport) : Data.Report :=
  Data.mkReport (as_i32 (rr_input_index report)) (as_i32 (rr_index report)) (rr_payload report).

Definition convert_proof (proof : RollupsProof) : Data.Proof_ :=
  let validity := rp_validity proof in
  Data.mkProof
    (as_i32 (rp_input_index proof))
    (as_i32 (rp_output_index proof))
    (match rp_output_enum proof with
     | OutputEnumVoucher => Data.OutputVoucher
     | OutputEnumNotice => Data.OutputNotice
     end)
    (as_i32 (input_index_within_epoch validity))
    (as_i32 (output_index_within_input validity))
    (output_hashes_root_hash validity)
    (vouchers_epoch_root_hash validity)
    (notices_epoch_root_hash validity)
    (machine_state_hash validity)
    (Some <$> output_hash_in_output_hashes_siblings validity)
    (Some <$> output_hashes_in_epoch_siblings validity)
    (rp_context proof).
End IndexerConversions.
Import IndexerConversions.

(** ** [Indexer] *)

Module Indexer.
(** [data/src/migrations.rs] *)
Inductive MigrationError :=
| MigrationConnectionError (source : string)
| RunMigrationError (source : string).
Inductive JoinError := task_panicked.

Inductive IndexerError :=
| BrokerError_ (source : BrokerError)
| MigrationsError (source : MigrationError)
| RepositoryError (source : DataError.Error)
| JoinError_ (source : JoinError).

Section Store.
Context {D : Type} `{Postgres D, Retry}.

Definition store_input (input : RollupsInput) : M D DataError.Error unit :=
  match ri_data input with
  | AdvanceStateInput input =>
      row ← lift (convert_input input);
      Repository.insert_input row
  | FinishEpoch => mret tt
  end.

Definition store_output (output : RollupsOutput) : M D DataError.Error unit :=
  match output with
  | AdvanceResult result =>
      Repository.update_input_status (as_i32 (ar_input_index result)) (convert_status (ar_status result))
  | Voucher voucher => Repository.insert_voucher (convert_voucher voucher)
  | Notice notice => Repository.insert_notice (convert_notice notice)
  | Report report => Repository.insert_report (convert_report report)
  | Proof_ proof => Repository.insert_proof (convert_proof proof)
  end.
End Store.

(** [tokio::task::spawn_blocking(f).await.context(JoinSnafu)?.context(RepositorySnafu)?]:
    a panic of the task is reported to the caller. *)
Definition spawn_blocking {S A} (m : M S DataError.Error A) : M S IndexerError A := fun s =>
  match m s with
  | (Ok a, s') => (Ok a, s')
  | (Err e, s') => (Err (RepositoryError e), s')
  | (Panic, s') => (Err (JoinError_ task_panicked), s')
  end.

Section Loop.
Context {D R : Type} `{Postgres D, Redis R, Retry, Json RollupsInput, Json RollupsOutput, HexCrate}.
(** The time limit of one poll of the broker. *)
Variable consume_timeout : Z.

(** The loop polls until it gets something else than a timeout; [None] after
    [fuel] polls that all timed out. *)
Fixpoint consume_event (fuel : nat) :
    M (BrokerIndexer.IndexerState * R) IndexerError (option BrokerIndexer.IndexerEvent) :=
  match fuel with
  | O => mret None
  | S fuel => fun s =>
      match BrokerIndexer.indexer_consume consume_timeout s with
      | (Ok event, s') => (Ok (Some event), s')
      | (Err ConsumeTimeout, s') => consume_event fuel s'
      | (Err source, s') => (Err (BrokerError_ source), s')
      | (Panic, s') => (Panic, s')
      end
  end.

(** The body of the main loop; it does nothing while no event has come. *)
Definition iteration (fuel : nat) :
    M ((BrokerIndexer.IndexerState * R) * D) IndexerError unit :=
  event ← on_fst (consume_event fuel);
  match event with
  | None => mret tt
  | Some (BrokerIndexer.Input input) =>
      on_snd (spawn_blocking (store_input (event_payload input)))
  | Some (BrokerIndexer.Output output) =>
      on_snd (spawn_blocking (store_output (event_payload output)))
  end.

(** The first [n] iterations of the main loop. *)
Fixpoint main_loop (fuel n : nat) : M ((BrokerIndexer.IndexerState * R) * D) IndexerError unit :=
  match n with
  | O => mret tt
  | S n => iteration fuel ;; main_loop fuel n
  end.

(** With the local variable [indexer], which starts with the state [state]. *)
Definition with_indexer (state : BrokerIndexer.IndexerState) (fuel n : nat) : M (R * D) IndexerError unit :=
  fun s => let '(o, ((_, r), d)) := main_loop fuel n ((state, s.1), s.2) in (o, (r, d)).

(** [PgConnection::establish] and [MigrationHarness::run_pending_migrations] *)
Variable pg_establish : string -> M D string unit.
Variable run_pending_migrations : M D string unit.

Definition run_migrations (postgres_endpoint : string) : M D MigrationError unit :=
  context MigrationConnectionError (pg_establish postgres_endpoint) ;;
  context RunMigrationError run_pending_migrations.

Variable connect_single : string -> M R RedisError unit.
Variable connect_cluster : list string -> M R RedisError unit.

(** What [Indexer::start] does before the main loop *)
Definition setup (repository_config : RepositoryConfig) (redis_endpoint : BrokerEndpoint)
    (dapp_metadata : DAppMetadata) : M (R * D) IndexerError BrokerIndexer.IndexerState :=
  on_snd (context MigrationsError (run_migrations (Repository.endpoint repository_config))) ;;
  on_snd (context RepositoryError (Repository.new repository_config)) ;;
  on_fst (context BrokerError_ (Broker.new connect_single connect_cluster redis_endpoint)) ;;
  mret (BrokerIndexer.new dapp_metadata).

Definition start (repository_config : RepositoryConfig) (redis_endpoint : BrokerEndpoint)
    (dapp_metadata : DAppMetadata) (fuel n : nat) : M (R * D) IndexerError unit :=
  state ← setup repository_config redis_endpoint dapp_metadata;
  with_indexer state fuel n.
End Loop.
End Indexer.

(** ** The tables as a function of the streams

    What the database should hold after the inputs [ps] and the outputs [qs]:
    the first row of each key, and the status of the last result of each
    input. *)

Definition put_row {Row} (t : table Row) (row : Row) (db : Tables) : Tables :=
  match get_table t db !! primary_key t row with
  | Some _ => db
  | None => set_table t (<[primary_key t row := row]> (get_table t db)) db
  end.

Definition row_of_input (p : RollupsInput) : option Data.Input :=
  match ri_data p with
  | AdvanceStateInput i => match convert_input (E := unit) i with Ok r => Some r | _ => None end
  | FinishEpoch => None
  end.

Definition mirror_input (db : Tables) (p : RollupsInput) : Tables :=
  match row_of_input p with Some r => put_row inputs r db | None => db end.

Definition mirror_output (db : Tables) (q : RollupsOutput) : Tables :=
  match q with
  | AdvanceResult r => update_status (as_i32 (ar_input_index r)) (convert_status (ar_status r)) db
  | Voucher v => put_row vouchers (convert_voucher v) db
  | Notice n => put_row notices (convert_notice n) db
  | Report r => put_row reports (convert_report r) db
  | Proof_ p => put_row proofs (convert_proof p) db
  end.

Definition mirror (ps : list RollupsInput) (qs : list RollupsOutput) : Tables :=
  foldl mirror_output (foldl mirror_input empty_tables ps) qs.

(** The row of [inputs] that an output needs. *)
Definition about (q : RollupsOutput) : option Z :=
  match q with
  | AdvanceResult r => Some (as_i32 (ar_input_index r))
  | Voucher v => Some (as_i32 (rv_input_index v))
  | Notice n => Some (as_i32 (rn_input_index n))
  | Report r => Some (as_i32 (rr_input_index r))
  | Proof_ _ => None
  end.

Definition has_row (ps : list RollupsInput) (k : Z) : Prop :=
  exists p r, p ∈ ps /\ row_of_input p = Some r /\ Data.in_index r = k.

Definition caused (ps : list RollupsInput) (q : RollupsOutput) : Prop :=
  forall k, about q = Some k -> has_row ps k.

(** *** Rows of the mirror *)

(** [row] is a row of [inputs] with the key [k]. *)
Definition is_input {Row} (t : table Row) (k : list Z) : Row -> Prop :=
  match t with
  | inputs => fun r => [Data.in_index r] = k
  | vouchers => fun _ => False
  | notices => fun _ => False
  | reports => fun _ => False
  | proofs => fun _ => False
  end.

Lemma put_row_inputs {Row} (t : table Row) row db k :
  is_Some (t_inputs (put_row t row db) !! k) <->
  is_Some (t_inputs db !! k) \/ is_input t k row.
Proof.
  unfold put_row. destruct (get_table t db !! primary_key t row) as [r0|] eqn:E.
  - split; [by left|]. intros [?|Hk]; [done|]. destruct t; cbn in *; try done. subst k. by rewrite E.
  - destruct t; cbn in *; [|tauto..]. destruct (decide ([Data.in_index row] = k)) as [<-|Hne].
    + rewrite lookup_insert_eq. split; [by right|by eexists].
    + rewrite lookup_insert_ne by done. tauto.
Qed.

Lemma update_status_inputs index status db k :
  is_Some (t_inputs (update_status index status db) !! k) <-> is_Some (t_inputs db !! k).
Proof.
  cbn. destruct (decide ([index] = k)) as [<-|Hne]; [|by rewrite lookup_alter_ne].
  rewrite lookup_alter_eq. by rewrite fmap_is_Some.
Qed.

Lemma mirror_output_inputs db q k :
  is_Some (t_inputs (mirror_output db q) !! k) <-> is_Some (t_inputs db !! k).
Proof.
  destruct q; cbn [mirror_output]; [apply update_status_inputs|rewrite put_row_inputs; cbn [is_input]; tauto..].
Qed.

Lemma mirror_outputs_inputs qs db k :
  is_Some (t_inputs (foldl mirror_output db qs) !! k) <-> is_Some (t_inputs db !! k).
Proof.
  revert db. induction qs as [|q qs IH]; intros db; [done|]. cbn. rewrite IH. apply mirror_output_inputs.
Qed.

Lemma mirror_inputs_inputs ps db k :
  is_Some (t_inputs (foldl mirror_input db ps) !! [k]) <-> is_Some (t_inputs db !! [k]) \/ has_row ps k.
Proof.
  revert db. induction ps as [|p ps IH]; intros db; cbn [foldl].
  { split; [by left|]. intros [?|(p & r & Hp & _)]; [done|by apply elem_of_nil in Hp]. }
  rewrite IH. unfold mirror_input, has_row. setoid_rewrite elem_of_cons.
  destruct (row_of_input p) as [r|] eqn:Er.
  - rewrite put_row_inputs. split.
    + intros [[?|[= <-]]|(p' & r' & ? & ? & ?)]; eauto 10.
    + intros [?|(p' & r' & [->|?] & Hr' & <-)]; [auto| |right; eauto 10].
      simplify_eq. left. right. done.
  - split.
    + intros [?|(p' & r' & ? & ? & ?)]; eauto 10.
    + intros [?|(p' & r' & [->|?] & Hr' & <-)]; eauto 10. congruence.
Qed.

Lemma mirror_has_row ps qs k : is_Some (t_inputs (mirror ps qs) !! [k]) <-> has_row ps k.
Proof.
  unfold mirror. rewrite mirror_outputs_inputs, mirror_inputs_inputs. cbn. rewrite lookup_empty.
  split; [by intros [[? ?]|?]|by right].
Qed.

(** *** Inputs and outputs commute *)

Lemma put_input_output row db q :
  (forall r, q = AdvanceResult r -> is_Some (t_inputs db !! [as_i32 (ar_input_index r)])) ->
  put_row inputs row (mirror_output db q) = mirror_output (put_row inputs row db) q.
Proof.
  intros Hq. destruct q as [r|v|n|r|p]; cbn [mirror_output].
  2-5: unfold put_row; cbn; repeat (case_match; cbn in * ); try done; congruence.
  specialize (Hq r eq_refl). unfold put_row. cbn.
  destruct (decide (as_i32 (ar_input_index r) = Data.in_index row)) as [E|Hne].
  - rewrite E in *. rewrite lookup_alter_eq. destruct Hq as [r0 ->]. done.
  - rewrite lookup_alter_ne by congruence. destruct (t_inputs db !! [Data.in_index row]); [done|].
    unfold update_status. cbn. by rewrite alter_insert_ne by congruence.
Qed.

Lemma mirror_input_last ps qs p :
  Forall (caused ps) qs -> mirror_input (mirror ps qs) p = mirror (ps ++ [p]) qs.
Proof.
  intros Hqs. unfold mirror. rewrite foldl_app. cbn [foldl]. set (db := foldl mirror_input empty_tables ps).
  assert (Hdb : forall q, q ∈ qs -> forall r, q = AdvanceResult r -> is_Some (t_inputs db !! [as_i32 (ar_input_index r)])).
  { intros q Hq r ->. apply (proj1 (Forall_forall _ _) Hqs) in Hq. unfold db.
    rewrite mirror_inputs_inputs. right. by apply Hq. }
  clearbody db. clear Hqs. unfold mirror_input. destruct (row_of_input p) as [row|]; [|done].
  revert db Hdb. induction qs as [|q qs IH]; intros db Hdb; [done|]. cbn.
  rewrite IH.
  - by rewrite put_input_output by (apply Hdb; left).
  - intros q' Hq' r ->. apply mirror_output_inputs. eapply Hdb; [by right|done].
Qed.

Lemma mirror_output_last ps qs q : mirror_output (mirror ps qs) q = mirror ps (qs ++ [q]).
Proof. unfold mirror. by rewrite foldl_app. Qed.

(** *** Storing the same events again *)

Section Again.
Context {K V : Type} `{Countable K} (key : V -> K).

Definition put_new (m : gmap K V) (v : V) : gmap K V :=
  match m !! key v with Some _ => m | None => <[key v := v]> m end.

Lemma put_new_grows m v k : is_Some (m !! k) -> is_Some (put_new m v !! k).
Proof.
  unfold put_new. intros Hk. destruct (m !! key v) eqn:E; [done|].
  destruct (decide (key v = k)) as [<-|?]; [by rewrite E in Hk; destruct Hk|by rewrite lookup_insert_ne].
Qed.

Lemma put_all_grows l m k : is_Some (m !! k) -> is_Some (foldl put_new m l !! k).
Proof. revert m. induction l as [|v l IH]; intros m Hk; [done|]. by apply IH, put_new_grows. Qed.

Lemma put_all_keys l m v : v ∈ l -> is_Some (foldl put_new m l !! key v).
Proof.
  revert m. induction l as [|w l IH]; intros m Hv; [by apply elem_of_nil in Hv|].
  apply elem_of_cons in Hv as [->|Hv]; cbn; [|by apply IH]. apply put_all_grows.
  unfold put_new. destruct (m !! key w) eqn:E; [by rewrite E|]. by rewrite lookup_insert_eq.
Qed.

Lemma put_all_stable l m : (forall v, v ∈ l -> is_Some (m !! key v)) -> foldl put_new m l = m.
Proof.
  induction l as [|v l IH]; intros Hl; [done|]. cbn. replace (put_new m v) with m.
  - apply IH. intros w Hw. apply Hl. by right.
  - unfold put_new. destruct (Hl v ltac:(left)) as [w ->]. done.
Qed.

(** A row that is there stays, and a row whose key no other row of [l] has gets
    there. *)
Lemma put_all_keep l m k v : m !! k = Some v -> foldl put_new m l !! k = Some v.
Proof.
  revert m. induction l as [|w l IH]; intros m Hk; [done|]. apply IH. unfold put_new.
  destruct (m !! key w) eqn:E; [done|]. rewrite lookup_insert_ne; [done|]. intros <-. congruence.
Qed.

Lemma put_all_only l l' m v :
  m !! key v = None -> v ∈ l -> (forall w, w ∈ l -> key w = key v -> w = v) ->
  foldl put_new m (l ++ l') !! key v = Some v.
Proof.
  revert m. induction l as [|w l IH]; intros m Hk Hv Honly; [by apply elem_of_nil in Hv|].
  cbn. destruct (decide (key w = key v)) as [Hw|Hw].
  - rewrite (Honly w ltac:(left) Hw). apply put_all_keep. unfold put_new. rewrite Hk. by rewrite lookup_insert_eq.
  - apply elem_of_cons in Hv as [->|Hv]; [done|]. apply IH; [|done|intros ? ?; apply Honly; by right].
    unfold put_new. destruct (m !! key w); [done|]. by rewrite lookup_insert_ne.
Qed.

(** What is there was there, or is a row of [l]. *)
Lemma put_all_elem l m k v : foldl put_new m l !! k = Some v -> m !! k = Some v \/ (v ∈ l /\ key v = k).
Proof.
  revert m. induction l as [|w l IH]; intros m Hk; [by left|]. apply IH in Hk as [Hk|[Hv Hk]].
  - unfold put_new in Hk. destruct (m !! key w); [by left|]. apply lookup_insert_Some in Hk as [[<- <-]|[_ Hk]].
    + right. split; [left|done].
    + by left.
  - right. split; [by right|done].
Qed.

Lemma put_all_again l l' m : foldl put_new m (l ++ l ++ l') = foldl put_new m (l ++ l').
Proof.
  rewrite !foldl_app. f_equal. apply put_all_stable. intros v Hv. by apply put_all_keys.
Qed.
End Again.

(** The results of the inputs, as updates of the table [inputs]. *)
Definition put_status (m : gmap (list Z) Data.Input) (r : RollupsAdvanceResult) : gmap (list Z) Data.Input :=
  alter (Data.set_status (convert_status (ar_status r))) [as_i32 (ar_input_index r)] m.

Definition latest (k : list Z) (acc : option Data.CompletionStatus) (r : RollupsAdvanceResult) :=
  if decide ([as_i32 (ar_input_index r)] = k) then Some (convert_status (ar_status r)) else acc.

Definition with_status (o : option Data.CompletionStatus) (row : Data.Input) : Data.Input :=
  match o with Some s => Data.set_status s row | None => row end.

Lemma put_status_all l m k :
  foldl put_status m l !! k = with_status (foldl (latest k) None l) <$> m !! k.
Proof.
  assert (Hall : forall acc m', m' !! k = with_status acc <$> m !! k ->
    foldl put_status m' l !! k = with_status (foldl (latest k) acc l) <$> m !! k).
  { induction l as [|r l IH]; intros acc' m' Hm'; [done|]. cbn. apply IH. unfold put_status, latest.
    case_decide as Hk; [subst k; rewrite lookup_alter_eq, Hm'|by rewrite lookup_alter_ne].
    rewrite <- option_fmap_compose. destruct (m !! _) as [row|]; [|done]. cbn. by destruct acc'. }
  apply (Hall None). by destruct (m !! k).
Qed.

Lemma latest_some k l acc :
  foldl (latest k) acc l = match foldl (latest k) None l with Some s => Some s | None => acc end.
Proof.
  revert acc. induction l as [|r l IH]; intros acc; [done|]. cbn. rewrite IH, (IH (latest k None r)).
  destruct (foldl (latest k) None l); [done|]. unfold latest. by case_decide.
Qed.

Lemma put_status_again l l' m : foldl put_status m (l ++ l ++ l') = foldl put_status m (l ++ l').
Proof.
  apply map_eq. intros k. rewrite !put_status_all, !foldl_app.
  do 2 f_equal. rewrite (latest_some k l (foldl (latest k) None l)). by destruct (foldl (latest k) None l).
Qed.

Lemma put_row_new {Row} (t : table Row) row db :
  put_row t row db = set_table t (put_new (primary_key t) (get_table t db) row) db.
Proof. unfold put_row, put_new. destruct (_ !! _); [|done]. by destruct t, db. Qed.

(** The mirror table by table. *)
Lemma mirror_inputs_split db ps :
  foldl mirror_input db ps =
  set_table inputs (foldl (put_new (primary_key inputs)) (t_inputs db) (omap row_of_input ps)) db.
Proof.
  revert db. induction ps as [|p ps IH]; intros db; [by destruct db|]. cbn [foldl omap list_omap].
  rewrite IH. unfold mirror_input. destruct (row_of_input p) as [row|]; [|done].
  by rewrite put_row_new.
Qed.

Definition result_of_output (q : RollupsOutput) : option RollupsAdvanceResult :=
  match q with AdvanceResult r => Some r | _ => None end.
Definition voucher_of (q : RollupsOutput) : option Data.Voucher :=
  match q with Voucher v => Some (convert_voucher v) | _ => None end.
Definition notice_of (q : RollupsOutput) : option Data.Notice :=
  match q with Notice n => Some (convert_notice n) | _ => None end.
Definition report_of (q : RollupsOutput) : option Data.Report :=
  match q with Report r => Some (convert_report r) | _ => None end.
Definition proof_of_output (q : RollupsOutput) : option Data.Proof_ :=
  match q with Proof_ p => Some (convert_proof p) | _ => None end.

Lemma mirror_outputs_split db qs :
  foldl mirror_output db qs =
  mkTables (foldl put_status (t_inputs db) (omap result_of_output qs))
    (foldl (put_new (primary_key vouchers)) (t_vouchers db) (omap voucher_of qs))
    (foldl (put_new (primary_key notices)) (t_notices db) (omap notice_of qs))
    (foldl (put_new (primary_key reports)) (t_reports db) (omap report_of qs))
    (foldl (put_new (primary_key proofs)) (t_proofs db) (omap proof_of_output qs)).
Proof.
  revert db. induction qs as [|q qs IH]; intros db; [by destruct db|]. cbn [foldl omap list_omap].
  rewrite IH. destruct q; cbn [mirror_output result_of_output voucher_of notice_of report_of proof_of_output
    foldl]; [done|rewrite put_row_new; done..].
Qed.

(** A row of the inputs is that of an input, up to its status. *)
Lemma mirror_input_origin ps qs k row : t_inputs (mirror ps qs) !! k = Some row ->
  exists p row0 status, p ∈ ps /\ row_of_input p = Some row0 /\ [Data.in_index row0] = k /\ row = with_status status row0.
Proof.
  unfold mirror. rewrite mirror_outputs_split, mirror_inputs_split. cbn [set_table t_inputs]. rewrite put_status_all.
  intros (row0 & Hrow0 & ->)%fmap_Some. apply put_all_elem in Hrow0 as [Hrow0|[Hin Hk]]; [by cbn in Hrow0; rewrite lookup_empty in Hrow0|].
  apply list_elem_of_omap in Hin as (p & Hp & Hrow). eauto 10.
Qed.

Lemma mirror_again ps0 ps1 qs0 qs1 :
  mirror (ps0 ++ ps0 ++ ps1) (qs0 ++ qs0 ++ qs1) = mirror (ps0 ++ ps1) (qs0 ++ qs1).
Proof.
  unfold mirror. rewrite !mirror_inputs_split, !mirror_outputs_split, !omap_app. cbn [set_table t_inputs t_vouchers t_notices t_reports t_proofs].
  by rewrite !put_all_again, !put_status_again.
Qed.

(** ** Storing events *)

Section StoreTheorems.
Context {D : Type} `{PL : PostgresLaws D tables eq} `{RT : RetryLaws}.
Import Indexer.

(** The indexer is the only client that writes: a statement acts on the tables
    as they were. *)
Lemma wp_write d st Q R :
  (forall d', perform st (tables d) = Ok (tables d') -> Q tt d') ->
  (forall e d', tables d' = tables d \/ perform st (tables d) = Ok (tables d') ->
     unavailable e \/ perform st (tables d) = Err ForeignKeyViolation -> R e d') ->
  wp (Repository.conn ;; context DataError.DatabaseError (execute st)) d Q R.
Proof.
  intros HQ HR. apply wp_execute.
  - intros db d' <- Hp. by apply HQ.
  - intros e d' (db' & <- & Hd') [He|(db & <- & Hp & _)]; apply HR; auto.
Qed.

Lemma spawn_blocking_safe {A} (m : M D DataError.Error A) d :
  is_panic (spawn_blocking m d).1 = false.
Proof. unfold spawn_blocking. by destruct (m d) as [[] ?]. Qed.

Lemma wp_spawn {A} (m : M D DataError.Error A) d Q R :
  wp m d Q (fun x d' => R (RepositoryError x) d') -> wp (spawn_blocking m) d Q R.
Proof. unfold wp, spawn_blocking. by destruct (m d) as [[a|e|] d']. Qed.

(** Why storing an event may fail. *)
Definition store_failed (late : Prop) (e : IndexerError) : Prop :=
  (exists x, e = RepositoryError x /\ unavailable x) \/ (e = JoinError_ task_panicked /\ late).

(** The timestamp does not fit a [SystemTime]. *)
Definition too_late (p : RollupsInput) : Prop :=
  exists i, ri_data p = AdvanceStateInput i /\ 2 ^ 63 <= timestamp (rai_metadata i).

(** A row without a foreign key. *)
Lemma insert_free {Row} (t : table Row) (row : Row) d Q R :
  references t row = None ->
  (forall d', tables d' = put_row t row (tables d) -> Q tt d') ->
  (forall e d', tables d' = tables d \/ tables d' = put_row t row (tables d) -> unavailable e -> R e d') ->
  wp (Repository.conn ;; context DataError.DatabaseError (execute (InsertOnConflictDoNothing t row))) d Q R.
Proof.
  intros Href HQ HR.
  assert (Hp : perform (InsertOnConflictDoNothing t row) (tables d) = Ok (put_row t row (tables d))).
  { cbn [perform]. unfold insert_row, put_row. destruct (get_table t (tables d) !! _); [done|]. by rewrite Href. }
  apply wp_write; rewrite Hp.
  - intros d' E. apply HQ. congruence.
  - intros e d' Hd' [He|E]; [|done]. apply HR; [|done]. destruct Hd' as [?|E]; [by left|right; congruence].
Qed.

Lemma wp_store_input p d ps qs :
  tables d = mirror ps qs -> Forall (caused ps) qs ->
  wp (spawn_blocking (store_input p)) d
    (fun _ d' => tables d' = mirror (ps ++ [p]) qs)
    (fun e d' => store_failed (too_late p) e /\ (tables d' = mirror ps qs \/ tables d' = mirror (ps ++ [p]) qs)).
Proof.
  intros Hd Hqs. rewrite <- (mirror_input_last ps qs p Hqs), <- Hd. clear Hd.
  unfold store_input, mirror_input, row_of_input.
  destruct (ri_data p) as [i|] eqn:Ed; [|by unfold wp, spawn_blocking; cbn].
  unfold convert_input, after_epoch. destruct (timestamp (rai_metadata i) <? 2 ^ 63) eqn:Et.
  - cbn [mbind outcome_bind]. apply wp_spawn. wp_run. apply insert_free; [done|done|].
    intros e d' Hd' He. split; [|done]. left. by exists e.
  - apply Z.ltb_ge in Et. unfold wp, spawn_blocking. cbn. split; [|by left]. right. split; [done|]. by exists i.
Qed.

(** The row an output inserts meets its foreign key. *)
Lemma insert_caused {Row} (t : table Row) (row : Row) d db k Q R :
  tables d = db -> references t row = Some [k] -> is_Some (t_inputs db !! [k]) ->
  (forall d', tables d' = put_row t row db -> Q tt d') ->
  (forall e d', tables d' = db \/ tables d' = put_row t row db -> unavailable e -> R e d') ->
  wp (Repository.conn ;; context DataError.DatabaseError (execute (InsertOnConflictDoNothing t row))) d Q R.
Proof.
  intros Hd Href Hk HQ HR. subst db. assert (Hp : perform (InsertOnConflictDoNothing t row) (tables d) = Ok (put_row t row (tables d))).
  { cbn [perform]. unfold insert_row, put_row. destruct (get_table t (tables d) !! _); [done|].
    rewrite Href. unfold ensure. rewrite bool_decide_true by done. done. }
  apply wp_write; rewrite Hp.
  - intros d' E. apply HQ. congruence.
  - intros e d' Hd' [He|E]; [|done]. apply HR; [|done]. destruct Hd' as [?|E]; [by left|right; congruence].
Qed.

Lemma wp_store_output q d ps qs :
  tables d = mirror ps qs -> caused ps q ->
  wp (spawn_blocking (store_output q)) d
    (fun _ d' => tables d' = mirror ps (qs ++ [q]))
    (fun e d' => store_failed False e /\ (tables d' = mirror ps qs \/ tables d' = mirror ps (qs ++ [q]))).
Proof.
  intros Hd Hq. rewrite <- mirror_output_last, <- Hd. apply wp_spawn.
  eapply (wp_mono _ _ _ _ (fun e d' => (tables d' = tables d \/ tables d' = mirror_output (tables d) q) /\ unavailable e));
    [|intros a d' Hd'; exact Hd'|].
  2:{ intros e d' [Hd' He]. split; [|done]. left. by exists e. }
  assert (Hrow : forall k, about q = Some k -> is_Some (t_inputs (tables d) !! [k])).
  { intros k Hk. rewrite Hd. apply mirror_has_row, Hq, Hk. }
  destruct q as [r|v|n|r|p]; cbn [store_output mirror_output].
  - apply wp_write; [by intros d' [= ->]|]. intros e d' Hd' [He|Hp]; [|done].
    split; [|done]. destruct Hd' as [?|[= ->]]; auto.
  - eapply (insert_caused vouchers _ d (tables d)); [done|done|by apply Hrow|done|done].
  - eapply (insert_caused notices _ d (tables d)); [done|done|by apply Hrow|done|done].
  - eapply (insert_caused reports _ d (tables d)); [done|done|by apply Hrow|done|done].
  - by apply insert_free.
Qed.
End StoreTheorems.

(** ** Types of the stored rows *)

(** What the types of the event streams guarantee. *)
Definition input_typed (p : RollupsInput) : Prop :=
  match ri_data p with
  | AdvanceStateInput i =>
      is_u64 (timestamp (rai_metadata i)) /\
      Common.hex_array_wf Common.ADDRESS_SIZE (msg_sender (rai_metadata i)) /\
      Common.hex_array_wf Common.HASH_SIZE (rai_tx_hash i)
  | FinishEpoch => True
  end.

Definition proof_typed (v : RollupsOutputValidityProof) : Prop :=
  Common.hex_array_wf Common.HASH_SIZE (output_hashes_root_hash v) /\
  Common.hex_array_wf Common.HASH_SIZE (vouchers_epoch_root_hash v) /\
  Common.hex_array_wf Common.HASH_SIZE (notices_epoch_root_hash v) /\
  Common.hex_array_wf Common.HASH_SIZE (machine_state_hash v) /\
  Forall (Common.hex_array_wf Common.HASH_SIZE) (output_hash_in_output_hashes_siblings v) /\
  Forall (Common.hex_array_wf Common.HASH_SIZE) (output_hashes_in_epoch_siblings v).

Definition output_typed (q : RollupsOutput) : Prop :=
  match q with
  | Voucher v => Common.hex_array_wf Common.ADDRESS_SIZE (rv_destination v)
  | Proof_ p => proof_typed (rp_validity p)
  | _ => True
  end.

(** A row of a table: [Int4] and [Int8] columns in range, 20 bytes in an
    address, 32 in a hash, and no NULL among the siblings of a proof. *)
Definition sibling_typed (o : option (list byte)) : Prop := exists h, o = Some h /\ length h = 32%nat.

Definition row_typed {Row} (t : table Row) : Row -> Prop :=
  match t with
  | inputs => fun r => is_i32 (Data.in_index r) /\ - 2 ^ 63 <= Data.in_block_number r < 2 ^ 63 /\
      0 <= Data.in_timestamp r < 2 ^ 63 /\ length (Data.in_msg_sender r) = 20%nat /\
      length (Data.in_tx_hash r) = 32%nat
  | vouchers => fun r => is_i32 (Data.vo_input_index r) /\ is_i32 (Data.vo_index r) /\
      length (Data.vo_destination r) = 20%nat
  | notices => fun r => is_i32 (Data.no_input_index r) /\ is_i32 (Data.no_index r)
  | reports => fun r => is_i32 (Data.re_input_index r) /\ is_i32 (Data.re_index r)
  | proofs => fun r => is_i32 (Data.pr_input_index r) /\ is_i32 (Data.pr_output_index r) /\
      is_i32 (Data.validity_input_index_within_epoch r) /\
      is_i32 (Data.validity_output_index_within_input r) /\
      length (Data.validity_output_hashes_root_hash r) = 32%nat /\
      length (Data.validity_vouchers_epoch_root_hash r) = 32%nat /\
      length (Data.validity_notices_epoch_root_hash r) = 32%nat /\
      length (Data.validity_machine_state_hash r) = 32%nat /\
      Forall sibling_typed (Data.validity_output_hash_in_output_hashes_siblings r) /\
      Forall sibling_typed (Data.validity_output_hashes_in_epoch_siblings r)
  end.

Definition rows_typed (db : Tables) : Prop :=
  forall Row (t : table Row) k r, get_table t db !! k = Some r -> row_typed t r.

Lemma as_i32_range z : is_i32 (as_i32 z).
Proof. apply (swrap_range 32). lia. Qed.

Lemma put_row_typed {Row} (t : table Row) row db :
  rows_typed db -> row_typed t row -> rows_typed (put_row t row db).
Proof.
  intros Hdb Hrow. unfold put_row. destruct (get_table t db !! _); [done|].
  intros Row' t' k r. destruct t, t'; cbn [get_table set_table t_inputs t_vouchers t_notices t_reports t_proofs];
    first [by apply (Hdb _ inputs)|by apply (Hdb _ vouchers)|by apply (Hdb _ notices)|by apply (Hdb _ reports)
          |by apply (Hdb _ proofs)|idtac];
    rewrite lookup_insert_Some; intros [[_ <-]|[_ Hr]]; first [exact Hrow|by eapply (Hdb _ _ _ _ Hr)|idtac].
  - by eapply (Hdb _ inputs).
  - by eapply (Hdb _ vouchers).
  - by eapply (Hdb _ notices).
  - by eapply (Hdb _ reports).
  - by eapply (Hdb _ proofs).
Qed.

Lemma update_status_typed index status db : rows_typed db -> rows_typed (update_status index status db).
Proof.
  intros Hdb Row t k r. destruct t; cbn [get_table set_table update_status t_inputs t_vouchers t_notices t_reports t_proofs];
    [|by apply (Hdb _ vouchers)|by apply (Hdb _ notices)|by apply (Hdb _ reports)|by apply (Hdb _ proofs)].
  rewrite lookup_alter_Some. intros [(_ & r0 & Hr0 & ->)|[_ Hr]]; [|by apply (Hdb _ inputs k)].
  exact (Hdb _ inputs _ _ Hr0).
Qed.

Lemma siblings_typed l : Forall (Common.hex_array_wf Common.HASH_SIZE) l -> Forall sibling_typed (Some <$> l).
Proof. intros Hl. apply Forall_fmap. eapply Forall_impl; [exact Hl|]. intros h Hh. by exists h. Qed.

Lemma mirror_typed ps qs :
  Forall input_typed ps -> Forall output_typed qs -> rows_typed (mirror ps qs).
Proof.
  intros Hps Hqs. unfold mirror. assert (Hdb : rows_typed (foldl mirror_input empty_tables ps)).
  { assert (H0 : rows_typed empty_tables) by (intros Row t k r; destruct t; cbn; by rewrite lookup_empty).
    revert H0. generalize empty_tables. induction Hps as [|p ps Hp _ IH]; intros db Hdb; [done|]. cbn. apply IH.
    unfold mirror_input, row_of_input, input_typed in *. destruct (ri_data p) as [i|]; [|done].
    unfold convert_input, after_epoch. destruct (_ <? _) eqn:E; cbn [mbind outcome_bind]; [|done].
    apply Z.ltb_lt in E. destruct Hp as ([Hts _] & Ha & Hh). apply put_row_typed; [done|].
    split; [apply as_i32_range|]. split; [apply (swrap_range 64); lia|]. done. }
  revert Hdb. generalize (foldl mirror_input empty_tables ps). induction Hqs as [|q qs Hq _ IH]; intros db Hdb; [done|].
  cbn. apply IH. destruct q as [r|v|n|r|p]; cbn in *; [by apply update_status_typed|apply put_row_typed; [done|]..].
  - repeat split; try apply as_i32_range; done.
  - repeat split; try apply as_i32_range; done.
  - repeat split; try apply as_i32_range; done.
  - destruct Hq as (? & ? & ? & ? & ? & ?).
    repeat (split; [first [apply as_i32_range|done]|]). split; by apply siblings_typed.
Qed.

(** Keys and references of the mirror. *)
Lemma put_row_ok {Row} (t : table Row) row db :
  tables_ok db -> (forall fk, references t row = Some fk -> is_Some (t_inputs db !! fk)) ->
  tables_ok (put_row t row db).
Proof.
  intros Hok Hfk. apply (perform_ok (InsertOnConflictDoNothing t row) db); [done|]. cbn [perform].
  unfold insert_row, put_row. destruct (get_table t db !! _); [done|].
  destruct (references t row) as [fk|]; [|done]. unfold ensure. by rewrite bool_decide_true by auto.
Qed.

Lemma mirror_ok ps qs : Forall (caused ps) qs -> tables_ok (mirror ps qs).
Proof.
  intros Hqs. induction qs as [|q qs IH] using rev_ind.
  - unfold mirror. cbn. generalize empty_tables_ok. generalize empty_tables. clear Hqs.
    induction ps as [|p ps IH]; intros db Hdb; [done|]. cbn. apply IH. unfold mirror_input.
    destruct (row_of_input p); [by apply put_row_ok|done].
  - apply Forall_app in Hqs as [Hqs [Hq _]%Forall_cons]. rewrite <- mirror_output_last.
    specialize (IH Hqs).
    assert (Hrow : forall k, about q = Some k -> is_Some (t_inputs (mirror ps qs) !! [k])).
    { intros k Hk. by apply mirror_has_row, Hq. }
    destruct q as [r|v|n|r|p]; cbn [mirror_output].
    + apply (perform_ok (UpdateInputStatus (as_i32 (ar_input_index r)) (convert_status (ar_status r))) (mirror ps qs)); done.
    + apply put_row_ok; [done|]. intros fk [= <-]. by apply Hrow.
    + apply put_row_ok; [done|]. intros fk [= <-]. by apply Hrow.
    + apply put_row_ok; [done|]. intros fk [= <-]. by apply Hrow.
    + by apply put_row_ok.
Qed.

(** ** The main loop *)

Section LoopTheorems.
Context {D R : Type} `{PL : PostgresLaws D tables eq} `{RL : RedisLaws R} `{RT : RetryLaws}.
Context `{JI : JsonLaws RollupsInput, JO : JsonLaws RollupsOutput}.
Import Indexer BrokerIndexer.

(** The outputs of the broker in state [r] are about inputs that it has. *)
Definition timely (ki ko : string) (r : R) : Prop :=
  forall e q k, e ∈ entries r ko -> holds e q -> about q = Some k ->
    exists e' p row, e' ∈ entries r ki /\ holds e' p /\ row_of_input p = Some row /\ Data.in_index row = k.

(** Once all inputs are read, the next output of a timely state has its input. *)
Lemma timely_caused ki ko r id ps e (q : RollupsOutput) :
  timely ki ko r -> read_to r ki id ps -> entries_after r ki id = [] ->
  e ∈ entries r ko -> holds e q -> caused ps q.
Proof.
  intros Ht Hpos Hdone He Hq k Hk. destruct (Ht e q k He Hq Hk) as (e' & p & row & He' & Hp & Hrow & Hidx).
  pose proof (read_to_done _ _ _ _ Hpos Hdone) as Hall. apply list_elem_of_lookup in He' as [i Hi].
  destruct (Forall2_lookup_l _ _ _ _ _ Hall Hi) as (p' & Hp' & Hh). exists p', row.
  unfold holds in *. rewrite Hp in Hh. injection Hh as <-.
  split; [by eapply list_elem_of_lookup_2|done].
Qed.

Lemma wp_consume_event timeout fuel st r :
  inputs_stream st <> outputs_stream st ->
  wp (consume_event timeout fuel) (st, r)
    (fun o s' => grows owned r s'.2 /\
       match o with
       | Some ev => consumed st ev s'
       | None => s'.1 = st /\ (fuel = O /\ s'.2 = r \/
           entries_after s'.2 (inputs_stream st) (inputs_last_id st) = [] /\
           entries_after s'.2 (outputs_stream st) (outputs_last_id st) = [])
       end)
    (fun e s' => grows owned r s'.2 /\ exists err, e = BrokerError_ err /\
       ((exists x, err = ConnectionError x) \/ undecodable_event st err s'.2)).
Proof.
  intros Hne. revert r. induction fuel as [|fuel IH]; intros r.
  { cbn [consume_event]. wp_run. split; [done|]. split; [done|by left]. }
  pose proof (wp_indexer_consume timeout st r Hne) as Hc. unfold wp in *. cbn [consume_event].
  destruct (indexer_consume timeout (st, r)) as [[ev|err|] [st1 r1]]; cbn [fst snd] in *; [done| |done].
  destruct Hc as (Hg & Hst & Hcase). cbn in Hst. subst st1.
  destruct Hcase as [[x ->]|[(-> & Hi & Ho)|[Hto Hu]]].
  - split; [done|]. eexists. split; [done|]. left. by eexists.
  - specialize (IH r1). destruct (consume_event timeout fuel (st, r1)) as [[[ev|]|err|] s2]; try done.
    + destruct IH as [Hg' ?]. split; [by etrans|done].
    + destruct IH as (Hg' & Hst & Hf). split; [by etrans|]. split; [done|]. right.
      by destruct Hf as [[_ ->]|?].
    + destruct IH as [Hg' ?]. split; [by etrans|done].
  - destruct err; try done; (split; [done|]); eexists; (split; [done|by right]).
Qed.

(** What the indexer has read and stored, from a database that holds the
    mirror of [ps0] and [qs0]; [snaps] are the states of the broker in which it
    read. *)
Record indexed (ki ko : string) (ps0 : list RollupsInput) (qs0 : list RollupsOutput) (r0 : R)
    (snaps : list R) (ps : list RollupsInput) (qs : list RollupsOutput)
    (s : (IndexerState * R) * D) : Prop := {
  ix_streams : inputs_stream s.1.1 = ki /\ outputs_stream s.1.1 = ko;
  ix_grows : grows owned r0 s.1.2;
  ix_snaps : Forall (fun r => grows owned r0 r /\ grows owned r s.1.2) snaps;
  ix_inputs : read_to s.1.2 ki (inputs_last_id s.1.1) ps;
  ix_outputs : read_to s.1.2 ko (outputs_last_id s.1.1) qs;
  ix_tables : Forall (timely ki ko) snaps ->
    tables s.2 = mirror (ps0 ++ ps) (qs0 ++ qs) /\ Forall (caused (ps0 ++ ps)) (qs0 ++ qs);
}.

(** Why the loop ends. *)
Definition stopped (ki ko : string) (e : IndexerError) (r : R) : Prop :=
  match e with
  | BrokerError_ err => (exists x, err = ConnectionError x) \/
      undecodable (P := RollupsInput) ki err r \/ undecodable (P := RollupsOutput) ko err r
  | RepositoryError x => unavailable x
  | JoinError_ _ => exists e p, e ∈ entries r ki /\ holds e p /\ too_late p
  | MigrationsError _ => False
  end.

(** A conclusion that holds on a condition. *)
Lemma wp_impl {S E A} (C : Prop) (m : M S E A) s Q (F : E -> S -> Prop) :
  is_panic (m s).1 = false -> (C -> wp m s Q F) -> wp m s (fun a s' => C -> Q a s') (fun e s' => C -> F e s').
Proof. unfold wp. destruct (m s) as [[a|e|] s']; cbn; [auto|auto|done]. Qed.

Lemma caused_more ps ps' q : caused ps q -> caused (ps ++ ps') q.
Proof. intros Hq k Hk. destruct (Hq k Hk) as (p & r & Hp & ?). exists p, r. split; [by apply elem_of_app; left|done]. Qed.

(** Progress: one more event, or everything that was there at the start. *)
Definition progress (ki ko : string) (fuel : nat) (r0 : R) (before after : nat) : Prop :=
  (before <= after)%nat /\
  ((0 < fuel)%nat -> (Nat.min (before + 1) (length (entries r0 ki) + length (entries r0 ko)) <= after)%nat).

Lemma grows_length r r' k : grows owned r r' -> (length (entries r k) <= length (entries r' k))%nat.
Proof. intros Hg. apply prefix_length, Hg. Qed.

Lemma indexed_grows ki ko ps0 qs0 r0 snaps ps qs st r r' d :
  indexed ki ko ps0 qs0 r0 snaps ps qs ((st, r), d) -> grows owned r r' ->
  indexed ki ko ps0 qs0 r0 snaps ps qs ((st, r'), d).
Proof.
  intros [Hst Hg0 Hsn Hpi Hpo Htab] Hg. split; cbn [fst snd] in *; try done.
  - by etrans.
  - eapply Forall_impl; [exact Hsn|]. intros x [? ?]. split; [done|by etrans].
  - by eapply read_to_grows.
  - by eapply read_to_grows.
Qed.

(** The state after an iteration, and the reasons for which one fails. *)
Definition advanced ki ko ps0 qs0 r0 snaps fuel (n : nat) (s' : (IndexerState * R) * D) : Prop :=
  exists snaps' ps' qs', indexed ki ko ps0 qs0 r0 snaps' ps' qs' s' /\
    snaps `prefix_of` snaps' /\ progress ki ko fuel r0 n (length ps' + length qs').

Definition failed ki ko r0 (e : IndexerError) (r' : R) : Prop :=
  exists snaps', Forall (fun r => grows owned r0 r /\ grows owned r r') snaps' /\
    (Forall (timely ki ko) snaps' -> stopped ki ko e r').

Lemma wp_input_consumed ki ko ps0 qs0 r0 snaps ps qs st r d ev st' fuel :
  indexed ki ko ps0 qs0 r0 snaps ps qs ((st, r), d) -> consumed st (Input ev) (st', r) ->
  wp (spawn_blocking (store_input (event_payload ev))) d
    (fun _ d' => advanced ki ko ps0 qs0 r0 snaps fuel (length ps + length qs) ((st', r), d'))
    (fun e _ => failed ki ko r0 e r).
Proof.
  intros [[Hki Hko] Hg0 Hsn Hpi Hpo Htab] (e & es & Hun & _ & Hh & Hst'). cbn [fst snd] in *.
  rewrite Hki in Hun. pose proof (read_to_next _ _ _ _ _ _ _ Hpi Hun Hh) as Hpi'.
  assert (Hin : e ∈ entries r ki) by (eapply entries_after_elem; rewrite Hun; left).
  eapply wp_mono; [apply (wp_impl (Forall (timely ki ko) snaps)); [apply spawn_blocking_safe|]| |].
  - intros Ht. destruct (Htab Ht) as [Hd Hc]. exact (wp_store_input (event_payload ev) d _ _ Hd Hc).
  - intros [] d' Hd'. exists snaps, (ps ++ [event_payload ev]), qs.
    split; [|split; [done|unfold progress; rewrite length_app; cbn; lia]].
    subst st'. split; cbn; try done.
    intros Ht. destruct (Htab Ht) as [_ Hc]. rewrite (assoc_L (++)). split; [by apply Hd'|].
    eapply Forall_impl; [exact Hc|]. intros q. apply caused_more.
  - intros e' d' Hf. exists snaps. split; [done|].
    intros Ht. destruct (Hf Ht) as [[(x & -> & Hx)|[-> Hl]] _]; [done|]. cbn. eauto.
Qed.

Lemma wp_output_consumed ki ko ps0 qs0 r0 snaps ps qs st r d ev st' fuel :
  indexed ki ko ps0 qs0 r0 snaps ps qs ((st, r), d) -> consumed st (Output ev) (st', r) ->
  wp (spawn_blocking (store_output (event_payload ev))) d
    (fun _ d' => advanced ki ko ps0 qs0 r0 snaps fuel (length ps + length qs) ((st', r), d'))
    (fun e _ => failed ki ko r0 e r).
Proof.
  intros [[Hki Hko] Hg0 Hsn Hpi Hpo Htab] (Hdone & e & es & Hun & _ & Hh & Hst'). cbn [fst snd] in *.
  rewrite Hki in Hdone. rewrite Hko in Hun. pose proof (read_to_next _ _ _ _ _ _ _ Hpo Hun Hh) as Hpo'.
  assert (Hin : e ∈ entries r ko) by (eapply entries_after_elem; rewrite Hun; left).
  assert (Hcause : Forall (timely ki ko) (snaps ++ [r]) -> caused (ps0 ++ ps) (event_payload ev)).
  { intros [_ [Ht _]%Forall_cons]%Forall_app. intros k Hk.
    destruct (timely_caused _ _ _ _ _ _ _ Ht Hpi Hdone Hin Hh k Hk) as (p & row & Hp & ?).
    exists p, row. split; [by apply elem_of_app; right|done]. }
  assert (Hsn' : Forall (fun x => grows owned r0 x /\ grows owned x r) (snaps ++ [r])).
  { apply Forall_app. split; [done|by apply Forall_singleton]. }
  eapply wp_mono; [apply (wp_impl (Forall (timely ki ko) (snaps ++ [r]))); [apply spawn_blocking_safe|]| |].
  - intros Ht. destruct (Htab (proj1 (proj1 (Forall_app _ _ _) Ht))) as [Hd Hc].
    exact (wp_store_output (event_payload ev) d _ _ Hd (Hcause Ht)).
  - intros [] d' Hd'. exists (snaps ++ [r]), ps, (qs ++ [event_payload ev]).
    split; [|split; [by eexists|unfold progress; rewrite length_app; cbn; lia]].
    subst st'. split; cbn; try done.
    intros Ht. rewrite (assoc_L (++)). split; [by apply Hd'|].
    apply Forall_app. split; [|by apply Forall_singleton, Hcause].
    apply Forall_app in Ht as [Ht _]. by destruct (Htab Ht).
  - intros e' d' Hf. exists (snaps ++ [r]). split; [done|].
    intros Ht. by destruct (Hf Ht) as [[(x & -> & Hx)|[-> []]] _].
Qed.

Lemma wp_iteration timeout fuel ki ko ps0 qs0 r0 snaps ps qs s :
  ki <> ko -> indexed ki ko ps0 qs0 r0 snaps ps qs s ->
  wp (iteration timeout fuel) s
    (fun _ s' => advanced ki ko ps0 qs0 r0 snaps fuel (length ps + length qs) s')
    (fun e s' => failed ki ko r0 e s'.1.2).
Proof.
  destruct s as [[st r] d]. intros Hne Hix. pose proof (ix_streams _ _ _ _ _ _ _ _ _ Hix) as [Hki Hko].
  cbn [fst snd] in *. unfold iteration. wp_run. eapply wp_mono; [apply wp_consume_event; congruence| |].
  2:{ intros e [st' r'] (Hg & err & -> & Herr). exists []. split; [done|]. intros _. cbn in *.
      destruct Herr as [?|Hu]; [by left|right]. unfold undecodable_event in Hu. by rewrite Hki, Hko in Hu. }
  intros o [st' r'] [Hg Ho]. apply (indexed_grows _ _ _ _ _ _ _ _ _ _ _ _ Hix) in Hg as Hix'.
  destruct o as [[ev|ev]|]; wp_run; [by eapply wp_input_consumed|by eapply wp_output_consumed|].
  destruct Ho as [Hst Hf]. cbn in Hst. subst st'. exists snaps, ps, qs. split; [done|]. split; [done|].
  split; [done|]. intros Hpos. destruct Hf as [[-> _]|[Hi Ho]]; [lia|].
  destruct Hix' as [_ Hg0 _ Hpi Hpo _]. cbn [fst snd] in *. rewrite Hki in Hi. rewrite Hko in Ho.
  apply (read_to_done _ _ _ _ Hpi), Forall2_length in Hi. apply (read_to_done _ _ _ _ Hpo), Forall2_length in Ho.
  pose proof (grows_length _ _ ki Hg0). pose proof (grows_length _ _ ko Hg0). lia.
Qed.

Lemma wp_indexer_loop timeout fuel ki ko ps0 qs0 r0 n snaps ps qs s :
  ki <> ko -> indexed ki ko ps0 qs0 r0 snaps ps qs s ->
  wp (main_loop timeout fuel n) s
    (fun _ s' => exists snaps' ps' qs', indexed ki ko ps0 qs0 r0 snaps' ps' qs' s' /\
       ((0 < fuel)%nat ->
        (Nat.min (length ps + length qs + n) (length (entries r0 ki) + length (entries r0 ko))
         <= length ps' + length qs')%nat))
    (fun e s' => failed ki ko r0 e s'.1.2).
Proof.
  intros Hne. revert snaps ps qs s. induction n as [|n IH]; intros snaps ps qs s Hix; cbn [main_loop].
  { wp_run. exists snaps, ps, qs. split; [done|]. lia. }
  wp_run. eapply wp_mono; [by apply wp_iteration| |done].
  intros [] s' (snaps' & ps' & qs' & Hix' & _ & Hle & Hpr).
  eapply wp_mono; [by eapply IH| |done].
  intros [] s'' (snaps'' & ps'' & qs'' & Hix'' & Hpr'). exists snaps'', ps'', qs''. split; [done|]. lia.
Qed.

(** What a run of the indexer leaves, started in [r] with a database that holds
    the mirror of [ps0] and [qs0]. *)
Definition mirrored (ki ko : string) ps0 qs0 (r : R) (fuel n : nat) (s' : R * D) : Prop :=
  exists snaps ps qs,
    grows owned r s'.1 /\ Forall (fun x => grows owned r x /\ grows owned x s'.1) snaps /\
    (exists pre, pre `prefix_of` entries s'.1 ki /\ Forall2 holds pre ps) /\
    (exists pre, pre `prefix_of` entries s'.1 ko /\ Forall2 holds pre qs) /\
    ((0 < fuel)%nat ->
     (Nat.min n (length (entries r ki) + length (entries r ko)) <= length ps + length qs)%nat) /\
    (Forall (timely ki ko) snaps ->
     tables s'.2 = mirror (ps0 ++ ps) (qs0 ++ qs) /\ Forall (caused (ps0 ++ ps)) (qs0 ++ qs)).

Lemma wp_with_indexer `{HexCrateLaws} timeout fuel n metadata ps0 qs0 r d :
  let ki := RollupsInputsStream_new metadata in
  let ko := RollupsOutputsStream_new metadata in
  tables d = mirror ps0 qs0 -> Forall (caused ps0) qs0 ->
  wp (with_indexer timeout (BrokerIndexer.new metadata) fuel n) (r, d)
    (fun _ s' => mirrored ki ko ps0 qs0 r fuel n s') (fun e s' => failed ki ko r e s'.1).
Proof.
  intros ki ko Hd Hc. assert (Hne : ki <> ko).
  { intros [_ E]%(proj1 (stream_keys_distinct metadata metadata _ _ 0 0)). done. }
  assert (Hix : indexed ki ko ps0 qs0 r [] [] [] ((BrokerIndexer.new metadata, r), d)).
  { split; cbn; try done; [by apply read_to_start..|]. by rewrite !app_nil_r. }
  pose proof (wp_indexer_loop timeout fuel ki ko ps0 qs0 r n [] [] [] _ Hne Hix) as Hrun.
  unfold wp, with_indexer in *. cbn [fst snd] in *.
  destruct (main_loop timeout fuel n _) as [[[]|e|] [[st' r'] d']]; [|done|done].
  destruct Hrun as (snaps & ps & qs & [_ Hg Hsn (pre & post & Hi & _ & Hps) (pre' & post' & Ho & _ & Hqs) Ht] & Hpr).
  cbn [fst snd] in *. exists snaps, ps, qs. split; [done|]. split; [done|].
  split; [exists pre; split; [by exists post|done]|].
  split; [exists pre'; split; [by exists post'|done]|]. done.
Qed.

Lemma mirrored_grows ki ko ps0 qs0 r r1 fuel n s' :
  grows owned r r1 -> mirrored ki ko ps0 qs0 r1 fuel n s' -> mirrored ki ko ps0 qs0 r fuel n s'.
Proof.
  intros Hg (snaps & ps & qs & Hg1 & Hsn & Hi & Ho & Hpr & Ht). exists snaps, ps, qs.
  split; [by etrans|]. split; [|do 2 (split; [done|]); split; [|done]].
  - eapply Forall_impl; [exact Hsn|]. intros x [? ?]. split; [by etrans|done].
  - pose proof (grows_length _ _ ki Hg). pose proof (grows_length _ _ ko Hg). lia.
Qed.

Lemma failed_grows ki ko r r1 e r' : grows owned r r1 -> failed ki ko r1 e r' -> failed ki ko r e r'.
Proof.
  intros Hg (snaps & Hsn & Ht). exists snaps. split; [|done].
  eapply Forall_impl; [exact Hsn|]. intros x [? ?]. split; [by etrans|done].
Qed.

Section Start.
Context `{HexCrateLaws}.
Variables (timeout : Z) (fuel n : nat) (metadata : DAppMetadata).
Variables (repository_config : RepositoryConfig) (redis_endpoint : BrokerEndpoint).
Variable pg_establish : string -> M D string unit.
Variable run_pending_migrations : M D string unit.
Variable connect_single : string -> M R RedisError unit.
Variable connect_cluster : list string -> M R RedisError unit.
(** Connecting, and the migrations, leave the rows that are there alone. *)
Hypothesis pg_establish_keeps : forall e d,
  wp (pg_establish e) d (fun _ d' => tables d' = tables d) (fun _ d' => tables d' = tables d).
Hypothesis migrations_keep : forall d,
  wp run_pending_migrations d (fun _ d' => tables d' = tables d) (fun _ d' => tables d' = tables d).
(** Connecting adds nothing to a stream. *)
Hypothesis connect_single_keeps : connects (owned := owned) connect_single.
Hypothesis connect_cluster_keeps : connects (owned := owned) connect_cluster.

Abbreviation run := (start timeout pg_establish run_pending_migrations connect_single connect_cluster
  repository_config redis_endpoint metadata fuel n).
Abbreviation ki := (RollupsInputsStream_new metadata).
Abbreviation ko := (RollupsOutputsStream_new metadata).

Lemma wp_repository_new d Q F :
  (forall d', tables d' = tables d -> Q tt d') ->
  (forall x d', tables d' = tables d -> F (DataError.DatabaseConnectionError x) d') ->
  wp (Repository.new repository_config) d Q F.
Proof.
  intros HQ HF. unfold Repository.new. wp_run. apply (wp_retry (fun d' => tables d' = tables d)); [done|].
  intros d1 E1. wp_run. eapply wp_mono; [apply (pool_build_spec d1)|..]; cbn.
  - intros [] d' E2. apply HQ. congruence.
  - intros x d' E2. split; [congruence|]. apply HF. congruence.
Qed.

(** The setup leaves the rows and the streams alone. *)
Lemma wp_indexer_setup r d :
  wp (setup pg_establish run_pending_migrations connect_single connect_cluster repository_config redis_endpoint
        metadata) (r, d)
    (fun st s' => (grows owned r s'.1 /\ tables s'.2 = tables d) /\ st = BrokerIndexer.new metadata)
    (fun e s' => (grows owned r s'.1 /\ tables s'.2 = tables d) /\
       ((exists x, e = MigrationsError x) \/ stopped ki ko e s'.1)).
Proof.
  unfold setup, run_migrations. wp_run. eapply wp_mono; [apply pg_establish_keeps| |].
  2:{ intros e d0 E0. split; [done|]. left. by eexists. }
  intros [] d0 E0. wp_run. eapply wp_mono; [apply migrations_keep| |].
  2:{ intros e d1 E1. cbn. split; [split; [done|congruence]|]. left. by eexists. }
  intros [] d1 E1. wp_run. apply wp_repository_new.
  2:{ intros x d2 E2. cbn. split; [split; [done|congruence]|]. right. done. }
  intros d2 E2. wp_run. apply (wp_broker_new redis_endpoint _ _ _ _ _ connect_single_keeps connect_cluster_keeps).
  - intros r1 G1. wp_run. split; [split; [done|congruence]|done].
  - intros x r1 G1. cbn. split; [split; [done|congruence]|]. right. left. by eexists.
Qed.

Lemma wp_indexer_start ps0 qs0 r d :
  tables d = mirror ps0 qs0 -> Forall (caused ps0) qs0 ->
  wp run (r, d) (fun _ s' => mirrored ki ko ps0 qs0 r fuel n s')
    (fun e s' => (exists x, e = MigrationsError x) \/ failed ki ko r e s'.1).
Proof.
  intros Hd Hc. unfold start. rewrite wp_bind. eapply wp_mono; [apply wp_indexer_setup| |].
  - intros st [r1 d1] [[G1 E1] ->]. cbn in G1, E1.
    eapply wp_mono; [apply (wp_with_indexer timeout fuel n metadata ps0 qs0 r1 d1); [congruence|done]| |].
    + intros [] s'. by apply mirrored_grows.
    + intros e s' Hf. right. by eapply failed_grows.
  - intros e [r1 d1] [_ [?|Hs]]; [by left|right]. by exists [].
Qed.

(** C10. The indexer keeps the database equal to the mirror of the streams: from
    an empty database, [n] events later (or when there are no more) the tables
    hold the rows of the inputs and outputs read so far, in the order of the
    streams, whatever the interleaving of the two streams and however they grow
    meanwhile, provided that the broker never shows an output before its input.
    In particular no foreign key is violated; the loop ends only because of a
    lost connection, an event that cannot be decoded or a timestamp beyond the
    range of [SystemTime]. *)
Theorem indexer_mirrors_streams r d :
  tables d = empty_tables ->
  wp run (r, d) (fun _ s' => mirrored ki ko [] [] r fuel n s')
    (fun e s' => (exists x, e = MigrationsError x) \/ failed ki ko r e s'.1).
Proof. intros Hd. by apply wp_indexer_start. Qed.

(** A restarted indexer, which reads both streams again from the beginning
    on top of a database that holds the mirror of [ps0] and [qs0], converges:
    as soon as it has read those events again, the tables are the mirror of
    what it has read, as if it had not been interrupted. *)
Theorem indexer_restart_converges ps0 qs0 r d :
  tables d = mirror ps0 qs0 -> Forall (caused ps0) qs0 ->
  wp run (r, d)
    (fun _ s' => exists snaps ps qs,
       (Forall (timely ki ko) snaps -> ps0 `prefix_of` ps -> qs0 `prefix_of` qs ->
        tables s'.2 = mirror ps qs) /\
       Forall (fun x => grows owned r x /\ grows owned x s'.1) snaps /\
       (exists pre, pre `prefix_of` entries s'.1 ki /\ Forall2 holds pre ps) /\
       (exists pre, pre `prefix_of` entries s'.1 ko /\ Forall2 holds pre qs) /\
       ((0 < fuel)%nat ->
        (Nat.min n (length (entries r ki) + length (entries r ko)) <= length ps + length qs)%nat))
    (fun e s' => (exists x, e = MigrationsError x) \/ failed ki ko r e s'.1).
Proof.
  intros Hd Hc. eapply wp_mono; [by apply wp_indexer_start| |done].
  intros [] s' (snaps & ps & qs & _ & Hsn & Hi & Ho & Hpr & Ht). exists snaps, ps, qs. split; [|done].
  intros Htimely [ps1 ->] [qs1 ->]. rewrite (proj1 (Ht Htimely)). apply mirror_again.
Qed.

(** The events of the streams are what their types say. *)
Definition streams_typed (r : R) : Prop :=
  (forall e (p : RollupsInput), e ∈ entries r ki -> holds e p -> input_typed p) /\
  (forall e (q : RollupsOutput), e ∈ entries r ko -> holds e q -> output_typed q).

Lemma read_typed {P} `{Json P} (T : P -> Prop) (es pre : list StreamId) (xs : list P) :
  (forall e x, e ∈ es -> holds e x -> T x) -> pre `prefix_of` es -> Forall2 holds pre xs -> Forall T xs.
Proof.
  intros HT [post ->] Hxs. apply Forall_lookup. intros i x Hx.
  destruct (Forall2_lookup_r _ _ _ _ _ Hxs Hx) as (e & He & Hh). eapply HT; [|done].
  apply elem_of_app. left. by eapply list_elem_of_lookup_2.
Qed.

(** C24. The database that the indexer fills is well typed: every row is stored
    under its primary key and refers to an input that is there, its integer
    columns are in the range of their SQL types whatever the [u64] they were
    cast from, addresses have 20 bytes, hashes 32, and no sibling of a proof
    is NULL. *)
Theorem indexer_tables_typed r d :
  tables d = empty_tables ->
  wp run (r, d)
    (fun _ s' => exists snaps, Forall (fun x => grows owned r x /\ grows owned x s'.1) snaps /\
       (Forall (timely ki ko) snaps -> tables_ok (tables s'.2) /\
        (streams_typed s'.1 -> rows_typed (tables s'.2))))
    (fun e s' => (exists x, e = MigrationsError x) \/ failed ki ko r e s'.1).
Proof.
  intros Hd. eapply wp_mono; [by apply (wp_indexer_start [] [])| |done].
  intros [] s' (snaps & ps & qs & _ & Hsn & (pre & Hpre & Hps) & (pre' & Hpre' & Hqs) & _ & Ht).
  exists snaps. split; [done|]. intros Htimely. destruct (Ht Htimely) as [-> Hc]. split; [by apply mirror_ok|].
  intros [Hi Ho]. apply mirror_typed; [exact (read_typed _ _ _ _ Hi Hpre Hps)|exact (read_typed _ _ _ _ Ho Hpre' Hqs)].
Qed.
End Start.
End LoopTheorems.

(** ** Witnesses *)

Module IndexerWitness.
Import HexRef RetryRef RedisRef JsonRef PostgresRef Indexer.

Definition advance : RollupsInput :=
  mkRollupsInput INITIAL_ID 0 1 (AdvanceStateInput (mkRollupsAdvanceStateInput
    (mkInputMetadata (zeros 20) 7 1700000000 0 0) [x01] (zeros 32))).
Definition accepted : RollupsOutput := AdvanceResult (mkRollupsAdvanceResult 0 Accepted).

(** One input, its notice and its result. *)
Definition streams : RedisRef.state :=
  ((Broker.produce (RollupsInputsStream_new sample_metadata) advance ;;
    Broker.produce (RollupsOutputsStream_new sample_metadata) sample_notice ;;
    Broker.produce (RollupsOutputsStream_new sample_metadata) accepted) ∅).2.

Definition config : RepositoryConfig := mkRepositoryConfig None 3 120000.

Definition sample_run (n : nat) : M (RedisRef.state * Tables) IndexerError unit :=
  start 5000 (fun _ => mret tt) (mret tt) (fun _ => mret tt) (fun _ => mret tt)
    config (Single "redis://") sample_metadata 1 n.

Lemma indexer_mirrors_streams_witness :
  (sample_run 3 (streams, empty_tables)).2.2 = mirror [advance] [sample_notice; accepted] /\
  wp (sample_run 3) (streams, empty_tables)
    (fun _ s' => mirrored (tables := id) (owned := sole_producer) (RollupsInputsStream_new sample_metadata)
       (RollupsOutputsStream_new sample_metadata) [] [] streams 1 3 s')
    (fun e s' => (exists x, e = MigrationsError x) \/
       failed (owned := sole_producer) (RollupsInputsStream_new sample_metadata)
         (RollupsOutputsStream_new sample_metadata) streams e s'.1).
Proof.
  split; [vm_compute; reflexivity|].
  apply (indexer_mirrors_streams (tables := id) (owned := sole_producer) 5000 1 3 sample_metadata config
    (Single "redis://") (fun _ => mret tt) (mret tt) (fun _ => mret tt) (fun _ => mret tt)); [by hnf; intros; apply wp_ret..|reflexivity].
Defined.

(** The first run stopped after the notice; the second reads everything again. *)
Lemma indexer_restart_converges_witness :
  exists d, d = (sample_run 2 (streams, empty_tables)).2.2 /\
    wp (sample_run 3) (streams, d)
      (fun _ s' => exists snaps ps qs,
         Forall (timely (RollupsInputsStream_new sample_metadata) (RollupsOutputsStream_new sample_metadata)) snaps ->
         [advance] `prefix_of` ps -> [sample_notice] `prefix_of` qs -> s'.2 = mirror ps qs)
      (fun _ _ => True).
Proof.
  eexists. split; [reflexivity|].
  eapply wp_mono; [apply (indexer_restart_converges (tables := id) (owned := sole_producer) 5000 1 3 sample_metadata config
    (Single "redis://") (fun _ => mret tt) (mret tt) (fun _ => mret tt) (fun _ => mret tt) 
    ltac:(by hnf; intros; apply wp_ret) ltac:(by hnf; intros; apply wp_ret) ltac:(by hnf; intros; apply wp_ret) ltac:(by hnf; intros; apply wp_ret)
    [advance] [sample_notice])| |done].
  - vm_compute. reflexivity.
  - apply Forall_singleton. intros k [= <-]. exists advance. eexists. split; [left|]. split; vm_compute; reflexivity.
  - intros a s' (snaps & ps & qs & Hm & _). exists snaps, ps, qs. exact Hm.
Defined.

Lemma indexer_tables_typed_witness :
  wp (sample_run 3) (streams, empty_tables)
    (fun _ s' => exists snaps : list RedisRef.state,
       Forall (timely (RollupsInputsStream_new sample_metadata) (RollupsOutputsStream_new sample_metadata)) snaps ->
       tables_ok s'.2)
    (fun _ _ => True).
Proof.
  eapply wp_mono; [apply (indexer_tables_typed (tables := id) (owned := sole_producer) 5000 1 3 sample_metadata config
    (Single "redis://") (fun _ => mret tt) (mret tt) (fun _ => mret tt) (fun _ => mret tt)); [by hnf; intros; apply wp_ret..|reflexivity]| |done].
  intros a s' (snaps & _ & Hs). exists snaps. intros Ht. by destruct (Hs Ht).
Defined.
End IndexerWitness.

