(* ===== verification/Claimer.v ===== *)
(** * The authority claimer

    [offchain/authority-claimer/src]: [listener.rs] (claims from the broker),
    [checker.rs] (claims already in the History contract), [sender.rs] (the
    transaction that submits a claim) and [claimer.rs] (the loop). The Ethereum
    provider, the contract bindings that the build generates, the ABI encoder
    and the transaction manager are parameters. *)

From S2P Require Import Prelude Codecs Retry Events Broker.

(** ** The chain *)

(** [contracts::history::Claim] *)
Record Claim := mkClaim {
  epoch_hash : Hash;
  first_index : Z;
  last_index : Z;
}.

Inductive NameOrAddress := Name (ens : string) | AddressOf (a : Address).

(** [eth_tx_manager::transaction::Transaction], with [Value::Nothing] *)
Record Transaction := mkTransaction {
  tx_from : Address;
  tx_to : Address;
  tx_call_data : option (list byte);
}.

Inductive Priority := Low | Normal | High | ASAP.

Inductive ProviderError := provider_error (detail : string).
Inductive ContractError := contract_error (detail : string).
Inductive TxManagerError :=
| NonceTooLow
| OtherTxError (detail : string).

(** The HTTP provider, the query of the events [NewClaimToHistory] of the
    History contract, and the transaction manager with its database. *)
Class Ethereum (C : Type) : Type := {
  get_block_number : M C ProviderError Z;
  query_new_claims (from_block to_block : Z) : M C ContractError (list (Address * Claim));
  tx_manager_new : M C TxManagerError unit;
  tx_manager_force_new : M C TxManagerError unit;
  send_transaction (tx : Transaction) (confirmations : Z) (priority : Priority) : M C TxManagerError unit;
}.

(** What can be said of the chain: its height, the claims with their blocks in
    the order of the log, and the transactions that this process asked for. *)
Class EthereumView (C : Type) : Type := {
  height : C -> Z;
  claim_log : C -> list (Z * (Address * Claim));
  requested : C -> list Transaction;
}.

(** [depth] is the number of confirmations after which a block is final. *)
Definition extends {C} `{EthereumView C} (depth : Z) (c c' : C) : Prop :=
  height c <= height c' /\
  (forall b, b <= height c - depth ->
     filter (fun e => e.1 <= b) (claim_log c') = filter (fun e => e.1 <= b) (claim_log c)).

Class EthereumLaws (C : Type) `{Ethereum C, EthereumView C} (depth : Z) : Prop := {
  claim_log_sorted c : StronglySorted (fun x y => x.1 <= y.1) (claim_log c);
  get_block_number_spec c :
    wp get_block_number c
      (fun n c' => extends depth c c' /\ requested c' = requested c /\ n = height c' /\ 0 <= n < 2 ^ 64 - 1)
      (fun _ c' => extends depth c c' /\ requested c' = requested c);
  query_spec c from_block to_block :
    wp (query_new_claims from_block to_block) c
      (fun l c' => extends depth c c' /\ requested c' = requested c /\
         l = snd <$> filter (fun e => from_block <= e.1 <= to_block) (claim_log c'))
      (fun _ c' => extends depth c c' /\ requested c' = requested c);
  (** At most a transaction of an earlier run is finished. *)
  tx_manager_new_spec c :
    wp tx_manager_new c (fun _ c' => extends depth c c' /\ requested c' = requested c)
      (fun _ c' => extends depth c c' /\ requested c' = requested c);
  tx_manager_force_new_spec c :
    wp tx_manager_force_new c (fun _ c' => extends depth c c' /\ requested c' = requested c)
      (fun _ c' => extends depth c c' /\ requested c' = requested c);
  send_spec c tx n p :
    wp (send_transaction tx n p) c
      (fun _ c' => extends depth c c' /\ requested c' = requested c ++ [tx])
      (fun _ c' => extends depth c c' /\ (requested c' = requested c \/ requested c' = requested c ++ [tx]));
}.

(** ** [DefaultBrokerListener] *)

Module Listener.
Inductive BrokerListenerError := ListenerBrokerError (source : BrokerError).

Record DefaultBrokerListener := mkListener {
  stream : string;
  last_claim_id : string;
}.

Definition set_last_claim_id (id : string) (l : DefaultBrokerListener) : DefaultBrokerListener :=
  mkListener (stream l) id.

Section Ops.
Context {R : Type} `{Redis R, Retry, Json RollupsClaim}.
Variable consume_timeout : Z.

Definition new (connect_single : string -> M R RedisError unit)
    (connect_cluster : list string -> M R RedisError unit)
    (redis_endpoint : BrokerEndpoint) (chain_id : Z) : M R BrokerError DefaultBrokerListener :=
  Broker.new connect_single connect_cluster redis_endpoint ;;
  mret (mkListener (RollupsClaimsStream_new chain_id) INITIAL_ID).

(** [None]: no claim in [fuel] polls of the broker. *)
Definition listen (fuel : nat) : M (DefaultBrokerListener * R) BrokerListenerError (option RollupsClaim) :=
  '(self, _) ← get;
  event ← on_snd (context ListenerBrokerError
    (Broker.consume_blocking consume_timeout fuel (stream self) (last_claim_id self)));
  match event with
  | Some event =>
      on_fst (modify (set_last_claim_id (event_id event))) ;;
      mret (Some (event_payload event))
  | None => mret None
  end.
End Ops.
End Listener.

(** ** [DefaultDuplicateChecker] *)

Module Checker.
Inductive DuplicateCheckerError :=
| ContractError_ (source : ContractError)
| ProviderError_ (source : ProviderError)
| DepthTooHigh (depth latest : Z)
| ClaimMismatch (expected_first_index claim_first_index claim_last_index : Z).

Record DefaultDuplicateChecker := mkChecker {
  claims : gmap Address (list Claim);
  confirmations : Z;
  next_block_to_read : Z;
}.

Section Ops.
Context {C : Type} `{Ethereum C}.
Abbreviation S := (DefaultDuplicateChecker * C)%type.

Definition append_claim (m : gmap Address (list Claim)) (new : Address * Claim) : gmap Address (list Claim) :=
  let '(dapp_address, new_claim) := new in
  match m !! dapp_address with
  | Some old_claims => <[dapp_address := old_claims ++ [new_claim]]> m
  | None => <[dapp_address := [new_claim]]> m
  end.

Definition append_claims (new_claims : list (Address * Claim)) (self : DefaultDuplicateChecker) : DefaultDuplicateChecker :=
  match new_claims with
  | [] => self
  | _ => mkChecker (foldl append_claim (claims self) new_claims) (confirmations self) (next_block_to_read self)
  end.

Definition set_next_block (b : Z) (self : DefaultDuplicateChecker) : DefaultDuplicateChecker :=
  mkChecker (claims self) (confirmations self) b.

Definition update_claims : M S DuplicateCheckerError unit :=
  '(self, _) ← get;
  let depth := confirmations self in
  latest ← on_snd (context ProviderError_ get_block_number);
  lift (ensure (depth <=? latest) (DepthTooHigh depth latest)) ;;
  let latest := latest ⊟ depth in
  if latest <? next_block_to_read self then mret tt
  else
    new_claims ← on_snd (context ContractError_ (query_new_claims (next_block_to_read self) latest));
    on_fst (modify (append_claims new_claims)) ;;
    on_fst (modify (set_next_block (latest ⊞ 1))).

(** [self.claims.get(dapp).map(|claims| claims.last()).flatten()
    .map(|claim| claim.last_index + 1).unwrap_or(0)]; the indices are [u128]. *)
Definition expected_first_index (claims : gmap Address (list Claim)) (dapp : Address) : Z :=
  match claims !! dapp ≫= last with
  | Some claim => wrap 128 (last_index claim + 1)
  | None => 0
  end.

Definition is_duplicated_rollups_claim (rollups_claim : RollupsClaim) : M S DuplicateCheckerError bool :=
  update_claims ;;
  '(self, _) ← get;
  let expected := expected_first_index (claims self) (rc_dapp_address rollups_claim) in
  if rc_first_index rollups_claim =? expected then mret false
  else if rc_last_index rollups_claim <? expected then mret true
  else fail (ClaimMismatch expected (rc_first_index rollups_claim) (rc_last_index rollups_claim)).

(** The provider URL and the contract address are part of the parameters. *)
Definition new (confirmations genesis_block : Z) : M C DuplicateCheckerError DefaultDuplicateChecker := fun c =>
  let '(o, (checker, c')) := update_claims (mkChecker ∅ confirmations genesis_block, c) in
  (match o with Ok _ => Ok checker | Err e => Err e | Panic => Panic end, c').
End Ops.
End Checker.

(** ** [DefaultTransactionSender] *)

Module Sender.
Inductive TransactionSenderError :=
| TransactionManagerError (source : TxManagerError)
| InternalEthers
| InternalConfig.

Inductive Token := TokenAddress (a : Address) | TokenFixedBytes (bs : list byte).

Record DefaultTransactionSender := mkSender {
  sender_confirmations : Z;
  priority : Priority;
  from : Address;
  chain_id : Z;
  (** [metrics.claims_sent], a counter per dapp *)
  claims_sent : gmap (Z * Address) Z;
}.

Section Ops.
Context {C : Type} `{Ethereum C}.
(** [ethers::abi::encode], the derived [Claim::encode], and the call
    [authority.submit_claim(data)]: its target and its data. *)
Variable abi_encode : list Token -> list byte.
Variable claim_encode : Claim -> list byte.
Variable submit_claim : list byte -> option NameOrAddress * option (list byte).

(** [impl From<SubmittableClaim> for Bytes] *)
Definition submittable_claim (dapp_address : Address) (claim : RollupsClaim) : list byte :=
  let claim := mkClaim (rc_epoch_hash claim) (rc_first_index claim) (rc_last_index claim) in
  abi_encode [TokenAddress dapp_address; TokenFixedBytes (claim_encode claim)].

Definition build_transaction (self : DefaultTransactionSender) (rollups_claim : RollupsClaim) :
    outcome TransactionSenderError Transaction :=
  let call := submit_claim (submittable_claim (rc_dapp_address rollups_claim) rollups_claim) in
  to ← ok_or call.1 InternalEthers;
  to ← match to with AddressOf a => Ok a | Name _ => Err InternalConfig end;
  Ok (mkTransaction (from self) to call.2).

(** [claims_sent.get_or_create(&DAppMetadata { .. }).inc()]; a counter is a [u64] *)
Definition count_sent (dapp_address : Address) (self : DefaultTransactionSender) : DefaultTransactionSender :=
  let key := (chain_id self, dapp_address) in
  mkSender (sender_confirmations self) (priority self) (from self) (chain_id self)
    (<[key := default 0 (claims_sent self !! key) ⊞ 1]> (claims_sent self)).

(** The sender is consumed and given back. *)
Definition send_rollups_claim_transaction (self : DefaultTransactionSender) (rollups_claim : RollupsClaim) :
    M C TransactionSenderError DefaultTransactionSender :=
  transaction ← lift (build_transaction self rollups_claim);
  context TransactionManagerError
    (send_transaction transaction (sender_confirmations self) (priority self)) ;;
  mret (count_sent (rc_dapp_address rollups_claim) self).

Definition create_tx_manager : M C TransactionSenderError unit := fun c =>
  match tx_manager_new c with
  | (Err NonceTooLow, c') => context TransactionManagerError tx_manager_force_new c'
  | (o, c') => (map_err TransactionManagerError o, c')
  end.

Definition new (confirmations : Z) (priority : Priority) (address : Address) (chain_id : Z) :
    M C TransactionSenderError DefaultTransactionSender :=
  create_tx_manager ;;
  mret (mkSender confirmations priority address chain_id ∅).
End Ops.
End Sender.

(** ** [DefaultClaimer] *)

Module Claimer.
Inductive ClaimerError :=
| BrokerListenerError_ (source : Listener.BrokerListenerError)
| DuplicatedClaimError (source : Checker.DuplicateCheckerError)
| TransactionSenderError_ (source : Sender.TransactionSenderError).

Record DefaultClaimer := mkClaimer {
  broker_listener : Listener.DefaultBrokerListener;
  duplicate_checker : Checker.DefaultDuplicateChecker;
  transaction_sender : Sender.DefaultTransactionSender;
}.

(** The claimer, the broker and the chain. *)
Record World (R C : Type) := mkWorld { claimer : DefaultClaimer; redis_state : R; chain : C }.
Arguments mkWorld {R C} claimer redis_state chain.
Arguments claimer {R C} _.
Arguments redis_state {R C} _.
Arguments chain {R C} _.

Section Ops.
Context {R C : Type} `{Redis R, Ethereum C, Retry, Json RollupsClaim}.
Variable consume_timeout : Z.
Variable abi_encode : list Sender.Token -> list byte.
Variable claim_encode : Claim -> list byte.
Variable submit_claim : list byte -> option NameOrAddress * option (list byte).
Abbreviation W := (World R C).

(** The three components of the claimer in its world. *)
Definition with_listener {E A} (m : M (Listener.DefaultBrokerListener * R) E A) : M W E A := fun w =>
  let '(o, (l, r)) := m (broker_listener (claimer w), redis_state w) in
  (o, mkWorld (mkClaimer l (duplicate_checker (claimer w)) (transaction_sender (claimer w))) r (chain w)).

Definition with_checker {E A} (m : M (Checker.DefaultDuplicateChecker * C) E A) : M W E A := fun w =>
  let '(o, (d, c)) := m (duplicate_checker (claimer w), chain w) in
  (o, mkWorld (mkClaimer (broker_listener (claimer w)) d (transaction_sender (claimer w))) (redis_state w) c).

Definition with_sender {E} (m : Sender.DefaultTransactionSender -> M C E Sender.DefaultTransactionSender) : M W E unit :=
  fun w =>
  match m (transaction_sender (claimer w)) (chain w) with
  | (Ok t, c) => (Ok tt, mkWorld (mkClaimer (broker_listener (claimer w)) (duplicate_checker (claimer w)) t) (redis_state w) c)
  | (Err e, c) => (Err e, mkWorld (claimer w) (redis_state w) c)
  | (Panic, c) => (Panic, mkWorld (claimer w) (redis_state w) c)
  end.

(** The body of the loop; it does nothing while no claim has come. *)
Definition iteration (fuel : nat) : M W ClaimerError unit :=
  rollups_claim ← with_listener (context BrokerListenerError_ (Listener.listen consume_timeout fuel));
  match rollups_claim with
  | None => mret tt
  | Some rollups_claim =>
      is_duplicated ← with_checker (context DuplicatedClaimError (Checker.is_duplicated_rollups_claim rollups_claim));
      if is_duplicated : bool then mret tt
      else with_sender (fun sender => context TransactionSenderError_
             (Sender.send_rollups_claim_transaction abi_encode claim_encode submit_claim sender rollups_claim))
  end.

(** [start]: the first [n] iterations of the loop *)
Fixpoint start (fuel n : nat) : M W ClaimerError unit :=
  match n with
  | O => mret tt
  | S n => iteration fuel ;; start fuel n
  end.

(** [lib.rs]: the components are created and the loop is started; the HTTP
    server that runs beside it is left out. *)
Inductive RunError :=
| RunBroker (source : BrokerError)
| RunChecker (source : Checker.DuplicateCheckerError)
| RunSender (source : Sender.TransactionSenderError)
| RunClaimer (source : ClaimerError).

Variable connect_single : string -> M R RedisError unit.
Variable connect_cluster : list string -> M R RedisError unit.

Definition run_loop (c : DefaultClaimer) (fuel n : nat) : M (R * C) RunError unit := fun s =>
  let '(o, w) := start fuel n (mkWorld c s.1 s.2) in
  (map_err RunClaimer o, (redis_state w, chain w)).

Definition run (redis_endpoint : BrokerEndpoint) (chain_id default_confirmations genesis_block : Z)
    (priority : Priority) (signer_address : Address) (fuel n : nat) : M (R * C) RunError unit :=
  broker_listener ← on_fst (context RunBroker
    (Listener.new connect_single connect_cluster redis_endpoint chain_id));
  duplicate_checker ← on_snd (context RunChecker (Checker.new default_confirmations genesis_block));
  transaction_sender ← on_snd (context RunSender
    (Sender.new default_confirmations priority signer_address chain_id));
  run_loop (mkClaimer broker_listener duplicate_checker transaction_sender) fuel n.
End Ops.
End Claimer.

(** ** The claims of the chain *)

Definition claims_of (a : Address) (l : list (Address * Claim)) : list Claim :=
  snd <$> filter (fun x => x.1 = a) l.

(** The first input that the next claim of [a] has to cover. *)
Definition next_index (a : Address) (l : list (Address * Claim)) : Z :=
  match last (claims_of a l) with Some c => wrap 128 (last_index c + 1) | None => 0 end.

Definition grouped (m : gmap Address (list Claim)) (l : list (Address * Claim)) : Prop :=
  forall a, m !! a = match claims_of a l with [] => None | cs => Some cs end.

Lemma claims_of_snoc a l b c :
  claims_of a (l ++ [(b, c)]) = claims_of a l ++ (if decide (b = a) then [c] else []).
Proof.
  unfold claims_of. rewrite filter_app, fmap_app. f_equal. rewrite filter_cons. cbn. by case_decide.
Qed.

Lemma grouped_append m l new : grouped m l -> grouped (Checker.append_claim m new) (l ++ [new]).
Proof.
  destruct new as [b c]. intros Hm a. rewrite claims_of_snoc. unfold Checker.append_claim.
  pose proof (Hm b) as Hb. case_decide as Hab.
  - subst a. destruct (claims_of b l) as [|x xs]; rewrite Hb, lookup_insert_eq; done.
  - rewrite app_nil_r, <- Hm. destruct (m !! b); by rewrite lookup_insert_ne.
Qed.

Lemma grouped_appends new m l : grouped m l -> grouped (foldl Checker.append_claim m new) (l ++ new).
Proof.
  revert m l. induction new as [|x new IH]; intros m l Hm; cbn; [by rewrite app_nil_r|].
  rewrite (cons_middle x l new), (assoc_L (++)). by apply IH, grouped_append.
Qed.

Lemma grouped_expected m l a : grouped m l -> Checker.expected_first_index m a = next_index a l.
Proof.
  intros Hm. unfold Checker.expected_first_index, next_index. rewrite Hm.
  by destruct (claims_of a l) as [|x xs].
Qed.

(** ** Properties of the checker *)

Section CheckerTheorems.
Context {C : Type} `{EL : EthereumLaws C depth}.
Context (genesis : Z).
Import Checker.

#[local] Instance extends_preorder : PreOrder (extends (C := C) depth).
Proof.
  split.
  - intros c. split; [lia|done].
  - intros c1 c2 c3 [H12 E12] [H23 E23]. split; [lia|]. intros b Hb. rewrite E23, E12 by lia. done.
Qed.

(** The claims from the genesis block to the block [b]. *)
Definition claims_to (b : Z) (c : C) : list (Address * Claim) :=
  snd <$> filter (fun e => genesis <= e.1 <= b) (claim_log c).

(** The claims that are final. *)
Definition confirmed (c : C) : list (Address * Claim) := claims_to (height c - depth) c.

Lemma claims_to_extends b c c' : extends depth c c' -> b <= height c - depth -> claims_to b c' = claims_to b c.
Proof.
  intros [_ He] Hb. unfold claims_to. f_equal.
  assert (Hf : forall l : list (Z * (Address * Claim)),
    filter (fun e => genesis <= e.1 <= b) l = filter (fun e => genesis <= e.1) (filter (fun e => e.1 <= b) l)).
  { intros l. rewrite list_filter_filter. apply list_filter_iff. intros x. lia. }
  by rewrite !Hf, He.
Qed.

Lemma claims_to_split b b' c :
  b <= b' -> genesis <= b + 1 ->
  claims_to b' c = claims_to b c ++ (snd <$> filter (fun e => b + 1 <= e.1 <= b') (claim_log c)).
Proof.
  intros Hb Hg. unfold claims_to. rewrite <- fmap_app. f_equal.
  assert (Hf : forall l : list (Z * (Address * Claim)), filter (fun e => genesis <= e.1 <= b') l =
    filter (fun e => e.1 <= b') (filter (fun e => genesis <= e.1) l)).
  { intros l. rewrite list_filter_filter. apply list_filter_iff. intros x. lia. }
  assert (Hf' : forall l : list (Z * (Address * Claim)), filter (fun e => genesis <= e.1 <= b) l =
    filter (fun e => e.1 <= b) (filter (fun e => genesis <= e.1) l)).
  { intros l. rewrite list_filter_filter. apply list_filter_iff. intros x. lia. }
  rewrite Hf, Hf', (filter_le_split fst _ b b').
  - f_equal. rewrite list_filter_filter. apply list_filter_iff. intros x. lia.
  - apply StronglySorted_filter, claim_log_sorted.
  - done.
Qed.

(** The checker has read the claims of the blocks before [next_block_to_read]. *)
Record synced (self : DefaultDuplicateChecker) (c : C) : Prop := {
  sy_depth : confirmations self = depth;
  sy_genesis : genesis <= next_block_to_read self;
  sy_final : next_block_to_read self = genesis \/ next_block_to_read self - 1 <= height c - depth;
  sy_claims : grouped (claims self) (claims_to (next_block_to_read self - 1) c);
}.

Lemma synced_extends self c c' : extends depth c c' -> synced self c -> synced self c'.
Proof.
  intros He [Hd Hg Hf Hc]. split; [done|done|destruct Hf, He; [by left|right; lia]|].
  destruct Hf as [Hn|Hf]; [|by rewrite (claims_to_extends _ c) by done].
  unfold claims_to in *. rewrite (filter_none _ (claim_log c')); [|intros x _; lia].
  by rewrite (filter_none _ (claim_log c)) in Hc by (intros x _; lia).
Qed.

Context (depth_nonneg : 0 <= depth).

(** The checker is up to date with the claims that were final in [c1]. *)
Definition up_to_date (c c1 : C) (s' : DefaultDuplicateChecker * C) : Prop :=
  synced s'.1 s'.2 /\ requested s'.2 = requested c /\
  extends depth c c1 /\ extends depth c1 s'.2 /\ grouped (claims s'.1) (confirmed c1).

Definition check_failed (c : C) (self : DefaultDuplicateChecker) (e : DuplicateCheckerError)
    (s' : DefaultDuplicateChecker * C) : Prop :=
  s'.1 = self /\ requested s'.2 = requested c /\ extends depth c s'.2 /\
  match e with
  | ContractError_ _ | ProviderError_ _ => True
  | DepthTooHigh d latest => d = depth /\ latest < depth
  | ClaimMismatch _ _ _ => False
  end.

Lemma wp_update_claims self c :
  synced self c ->
  wp update_claims (self, c) (fun _ s' => exists c1, up_to_date c c1 s') (check_failed c self).
Proof.
  intros Hs. pose proof (sy_depth _ _ Hs) as Hd. unfold update_claims. wp_run. cbn. wp_run.
  eapply wp_mono; [apply get_block_number_spec| |].
  2:{ intros e c' [He Hr]. repeat split; try done; apply He. }
  intros n c1 (He & Hr & -> & Hn). wp_run. unfold ensure. rewrite Hd.
  destruct (depth <=? height c1) eqn:El; wp_run.
  2:{ apply Z.leb_gt in El. repeat split; try done; apply He. }
  apply Z.leb_le in El. rewrite u64_sub_small by (unfold is_u64; lia).
  pose proof (synced_extends self c c1 He Hs) as [_ Hg Hf Hc].
  destruct (height c1 - depth <? next_block_to_read self) eqn:En; wp_run.
  - apply Z.ltb_lt in En. exists c1. split; [by eapply synced_extends|]. do 2 (split; [done|]).
    split; [done|]. cbn [fst snd]. destruct Hf as [Hn'|Hf].
    + unfold confirmed, claims_to in *. rewrite filter_none in Hc |- * by (intros x _; lia). done.
    + unfold confirmed. by replace (height c1 - depth) with (next_block_to_read self - 1) by lia.
  - apply Z.ltb_ge in En. eapply wp_mono; [apply query_spec| |].
    2:{ intros e c2 [He2 Hr2]. split; [done|]. split; [cbn; by rewrite Hr2|]. split; [by etrans|done]. }
    intros l c2 (He2 & Hr2 & ->). wp_run. rewrite u64_add_small by (unfold is_u64; lia).
    exists c1. assert (Hgroup : grouped (claims (append_claims (snd <$> filter
        (fun e => next_block_to_read self <= e.1 <= height c1 - depth) (claim_log c2)) self))
        (claims_to (height c1 - depth) c2)).
    { rewrite (claims_to_split (next_block_to_read self - 1)) by lia.
      replace (next_block_to_read self - 1 + 1) with (next_block_to_read self) by lia.
      destruct (synced_extends self c1 c2 He2 ltac:(by split)) as [_ _ _ Hc2].
      destruct (snd <$> filter _ (claim_log c2)) as [|x xs]; [by rewrite app_nil_r|]. by apply grouped_appends. }
    assert (Hconf : confirmations (append_claims (snd <$> filter
        (fun e => next_block_to_read self <= e.1 <= height c1 - depth) (claim_log c2)) self) = depth).
    { by destruct (snd <$> _). }
    split; [split; cbn|].
    + done.
    + lia.
    + right. destruct He2. lia.
    + by replace (height c1 - depth + 1 - 1) with (height c1 - depth) by lia.
    + cbn [fst snd]. split; [by rewrite Hr2|]. do 2 (split; [done|]). cbn.
      unfold confirmed. by rewrite <- (claims_to_extends _ c1 c2 He2) by lia.
Qed.

(** What a verdict of the checker means. *)
Definition verdict (claim : RollupsClaim) (duplicated : bool) (l : list (Address * Claim)) : Prop :=
  if duplicated
  then rc_first_index claim <> next_index (rc_dapp_address claim) l /\
       rc_last_index claim < next_index (rc_dapp_address claim) l
  else rc_first_index claim = next_index (rc_dapp_address claim) l.

Definition mismatch (claim : RollupsClaim) (l : list (Address * Claim)) (e : DuplicateCheckerError) : Prop :=
  rc_first_index claim <> next_index (rc_dapp_address claim) l /\
  next_index (rc_dapp_address claim) l <= rc_last_index claim /\
  e = ClaimMismatch (next_index (rc_dapp_address claim) l) (rc_first_index claim) (rc_last_index claim).

Lemma wp_is_duplicated self c claim :
  synced self c ->
  wp (is_duplicated_rollups_claim claim) (self, c)
    (fun b s' => exists c1, up_to_date c c1 s' /\ verdict claim b (confirmed c1))
    (fun e s' => check_failed c self e s' \/
       exists c1, up_to_date c c1 s' /\ mismatch claim (confirmed c1) e).
Proof.
  intros Hs. unfold is_duplicated_rollups_claim. wp_run.
  eapply wp_mono; [by apply wp_update_claims| |by left].
  intros [] [self' c'] (c1 & Hu). wp_run. cbn. pose proof Hu as (_ & _ & _ & _ & Hg). cbn in Hg.
  rewrite (grouped_expected _ _ _ Hg). unfold verdict, mismatch.
  destruct (rc_first_index claim =? _) eqn:E1; [apply Z.eqb_eq in E1|apply Z.eqb_neq in E1]; wp_run.
  - exists c1. done.
  - destruct (rc_last_index claim <? _) eqn:E2; [apply Z.ltb_lt in E2|apply Z.ltb_ge in E2]; wp_run.
    + exists c1. done.
    + right. exists c1. done.
Qed.
End CheckerTheorems.

(** ** Properties of the claimer *)

Ltac world := cbn [Claimer.claimer Claimer.chain Claimer.redis_state Claimer.broker_listener
  Claimer.duplicate_checker Claimer.transaction_sender].

Section ClaimerTheorems.
Context {R C : Type} `{RL : RedisLaws R} `{EL : EthereumLaws C depth} `{RT : RetryLaws} `{JC : JsonLaws RollupsClaim}.
Context (genesis : Z) (depth_nonneg : 0 <= depth).
Variable abi_encode : list Sender.Token -> list byte.
Variable claim_encode : Claim -> list byte.
Variable submit_claim : list byte -> option NameOrAddress * option (list byte).
Import Claimer.
Existing Instance extends_preorder.
Abbreviation W := (World R C).
Implicit Types w : W.

Lemma wp_with_listener {E A} (m : M (Listener.DefaultBrokerListener * R) E A) w Q F :
  wp (with_listener m) w Q F <->
  wp m (broker_listener (claimer w), redis_state w)
    (fun a s => Q a (mkWorld (mkClaimer s.1 (duplicate_checker (claimer w)) (transaction_sender (claimer w))) s.2 (chain w)))
    (fun e s => F e (mkWorld (mkClaimer s.1 (duplicate_checker (claimer w)) (transaction_sender (claimer w))) s.2 (chain w))).
Proof. unfold wp, with_listener. by destruct (m _) as [[] []]. Qed.

Lemma wp_with_checker {E A} (m : M (Checker.DefaultDuplicateChecker * C) E A) w Q F :
  wp (with_checker m) w Q F <->
  wp m (duplicate_checker (claimer w), chain w)
    (fun a s => Q a (mkWorld (mkClaimer (broker_listener (claimer w)) s.1 (transaction_sender (claimer w))) (redis_state w) s.2))
    (fun e s => F e (mkWorld (mkClaimer (broker_listener (claimer w)) s.1 (transaction_sender (claimer w))) (redis_state w) s.2)).
Proof. unfold wp, with_checker. by destruct (m _) as [[] []]. Qed.

Lemma wp_with_sender {E} (m : Sender.DefaultTransactionSender -> M C E Sender.DefaultTransactionSender) w Q F :
  wp (with_sender m) w Q F <->
  wp (m (transaction_sender (claimer w))) (chain w)
    (fun t c => Q tt (mkWorld (mkClaimer (broker_listener (claimer w)) (duplicate_checker (claimer w)) t) (redis_state w) c))
    (fun e c => F e (mkWorld (claimer w) (redis_state w) c)).
Proof. unfold wp, with_sender. by destruct (m _ _) as [[] ?]. Qed.

(** The transaction that submits a claim from the account [f]. *)
Definition is_tx (f : Address) (claim : RollupsClaim) (tx : Transaction) : Prop :=
  forall self, Sender.from self = f ->
    Sender.build_transaction abi_encode claim_encode submit_claim self claim = Ok tx.

(** A claim, whether it was found to be a duplicate, and the chain that the
    checker looked at. *)
Abbreviation decision := (RollupsClaim * bool * C)%type.

Definition news (ds : list decision) : list RollupsClaim :=
  (fun d => d.1.1) <$> filter (fun d => d.1.2 = false) ds.

Definition justified (c0 c : C) (d : decision) : Prop :=
  let '(claim, duplicated, c1) := d in
  extends depth c0 c1 /\ extends depth c1 c /\ verdict claim duplicated (confirmed genesis (depth := depth) c1).

(** What the claimer has done since [w0]: the claims read from the stream [key],
    and the transactions requested for those that were not duplicates. *)
Record claimed (key : string) (w0 : W) (cs : list RollupsClaim) (ds : list decision) (w : W) : Prop := {
  cl_stream : Listener.stream (broker_listener (claimer w)) = key;
  cl_grows : grows owned (redis_state w0) (redis_state w);
  cl_read : read_to (redis_state w) key (Listener.last_claim_id (broker_listener (claimer w))) cs;
  cl_synced : synced genesis (depth := depth) (duplicate_checker (claimer w)) (chain w);
  cl_extends : extends depth (chain w0) (chain w);
  cl_from : Sender.from (transaction_sender (claimer w)) = Sender.from (transaction_sender (claimer w0));
  cl_decisions : Forall (justified (chain w0) (chain w)) ds;
  cl_sent : exists txs, requested (chain w) = requested (chain w0) ++ txs /\
              Forall2 (is_tx (Sender.from (transaction_sender (claimer w0)))) (news ds) txs;
}.

(** The claimer stopped: the last decision may lack its transaction. *)
Record halted (w0 : W) (ds : list decision) (w : W) : Prop := {
  ha_decisions : Forall (justified (chain w0) (chain w)) ds;
  ha_sent : exists txs claims, requested (chain w) = requested (chain w0) ++ txs /\
              claims `prefix_of` news ds /\
              Forall2 (is_tx (Sender.from (transaction_sender (claimer w0)))) claims txs;
}.

Lemma justified_extends c0 c c' d : extends depth c c' -> justified c0 c d -> justified c0 c' d.
Proof. destruct d as [[claim dup] c1]. intros He (? & ? & ?). split; [done|]. split; [by etrans|done]. Qed.

Lemma build_from self self' claim :
  Sender.from self = Sender.from self' ->
  Sender.build_transaction abi_encode claim_encode submit_claim self claim =
  Sender.build_transaction abi_encode claim_encode submit_claim self' claim.
Proof. unfold Sender.build_transaction. by intros ->. Qed.

Lemma news_snoc ds d : news (ds ++ [d]) = news ds ++ (if d.1.2 then [] else [d.1.1]).
Proof. unfold news. rewrite filter_app, fmap_app. f_equal. rewrite filter_cons. by destruct (d.1.2). Qed.

Lemma wp_listen timeout fuel key l r cs :
  Listener.stream l = key -> read_to r key (Listener.last_claim_id l) cs ->
  wp (Listener.listen timeout fuel) (l, r)
    (fun o s' => grows owned r s'.2 /\ Listener.stream s'.1 = key /\
       read_to s'.2 key (Listener.last_claim_id s'.1) (cs ++ option_list o))
    (fun _ s' => grows owned r s'.2 /\ s'.1 = l).
Proof.
  intros Hk Hread. unfold Listener.listen. wp_run. cbn. wp_run.
  eapply wp_mono; [apply wp_consume_blocking| |by intros ? ? [? _]].
  intros o r' [Hg Ho]. wp_run. rewrite Hk in Ho. apply (read_to_grows _ _ _ _ _ Hg) in Hread.
  destruct o as [ev|]; wp_run.
  - destruct Ho as (e & es & Hafter & -> & Hh). split; [done|]. split; [done|]. by eapply read_to_next.
  - split; [done|]. split; [done|]. by rewrite app_nil_r.
Qed.

Lemma wp_send sender claim c :
  wp (Sender.send_rollups_claim_transaction abi_encode claim_encode submit_claim sender claim) c
    (fun t c' => extends depth c c' /\ Sender.from t = Sender.from sender /\
       exists tx, is_tx (Sender.from sender) claim tx /\ requested c' = requested c ++ [tx])
    (fun _ c' => extends depth c c' /\ (requested c' = requested c \/
       exists tx, is_tx (Sender.from sender) claim tx /\ requested c' = requested c ++ [tx])).
Proof.
  unfold Sender.send_rollups_claim_transaction. wp_run.
  destruct (Sender.build_transaction _ _ _ sender claim) as [tx|e|] eqn:Eb.
  - assert (Htx : is_tx (Sender.from sender) claim tx).
    { intros self Hf. by rewrite (build_from self sender). }
    wp_run. eapply wp_mono; [apply send_spec| |].
    + intros [] c' [He Hr]. wp_run. cbn. eauto.
    + intros e c' [He [Hr|Hr]]; eauto.
  - split; [reflexivity|by left].
  - unfold Sender.build_transaction in Eb. destruct (submit_claim _) as [[[|]|] ?]; done.
Qed.

(** The claimer stops where the chain is as it was left. *)
Lemma claimed_halted key w0 cs ds w w' :
  claimed key w0 cs ds w -> extends depth (chain w) (chain w') ->
  requested (chain w') = requested (chain w) -> halted w0 ds w'.
Proof.
  intros [_ _ _ _ _ _ Hds (txs & Hr & Htx)] He Hreq. split.
  - eapply Forall_impl; [exact Hds|]. intros x. by apply justified_extends.
  - exists txs, (news ds). by rewrite Hreq.
Qed.

(** The checker has read more claims. *)
Lemma claimed_updated key w0 cs ds w c1 d c :
  claimed key w0 cs ds w -> up_to_date genesis (depth := depth) (chain w) c1 (d, c) ->
  claimed key w0 cs ds
    (mkWorld (mkClaimer (broker_listener (claimer w)) d (transaction_sender (claimer w))) (redis_state w) c).
Proof.
  intros [Hst Hg Hread _ Hex Hfrom Hds (txs & Hr & Htx)] (Hsy' & Hreq & He1 & He2 & _). cbn [fst snd] in *.
  assert (He : extends depth (chain w) c) by (by etrans).
  split; world; try done; [by etrans| |exists txs; by rewrite Hreq].
  eapply Forall_impl; [exact Hds|]. intros x. by apply justified_extends.
Qed.

(** A duplicate is dropped. *)
Lemma claimed_duplicate key w0 cs ds w claim c1 :
  claimed key w0 cs ds w -> extends depth (chain w0) c1 -> extends depth c1 (chain w) ->
  verdict claim true (confirmed genesis (depth := depth) c1) ->
  claimed key w0 cs (ds ++ [(claim, true, c1)]) w.
Proof.
  intros [Hst Hg Hread Hsy Hex Hfrom Hds (txs & Hr & Htx)] He1 He2 Hv. split; try done.
  - apply Forall_app. split; [done|by apply Forall_singleton].
  - exists txs. by rewrite news_snoc, app_nil_r.
Qed.

(** A new claim is sent. *)
Lemma wp_claimed_new key w0 cs ds w claim c1 :
  claimed key w0 cs ds w -> extends depth (chain w0) c1 -> extends depth c1 (chain w) ->
  verdict claim false (confirmed genesis (depth := depth) c1) ->
  wp (with_sender (fun sender => context TransactionSenderError_
        (Sender.send_rollups_claim_transaction abi_encode claim_encode submit_claim sender claim))) w
    (fun _ w' => claimed key w0 cs (ds ++ [(claim, false, c1)]) w')
    (fun _ w' => halted w0 (ds ++ [(claim, false, c1)]) w').
Proof.
  intros [Hst Hg Hread Hsy Hex Hfrom Hds (txs & Hr & Htx)] He1 He2 Hv.
  assert (Hds' : forall c', extends depth (chain w) c' -> Forall (justified (chain w0) c') (ds ++ [(claim, false, c1)])).
  { intros c' He'. apply Forall_app. split; [|apply Forall_singleton; split; [done|split; [by etrans|done]]].
    eapply Forall_impl; [exact Hds|]. intros x. by apply justified_extends. }
  rewrite wp_with_sender. wp_run. eapply wp_mono; [apply wp_send| |].
  - intros t c' (He' & Hf & tx & Hx & Hreq').
    split; world; try done; [by eapply synced_extends|etrans; [exact Hex|done]|by rewrite Hf|by apply Hds'|].
    exists (txs ++ [tx]). rewrite Hreq', Hr, news_snoc, <- (assoc_L (++)). split; [done|].
    apply Forall2_app; [done|]. rewrite Hfrom in Hx. by repeat constructor.
  - intros e c' (He' & Hcase). split; world; [by apply Hds'|]. rewrite news_snoc.
    destruct Hcase as [->|(tx & Hx & ->)].
    { exists txs, (news ds). split; [done|]. split; [by eexists|done]. }
    exists (txs ++ [tx]), (news ds ++ [claim]). rewrite Hr, <- (assoc_L (++)). split; [done|]. split; [done|].
    apply Forall2_app; [done|]. rewrite Hfrom in Hx. by repeat constructor.
Qed.

Abbreviation claims_in ds := ((fun d : decision => d.1.1) <$> ds).

Lemma wp_claimer_iteration timeout fuel key w0 ds w :
  claimed key w0 (claims_in ds) ds w ->
  wp (iteration timeout abi_encode claim_encode submit_claim fuel) w
    (fun _ w' => exists ds', claimed key w0 (claims_in ds') ds' w') (fun _ w' => exists ds', halted w0 ds' w').
Proof.
  intros Hcl. pose proof Hcl as [Hst Hg Hread Hsy Hex Hfrom Hds Hsent].
  unfold iteration. rewrite wp_bind, wp_with_listener. wp_run.
  eapply wp_mono; [by apply (wp_listen timeout fuel key)| |].
  2:{ intros e [l r'] _. exists ds. eapply claimed_halted; [exact Hcl| |]; done. }
  intros o [l r'] (Hg' & Hl & Hread'). cbn [fst snd] in *.
  set (w1 := mkWorld _ _ _).
  assert (Hcl1 : claimed key w0 (claims_in ds ++ option_list o) ds w1) by (split; world; try done; by etrans).
  clearbody w1. clear - Hcl1 depth_nonneg EL. destruct o as [claim|]; wp_run.
  2:{ exists ds. by rewrite app_nil_r in Hcl1. }
  assert (Hmap : forall dup c1, claims_in (ds ++ [(claim, dup, c1)]) = claims_in ds ++ [claim]).
  { intros. by rewrite fmap_app. }
  rewrite wp_with_checker. wp_run. eapply wp_mono.
  - apply (wp_is_duplicated genesis depth_nonneg). exact (cl_synced _ _ _ _ _ Hcl1).
  - intros dup [d c] (c1 & Hu & Hv). pose proof (claimed_updated _ _ _ _ _ _ _ _ Hcl1 Hu) as Hcl2.
    assert (extends depth (chain w0) c1 /\ extends depth c1 c) as [He1 He2].
    { destruct Hu as (_ & _ & ? & ? & _). split; [|done]. etrans; [exact (cl_extends _ _ _ _ _ Hcl1)|done]. }
    destruct dup; wp_run.
    + exists (ds ++ [(claim, true, c1)]). rewrite Hmap. by apply claimed_duplicate.
    + eapply wp_mono; [by apply (wp_claimed_new key w0 (claims_in ds ++ [claim]) ds _ claim c1)| |].
      * intros [] w' Hw'. exists (ds ++ [(claim, false, c1)]). by rewrite Hmap.
      * intros e w' Hw'. eexists. exact Hw'.
  - intros e [d c] He. exists ds. eapply claimed_halted; [exact Hcl1| |]; world.
    + destruct He as [(_ & _ & ? & _)|(c1 & (_ & _ & ? & ? & _) & _)]; [done|by etrans].
    + by destruct He as [(_ & ? & _)|(c1 & (_ & ? & _) & _)].
Qed.

Lemma wp_claimer_loop timeout fuel n key w0 ds w :
  claimed key w0 (claims_in ds) ds w ->
  wp (start timeout abi_encode claim_encode submit_claim fuel n) w
    (fun _ w' => exists ds', claimed key w0 (claims_in ds') ds' w') (fun _ w' => exists ds', halted w0 ds' w').
Proof.
  revert ds w. induction n as [|n IH]; intros ds w Hcl; cbn [start].
  { wp_run. eauto. }
  rewrite wp_bind. eapply wp_mono; [by eapply wp_claimer_iteration| |done].
  intros [] w' [ds' Hcl']. by eapply IH.
Qed.

(** What a run leaves: the claims read so far with their verdicts, and the
    transactions requested. *)
Definition run_claimed (key : string) (f : Address) (c0 : C) (s' : R * C) : Prop :=
  exists ds txs, Forall (justified c0 s'.2) ds /\
    (exists pre, pre `prefix_of` entries s'.1 key /\ Forall2 holds pre (claims_in ds)) /\
    requested s'.2 = requested c0 ++ txs /\ Forall2 (is_tx f) (news ds) txs.

Definition run_halted (f : Address) (c0 : C) (s' : R * C) : Prop :=
  exists ds txs claims, Forall (justified c0 s'.2) ds /\ claims `prefix_of` news ds /\
    requested s'.2 = requested c0 ++ txs /\ Forall2 (is_tx f) claims txs.

Lemma run_halted_start f c0 s' : requested s'.2 = requested c0 -> run_halted f c0 s'.
Proof. intros Hr. exists [], [], []. rewrite app_nil_r. done. Qed.

Lemma wp_checker_new c :
  wp (Checker.new depth genesis) c
    (fun k c' => extends depth c c' /\ requested c' = requested c /\ synced genesis (depth := depth) k c')
    (fun _ c' => extends depth c c' /\ requested c' = requested c).
Proof.
  assert (Hs : synced genesis (depth := depth) (Checker.mkChecker ∅ depth genesis) c).
  { split; cbn; [done|lia|by left|]. unfold claims_to. rewrite filter_none by (intros x _; lia).
    intros a. by rewrite lookup_empty. }
  pose proof (wp_update_claims genesis depth_nonneg _ c Hs) as Hu. unfold wp, Checker.new in *.
  destruct (Checker.update_claims _) as [[[]|e|] [k c']]; [| |done].
  - destruct Hu as (c1 & ? & ? & He1 & He2 & _). cbn [fst snd] in *. split; [by etrans|done].
  - by destruct Hu as (_ & ? & ? & _).
Qed.

Lemma wp_sender_new n p f chain_id c :
  wp (Sender.new n p f chain_id) c
    (fun t c' => extends depth c c' /\ requested c' = requested c /\ Sender.from t = f)
    (fun _ c' => extends depth c c' /\ requested c' = requested c).
Proof.
  assert (Hc : wp Sender.create_tx_manager c (fun _ c' => extends depth c c' /\ requested c' = requested c)
    (fun _ c' => extends depth c c' /\ requested c' = requested c)).
  { pose proof (tx_manager_new_spec c) as Hnew. unfold wp, Sender.create_tx_manager in *.
    destruct (tx_manager_new c) as [[[]|[|d]|] c']; try done.
    pose proof (tx_manager_force_new_spec c') as Hf. unfold wp, context in *. destruct Hnew as [He Hr].
    destruct (tx_manager_force_new c') as [[[]|e|] c2]; cbn; [| |done]; destruct Hf as [? ->]; (split; [by etrans|done]). }
  unfold Sender.new. wp_run. eapply wp_mono; [exact Hc| |done]. intros [] c' [? ?]. by wp_run.
Qed.

Section Run.
Variables (timeout : Z) (fuel n : nat) (redis_endpoint : BrokerEndpoint) (chain_id : Z).
Variables (priority : Priority) (signer_address : Address).
Variable connect_single : string -> M R RedisError unit.
Variable connect_cluster : list string -> M R RedisError unit.
(** Connecting adds nothing to a stream. *)
Hypothesis connect_single_keeps : connects (owned := owned) connect_single.
Hypothesis connect_cluster_keeps : connects (owned := owned) connect_cluster.

Lemma wp_run_loop key c r chn :
  broker_listener c = Listener.mkListener key INITIAL_ID ->
  synced genesis (depth := depth) (duplicate_checker c) chn ->
  wp (run_loop timeout abi_encode claim_encode submit_claim c fuel n) (r, chn)
    (fun _ s' => run_claimed key (Sender.from (transaction_sender c)) chn s')
    (fun _ s' => run_halted (Sender.from (transaction_sender c)) chn s').
Proof.
  intros Hl Hs. set (w := mkWorld c r chn).
  assert (Hcl : claimed key w (claims_in []) [] w).
  { split; cbn; try done; [by rewrite Hl|rewrite Hl; apply read_to_start|]. exists []. by rewrite app_nil_r. }
  pose proof (wp_claimer_loop timeout fuel n key w [] w Hcl) as Hrun. unfold wp, run_loop in *.
  cbn [fst snd]. fold w. destruct (start _ _ _ _ fuel n w) as [[[]|e|] w']; cbn; [| |done].
  - destruct Hrun as (ds & [_ _ (pre & post & Hpre & _ & Hh) _ _ _ Hds (txs & Hr & Htx)]).
    exists ds, txs. split; [done|]. split; [|done]. exists pre. split; [by exists post|done].
  - destruct Hrun as (ds & [Hds (txs & claims & Hr & Hp & Htx)]). exists ds, txs, claims. done.
Qed.

End Run.
End ClaimerTheorems.

(** ** Witness

    A chain that does not move, with one final claim. *)

Module ClaimerWitness.
Import HexRef RetryRef RedisRef JsonRef Claimer.

Record Chain := mkChain { txs : list Transaction }.

#[export] Instance view : EthereumView Chain := {|
  height _ := 100;
  claim_log _ := [(5, (sample_address, mkClaim (zeros 32) 0 1))];
  requested := txs |}.

#[export] Instance ethereum : Ethereum Chain := {|
  get_block_number c := (Ok 100, c);
  query_new_claims from_block to_block c :=
    (Ok (snd <$> filter (fun e => from_block <= e.1 <= to_block) (claim_log c)), c);
  tx_manager_new c := (Err NonceTooLow, c);
  tx_manager_force_new c := (Ok tt, c);
  send_transaction tx _ _ c := (Ok tt, mkChain (txs c ++ [tx])) |}.

Lemma extends_all depth (c c' : Chain) : extends depth c c'.
Proof. split; cbn; [lia|done]. Qed.

#[export] Instance laws depth : EthereumLaws Chain depth.
Proof.
  split; intros; unfold wp; cbn -[extends]; try (split; [apply extends_all|]); try done.
  repeat constructor.
Qed.

Definition encode_tokens (ts : list Sender.Token) : list byte :=
  concat ((fun t => match t with Sender.TokenAddress a => a | Sender.TokenFixedBytes bs => bs end) <$> ts).
Definition call (data : list byte) : option NameOrAddress * option (list byte) :=
  (Some (AddressOf (zeros 20)), Some data).

Definition sample_run (n : nat) : M (RedisRef.state * Chain) RunError unit :=
  run 5000 encode_tokens epoch_hash call (fun _ => mret tt) (fun _ => mret tt)
    (Single "redis://") 31337 10 0 Normal sample_address 1 n.

End ClaimerWitness.
