(* ===== verification/RollupHttp.v ===== *)
(** * The HTTP interface of the rollup

    [offchain/host-runner/src/http] ([model.rs], [rollup_server.rs],
    [errors.rs]): the server through which a DApp asks the host-runner for
    inputs and inserts outputs; and [offchain/rollups-http-client/src]
    ([client.rs], [rollup.rs]): the client that a DApp uses. The text of JSON
    values ([serde_json]), the network ([hyper]) and the routing of [actix_web]
    are parameters or their documented behaviour; the derived serializers of
    the structures are written out. *)

From Stdlib Require Import Ascii.
From S2P Require Import Prelude Codecs Events MerkleTree HostModel Controller Pagination Broker.
Import HostModel StdText.

(** ** JSON *)

Inductive Value :=
| VNull
| VNumber (n : Z)
| VString (s : string)
| VArray (items : list Value)
| VObject (fields : list (string * Value)).

Inductive JsonTextError := json_text_error (detail : string).

(** [serde_json::to_string] and [from_slice] on values *)
Class SerdeJson : Type := {
  json_print : Value -> string;
  json_parse : string -> outcome JsonTextError Value;
}.

(** The numbers are [u64]. *)
Fixpoint value_ok (v : Value) : bool :=
  match v with
  | VNumber n => (0 <=? n) && (n <? 2 ^ 64)
  | VArray items => forallb value_ok items
  | VObject fields => forallb (fun f => value_ok f.2) fields
  | _ => true
  end.

Class SerdeJsonLaws `{SerdeJson} : Prop := {
  json_parse_print v : value_ok v = true -> json_parse (json_print v) = Ok v;
  json_parse_total s : is_panic (json_parse s) = false;
  (** A JSON text begins with white space, a bracket, a quote, a digit, a minus
      sign or one of the words [true], [false] and [null]. *)
  json_parse_word s : is_ok (json_parse ("no" +:+ s)) = false;
}.

Inductive DeserializeError :=
| BadText (e : JsonTextError)
| MissingField (name : string)
| DuplicateField (name : string)
| InvalidType.

(** A field of a structure with derived [Deserialize]: other fields are ignored. *)
Definition field (name : string) (v : Value) : outcome DeserializeError Value :=
  match v with
  | VObject fields =>
      match List.filter (fun f => String.eqb f.1 name) fields with
      | [] => Err (MissingField name)
      | [(_, x)] => Ok x
      | _ => Err (DuplicateField name)
      end
  | _ => Err InvalidType
  end.

Definition as_string (v : Value) : outcome DeserializeError string :=
  match v with VString s => Ok s | _ => Err InvalidType end.
Definition as_u64 (v : Value) : outcome DeserializeError Z :=
  match v with
  | VNumber n => if (0 <=? n) && (n <? 2 ^ 64) then Ok n else Err InvalidType
  | _ => Err InvalidType
  end.

(** ** [http/model.rs] *)

Module HttpModel.
Record HttpAdvanceMetadata := mkHttpAdvanceMetadata {
  hm_msg_sender : string;
  hm_epoch_index : Z;
  hm_input_index : Z;
  hm_block_number : Z;
  hm_timestamp : Z;
}.
Record HttpAdvanceStateRequest := mkHttpAdvanceStateRequest {
  ha_metadata : HttpAdvanceMetadata;
  ha_payload : string;
}.
Record HttpInspectStateRequest := mkHttpInspectStateRequest { hi_payload : string }.

Inductive HttpRollupRequest :=
| HttpAdvanceState (data : HttpAdvanceStateRequest)
| HttpInspectState (data : HttpInspectStateRequest).

Record HttpVoucher := mkHttpVoucher { hv_destination_text : string; hv_payload_text : string }.
(** [HttpNotice], [HttpReport] and [HttpRollupException] have one field each. *)
Record HttpNotice := mkHttpNotice { hn_payload_text : string }.
Record HttpReport := mkHttpReport { hr_payload_text : string }.
Record HttpRollupException := mkHttpRollupException { he_payload_text : string }.
Record HttpFinishRequest := mkHttpFinishRequest { hf_status : string }.
Record HttpIndexResponse := mkHttpIndexResponse { index : Z }.

Section Conversions.
Context `{HexCrate}.
Import Conversions.

Definition metadata_from (m : AdvanceMetadata) : HttpAdvanceMetadata :=
  mkHttpAdvanceMetadata (encode_ethereum_binary (am_msg_sender m)) (am_epoch_index m)
    (am_input_index m) (am_block_number m) (am_timestamp m).
Definition advance_from (r : AdvanceStateRequest) : HttpAdvanceStateRequest :=
  mkHttpAdvanceStateRequest (metadata_from (as_metadata r)) (encode_ethereum_binary (as_payload r)).
Definition inspect_from (r : InspectStateRequest) : HttpInspectStateRequest :=
  mkHttpInspectStateRequest (encode_ethereum_binary (isr_payload r)).
Definition rollup_request_from (r : RollupRequest) : HttpRollupRequest :=
  match r with
  | AdvanceState r => HttpAdvanceState (advance_from r)
  | InspectState r => HttpInspectState (inspect_from r)
  end.

Inductive VoucherDecodeError :=
| InvalidAddressSize (got : nat)
| HexDecodeError (e : DecodeError).

(** [Vec<u8>::try_into::<[u8; 20]>()] gives the vector back when it has another
    size. *)
Definition voucher_try_from `{Keccak} (voucher : HttpVoucher) : outcome VoucherDecodeError HostVoucher :=
  destination ← map_err HexDecodeError (decode_ethereum_binary (hv_destination_text voucher));
  ensure (Nat.eqb (length destination) Common.ADDRESS_SIZE) (InvalidAddressSize (length destination)) ;;
  payload ← map_err HexDecodeError (decode_ethereum_binary (hv_payload_text voucher));
  Ok (Voucher_new destination payload).

Definition notice_try_from `{Keccak} (notice : HttpNotice) : outcome DecodeError HostNotice :=
  payload ← decode_ethereum_binary (hn_payload_text notice);
  Ok (Notice_new payload).
Definition report_from (report : HostReport) : HttpReport :=
  mkHttpReport (encode_ethereum_binary (hr_payload report)).
Definition report_try_from (report : HttpReport) : outcome DecodeError HostReport :=
  payload ← decode_ethereum_binary (hr_payload_text report);
  Ok (mkHostReport payload).
Definition exception_try_from (report : HttpRollupException) : outcome DecodeError RollupException :=
  payload ← decode_ethereum_binary (he_payload_text report);
  Ok (mkRollupException payload).

Inductive DecodeStatusError := invalid_status.

Definition finish_try_from (request : HttpFinishRequest) : outcome DecodeStatusError FinishStatus :=
  if String.eqb (hf_status request) "accept" then Ok Accept
  else if String.eqb (hf_status request) "reject" then Ok Reject
  else Err invalid_status.
End Conversions.

(** Derived [Serialize] and [Deserialize]. *)
Definition voucher_de (v : Value) : outcome DeserializeError HttpVoucher :=
  destination ← (x ← field "destination" v; as_string x);
  payload ← (x ← field "payload" v; as_string x);
  Ok (mkHttpVoucher destination payload).
Definition payload_de (v : Value) : outcome DeserializeError string := x ← field "payload" v; as_string x.
Definition status_de (v : Value) : outcome DeserializeError HttpFinishRequest :=
  s ← (x ← field "status" v; as_string x);
  Ok (mkHttpFinishRequest s).
Definition index_ser (r : HttpIndexResponse) : Value := VObject [("index", VNumber (index r))].

Definition metadata_ser (m : HttpAdvanceMetadata) : Value :=
  VObject [("msg_sender", VString (hm_msg_sender m)); ("epoch_index", VNumber (hm_epoch_index m));
           ("input_index", VNumber (hm_input_index m)); ("block_number", VNumber (hm_block_number m));
           ("timestamp", VNumber (hm_timestamp m))].
Definition advance_ser (r : HttpAdvanceStateRequest) : Value :=
  VObject [("metadata", metadata_ser (ha_metadata r)); ("payload", VString (ha_payload r))].
Definition inspect_ser (r : HttpInspectStateRequest) : Value := VObject [("payload", VString (hi_payload r))].
(** [#[serde(tag = "request_type")]] *)
Definition rollup_request_ser (r : HttpRollupRequest) : Value :=
  match r with
  | HttpAdvanceState data => VObject [("request_type", VString "advance_state"); ("data", advance_ser data)]
  | HttpInspectState data => VObject [("request_type", VString "inspect_state"); ("data", inspect_ser data)]
  end.
End HttpModel.

(** ** [http/errors.rs] and [http/rollup_server.rs] *)

(** A response: its status code and its body. *)
Record HttpResponse := mkHttpResponse { http_status : Z; http_body : string }.

Module RollupServer.
Import HttpModel Conversions Controller.
Section Server.
Context `{HexCrate, Keccak, SerdeJson}.
(** [Display] of the errors of the [hex] crate, and the text of [actix_web] for
    a body that is not the JSON of the type. *)
Variable from_hex_text : FromHexError -> string.
Variable json_error_text : DeserializeError -> string.

Definition Ok_ (body : string) : HttpResponse := mkHttpResponse 200 body.
Definition Accepted_ (body : string) : HttpResponse := mkHttpResponse 202 body.
Definition ErrorBadRequest (body : string) : HttpResponse := mkHttpResponse 400 body.
Definition ErrorInternalServerError (body : string) : HttpResponse := mkHttpResponse 500 body.

(** [Display] of the errors *)
Definition controller_error_text (e : ControllerError) : string :=
  match e with
  | FetchRequestTimeout => "no rollup request available"
  | InvalidRequest request_name state_name =>
      "invalid request " +:+ request_name +:+ " in " +:+ state_name +:+ " state"
  end.
Definition decode_error_text (e : DecodeError) : string :=
  match e with
  | InvalidPrefix s => "Failed to decode ethereum binary string " +:+ s +:+ " (expected 0x prefix)"
  | FromHex s e => "Failed to decode ethereum binary string " +:+ s +:+ " (" +:+ from_hex_text e +:+ ")"
  end.
Definition voucher_decode_error_text (e : VoucherDecodeError) : string :=
  match e with
  | InvalidAddressSize got =>
      "Invalid Ethereum address size (got " +:+ pretty got +:+ " bytes, expected 20 bytes)"
  | HexDecodeError e => decode_error_text e
  end.
Definition decode_status_error_text (_ : DecodeStatusError) : string :=
  "status must be 'accept' or 'reject'".

(** [impl From<..> for Error] *)
Definition controller_error (e : ControllerError) : HttpResponse := ErrorBadRequest (controller_error_text e).
Definition decode_error (e : DecodeError) : HttpResponse := ErrorBadRequest (decode_error_text e).
Definition voucher_decode_error (e : VoucherDecodeError) : HttpResponse :=
  ErrorBadRequest (voucher_decode_error_text e).
Definition decode_status_error (e : DecodeStatusError) : HttpResponse :=
  ErrorBadRequest (decode_status_error_text e).

(** A handler that ends with [Ok] or with an error sends the response of either;
    one that panics closes the connection. *)
Definition respond (o : outcome HttpResponse HttpResponse) : option HttpResponse :=
  match o with Ok r | Err r => Some r | Panic => None end.

(** The controller: what the receiver of a call gets, [None] when the sender is
    dropped. *)
Variable insert_voucher : HostVoucher -> option (outcome ControllerError nat).
Variable insert_notice : HostNotice -> option (outcome ControllerError nat).
Variable insert_report : HostReport -> option (outcome ControllerError unit).
Variable notify_exception : RollupException -> option (outcome ControllerError unit).
Variable finish_ : FinishStatus -> option (outcome ControllerError RollupRequest).

(** [rx.await.map_err(|_| ErrorInternalServerError(message))??] *)
Definition received {A} (message : string) (rx : option (outcome ControllerError A)) : outcome HttpResponse A :=
  result ← ok_or rx (ErrorInternalServerError message);
  map_err controller_error result.

Definition voucher (voucher : HttpVoucher) : outcome HttpResponse HttpResponse :=
  voucher ← map_err voucher_decode_error (voucher_try_from voucher);
  index ← received "failed to insert voucher" (insert_voucher voucher);
  Ok (Ok_ (json_print (index_ser (mkHttpIndexResponse (Z.of_nat index))))).

Definition notice (notice : HttpNotice) : outcome HttpResponse HttpResponse :=
  notice ← map_err decode_error (notice_try_from notice);
  index ← received "failed to insert notice" (insert_notice notice);
  Ok (Ok_ (json_print (index_ser (mkHttpIndexResponse (Z.of_nat index))))).

Definition report (report : HttpReport) : outcome HttpResponse HttpResponse :=
  report ← map_err decode_error (report_try_from report);
  received "failed to insert report" (insert_report report) ;;
  Ok (Ok_ "").

Definition exception (exception : HttpRollupException) : outcome HttpResponse HttpResponse :=
  exception ← map_err decode_error (exception_try_from exception);
  received "failed to notify exception" (notify_exception exception) ;;
  Ok (Ok_ "").

Definition finish (body : HttpFinishRequest) : outcome HttpResponse HttpResponse :=
  status ← map_err decode_status_error (finish_try_from body);
  result ← ok_or (finish_ status) (ErrorInternalServerError "failed to finish");
  match result with
  | Ok rollup_request => Ok (Ok_ (json_print (rollup_request_ser (rollup_request_from rollup_request))))
  | Err FetchRequestTimeout => Ok (Accepted_ (controller_error_text FetchRequestTimeout))
  | Err (InvalidRequest request_name state_name) =>
      Ok (ErrorBadRequest (controller_error_text (InvalidRequest request_name state_name)))
  | Panic => Panic
  end.

(** The [Json] extractor of the handlers *)
Definition body_de {A} (de : Value -> outcome DeserializeError A) (body : string) : outcome HttpResponse A :=
  map_err (fun e => ErrorBadRequest (json_error_text e))
    (v ← map_err BadText (json_parse body); de v).

(** [start_service]: the routes of the application *)
Definition serve (path body : string) : option HttpResponse :=
  respond
    (if String.eqb path "/voucher" then b ← body_de voucher_de body; voucher b
     else if String.eqb path "/notice" then b ← body_de payload_de body; notice (mkHttpNotice b)
     else if String.eqb path "/report" then b ← body_de payload_de body; report (mkHttpReport b)
     else if String.eqb path "/exception" then b ← body_de payload_de body; exception (mkHttpRollupException b)
     else if String.eqb path "/finish" then b ← body_de status_de body; finish b
     else Ok (mkHttpResponse 404 "")).
End Server.
End RollupServer.

(** ** [rollups-http-client] *)

Module RollupClient.
(** [rollup.rs] *)
Record ClientMetadata := mkClientMetadata {
  cm_msg_sender : string;
  cm_epoch_index : Z;
  cm_input_index : Z;
  cm_block_number : Z;
  cm_timestamp : Z;
}.
Record AdvanceRequest := mkAdvanceRequest { ca_metadata : ClientMetadata; ca_payload : string }.
Record InspectRequest := mkInspectRequest { ci_payload : string }.
Record ClientNotice := mkClientNotice { cn_payload : string }.
Record ClientVoucher := mkClientVoucher { cv_destination : string; cv_payload : string }.
Record ClientReport := mkClientReport { cr_payload : string }.
Record ClientException := mkClientException { ce_payload : string }.
Inductive ClientRequest :=
| Inspect (r : InspectRequest)
| Advance (r : AdvanceRequest).
(** [RollupResponse::Finish] *)
Inductive ClientResponse := Finish (accept : bool).

(** Derived serializers *)
Definition voucher_ser (v : ClientVoucher) : Value :=
  VObject [("destination", VString (cv_destination v)); ("payload", VString (cv_payload v))].
Definition payload_ser (payload : string) : Value := VObject [("payload", VString payload)].
Definition metadata_de (v : Value) : outcome DeserializeError ClientMetadata :=
  msg_sender ← (x ← field "msg_sender" v; as_string x);
  epoch_index ← (x ← field "epoch_index" v; as_u64 x);
  input_index ← (x ← field "input_index" v; as_u64 x);
  block_number ← (x ← field "block_number" v; as_u64 x);
  timestamp ← (x ← field "timestamp" v; as_u64 x);
  Ok (mkClientMetadata msg_sender epoch_index input_index block_number timestamp).
Definition request_de (v : Value) : outcome DeserializeError ClientRequest :=
  request_type ← (x ← field "request_type" v; as_string x);
  data ← field "data" v;
  if String.eqb request_type "advance_state" then
    metadata ← (x ← field "metadata" data; metadata_de x);
    payload ← (x ← field "payload" data; as_string x);
    Ok (Advance (mkAdvanceRequest metadata payload))
  else if String.eqb request_type "inspect_state" then
    payload ← (x ← field "payload" data; as_string x);
    Ok (Inspect (mkInspectRequest payload))
  else Err InvalidType.

(** A response of [hyper::Client]: the body is [None] when it cannot be read. *)
Record ClientHttpResponse := mkClientHttpResponse { res_status : Z; res_body : option string }.

(** [std::io::Error::new(ErrorKind::Other, message)] *)
Inductive IoError := other_error (message : string).

Section Client.
Context `{SerdeJson}.
(** [hyper::Client]: a POST of a JSON body to a path of the server's address. *)
Variable post : string -> string -> outcome string ClientHttpResponse.

(** Only the log depends on the index of the answer, but its body has to be
    readable. *)
Definition send_output (path : string) (v : Value) : outcome unit unit :=
  match post path (json_print v) with
  | Ok res => body ← expect (ok_or (res_body res) tt); Ok tt
  | Err _ => Ok tt
  | Panic => Panic
  end.
Definition send_voucher (v : ClientVoucher) : outcome unit unit := send_output "/voucher" (voucher_ser v).
Definition send_notice (n : ClientNotice) : outcome unit unit :=
  send_output "/notice" (payload_ser (cn_payload n)).

(** The body of these answers is not read. *)
Definition send_ignored (path : string) (v : Value) : outcome unit unit :=
  match post path (json_print v) with
  | Ok _ | Err _ => Ok tt
  | Panic => Panic
  end.
Definition send_report (r : ClientReport) : outcome unit unit :=
  send_ignored "/report" (payload_ser (cr_payload r)).
(** [riscv64] is whether the target is the Cartesi machine. *)
Definition throw_exception (riscv64 : bool) (e : ClientException) : outcome unit unit :=
  send_ignored "/exception" (payload_ser (ce_payload e)) ;;
  if riscv64 then Panic else Ok tt.

Definition is_success (status : Z) : bool := (200 <=? status) && (status <? 300).

Definition send_finish_request (result : ClientResponse) : outcome IoError ClientRequest :=
  let status := match result with Finish value => if value then "accept" else "reject" end in
  match post "/finish" (json_print (VObject [("status", VString status)])) with
  | Ok res =>
      if is_success (res_status res) then
        buf ← expect (ok_or (res_body res) tt);
        expect (v ← map_err BadText (json_parse buf); request_de v)
      else
        buf ← expect (ok_or (res_body res) tt);
        finish_error ← expect (from_utf8 (as_bytes buf));
        Err (other_error finish_error)
  | Err e => Err (other_error e)
  | Panic => Panic
  end.
End Client.
End RollupClient.

(** ** The client against the server *)

Section EndToEnd.
Context `{HexCrateLaws, Keccak, SerdeJsonLaws}.
Import HttpModel RollupServer RollupClient Conversions Controller HostModel.
Variable from_hex_text : FromHexError -> string.
Variable json_error_text : DeserializeError -> string.
Variable insert_voucher : HostVoucher -> option (outcome ControllerError nat).
Variable insert_notice : HostNotice -> option (outcome ControllerError nat).
Variable insert_report : HostReport -> option (outcome ControllerError unit).
Variable notify_exception : RollupException -> option (outcome ControllerError unit).
Variable finish_ : FinishStatus -> option (outcome ControllerError RollupRequest).

Abbreviation server := (serve from_hex_text json_error_text insert_voucher insert_notice insert_report
  notify_exception finish_).

(** A network that carries requests and responses: a handler that panics closes
    the connection. *)
Definition network (path body : string) : outcome string ClientHttpResponse :=
  match server path body with
  | Some r => Ok (mkClientHttpResponse (http_status r) (Some (http_body r)))
  | None => Err "connection closed"
  end.

(** What the DApp is given of a rollup request. *)
Definition client_view (r : RollupRequest) : ClientRequest :=
  match r with
  | AdvanceState r =>
      let m := as_metadata r in
      Advance (mkAdvanceRequest
        (mkClientMetadata (encode_ethereum_binary (am_msg_sender m)) (am_epoch_index m)
           (am_input_index m) (am_block_number m) (am_timestamp m))
        (encode_ethereum_binary (as_payload r)))
  | InspectState r => Inspect (mkInspectRequest (encode_ethereum_binary (isr_payload r)))
  end.

(** The numbers of a request are of their width. *)
Definition request_typed (r : RollupRequest) : bool :=
  match r with
  | AdvanceState r =>
      let m := as_metadata r in
      forallb (fun n => (0 <=? n) && (n <? 2 ^ 64))
        [am_epoch_index m; am_input_index m; am_block_number m; am_timestamp m]
  | InspectState _ => true
  end.

Lemma decode_encode_binary bs : decode_ethereum_binary (encode_ethereum_binary bs) = Ok bs.
Proof. exact (proj1 (ethereum_binary_roundtrip bs "" eq_refl)). Qed.

Lemma rollup_request_print r : request_typed r = true ->
  value_ok (rollup_request_ser (rollup_request_from r)) = true /\
  request_de (rollup_request_ser (rollup_request_from r)) = Ok (client_view r).
Proof.
  destruct r as [[m payload]|[payload]]; [|done]. destruct m as [s e i b t].
  cbn -[Z.ltb Z.leb Z.pow encode_ethereum_binary]. intros Hm. split; [by rewrite !andb_true_r in *|].
  repeat apply andb_prop in Hm as [? Hm]. unfold request_de, metadata_de, as_u64.
  repeat (cbn -[Z.ltb Z.leb Z.pow encode_ethereum_binary];
    match goal with H : (_ && _)%bool = true |- _ => rewrite H; clear H end).
  done.
Qed.

Lemma json_error_is_panic {A} s : is_ok (json_parse s) = false -> forall f : Value -> outcome DeserializeError A,
  expect (E' := IoError) (v ← map_err BadText (json_parse s); f v) = Panic.
Proof. by destruct (json_parse s). Qed.

(** The body of the requests reaches the handlers. *)
Lemma serve_finish s : server "/finish" (json_print (VObject [("status", VString s)])) =
  respond (RollupServer.finish finish_ (mkHttpFinishRequest s)).
Proof. unfold serve. cbn [String.eqb Ascii.eqb Bool.eqb]. unfold body_de. by rewrite json_parse_print. Qed.

Lemma serve_voucher dest payload : server "/voucher" (json_print (voucher_ser (mkClientVoucher dest payload))) =
  respond (RollupServer.voucher from_hex_text insert_voucher (mkHttpVoucher dest payload)).
Proof. unfold serve. cbn [String.eqb Ascii.eqb Bool.eqb]. unfold body_de. by rewrite json_parse_print. Qed.
Lemma serve_payload payload :
  server "/notice" (json_print (payload_ser payload)) =
    respond (RollupServer.notice from_hex_text insert_notice (mkHttpNotice payload)) /\
  server "/report" (json_print (payload_ser payload)) =
    respond (RollupServer.report from_hex_text insert_report (mkHttpReport payload)) /\
  server "/exception" (json_print (payload_ser payload)) =
    respond (RollupServer.exception from_hex_text notify_exception (mkHttpRollupException payload)).
Proof.
  unfold serve. cbn [String.eqb Ascii.eqb Bool.eqb]. unfold body_de. by rewrite json_parse_print.
Qed.

(** The response to an output that was handed to the controller. *)
Definition output_response {A} (failed : string) (body : A -> string)
    (answer : option (outcome ControllerError A)) : option HttpResponse :=
  match answer with
  | Some (Ok a) => Some (mkHttpResponse 200 (body a))
  | Some (Err e) => Some (mkHttpResponse 400 (controller_error_text e))
  | Some Panic => None
  | None => Some (mkHttpResponse 500 failed)
  end.
Definition index_body (index : nat) : string := json_print (VObject [("index", VNumber (Z.of_nat index))]).

Lemma received_response {A} failed (body : A -> string) answer :
  respond (a ← received failed answer; Ok (mkHttpResponse 200 (body a))) = output_response failed body answer.
Proof. by destruct answer as [[]|]. Qed.

(** C29. A finish call of the DApp's client against the server of the host-runner.
    An accepted or rejected status reaches the controller; the rollup request
    it answers with reaches the DApp with all its numbers and with the sender
    and payload in hexadecimal, from which the bytes are recovered; a request
    refused in the controller's state and a controller that is gone come back
    as an error with their message. When the controller has no request within
    its timeout, the server answers 202 with a text that is not JSON, and the
    client, which takes any 2xx for a rollup request, panics. *)
Theorem finish_over_http (b : bool) :
  (forall r, finish_ (if b then Accept else Reject) = Some (Ok r) -> request_typed r = true) ->
  (forall e, finish_ (if b then Accept else Reject) = Some (Err e) ->
     utf8_valid (as_bytes (controller_error_text e)) = true) ->
  send_finish_request network (Finish b) =
    match finish_ (if b then Accept else Reject) with
    | Some (Ok r) => Ok (client_view r)
    | Some (Err FetchRequestTimeout) => Panic
    | Some (Err e) => Err (other_error (controller_error_text e))
    | Some Panic => Err (other_error "connection closed")
    | None => Err (other_error "failed to finish")
    end.
Proof.
  intros Hreq Htext. unfold send_finish_request, network.
  replace (RollupServer.serve _ _ _ _ _ _ _ _ _)
    with (respond (finish finish_ (mkHttpFinishRequest (if b then "accept" else "reject"))))
    by (symmetry; apply serve_finish).
  assert (finish_try_from (mkHttpFinishRequest (if b then "accept" else "reject"))
    = Ok (if b then Accept else Reject)) as Hst by by destruct b.
  unfold finish. rewrite Hst. cbn [map_err mbind outcome_bind].
  destruct (finish_ _) as [[r|[|req st]|]|] eqn:Ef; cbn [ok_or mbind outcome_bind respond]; try done.
  - cbn -[json_print json_parse]. destruct (rollup_request_print r) as [Hok Hde]; [by apply Hreq|].
    rewrite json_parse_print by done. cbn -[rollup_request_ser request_de]. by rewrite Hde.
  - cbn -[json_parse]. apply json_error_is_panic. apply (json_parse_word " rollup request available").
  - cbn -[controller_error_text from_utf8 as_bytes]. unfold from_utf8. rewrite Htext by done.
    unfold as_bytes. by rewrite String.string_of_list_byte_of_string.
Qed.

(** The outputs of a DApp arrive whole: a voucher, notice, report or
    exception that the client sends, with its bytes in hexadecimal, reaches the
    controller as those bytes (a voucher only when its destination has the 20
    bytes of an address; another one is refused with 400 and never inserted),
    and the server answers 200 with the index that the controller gave, 400
    with the message of the error when the controller's state refuses the
    output, and 500 when the controller is gone. *)
Theorem outputs_over_http (destination payload : list byte) :
  let text := encode_ethereum_binary in
  server "/voucher" (json_print (voucher_ser (mkClientVoucher (text destination) (text payload)))) =
    (if Nat.eqb (length destination) Common.ADDRESS_SIZE
     then output_response "failed to insert voucher" index_body (insert_voucher (Voucher_new destination payload))
     else Some (mkHttpResponse 400 ("Invalid Ethereum address size (got " +:+ pretty (length destination)
                                    +:+ " bytes, expected 20 bytes)"))) /\
  server "/notice" (json_print (payload_ser (text payload))) =
    output_response "failed to insert notice" index_body (insert_notice (Notice_new payload)) /\
  server "/report" (json_print (payload_ser (text payload))) =
    output_response "failed to insert report" (fun _ => "") (insert_report (mkHostReport payload)) /\
  server "/exception" (json_print (payload_ser (text payload))) =
    output_response "failed to notify exception" (fun _ => "") (notify_exception (mkRollupException payload)).
Proof.
  intros text. rewrite serve_voucher. destruct (serve_payload (text payload)) as (-> & -> & ->).
  unfold voucher, voucher_try_from, notice, notice_try_from, report, report_try_from, exception, exception_try_from.
  cbn [hv_destination_text hv_payload_text hn_payload_text hr_payload_text he_payload_text].
  unfold text. rewrite !decode_encode_binary. cbn [map_err mbind outcome_bind]. split; [|split_and!].
  - destruct (Nat.eqb _ _); [|done]. cbn [ensure map_err mbind outcome_bind]. apply (received_response _ index_body).
  - apply (received_response _ index_body).
  - apply (received_response _ (fun _ => "")).
  - apply (received_response _ (fun _ => "")).
Qed.
End EndToEnd.

(** ** A reference text of JSON values

    The bits of the number of the value in an enumeration of trees. *)
Module SerdeJsonRef.

Fixpoint to_tree (v : Value) : gen_tree (Z + string) :=
  match v with
  | VNull => GenNode 0 []
  | VNumber n => GenLeaf (inl n)
  | VString s => GenLeaf (inr s)
  | VArray items => GenNode 2 (map to_tree items)
  | VObject fields => GenNode 1 (map (fun f => GenNode 0 [GenLeaf (inr f.1); to_tree f.2]) fields)
  end.
Fixpoint of_tree (t : gen_tree (Z + string)) : Value :=
  match t with
  | GenLeaf (inl n) => VNumber n
  | GenLeaf (inr s) => VString s
  | GenNode 1 ts =>
      VObject (map (fun t => match t with
                             | GenNode _ [GenLeaf (inr name); t] => (name, of_tree t)
                             | _ => (EmptyString, VNull)
                             end) ts)
  | GenNode 2 ts => VArray (map of_tree ts)
  | GenNode _ _ => VNull
  end.

Lemma of_to_tree : forall v, of_tree (to_tree v) = v.
Proof.
  fix IH 1. intros [|n|s|items|fields]; [done..| |]; cbn; f_equal.
  { induction items as [|v items IHi]; cbn; [done|]. by rewrite IH, IHi. }
  induction fields as [|[name v] fields IHf]; cbn; [done|]. by rewrite IH, IHf.
Qed.

Fixpoint is_bits (s : string) : bool :=
  match s with
  | EmptyString => true
  | String c s => (Ascii.eqb c "0"%char || Ascii.eqb c "1"%char) && is_bits s
  end.

#[export] Instance serde_json : SerdeJson := {|
  json_print v := JsonRef.of_pos (encode (to_tree v));
  json_parse s :=
    if is_bits s then ok_or (of_tree <$> decode (JsonRef.to_pos s)) (json_text_error "invalid value")
    else Err (json_text_error "expected value") |}.

Lemma is_bits_of_pos p : is_bits (JsonRef.of_pos p) = true.
Proof. by induction p. Qed.

#[export] Instance serde_json_laws : SerdeJsonLaws.
Proof.
  split.
  - intros v _. cbn. by rewrite is_bits_of_pos, JsonRef.to_of_pos, decode_encode; cbn; rewrite of_to_tree.
  - intros s. cbn. destruct (is_bits s); [|done]. by destruct (decode _).
  - done.
Qed.
End SerdeJsonRef.

(** ** Witnesses *)

Module RollupHttpWitness.
Import HexRef KeccakRef SerdeJsonRef RollupClient RollupServer Controller HostModel.

Definition sample_request : RollupRequest :=
  AdvanceState (mkAdvanceStateRequest (mkAdvanceMetadata (zeros 20) 1 2 3 4) [Byte.x01; Byte.xff]).
(** A controller that answers an accepted input with the next one and has
    nothing more after a rejected one. *)
Definition sample_finish (status : FinishStatus) : option (outcome ControllerError RollupRequest) :=
  match status with
  | Accept => Some (Ok sample_request)
  | Reject => Some (Err FetchRequestTimeout)
  end.
Definition sample_network : string -> string -> outcome string ClientHttpResponse :=
  network (fun _ => "invalid digits") (fun _ => "invalid body") (fun _ => None) (fun _ => None)
    (fun _ => None) (fun _ => None) sample_finish.

Lemma finish_over_http_witness :
  send_finish_request sample_network (Finish true) = Ok (client_view sample_request) /\
  send_finish_request sample_network (Finish false) = Panic.
Proof.
  split; [refine (finish_over_http _ _ _ _ _ _ sample_finish true _ _)
         |refine (finish_over_http _ _ _ _ _ _ sample_finish false _ _)];
    intros x Hx; cbn in Hx; simplify_eq; reflexivity.
Defined.

(** A controller that takes vouchers of the null address and drops the rest. *)
Definition sample_insert (v : HostVoucher) : option (outcome ControllerError nat) :=
  if bool_decide (hv_destination v = zeros 20) then Some (Ok 7%nat) else None.

Lemma outputs_over_http_witness :
  serve (fun _ => "invalid digits") (fun _ => "invalid body") sample_insert (fun _ => None) (fun _ => None)
    (fun _ => None) sample_finish "/voucher"
    (json_print (voucher_ser (mkClientVoucher (Conversions.encode_ethereum_binary (zeros 20)) "0x01"))) =
  Some (mkHttpResponse 200 (index_body 7)).
Proof.
  exact (proj1 (outputs_over_http (fun _ => "invalid digits") (fun _ => "invalid body") sample_insert
    (fun _ => None) (fun _ => None) (fun _ => None) sample_finish (zeros 20) [Byte.x01])).
Defined.
End RollupHttpWitness.
