(* ===== verification/InspectServer.v ===== *)
(** * The inspect server

    [offchain/inspect-server/src]: the HTTP interface through which clients
    query the state of the DApp ([server.rs]), the queue of requests with the
    task that forwards them to the server-manager one at a time ([inspect.rs])
    and the precedence of its configuration ([config.rs]). The [tokio] channels
    are a bounded queue and a set of live receivers; the connection to the
    server-manager is a parameter of each call. *)

From S2P Require Import Prelude Codecs Grpc MerkleTree HostModel HostServer Pagination RollupHttp.
Import StdText.

(** ** [config.rs] *)

Module InspectConfig.
Record FileConfig := mkFileConfig {
  fc_inspect_server_address : option string;
  fc_server_manager_address : option string;
  fc_session_id : option string;
  fc_queue_size : option nat;
}.
Definition FileConfig_default : FileConfig := mkFileConfig None None None None.

Record CLIConfig := mkCLIConfig {
  cc_inspect_server_address : option string;
  cc_server_manager_address : option string;
  cc_session_id : option string;
  cc_queue_size : option nat;
  cc_config_path : option string;
  cc_healthcheck_port : Z;
}.

Record InspectServerConfig := mkInspectServerConfig {
  inspect_server_address : string;
  server_manager_address : string;
  session_id : string;
  queue_size : nat;
  healthcheck_port : Z;
}.

Inductive ConfigError :=
| FileError (source : string)
| ParseError (source : string).

(** [Option::or] *)
Definition or {A} (a b : option A) : option A := match a with Some _ => a | None => b end.

Section Config.
(** [std::fs::read_to_string] and [toml::from_str] *)
Variable read_to_string : string -> outcome string string.
Variable toml_from_str : string -> outcome string FileConfig.

Definition load_config_file (config_file : option string) : outcome ConfigError FileConfig :=
  match config_file with
  | Some config =>
      s ← map_err FileError (read_to_string config);
      file_config ← map_err ParseError (toml_from_str s);
      Ok file_config
  | None => Ok FileConfig_default
  end.

Definition config_from (cli_config : CLIConfig) : outcome ConfigError InspectServerConfig :=
  file_config ← expect (load_config_file (cc_config_path cli_config));
  inspect_server_address ←
    unwrap (or (cc_inspect_server_address cli_config) (fc_inspect_server_address file_config));
  server_manager_address ←
    unwrap (or (cc_server_manager_address cli_config) (fc_server_manager_address file_config));
  session_id ← unwrap (or (cc_session_id cli_config) (fc_session_id file_config));
  let queue_size := default 100%nat (or (cc_queue_size cli_config) (fc_queue_size file_config)) in
  Ok (mkInspectServerConfig inspect_server_address server_manager_address session_id queue_size
        (cc_healthcheck_port cli_config)).
End Config.
End InspectConfig.

(** ** [error.rs] *)

Inductive InspectError :=
| HealthCheckError
| ServerError
| FailedToConnect (message : string)
| InspectFailed (message : string).

Definition inspect_error_text (e : InspectError) : string :=
  match e with
  | HealthCheckError => "health check error"
  | ServerError => "server error"
  | FailedToConnect message => "Failed to connect to server manager: " +:+ message
  | InspectFailed message => "Failed to inspect state: " +:+ message
  end.

(** The response on the wire: the status is the number of the enumeration. *)
Record InspectStateResponse := mkInspectStateResponse {
  ip_status : Z;
  ip_exception_data : option (list byte);
  ip_reports : list GrpcReport;
  ip_processed_input_count : Z;
}.
Abbreviation InspectResponse := (outcome InspectError InspectStateResponse).

(** The generated code of the protocol gives each status its number. *)
#[export] Instance grpc_completion_status_eq_dec : EqDecision GrpcCompletionStatus.
Proof. solve_decision. Defined.
Class ProtoStatus : Type := status_i32 : GrpcCompletionStatus -> Z.
Class ProtoStatusLaws `{ProtoStatus} : Prop := status_i32_inj : Inj (=) (=) status_i32.

(** ** [server.rs] *)

Module InspectHttp.
Definition CARTESI_MACHINE_RX_BUFFER_LIMIT : nat := Z.to_nat 1048576.

Record HttpInspectResponse := mkHttpInspectResponse {
  hi_status : string;
  hi_exception_payload : option string;
  hi_reports : list HttpModel.HttpReport;
  hi_processed_input_count : Z;
}.

Section Http.
Context `{HexCrate, ProtoStatus, SerdeJson}.

Definition convert_status (status : Z) : string :=
  if status =? status_i32 GrpcAccepted then "Accepted"
  else if status =? status_i32 GrpcRejected then "Rejected"
  else if status =? status_i32 GrpcException then "Exception"
  else if status =? status_i32 GrpcMachineHalted then "MachineHalted"
  else if status =? status_i32 GrpcCycleLimitExceeded then "CycleLimitExceeded"
  else if status =? status_i32 GrpcTimeLimitExceeded then "TimeLimitExceeded"
  else if status =? status_i32 GrpcPayloadLengthLimitExceeded then "PayloadLengthLimitExceeded"
  else "Unknown".

Definition http_report (report : GrpcReport) : HttpModel.HttpReport :=
  HttpModel.mkHttpReport (Conversions.inspect_hex_encode (gr_payload report)).
Definition http_inspect_response (response : InspectStateResponse) : HttpInspectResponse :=
  mkHttpInspectResponse (convert_status (ip_status response))
    (Conversions.inspect_hex_encode <$> ip_exception_data response)
    (http_report <$> ip_reports response) (ip_processed_input_count response).

(** Derived [Serialize] *)
Definition inspect_response_ser (r : HttpInspectResponse) : Value :=
  VObject [("status", VString (hi_status r));
           ("exception_payload", from_option VString VNull (hi_exception_payload r));
           ("reports", VArray ((fun p => VObject [("payload", VString (HttpModel.hr_payload_text p))])
                                 <$> hi_reports r));
           ("processed_input_count", VNumber (hi_processed_input_count r))].

(** [impl From<InspectError> for error::Error] *)
Definition error_response (e : InspectError) : HttpResponse :=
  match e with
  | FailedToConnect _ => mkHttpResponse 502 (inspect_error_text e)
  | InspectFailed _ => mkHttpResponse 400 (inspect_error_text e)
  | _ => mkHttpResponse 502 (inspect_error_text e)
  end.

(** The end of both handlers; [None] when the handler panics. *)
Definition inspect_response (response : InspectResponse) : option HttpResponse :=
  match response with
  | Ok response => Some (mkHttpResponse 200 (json_print (inspect_response_ser (http_inspect_response response))))
  | Err e => Some (error_response e)
  | Panic => None
  end.

(** A request to one of the routes; the tail of the path is percent-decoded by
    [actix_web]. *)
Inductive HttpRequest :=
| InspectGet (payload : string) (query : option string)
| InspectPost (payload : list byte).

(** The payload that a handler passes to the client; a body above the limit of
    [PayloadConfig] is refused by the extractor. *)
Definition inspect_get (payload : string) (query : option string) : list byte :=
  as_bytes (match query with Some query => payload +:+ "?" +:+ query | None => payload end).
Definition inspect_post (payload : list byte) : option (list byte) :=
  if Nat.leb (length payload) CARTESI_MACHINE_RX_BUFFER_LIMIT then Some payload else None.
Definition request_payload (request : HttpRequest) : option (list byte) :=
  match request with
  | InspectGet payload query => Some (inspect_get payload query)
  | InspectPost payload => inspect_post payload
  end.
Definition payload_too_large (text : string) : HttpResponse := mkHttpResponse 413 text.
End Http.
End InspectHttp.

(** ** [inspect.rs] *)

Module InspectService.
Import InspectHttp.

(** [InspectRequest]: the sender of the response is the number of its receiver. *)
Record InspectRequest := mkInspectRequest { payload : list byte; response_tx : nat }.

(** What a call finds behind the endpoint: no connection, or a client whose call
    of [inspect_state] gives a status or a response. *)
Abbreviation Endpoint := (string + (string -> list byte -> Status + InspectStateResponse))%type.

(** The channel, the request that the task [handle_inspect] works on, and the
    receivers that are alive. *)
Record Service := mkService {
  queue : list InspectRequest;
  working : option InspectRequest;
  receivers : list nat;
  next_receiver : nat;
}.
Definition InspectClient_new : Service := mkService [] None [] 0.

Section Service.
Variable config : InspectConfig.InspectServerConfig.

(** The body of the loop of [handle_inspect]. *)
Definition handle_request (endpoint : Endpoint) (request : InspectRequest) : InspectResponse :=
  match endpoint with
  | inl e => Err (FailedToConnect e)
  | inr inspect_state =>
      match inspect_state (InspectConfig.session_id config) (payload request) with
      | inl e => Err (InspectFailed (message e))
      | inr response => Ok response
      end
  end.

(** [InspectClient::inspect] up to the wait for the response. *)
Definition inspect (bytes : list byte) (s : Service) : option InspectError * Service :=
  if Nat.ltb (length (queue s)) (InspectConfig.queue_size config) then
    (None, mkService (queue s ++ [mkInspectRequest bytes (next_receiver s)]) (working s)
             (receivers s ++ [next_receiver s]) (S (next_receiver s)))
  else (Some (InspectFailed "no available capacity"),
        mkService (queue s) (working s) (receivers s) (S (next_receiver s))).

(** [respond]: nothing is sent when the receiver was dropped. *)
Definition respond (tx : nat) (response : InspectResponse) (s : Service)
    : list (nat * InspectResponse) * Service :=
  if bool_decide (tx ∈ receivers s) then
    ([(tx, response)], mkService (queue s) (working s) (filter (fun i => i <> tx) (receivers s)) (next_receiver s))
  else ([], s).

(** What happens: a request arrives, the task receives a request, the task is
    done with it, the client of a request goes away. *)
Inductive Event :=
| Arrive (request : HttpRequest)
| Recv
| Respond (endpoint : Endpoint)
| Drop (tx : nat).

Context `{HexCrate, ProtoStatus, SerdeJson}.
(** The text of [actix_web] for a body above the limit. *)
Variable overflow_text : string.

(** One event and the HTTP responses that it causes. *)
Definition step (e : Event) (s : Service) : list (nat * option HttpResponse) * Service :=
  match e with
  | Arrive request =>
      match request_payload request with
      | None => ([(next_receiver s, Some (payload_too_large overflow_text))],
                 mkService (queue s) (working s) (receivers s) (S (next_receiver s)))
      | Some bytes =>
          let '(refused, s') := inspect bytes s in
          (match refused with
           | Some e => [(next_receiver s, inspect_response (Err e))]
           | None => []
           end, s')
      end
  | Recv =>
      match working s, queue s with
      | None, request :: queue => ([], mkService queue (Some request) (receivers s) (next_receiver s))
      | _, _ => ([], s)
      end
  | Respond endpoint =>
      match working s with
      | Some request =>
          let '(sent, s') := respond (response_tx request) (handle_request endpoint request) s in
          (prod_map id inspect_response <$> sent, mkService (queue s') None (receivers s') (next_receiver s'))
      | None => ([], s)
      end
  | Drop tx => ([], mkService (queue s) (working s) (filter (fun i => i <> tx) (receivers s)) (next_receiver s))
  end.

(** The responses to a sequence of events, in the order of sending. *)
Fixpoint run (es : list Event) (s : Service) : list (nat * option HttpResponse) * Service :=
  match es with
  | [] => ([], s)
  | e :: es => let '(r, s') := step e s in let '(rs, s'') := run es s' in (r ++ rs, s'')
  end.
End Service.

(** The requests that arrived, in order: the receiver of a request is its
    position. *)
Definition arrivals (es : list Event) : list HttpRequest :=
  omap (fun e => match e with Arrive request => Some request | _ => None end) es.
(** The requests that are not answered yet, oldest first. *)
Definition outstanding (s : Service) : list InspectRequest := option_list (working s) ++ queue s.
End InspectService.

(** ** Every request is answered once, in order *)

Section InspectTheorems.
Context `{HexCrate, ProtoStatus, SerdeJson}.
Variable config : InspectConfig.InspectServerConfig.
Variable overflow_text : string.
Import InspectHttp InspectService.

Abbreviation ids rs := (rs.*1).
Abbreviation txs s := (response_tx <$> outstanding s).
Abbreviation refused_full := (inspect_response (Err (InspectFailed "no available capacity"))).

(** A response of the task, to a request that is older than all outstanding ones. *)
Definition by_task (es : list Event) (s : Service) (tx : nat) (bytes : list byte) (r : option HttpResponse) : Prop :=
  Forall (fun i => (tx < i)%nat) (txs s) /\
  exists endpoint, Respond endpoint ∈ es /\
    r = inspect_response (handle_request config endpoint (mkInspectRequest bytes tx)).

(** The response to a request, the receiver of which is [tx]. *)
Definition justified (es : list Event) (s : Service) (tx : nat) (request : HttpRequest) (r : option HttpResponse) : Prop :=
  match request_payload request with
  | None => r = Some (payload_too_large overflow_text)
  | Some bytes => r = refused_full \/ by_task es s tx bytes r
  end.

Record served (es : list Event) (rs : list (nat * option HttpResponse)) (s : Service) : Prop := {
  served_next : next_receiver s = length (arrivals es);
  served_bound : (length (queue s) <= InspectConfig.queue_size config)%nat;
  served_once : NoDup (ids rs ++ txs s);
  served_order : StronglySorted lt (txs s);
  served_payload : Forall (fun q => exists request, arrivals es !! response_tx q = Some request /\
                                    request_payload request = Some (payload q)) (outstanding s);
  served_live tx : tx ∈ txs s -> tx ∈ receivers s \/ Drop tx ∈ es;
  served_receivers tx : tx ∈ receivers s -> tx ∈ txs s;
  served_reply tx r : (tx, r) ∈ rs ->
    exists request, arrivals es !! tx = Some request /\ justified es s tx request r;
  served_all tx : (tx < length (arrivals es))%nat -> Drop tx ∉ es -> tx ∈ ids rs ++ txs s;
}.

Lemma arrivals_app es e : arrivals (es ++ [e]) = arrivals es ++ arrivals [e].
Proof. apply omap_app. Qed.

Lemma elem_of_snoc {A} (x y : A) l : x ∈ l -> x ∈ l ++ [y].
Proof. intros Hx. apply elem_of_app. by left. Qed.
Lemma not_elem_of_snoc {A} (x y : A) l : x ∉ l ++ [y] -> (x ∉ l) /\ (x <> y).
Proof. rewrite elem_of_app, list_elem_of_singleton. tauto. Qed.

Lemma justified_mono es es' s s' tx request r :
  (forall e, e ∈ es -> e ∈ es') ->
  (forall i, i ∈ txs s' -> i ∈ txs s \/ (tx < i)%nat) ->
  justified es s tx request r -> justified es' s' tx request r.
Proof.
  unfold justified, by_task. intros Hes Hs. destruct (request_payload request); [|done].
  intros [->|(Hlt & endpoint & Hin & ->)]; [by left|]. right. split; [|eauto].
  apply Forall_forall. intros i [Hi|]%Hs; [|done]. by eapply Forall_forall in Hlt.
Qed.

Lemma served_reply_lt es rs s tx r : served es rs s -> (tx, r) ∈ rs -> (tx < length (arrivals es))%nat.
Proof. intros Hs (request & Hr & _)%(served_reply _ _ _ Hs). by apply lookup_lt_Some in Hr. Qed.

Lemma served_tx_lt es rs s tx : served es rs s -> tx ∈ txs s -> (tx < length (arrivals es))%nat.
Proof.
  intros Hs (q & -> & Hq)%list_elem_of_fmap. eapply Forall_forall in Hq; [|by apply (served_payload _ _ _ Hs)].
  destruct Hq as (request & Hr & _). by apply lookup_lt_Some in Hr.
Qed.

(** The replies and the outstanding requests hold only receivers that exist. *)
Lemma served_fresh es rs s : served es rs s -> length (arrivals es) ∉ ids rs ++ txs s.
Proof.
  intros Hs [Hin|Hin]%elem_of_app.
  - apply list_elem_of_fmap in Hin as ([tx r] & Heq & Hin). cbn in Heq. subst tx.
    apply (served_reply_lt _ _ _ _ _ Hs) in Hin. lia.
  - apply (served_tx_lt _ _ _ _ Hs) in Hin. lia.
Qed.

(** A request that is answered at once. *)
Lemma served_refused es rs s request r :
  served es rs s ->
  match request_payload request with
  | None => r = Some (payload_too_large overflow_text)
  | Some _ => r = refused_full
  end ->
  served (es ++ [Arrive request]) (rs ++ [(next_receiver s, r)])
    (mkService (queue s) (working s) (receivers s) (S (next_receiver s))).
Proof.
  intros Hs Hr. pose proof (served_fresh _ _ _ Hs) as Hfresh. rewrite (served_next _ _ _ Hs).
  destruct Hs as [Hn Hb Ho Hsort Hp Hlive Hrec Hrep Hall].
  split; rewrite ?arrivals_app, ?length_app; cbn; [lia|done| |done| | |done| |].
  - rewrite fmap_app. cbn. change (txs _) with (txs s) in *.
    rewrite <- app_assoc. cbn. rewrite <- Permutation_middle. by apply NoDup_cons.
  - eapply Forall_impl; [exact Hp|]. intros q (rq & Hq & ?). exists rq. split; [|done].
    by apply lookup_app_l_Some.
  - intros tx [?|?]%Hlive; [by left|right]. set_solver.
  - intros tx r' [Hin|Hin]%elem_of_app.
    + destruct (Hrep _ _ Hin) as (rq & Hq & Hj). exists rq. split; [by apply lookup_app_l_Some|].
      eapply justified_mono; [..|exact Hj]; [intros; by apply elem_of_snoc|by left].
    + apply list_elem_of_singleton in Hin. injection Hin as -> ->. exists request.
      split; [by rewrite lookup_app_r, Nat.sub_diag by lia|].
      unfold justified. destruct (request_payload request); [by left|done].
  - intros tx Hlt Hd. rewrite fmap_app. cbn. change (txs _) with (txs s).
    destruct (decide (tx = length (arrivals es))) as [->|]; [set_solver|].
    rewrite !elem_of_app. destruct (proj1 (elem_of_app _ _ _) (Hall tx ltac:(lia) ltac:(set_solver))); tauto.
Qed.

(** A request that enters the queue. *)
Lemma served_queued es rs s request bytes :
  served es rs s -> request_payload request = Some bytes ->
  (length (queue s) < InspectConfig.queue_size config)%nat ->
  served (es ++ [Arrive request]) rs
    (mkService (queue s ++ [mkInspectRequest bytes (next_receiver s)]) (working s)
       (receivers s ++ [next_receiver s]) (S (next_receiver s))).
Proof.
  intros Hs Hr Hlen. pose proof (served_fresh _ _ _ Hs) as Hfresh.
  pose proof (fun tx => served_tx_lt _ _ _ tx Hs) as Hlt. rewrite (served_next _ _ _ Hs).
  destruct Hs as [Hn Hb Ho Hsort Hp Hlive Hrec Hrep Hall].
  set (s' := mkService _ _ _ _).
  assert (outstanding s' = outstanding s ++ [mkInspectRequest bytes (length (arrivals es))]) as Hout
    by (unfold outstanding, s'; cbn; by rewrite app_assoc).
  assert (txs s' = txs s ++ [length (arrivals es)]) as Htx by (rewrite Hout, fmap_app; done).
  split; rewrite ?Htx, ?arrivals_app, ?length_app; cbn.
  - lia.
  - rewrite length_app. cbn. lia.
  - rewrite app_assoc, <- Permutation_cons_append. by apply NoDup_cons.
  - apply StronglySorted_app. split; [|split; [done|by repeat constructor]].
    intros i j Hi ->%list_elem_of_singleton. by apply Hlt.
  - rewrite Hout. apply Forall_app. split; [|apply Forall_singleton].
    + eapply Forall_impl; [exact Hp|]. intros q (rq & Hq & ?). exists rq. split; [|done].
      by apply lookup_app_l_Some.
    + exists request. cbn. split; [by rewrite lookup_app_r, Nat.sub_diag by lia|done].
  - intros tx Hin. rewrite !elem_of_app in *. destruct Hin as [Hin|Hin]; [|tauto]. destruct (Hlive _ Hin); tauto.
  - intros tx. rewrite !elem_of_app. intros [Hin%Hrec|Hin]; tauto.
  - intros tx r Hin. destruct (Hrep _ _ Hin) as (rq & Hq & Hj). exists rq.
    split; [by apply lookup_app_l_Some|].
    eapply justified_mono; [..|exact Hj]; [intros; by apply elem_of_snoc|]. intros i. rewrite Htx.
    apply lookup_lt_Some in Hq. intros [?|Hi%list_elem_of_singleton]%elem_of_app; [by left|right; lia].
  - intros tx Hltx Hd. rewrite app_assoc.
    destruct (decide (tx = length (arrivals es))) as [->|]; rewrite elem_of_app; [right; left|left].
    apply Hall; [lia|set_solver].
Qed.

(** The task is done with its request: the response goes to a live receiver. *)
Lemma served_done es rs s request endpoint rcv :
  let tx := response_tx request in
  served es rs s -> working s = Some request ->
  (forall i, i ∈ rcv <-> i ∈ receivers s /\ i <> tx) ->
  served (es ++ [Respond endpoint])
    (rs ++ (if bool_decide (tx ∈ receivers s)
            then [(tx, inspect_response (handle_request config endpoint request))] else []))
    (mkService (queue s) None rcv (next_receiver s)).
Proof.
  intros tx Hs Hw Hrcv. set (sent := if bool_decide _ then _ else _).
  destruct Hs as [Hn Hb Ho Hsort Hp Hlive Hrec Hrep Hall].
  assert (txs s = tx :: (response_tx <$> queue s)) as Htx by (unfold outstanding; by rewrite Hw).
  assert (outstanding s = request :: queue s) as Hout by (unfold outstanding; by rewrite Hw).
  rewrite Htx in *. rewrite Hout in Hp. apply StronglySorted_cons in Hsort as [Hmin Hsort].
  apply Forall_cons in Hp as [(rq & Hrq & Hpay) Hp].
  assert (ids sent = [tx] \/ ids sent = [] /\ Drop tx ∈ es) as Hsent.
  { unfold sent. destruct (Hlive tx ltac:(left)); case_bool_decide; first [done|by left|by right]. }
  split; rewrite ?arrivals_app, ?app_nil_r; cbn; [done|done| |done|done| | | |].
  - rewrite <- Permutation_middle in Ho. apply NoDup_cons in Ho as [Hnin Ho]. rewrite fmap_app, <- app_assoc.
    destruct Hsent as [->|[-> _]]; cbn; [|done]. rewrite <- Permutation_middle. by apply NoDup_cons.
  - intros i Hi. rewrite Hrcv. destruct (Hlive i ltac:(by right)) as [Hr|Hd]; [left|right; by apply elem_of_snoc].
    split; [done|]. intros ->. apply NoDup_app in Ho as (_ & _ & [Hnin _]%NoDup_cons). by apply Hnin.
  - intros i [Hi Hne]%Hrcv. apply Hrec in Hi. by apply elem_of_cons in Hi as [?|?].
  - intros i r [Hin|Hin]%elem_of_app.
    + destruct (Hrep _ _ Hin) as (rq' & Hq & Hj). exists rq'. split; [done|].
      eapply justified_mono; [..|exact Hj]; [intros; by apply elem_of_snoc|]. intros j Hj'. left. rewrite Htx. by right.
    + assert (i = tx /\ r = inspect_response (handle_request config endpoint request)) as [-> ->].
      { unfold sent in Hin. case_bool_decide; [|by apply elem_of_nil in Hin].
        apply list_elem_of_singleton in Hin. by injection Hin as -> ->. }
      exists rq. split; [done|]. unfold justified. rewrite Hpay. right.
      split; [exact Hmin|]. exists endpoint. split; [apply elem_of_app; right; by left|]. by destruct request.
  - intros i Hi [Hd _]%not_elem_of_snoc. rewrite fmap_app. specialize (Hall i Hi Hd).
    rewrite !elem_of_app in *. rewrite elem_of_cons in Hall.
    destruct Hall as [?|[->|?]]; [tauto| |tauto].
    destruct Hsent as [->|[_ Hdrop]]; [left; right; left|done].
Qed.

(** Events that leave the requests as they are. *)
Lemma served_same es rs s s' e :
  served es rs s -> arrivals [e] = [] -> next_receiver s' = next_receiver s ->
  (length (queue s') <= length (queue s))%nat -> outstanding s' = outstanding s ->
  (forall i, i ∈ receivers s -> i ∈ receivers s' \/ e = Drop i) ->
  (forall i, i ∈ receivers s' -> i ∈ receivers s) ->
  served (es ++ [e]) rs s'.
Proof.
  intros Hs He Hnr Hq Hout Hkeep Hsub. destruct Hs as [Hn Hb Ho Hsort Hp Hlive Hrec Hrep Hall].
  split; rewrite ?arrivals_app, ?He, ?app_nil_r, ?Hout; cbn; [congruence|lia|done|done|done| | | |].
  - intros i [[?| ->]%Hkeep|?]%Hlive; set_solver.
  - auto.
  - intros i r Hin. destruct (Hrep _ _ Hin) as (rq & Hrq & Hj). exists rq. split; [done|].
    eapply justified_mono; [..|exact Hj]; [intros; by apply elem_of_snoc|]. rewrite Hout. by left.
  - intros i Hi [Hd _]%not_elem_of_snoc. by apply Hall.
Qed.

Lemma served_step es rs s e :
  served es rs s ->
  let '(r, s') := step config overflow_text e s in served (es ++ [e]) (rs ++ r) s'.
Proof.
  intros Hs. destruct e as [request| |endpoint|tx]; cbn.
  - destruct (request_payload request) as [bytes|] eqn:Hr; [|by apply served_refused; [done|rewrite Hr]].
    unfold inspect. destruct (Nat.ltb_spec (length (queue s)) (InspectConfig.queue_size config)).
    + rewrite app_nil_r. by apply served_queued.
    + apply served_refused; [done|]. by rewrite Hr.
  - destruct (working s) eqn:Hw, (queue s) eqn:Hq; rewrite app_nil_r;
      eapply served_same; try exact Hs; try done; auto; rewrite ?Hq; cbn; [lia|].
    unfold outstanding. by rewrite Hw, Hq.
  - destruct (working s) as [request|] eqn:Hw;
      [|rewrite app_nil_r; eapply served_same; try exact Hs; auto].
    pose proof (served_done es rs s request endpoint (filter (fun i => i <> response_tx request) (receivers s))
      Hs Hw) as Hd.
    pose proof (served_done es rs s request endpoint (receivers s) Hs Hw) as Hd'.
    unfold respond. case_bool_decide as Hin; [apply Hd|apply Hd'].
    + intros i. rewrite list_elem_of_filter. tauto.
    + intros i. split; [|tauto]. intros Hi. split; [done|]. by intros ->.
  - rewrite app_nil_r. eapply served_same; try exact Hs; try done.
    + intros i Hi. cbn. rewrite list_elem_of_filter. destruct (decide (i = tx)) as [->|]; auto.
    + intros i. cbn. rewrite list_elem_of_filter. tauto.
Qed.

Lemma run_app es es' s :
  run config overflow_text (es ++ es') s =
  let '(rs, s') := run config overflow_text es s in
  let '(rs', s'') := run config overflow_text es' s' in (rs ++ rs', s'').
Proof.
  revert s. induction es as [|e es IH]; intros s; cbn; [by destruct (run _ _ es' s)|].
  destruct (step _ _ e s) as [r s1]. rewrite IH. destruct (run _ _ es s1) as [rs s2].
  destruct (run _ _ es' s2) as [rs' s3]. by rewrite app_assoc.
Qed.

Lemma run_served es :
  let '(rs, s) := run config overflow_text es InspectClient_new in served es rs s.
Proof.
  induction es as [|e es IH] using rev_ind.
  - cbn. split; cbn; try done; try lia; try constructor; set_solver.
  - rewrite run_app. destruct (run _ _ es _) as [rs s]. cbn.
    pose proof (served_step es rs s e IH) as Hs. destruct (step _ _ e s) as [r s']. by rewrite app_nil_r.
Qed.

(** The task finishes what it works on and takes [n] more requests. *)
Definition turns (n : nat) (endpoint : Endpoint) : list Event :=
  Respond endpoint :: concat (replicate n [Recv; Respond endpoint]).

Lemma step_respond_idle endpoint s : let s' := (step config overflow_text (Respond endpoint) s).2 in
  working s' = None /\ queue s' = queue s.
Proof. cbn. destruct (working s) eqn:Hw; [|done]. unfold respond. by case_bool_decide. Qed.

Lemma turns_drain n endpoint s : (length (queue s) <= n)%nat ->
  outstanding (run config overflow_text (turns n endpoint) s).2 = [].
Proof.
  revert s. induction n as [|n IH]; intros s Hn.
  - cbn [turns replicate concat run app]. destruct (step_respond_idle endpoint s) as [Hw Hq].
    destruct (step _ _ _ s) as [r s']. cbn in *. unfold outstanding. rewrite Hw, Hq.
    by destruct (queue s); cbn in Hn; [|lia].
  - change (turns (S n) endpoint) with ([Respond endpoint; Recv] ++ turns n endpoint).
    rewrite run_app. cbn [run]. destruct (step_respond_idle endpoint s) as [Hw Hq].
    destruct (step _ _ (Respond endpoint) s) as [r s1]. cbn [snd] in *.
    destruct (step config overflow_text Recv s1) as [r' s2] eqn:E.
    assert (length (queue s2) <= n)%nat as Hn'.
    { cbn in E. rewrite Hw, Hq in E. destruct (queue s) eqn:Eq; injection E as <- <-; cbn in *; [|lia].
      rewrite Hq. cbn. lia. }
    specialize (IH s2 Hn'). by destruct (run _ _ (turns n endpoint) s2).
Qed.

(** The inspect server answers every request once and in order. After any
    sequence of arriving requests, of steps of the forwarding task and of
    clients that go away, the queue has at most its configured size and no
    request got two responses. A response is: 413 to a body above the limit of
    the machine's buffer; the refusal of a full queue; or the response of the
    task to the payload of that very request, sent when all requests that are
    still outstanding are younger. Every request whose client did not go away
    has its response or is outstanding, and once the task has taken as many
    turns as the queue is long, it has its response. *)
Theorem inspect_answers es endpoint n :
  (InspectConfig.queue_size config <= n)%nat ->
  let '(rs, s) := run config overflow_text es InspectClient_new in
  let '(rs', s') := run config overflow_text (turns n endpoint) s in
  (length (queue s) <= InspectConfig.queue_size config)%nat /\
  NoDup (ids (rs ++ rs')) /\
  (forall tx r, (tx, r) ∈ rs -> exists request, arrivals es !! tx = Some request /\ justified es s tx request r) /\
  (forall tx, (tx < length (arrivals es))%nat -> Drop tx ∉ es ->
     (tx ∈ ids rs \/ tx ∈ txs s) /\ tx ∈ ids (rs ++ rs')).
Proof.
  intros Hn. pose proof (run_served es) as Hs. pose proof (run_served (es ++ turns n endpoint)) as Hs'.
  rewrite run_app in Hs'. destruct (run _ _ es _) as [rs s].
  pose proof (turns_drain n endpoint s) as Hd. destruct (run _ _ (turns n endpoint) s) as [rs' s'].
  cbn in Hd. specialize (Hd (Nat.le_trans _ _ _ (served_bound _ _ _ Hs) Hn)).
  assert (arrivals (es ++ turns n endpoint) = arrivals es) as Harr.
  { unfold arrivals. rewrite omap_app. cbn. clear. induction n as [|n IH]; cbn; [by rewrite app_nil_r|done]. }
  assert (forall tx, Drop tx ∈ es ++ turns n endpoint -> Drop tx ∈ es) as Hdrop.
  { intros tx [?|Hin]%elem_of_app; [done|exfalso]. apply elem_of_cons in Hin as [?|Hin]; [done|].
    clear -Hin. induction n as [|n IH]; cbn in Hin; [by apply elem_of_nil in Hin|].
    rewrite !elem_of_cons in Hin. destruct Hin as [?|[?|?]]; [done..|auto]. }
  split_and!.
  - apply Hs.
  - pose proof (served_once _ _ _ Hs') as Ho. by apply NoDup_app in Ho as [? _].
  - apply Hs.
  - intros tx Htx Hnd. split; [apply elem_of_app; by apply (served_all _ _ _ Hs)|].
    pose proof (served_all _ _ _ Hs' tx) as Ha. rewrite Harr, Hd in Ha. cbn in Ha. rewrite app_nil_r in Ha.
    apply Ha; [done|]. auto.
Qed.
End InspectTheorems.

(** ** The inspect server in front of the host-runner *)

Section HostRunner.
Context `{HexCrateLaws, ProtoStatusLaws, SerdeJson, Keccak, Ethabi}.
Variable config : InspectConfig.InspectServerConfig.
Import InspectHttp InspectService HostModel.
(** The answer of the host-runner's controller. *)
Variable inspect : InspectStateRequest -> option InspectResult.

(** The response on the wire. *)
Definition wire (r : Session.InspectStateResponse) : InspectStateResponse :=
  mkInspectStateResponse (status_i32 (Session.isp_status r)) (Session.isp_exception_data r)
    (Session.isp_reports r) (Session.isp_processed_input_count r).

(** A connection to the service of the host-runner; the call of a method that
    panics is cancelled. *)
Definition host_endpoint (manager : SessionManager.Manager) : Endpoint :=
  inr (fun session_id payload =>
    match (ServerManagerService.inspect_state inspect session_id payload manager).1 with
    | Ok response => inr (wire response)
    | Err status => inl status
    | Panic => inl (mkStatus Internal "cancelled")
    end).

Definition status_text (status : InspectStatus) : string :=
  match status with
  | InspectAccepted => "Accepted"
  | InspectRejected => "Rejected"
  | InspectException _ => "Exception"
  end.

Lemma convert_status_text status :
  convert_status (status_i32 (HostConversions.inspect_status status)) = status_text status.
Proof.
  assert (forall a b, (status_i32 a =? status_i32 b) = bool_decide (a = b)) as Heq.
  { intros a b. destruct (Z.eqb_spec (status_i32 a) (status_i32 b)) as [Hi|Hi]; symmetry.
    - apply bool_decide_eq_true. by apply status_i32_inj.
    - apply bool_decide_eq_false. by intros ->. }
  unfold convert_status. rewrite !Heq. by destruct status.
Qed.

(** A query through the inspect server to the host-runner, with the response
    of every branch. An unknown session and a tainted one are refused with 400
    and the reason, and so is a query that the controller drops. Otherwise the
    client gets 200 with the status of the query by its name, the payload of an
    exception and of every report in hexadecimal, in order, and the number of
    processed inputs of the active epoch; the text of the payloads decodes to
    their bytes. *)
Theorem inspect_host_runner manager bytes tx :
  let response := inspect_response (handle_request config (host_endpoint manager) (mkInspectRequest bytes tx)) in
  let refused text := Some (mkHttpResponse 400 ("Failed to inspect state: " +:+ text)) in
  let text := Conversions.encode_ethereum_binary in
  response =
    (match SessionManager.try_get_session manager (InspectConfig.session_id config) with
     | Ok session =>
         match Session.tainted session, inspect (mkInspectStateRequest bytes),
               Session.epochs session !! Session.active_epoch_index session with
         | Some _, _, _ => refused "session is tainted"
         | None, None, _ => refused "unexpected error during inspect"
         | None, Some _, None => refused "unknown epoch index"
         | None, Some result, Some epoch =>
             Some (mkHttpResponse 200 (json_print (VObject
               [("status", VString (status_text (ir_status result)));
                ("exception_payload", match ir_status result with
                                      | InspectException e => VString (text (re_payload e))
                                      | _ => VNull
                                      end);
                ("reports", VArray ((fun r => VObject [("payload", VString (text (hr_payload r)))])
                                      <$> ir_reports result));
                ("processed_input_count",
                   VNumber (Epoch.get_num_processed_inputs_since_genesis epoch))])))
         end
     | _ => refused "session id not found"
     end) /\
  (forall payload, Conversions.decode_ethereum_binary (text payload) = Ok payload).
Proof.
  intros response refused text. split; [|intros payload; exact (proj1 (ethereum_binary_roundtrip payload "" eq_refl))].
  unfold response, handle_request, host_endpoint, ServerManagerService.inspect_state, SessionManager.on_session.
  cbn [payload]. destruct (SessionManager.try_get_session manager _) as [session|st|] eqn:Hget; cbn.
  - unfold Session.try_inspect, Session.inspected, Session.check_tainted, Session.try_get_epoch.
    cbv [mbind M_bind get lift]. cbn -[bool_decide]. destruct (Session.tainted session); cbn; [done|].
    destruct (inspect _) as [result|]; cbn; [|done].
    destruct (Session.epochs session !! _) as [epoch|]; cbn; [|done].
    unfold inspect_response_ser, http_inspect_response. cbn. rewrite convert_status_text.
    destruct result as [status reports]. cbn. rewrite <- !list_fmap_compose. by destruct status.
  - unfold SessionManager.try_get_session in Hget. destruct (manager ≫= _); [done|]. by injection Hget as <-.
  - unfold SessionManager.try_get_session in Hget. by destruct (manager ≫= _).
Qed.
End HostRunner.

(** ** Witnesses *)

Module InspectWitness.
Import HexRef SerdeJsonRef InspectHttp InspectService.
#[local] Instance sample_status : ProtoStatus := fun status =>
  match status with
  | GrpcAccepted => 0 | GrpcRejected => 1 | GrpcException => 2 | GrpcMachineHalted => 3
  | GrpcCycleLimitExceeded => 4 | GrpcTimeLimitExceeded => 5 | GrpcPayloadLengthLimitExceeded => 6
  end.
#[local] Instance sample_status_laws : ProtoStatusLaws.
Proof. by intros [] []. Qed.

Definition sample_config : InspectConfig.InspectServerConfig :=
  InspectConfig.mkInspectServerConfig "localhost:5002" "localhost:5001" "default" 2 8080.

(** Four requests for a queue of two while the task works on none: the third and
    fourth are refused, one client leaves and the other gets its response. *)
Definition sample_events : list Event :=
  [Arrive (InspectGet "a" None); Arrive (InspectGet "b" (Some "x=1")); Arrive (InspectPost []);
   Arrive (InspectPost []); Drop 0; Recv].

Lemma inspect_answers_witness :
  exists rs, (run sample_config "too large" (sample_events ++ turns 2 (inl "refused")) InspectClient_new).1 = rs /\
    1%nat ∈ rs.*1.
Proof.
  pose proof (inspect_answers sample_config "too large" sample_events (inl "refused") 2 (le_n 2)) as Hw.
  assert (Drop 1 ∉ sample_events) as Hd
    by (intros Hd; repeat (apply elem_of_cons in Hd as [Hd|Hd]; [done|]); by apply elem_of_nil in Hd).
  eexists. split; [reflexivity|].
  exact (proj2 ((proj2 (proj2 (proj2 Hw))) 1%nat ltac:(vm_compute; lia) Hd)).
Defined.

(** A query to the session of the host-runner after two inputs. *)
Import KeccakRef HostModel.
#[local] Instance sample_ethabi : Ethabi := fun z => be 32 z.
Definition sample_inspect (request : InspectStateRequest) : option InspectResult :=
  Some (mkInspectResult InspectAccepted [mkHostReport (isr_payload request)]).
Definition sample_manager : SessionManager.Manager :=
  Some (SessionManager.mkSessionEntry "default" HostServerWitness.reached).

Lemma inspect_host_runner_witness :
  inspect_response (handle_request sample_config (host_endpoint sample_inspect sample_manager)
    (mkInspectRequest [Byte.xff] 0)) =
  Some (mkHttpResponse 200 (json_print (VObject
    [("status", VString "Accepted"); ("exception_payload", VNull);
     ("reports", VArray [VObject [("payload", VString "0xff")]]); ("processed_input_count", VNumber 12)]))).
Proof.
  rewrite (proj1 (inspect_host_runner sample_config sample_inspect sample_manager [Byte.xff] 0)).
  assert (SessionManager.try_get_session sample_manager "default" = Ok HostServerWitness.reached) as Hs by reflexivity.
  assert (Session.tainted HostServerWitness.reached = None) as Ht by (vm_compute; reflexivity).
  assert (Epoch.get_num_processed_inputs_since_genesis <$>
    Session.epochs HostServerWitness.reached !! Session.active_epoch_index HostServerWitness.reached = Some 12) as He
    by (vm_compute; reflexivity).
  cbn [InspectConfig.session_id sample_config]. rewrite Hs, Ht.
  destruct (_ !! _) as [epoch|]; [|discriminate He]. injection He as ->. reflexivity.
Defined.
End InspectWitness.
