(* ===== verification/GraphQL.v ===== *)
(** * The GraphQL reader

    [offchain/graphql-server/src]: the scalar values of the schema
    ([schema/scalar.rs]), the resolvers of the queries and of the objects
    ([schema/resolvers.rs]) over the repository, and the HTTP handler
    ([http.rs]). The execution of a query document ([juniper]) is a parameter;
    a resolver is a function of the object and of its arguments. *)

From S2P Require Import Prelude Codecs Retry Events Broker Pagination Repository Indexer RollupHttp.
Import StdText Schema.

(** ** [schema/scalar.rs] *)

Module Scalar.
Section Scalar.
(** [f64] and [n as f64] for an integer [n] *)
Context {f64 : Type} (f64_of_int : Z -> f64).

Inductive RollupsGraphQLScalarValue :=
| SInt (i : Z)
| SBigInt (i : Z)
| SFloat (f : f64)
| SString (s : string)
| SBoolean (b : bool).

(** [ScalarToken] of the parser of documents *)
Inductive ScalarToken :=
| TokenString (s : string)
| TokenFloat (s : string)
| TokenInt (s : string).

Inductive ParseError := UnexpectedToken (token : ScalarToken).

(** [impl GraphQLScalar for i64] *)
Definition bigint_resolve (self : Z) : RollupsGraphQLScalarValue := SString (i64_to_string self).
(** [as_scalar_value::<i64>]: the variant that holds an [i64] *)
Definition bigint_from_input_value (v : RollupsGraphQLScalarValue) : option Z :=
  match v with SBigInt i => Some i | _ => None end.
Definition bigint_from_str (value : ScalarToken) : outcome ParseError RollupsGraphQLScalarValue :=
  match value with
  | TokenInt v => s ← map_err (fun _ => UnexpectedToken value) (parse_i64 v); Ok (SBigInt s)
  | _ => Err (UnexpectedToken value)
  end.

(** [impl ScalarValue] *)
Definition as_int (self : RollupsGraphQLScalarValue) : option Z :=
  match self with SInt i => Some i | _ => None end.
Definition as_string (self : RollupsGraphQLScalarValue) : option string :=
  match self with SString s => Some s | _ => None end.
Definition into_string (self : RollupsGraphQLScalarValue) : option string :=
  match self with SString s => Some s | _ => None end.
Definition as_str (self : RollupsGraphQLScalarValue) : option string :=
  match self with SString s => Some s | _ => None end.
Definition as_float (self : RollupsGraphQLScalarValue) : option f64 :=
  match self with
  | SInt i => Some (f64_of_int i)
  | SFloat f => Some f
  | _ => None
  end.
Definition as_boolean (self : RollupsGraphQLScalarValue) : option bool :=
  match self with SBoolean b => Some b | _ => None end.

(** [impl Visitor]: the values of the variables of a request *)
Definition visit_bool (value : bool) : RollupsGraphQLScalarValue := SBoolean value.
Definition visit_i32 (value : Z) : RollupsGraphQLScalarValue := SInt value.
Definition visit_i64 (value : Z) : RollupsGraphQLScalarValue :=
  if value <=? 2 ^ 31 - 1 then visit_i32 (swrap 32 value) else SBigInt value.
Definition visit_u64 (value : Z) : RollupsGraphQLScalarValue :=
  if value <=? 2 ^ 63 - 1 then visit_i64 (swrap 64 value) else SFloat (f64_of_int value).
Definition visit_u32 (value : Z) : RollupsGraphQLScalarValue :=
  if value <=? 2 ^ 31 - 1 then visit_i32 (swrap 32 value) else visit_u64 value.
Definition visit_f64 (value : f64) : RollupsGraphQLScalarValue := SFloat value.
Definition visit_string (value : string) : RollupsGraphQLScalarValue := SString value.
Definition visit_str (value : string) : RollupsGraphQLScalarValue := visit_string value.
End Scalar.
Arguments RollupsGraphQLScalarValue f64 : clear implicits.
End Scalar.

(** ** [schema/resolvers.rs] *)

Inductive FieldError := mkFieldError (message : string).

(** [Display] of the errors of the data crate *)
Definition data_error_text (e : DataError.Error) : string :=
  match e with
  | DataError.DatabaseConnectionError _ => "database pool connection error"
  | DataError.DatabaseError _ => "database error"
  | DataError.ItemNotFound item_type => item_type +:+ " not found"
  | DataError.DecodeUTF8CursorError _ => "failed to decode UTF8 cursor"
  | DataError.DecodeBase64CursorError _ => "failed to decode base64 cursor"
  | DataError.ParseCursorError _ => "failed to parse cursor"
  | DataError.MixedPaginationError =>
      "cannot mix forward pagination (first, after) with backward pagination (last, before)"
  | DataError.PaginationCursorError arg => "invalid pagination cursor " +:+ arg
  | DataError.PaginationLimitError arg => "invalid pagination limit " +:+ arg
  end.

Module Resolvers.
Import Data.

(** [GraphQLEnum]: the names of the values are in upper snake case *)
Inductive CompletionStatus :=
| Unprocessed | Accepted | Rejected | Exception | MachineHalted
| CycleLimitExceeded | TimeLimitExceeded | PayloadLengthLimitExceeded.

Definition completion_status (status : Data.CompletionStatus) : CompletionStatus :=
  match status with
  | Data.Unprocessed => Unprocessed
  | Data.Accepted => Accepted
  | Data.Rejected => Rejected
  | Data.Exception => Exception
  | Data.MachineHalted => MachineHalted
  | Data.CycleLimitExceeded => CycleLimitExceeded
  | Data.TimeLimitExceeded => TimeLimitExceeded
  | Data.PayloadLengthLimitExceeded => PayloadLengthLimitExceeded
  end.

Record OutputValidityProof := mkOutputValidityProof {
  ov_input_index_within_epoch : Z;
  ov_output_index_within_input : Z;
  ov_output_hashes_root_hash : string;
  ov_vouchers_epoch_root_hash : string;
  ov_notices_epoch_root_hash : string;
  ov_machine_state_hash : string;
  ov_output_hash_in_output_hashes_siblings : list string;
  ov_output_hashes_in_epoch_siblings : list string;
}.

Record InputFilter := mkInputFilter {
  f_index_lower_than : option Z;
  f_index_greater_than : option Z;
}.
Definition input_query_filter (filter : InputFilter) : InputQueryFilter :=
  mkInputQueryFilter (f_index_greater_than filter) (f_index_lower_than filter).
(** [Default] *)
Definition InputQueryFilter_default : InputQueryFilter := mkInputQueryFilter None None.
Definition OutputQueryFilter_default : OutputQueryFilter := mkOutputQueryFilter None.

(** [PageInfo]: the cursors are encoded *)
Record GraphQLPageInfo := mkGraphQLPageInfo {
  g_start_cursor : option string;
  g_end_cursor : option string;
  g_has_next_page : bool;
  g_has_previous_page : bool;
}.

Section Resolvers.
Context {D : Type} `{Postgres D, Retry, Base64Crate, HexCrate}.

Definition convert_error (e : DataError.Error) : FieldError := mkFieldError (data_error_text e).

(** *** [Query] *)
Definition Query_input (index : Z) : M D FieldError Input := context convert_error (Repository.get_input index).
Definition Query_voucher (voucher_index input_index : Z) : M D FieldError Voucher :=
  context convert_error (Repository.get_voucher voucher_index input_index).
Definition Query_notice (notice_index input_index : Z) : M D FieldError Notice :=
  context convert_error (Repository.get_notice notice_index input_index).
Definition Query_report (report_index input_index : Z) : M D FieldError Report :=
  context convert_error (Repository.get_report report_index input_index).
Definition Query_inputs (first last : option Z) (after before : option string) (where_ : option InputFilter)
    : M D FieldError (Connection Input) :=
  let filter := default InputQueryFilter_default (input_query_filter <$> where_) in
  context convert_error (Repository.get_inputs first last after before filter).
Definition Query_vouchers (first last : option Z) (after before : option string) : M D FieldError (Connection Voucher) :=
  context convert_error (Repository.get_vouchers first last after before OutputQueryFilter_default).
Definition Query_notices (first last : option Z) (after before : option string) : M D FieldError (Connection Notice) :=
  context convert_error (Repository.get_notices first last after before OutputQueryFilter_default).
Definition Query_reports (first last : option Z) (after before : option string) : M D FieldError (Connection Report) :=
  context convert_error (Repository.get_reports first last after before OutputQueryFilter_default).

(** *** [Input] *)
Definition Input_index (self : Input) : Z := in_index self.
Definition Input_status (self : Input) : CompletionStatus := completion_status (in_status self).
Definition Input_msg_sender (self : Input) : string := Conversions.graphql_hex_encode (in_msg_sender self).
(** [duration_since(UNIX_EPOCH)] fails for an earlier time. *)
Definition Input_timestamp (self : Input) : Z :=
  if 0 <=? in_timestamp self then swrap 64 (in_timestamp self) else 0.
Definition Input_block_number (self : Input) : Z := in_block_number self.
Definition Input_payload (self : Input) : string := Conversions.graphql_hex_encode (in_payload self).
Definition Input_voucher (self : Input) (index : Z) : M D FieldError Voucher :=
  context convert_error (Repository.get_voucher index (in_index self)).
Definition Input_notice (self : Input) (index : Z) : M D FieldError Notice :=
  context convert_error (Repository.get_notice index (in_index self)).
Definition Input_report (self : Input) (index : Z) : M D FieldError Report :=
  context convert_error (Repository.get_report index (in_index self)).
Definition Input_vouchers (self : Input) (first last : option Z) (after before : option string)
    : M D FieldError (Connection Voucher) :=
  let filter := mkOutputQueryFilter (Some (in_index self)) in
  context convert_error (Repository.get_vouchers first last after before filter).
Definition Input_notices (self : Input) (first last : option Z) (after before : option string)
    : M D FieldError (Connection Notice) :=
  let filter := mkOutputQueryFilter (Some (in_index self)) in
  context convert_error (Repository.get_notices first last after before filter).
Definition Input_reports (self : Input) (first last : option Z) (after before : option string)
    : M D FieldError (Connection Report) :=
  let filter := mkOutputQueryFilter (Some (in_index self)) in
  context convert_error (Repository.get_reports first last after before filter).

(** *** [Voucher], [Notice] and [Report] *)
Definition Voucher_index (self : Voucher) : Z := vo_index self.
Definition Voucher_input (self : Voucher) : M D FieldError Input :=
  context convert_error (Repository.get_input (vo_input_index self)).
Definition Voucher_destination (self : Voucher) : string := Conversions.graphql_hex_encode (vo_destination self).
Definition Voucher_payload (self : Voucher) : string := Conversions.graphql_hex_encode (vo_payload self).
Definition Voucher_proof (self : Voucher) : M D FieldError (option Data.Proof_) :=
  context convert_error (Repository.get_proof (vo_input_index self) (vo_index self) OutputVoucher).

Definition Notice_index (self : Notice) : Z := no_index self.
Definition Notice_input (self : Notice) : M D FieldError Input :=
  context convert_error (Repository.get_input (no_input_index self)).
Definition Notice_payload (self : Notice) : string := Conversions.graphql_hex_encode (no_payload self).
Definition Notice_proof (self : Notice) : M D FieldError (option Data.Proof_) :=
  context convert_error (Repository.get_proof (no_input_index self) (no_index self) OutputNotice).

Definition Report_index (self : Report) : Z := re_index self.
Definition Report_input (self : Report) : M D FieldError Input :=
  context convert_error (Repository.get_input (re_input_index self)).
Definition Report_payload (self : Report) : string := Conversions.graphql_hex_encode (re_payload self).

(** *** [Proof] *)
Definition Proof_validity (self : Data.Proof_) : OutputValidityProof :=
  mkOutputValidityProof
    (validity_input_index_within_epoch self)
    (validity_output_index_within_input self)
    (Conversions.graphql_hex_encode (validity_output_hashes_root_hash self))
    (Conversions.graphql_hex_encode (validity_vouchers_epoch_root_hash self))
    (Conversions.graphql_hex_encode (validity_notices_epoch_root_hash self))
    (Conversions.graphql_hex_encode (validity_machine_state_hash self))
    ((fun hash => Conversions.graphql_hex_encode (default [] hash))
       <$> validity_output_hash_in_output_hashes_siblings self)
    ((fun hash => Conversions.graphql_hex_encode (default [] hash))
       <$> validity_output_hashes_in_epoch_siblings self).
Definition Proof_context (self : Data.Proof_) : string := Conversions.graphql_hex_encode (pr_context self).

(** *** [impl_connection!] *)
Definition Connection_total_count {N} (self : Connection N) : Z := conn_total_count self.
Definition Connection_edges {N} (self : Connection N) : list (Edge N) := edges self.
Definition Connection_page_info {N} (self : Connection N) : GraphQLPageInfo :=
  mkGraphQLPageInfo (Cursor.encode <$> start_cursor (page_info self))
    (Cursor.encode <$> end_cursor (page_info self))
    (has_next_page (page_info self)) (has_previous_page (page_info self)).
Definition Edge_node {N} (self : Edge N) : N := edge_node self.
Definition Edge_cursor {N} (self : Edge N) : string := Cursor.encode (edge_cursor self).
End Resolvers.
End Resolvers.

(** ** [http.rs] *)

Module GraphQLHttp.
(** [execute_sync] followed by [to_string] runs in a task of its own;
    [join_error] is the text of [JoinError] when the task panics. *)
Definition graphql (join_error : string) (return_value : outcome string string) : HttpResponse :=
  match return_value with
  | Ok value => mkHttpResponse 200 value
  | Err err => mkHttpResponse 400 ("unable to execute query, internal server error, details: " +:+ err)
  | Panic => mkHttpResponse 400 ("unable to execute query, internal server error, details: " +:+ join_error)
  end.
End GraphQLHttp.

(** ** Scalars *)

Section ScalarTheorems.
Context {f64 : Type} (f64_of_int : Z -> f64).
Import Scalar.

(** An integer of a JSON document: [serde_json] visits it as an [i64] when it is
    negative and as a [u64] otherwise. *)
Definition visit_number (n : Z) : RollupsGraphQLScalarValue f64 :=
  if n <? 0 then visit_i64 n else visit_u64 f64_of_int n.

(** C31. The integers of a request keep their value as [Int] when they fit in 32
    bits, as [BigInt] above that and up to [i64::MAX], and become floats beyond;
    an integer below [i32::MIN] is truncated to 32 bits, so that it reaches the
    resolvers as another [Int]. The [BigInt]s of a response are decimal texts
    from which the parser of documents recovers the value. *)
Theorem scalar_integers n :
  - 2 ^ 63 <= n < 2 ^ 64 ->
  (- 2 ^ 31 <= n < 2 ^ 31 -> visit_number n = SInt n) /\
  (2 ^ 31 <= n < 2 ^ 63 -> visit_number n = SBigInt n) /\
  (2 ^ 63 <= n -> visit_number n = SFloat (f64_of_int n)) /\
  (n < - 2 ^ 31 -> exists i, visit_number n = SInt i /\ is_i32 i /\ i <> n) /\
  (n < 2 ^ 63 -> exists s, bigint_resolve (f64 := f64) n = SString s /\
     bigint_from_str (TokenInt s) = Ok (SBigInt (f64 := f64) n)).
Proof.
  intros Hn. unfold visit_number, visit_u64, visit_i64, visit_i32.
  split_and!; intros Hr.
  - destruct (Z.ltb_spec n 0).
    + rewrite (proj2 (Z.leb_le _ _)) by lia. by rewrite swrap_small by lia.
    + rewrite (proj2 (Z.leb_le n (2 ^ 63 - 1))) by lia. rewrite (swrap_small 64) by lia.
      rewrite (proj2 (Z.leb_le _ _)) by lia. by rewrite swrap_small by lia.
  - rewrite (proj2 (Z.ltb_ge n 0)), (proj2 (Z.leb_le n (2 ^ 63 - 1))), (swrap_small 64) by lia.
    by rewrite (proj2 (Z.leb_gt _ _)) by lia.
  - by rewrite (proj2 (Z.ltb_ge n 0)), (proj2 (Z.leb_gt _ _)) by lia.
  - rewrite (proj2 (Z.ltb_lt n 0)), (proj2 (Z.leb_le _ _)) by lia.
    pose proof (swrap_range 32 n ltac:(lia)) as Hs. exists (swrap 32 n). unfold is_i32. split_and!; [done|lia..].
  - eexists. split; [done|]. unfold bigint_from_str, parse_i64, i64_to_string.
    by rewrite parse_int_pretty by (unfold is_int; lia).
Qed.
End ScalarTheorems.

(** ** From the broker to the reader

    What a client reads while the indexer copies the streams. *)

Section ReaderTheorems.
Context {D : Type} `{PL : PostgresLaws D tables others} `{RT : RetryLaws} `{HL : HexCrateLaws}.
Import Resolvers IndexerConversions.

(** The events [ps] and [qs] are in the database, and the indexer may have added
    more. *)
Definition indexed (ps : list RollupsInput) (qs : list RollupsOutput) (db : Tables) : Prop :=
  exists ps' qs', db = mirror (ps ++ ps') (qs ++ qs') /\ Forall (caused (ps ++ ps')) (qs ++ qs').

Definition down (e : FieldError) : Prop := exists e0, unavailable e0 /\ e = convert_error e0.

Lemma indexed_ok ps qs db : indexed ps qs db -> tables_ok db.
Proof. intros (ps' & qs' & -> & Hc). by apply mirror_ok. Qed.

(** The rows of the outputs that are in the database. *)
Lemma mirror_voucher ps qs db v : indexed ps qs db -> v ∈ omap voucher_of qs ->
  (forall w, w ∈ omap voucher_of qs -> primary_key vouchers w = primary_key vouchers v -> w = v) ->
  t_vouchers db !! primary_key vouchers v = Some v.
Proof.
  intros (ps' & qs' & -> & _) Hv Honly. unfold mirror. rewrite mirror_outputs_split, mirror_inputs_split.
  cbn [set_table t_vouchers]. rewrite omap_app. by apply put_all_only; [apply lookup_empty| |].
Qed.

Lemma mirror_notice ps qs db n : indexed ps qs db -> n ∈ omap notice_of qs ->
  (forall w, w ∈ omap notice_of qs -> primary_key notices w = primary_key notices n -> w = n) ->
  t_notices db !! primary_key notices n = Some n.
Proof.
  intros (ps' & qs' & -> & _) Hv Honly. unfold mirror. rewrite mirror_outputs_split, mirror_inputs_split.
  cbn [set_table t_notices]. rewrite omap_app. by apply put_all_only; [apply lookup_empty| |].
Qed.

Lemma mirror_proof ps qs db p : indexed ps qs db -> p ∈ omap proof_of_output qs ->
  (forall w, w ∈ omap proof_of_output qs -> primary_key proofs w = primary_key proofs p -> w = p) ->
  t_proofs db !! primary_key proofs p = Some p.
Proof.
  intros (ps' & qs' & -> & _) Hv Honly. unfold mirror. rewrite mirror_outputs_split, mirror_inputs_split.
  cbn [set_table t_proofs]. rewrite omap_app. by apply put_all_only; [apply lookup_empty| |].
Qed.

(** The row of an input has the status of a result of the input, if there is one. *)
Definition status_of (qs qs' : list RollupsOutput) (k : Z) (s : Data.CompletionStatus) : Prop :=
  (exists r, AdvanceResult r ∈ qs ++ qs' /\ as_i32 (ar_input_index r) = k /\ s = convert_status (ar_status r)) \/
  (s = Data.Unprocessed /\ forall r, AdvanceResult r ∈ qs -> as_i32 (ar_input_index r) <> k).

Lemma latest_spec k l :
  match foldl (latest k) None l with
  | Some s => exists r, r ∈ l /\ [as_i32 (ar_input_index r)] = k /\ s = convert_status (ar_status r)
  | None => forall r, r ∈ l -> [as_i32 (ar_input_index r)] <> k
  end.
Proof.
  induction l as [|r l IH] using rev_ind; [intros r Hr; by apply elem_of_nil in Hr|].
  rewrite foldl_app. cbn. unfold latest at 1. case_decide as Hk.
  - exists r. split; [apply elem_of_app; right; by left|done].
  - destruct (foldl (latest k) None l) as [s|].
    + destruct IH as (r' & ? & ?). exists r'. split; [apply elem_of_app; by left|done].
    + intros r' [?| ->%list_elem_of_singleton]%elem_of_app; [by apply IH|done].
Qed.

Lemma mirror_input_row ps qs db row : indexed ps qs db -> row ∈ omap row_of_input ps ->
  (forall w, w ∈ omap row_of_input ps -> Data.in_index w = Data.in_index row -> w = row) ->
  exists qs' s, status_of qs qs' (Data.in_index row) s /\ t_inputs db !! [Data.in_index row] = Some (Data.set_status s row).
Proof.
  intros (ps' & qs' & -> & _) Hr Honly. unfold mirror. rewrite mirror_outputs_split, mirror_inputs_split.
  cbn [set_table t_inputs]. rewrite put_status_all, (omap_app row_of_input).
  change (?m !! [Data.in_index row]) with (m !! primary_key inputs row).
  rewrite (put_all_only (primary_key inputs) _ _ _ row); [|apply lookup_empty|done|].
  2:{ intros w Hw Hk. apply Honly; [done|]. by injection Hk. }
  cbn [fmap option_fmap option_map]. exists qs'.
  pose proof (latest_spec [Data.in_index row] (omap result_of_output (qs ++ qs'))) as Hl.
  destruct (foldl (latest _) None _) as [s|].
  - exists s. split; [left|done]. destruct Hl as (r & Hin & Hk & ->). exists r.
    apply list_elem_of_omap in Hin as (q & Hq & Hqr). destruct q; try done. injection Hqr as ->.
    injection Hk as Hk. done.
  - exists Data.Unprocessed. split; [right|].
    + split; [done|]. intros r Hin Hk. apply (Hl r); [|by rewrite Hk].
      apply list_elem_of_omap. exists (AdvanceResult r). split; [apply elem_of_app; by left|done].
    + apply list_elem_of_omap in Hr as (p & _ & Hp). unfold row_of_input in Hp.
      destruct (ri_data p) as [i|]; [|done]. unfold convert_input, after_epoch in Hp.
      destruct (timestamp _ <? _); [|done]. cbn in Hp. by injection Hp as <-.
Qed.

(** [v] is in [l], and nothing else in [l] has its key. *)
Definition sole {Row} (t : table Row) (l : list Row) (v : Row) : Prop :=
  v ∈ l /\ forall w, w ∈ l -> primary_key t w = primary_key t v -> w = v.

(** The bytes of a text of the reader *)
Definition bytes_of (text : string) : outcome Conversions.DecodeError (list byte) :=
  Conversions.decode_ethereum_binary text.

Lemma bytes_of_hex bs : bytes_of (Conversions.graphql_hex_encode bs) = Ok bs.
Proof. exact (proj1 (ethereum_binary_roundtrip bs "" eq_refl)). Qed.

Lemma collect_bytes (l : list (list byte)) :
  collect bytes_of ((fun hash => Conversions.graphql_hex_encode (default [] hash)) <$> (Some <$> l)) = Ok l.
Proof. induction l as [|b l IH]; [done|]. cbn [fmap list_fmap collect]. rewrite bytes_of_hex. cbn in *. by rewrite IH. Qed.

(** Whatever the other clients do, the events stay in the database. *)
Definition held (ps : list RollupsInput) (qs : list RollupsOutput) (d : D) : Prop :=
  forall db, others (tables d) db -> indexed ps qs db.

Section Read.
Variables (ps : list RollupsInput) (qs : list RollupsOutput) (d : D).
Hypothesis Hix : held ps qs d.

(** Reading the row of a key. *)
Lemma wp_read {Row A} (t : table Row) p k (f : list Row -> outcome DataError.Error A) (Q : A -> D -> Prop) :
  (forall r, p r = true <-> primary_key t r = k) ->
  (forall d' found, indexed ps qs (tables d') -> held ps qs d' -> last found = get_table t (tables d') !! k ->
     exists a, f found = Ok a /\ Q a d') ->
  wp (context convert_error (Repository.conn ;;
        found ← context DataError.DatabaseError (load (mkQuery t p None)); lift (f found))) d
    Q (fun e _ => down e).
Proof.
  pose proof others_preorder. intros Hp Hf. rewrite wp_context.
  apply (wp_lookup (tables := tables) (others := others) d t p k); [done| | |].
  - intros db Hdb. by eapply indexed_ok, Hix.
  - intros d' found Hd' Hl. destruct (Hf d' found) as (a & -> & Ha); [by apply Hix| |done..].
    intros db Hdb. apply Hix. by etrans.
  - intros e d' He. by exists e.
Qed.

Lemma row_input i row : convert_input (E := unit) i = Ok row -> sole inputs (omap row_of_input ps) row ->
  wp (Query_input (as_i32 (input_index (rai_metadata i)))) d
    (fun r d' => held ps qs d' /\ exists qs' s, status_of qs qs' (Data.in_index row) s /\ r = Data.set_status s row)
    (fun e _ => down e).
Proof.
  intros Hrow [Hin Honly].
  assert (Data.in_index row = as_i32 (input_index (rai_metadata i))) as Hk.
  { unfold convert_input, after_epoch in Hrow. destruct (_ <? _); [|done]. cbn in Hrow. by injection Hrow as <-. }
  apply (wp_read inputs _ [as_i32 (input_index (rai_metadata i))]).
  { intros r. cbn. rewrite Z.eqb_eq. split; [by intros ->|by intros [=]]. }
  intros d' found Hdb Hd' Hl. rewrite <-Hk in Hl.
  destruct (mirror_input_row _ _ _ _ Hdb Hin ltac:(intros w Hw Hw'; apply Honly; [done|cbn in *; congruence]))
    as (qs' & s & Hs & Hget).
  cbn in Hl, Hget. rewrite Hget in Hl. eexists. split; [unfold Repository.pop_or_not_found; by rewrite Hl|].
  split; [done|]. by exists qs', s.
Qed.

Lemma row_voucher v : sole vouchers (omap voucher_of qs) (convert_voucher v) ->
  wp (Query_voucher (as_i32 (rv_index v)) (as_i32 (rv_input_index v))) d
    (fun r d' => held ps qs d' /\ r = convert_voucher v) (fun e _ => down e).
Proof.
  intros [Hin Honly].
  apply (wp_read vouchers _ [as_i32 (rv_input_index v); as_i32 (rv_index v)]); [intros r; apply pair_key|].
  intros d' found Hdb Hd' Hl%(fun H => eq_trans H (mirror_voucher _ _ _ _ Hdb Hin Honly)).
  eexists. split; [unfold Repository.pop_or_not_found; by rewrite Hl|done].
Qed.

Lemma row_notice n : sole notices (omap notice_of qs) (convert_notice n) ->
  wp (Query_notice (as_i32 (rn_index n)) (as_i32 (rn_input_index n))) d
    (fun r d' => held ps qs d' /\ r = convert_notice n) (fun e _ => down e).
Proof.
  intros [Hin Honly].
  apply (wp_read notices _ [as_i32 (rn_input_index n); as_i32 (rn_index n)]); [intros r; apply pair_key|].
  intros d' found Hdb Hd' Hl%(fun H => eq_trans H (mirror_notice _ _ _ _ Hdb Hin Honly)).
  eexists. split; [unfold Repository.pop_or_not_found; by rewrite Hl|done].
Qed.

Lemma row_proof p : sole proofs (omap proof_of_output qs) (convert_proof p) ->
  wp (context convert_error (Repository.get_proof (as_i32 (rp_input_index p)) (as_i32 (rp_output_index p))
        (Data.pr_output_enum (convert_proof p)))) d
    (fun r d' => held ps qs d' /\ r = Some (convert_proof p)) (fun e _ => down e).
Proof.
  intros [Hin Honly].
  apply (wp_read proofs _ (primary_key proofs (convert_proof p)) (fun l => Ok (last l))).
  { intros r. cbn. rewrite !andb_true_iff, !Z.eqb_eq, bool_decide_eq_true. split.
    - intros [[-> ->] ->]. done.
    - intros [= ? ? Hr]. repeat split; try done. by destruct (Data.pr_output_enum r), (rp_output_enum p). }
  intros d' found Hdb Hd' Hl%(fun H => eq_trans H (mirror_proof _ _ _ _ Hdb Hin Honly)).
  eexists. split; [done|]. by rewrite Hl.
Qed.

(** An output has the row of its input. *)
Lemma row_of_cause q k : q ∈ qs -> about q = Some k ->
  wp (Query_input k) d (fun r d' => held ps qs d' /\ Input_index r = k) (fun e _ => down e).
Proof.
  intros Hq Hk. apply (wp_read inputs _ [k]).
  { intros r. cbn. rewrite Z.eqb_eq. split; [by intros ->|by intros [=]]. }
  intros d' found Hdb Hd' Hl. pose proof (indexed_ok _ _ _ Hdb) as Hok. destruct Hdb as (ps' & qs' & Hm & Hc).
  assert (is_Some (t_inputs (tables d') !! [k])) as [r Hr].
  { rewrite Hm. apply mirror_has_row. eapply (proj1 (Forall_forall _ _) Hc q); [apply elem_of_app; by left|done]. }
  cbn in Hl. rewrite Hr in Hl. exists r. split; [unfold Repository.pop_or_not_found; by rewrite Hl|].
  split; [done|]. pose proof (keyed _ Hok _ inputs _ _ Hr) as Hkey. by injection Hkey.
Qed.
End Read.

End ReaderTheorems.

(** ** Witnesses *)

Module GraphQLWitness.
Import HexRef RetryRef PostgresRef Resolvers IndexerConversions Scalar.

Lemma scalar_integers_witness :
  visit_number (fun n => n) (- 2 ^ 31 - 1) = SInt (2 ^ 31 - 1) /\ visit_number (fun n => n) (2 ^ 31) = SBigInt (2 ^ 31).
Proof.
  split; [reflexivity|]. exact (proj1 (proj2 (scalar_integers (fun n => n) (2 ^ 31) ltac:(lia))) ltac:(lia)).
Defined.

(** One input with a notice, accepted. *)
Definition note : RollupsNotice := mkRollupsNotice 0 0 [Byte.x02].
Definition copied : list RollupsOutput := [Notice note; AdvanceResult (mkRollupsAdvanceResult 0 Events.Accepted)].

Lemma copied_indexed : indexed [IndexerWitness.advance] copied (mirror [IndexerWitness.advance] copied).
Proof.
  exists [], []. rewrite !app_nil_r. split; [done|].
  assert (has_row [IndexerWitness.advance] 0) as Hrow.
  { exists IndexerWitness.advance. eexists. split; [left|]. split; vm_compute; reflexivity. }
  apply Forall_cons. split; [by intros k [= <-]|]. apply Forall_singleton. by intros k [= <-].
Qed.

End GraphQLWitness.
