(* ===== verification/Clients.v ===== *)
(** * The clients of the node (Go)

    [pkg/readerclient] (the client of the GraphQL reader), [pkg/addresses],
    [pkg/ethutil] (transactions and calls of the contracts) and the commands of
    [cmd/cartesi-rollups-cli] that use them. The functions that [genqlient]
    generates from the query documents of [pkg/readerclient/generate] are the
    queries over the resolvers of [GraphQL]; [go-ethereum], the contract bindings
    and the Ethereum node are parameters. *)

From S2P Require Import Prelude Codecs Retry Events Broker Pagination Repository Indexer RollupHttp GraphQL.
From Stdlib Require Import Ascii.
Import StdText Schema.

(** ** [strconv.ParseUint] *)

Module Strconv.
Inductive NumError := ErrSyntax | ErrRange.

Definition code (c : ascii) : Z := Z.of_N (N_of_ascii c).
(** [c | ('x' - 'X')] *)
Definition lower (c : ascii) : Z := Z.lor (code c) 32.
Definition is_decimal (c : ascii) : bool := (48 <=? code c) && (code c <=? 57).

Definition digit_value (c : ascii) : option Z :=
  if is_decimal c then Some (code c - 48)
  else if (97 <=? lower c) && (lower c <=? 122) then Some (lower c - 97 + 10)
  else None.

(** The prefix of the base, when the base is not given. *)
Definition base_prefix (s : string) : Z * string :=
  match s with
  | String "0" (String c (String _ _ as rest)) =>
      if lower c =? 98 then (2, rest)
      else if lower c =? 111 then (8, rest)
      else if lower c =? 120 then (16, rest)
      else (8, String c rest)
  | String "0" rest => (8, rest)
  | _ => (10, s)
  end.

Definition maxUint64 : Z := 2 ^ 64 - 1.

Fixpoint scan (base maxVal n : Z) (underscores : bool) (s : string) : outcome NumError (Z * bool) :=
  match s with
  | EmptyString => Ok (n, underscores)
  | String "_" s => scan base maxVal n true s
  | String c s =>
      d ← ok_or (digit_value c) ErrSyntax;
      ensure (d <? base) ErrSyntax ;;
      ensure (n <? maxUint64 / base + 1) ErrRange ;;
      let n0 := wrap 64 (n * base) in
      let n1 := wrap 64 (n0 + d) in
      ensure (negb ((n1 <? n0) || (maxVal <? n1))) ErrRange ;;
      scan base maxVal n1 underscores s
  end.

(** [underscoreOK]: underscores separate digits; the prefix of the base counts
    as a digit. *)
Inductive Saw := SawStart | SawDigit | SawUnderscore | SawOther.
Fixpoint underscores_separate (hex : bool) (saw : Saw) (s : string) : bool :=
  match s with
  | EmptyString => match saw with SawUnderscore => false | _ => true end
  | String c s =>
      if is_decimal c || (hex && (97 <=? lower c) && (lower c <=? 102)) then underscores_separate hex SawDigit s
      else if code c =? 95 then
        match saw with SawDigit => underscores_separate hex SawUnderscore s | _ => false end
      else match saw with SawUnderscore => false | _ => underscores_separate hex SawOther s end
  end.
Definition skip_sign (s : string) : string :=
  match s with String "-" s' | String "+" s' => s' | _ => s end.
Definition underscoreOK (s : string) : bool :=
  match skip_sign s with
  | String "0" (String c rest) as s' =>
      if (lower c =? 98) || (lower c =? 111) || (lower c =? 120)
      then underscores_separate (lower c =? 120) SawDigit rest
      else underscores_separate false SawStart s'
  | s' => underscores_separate false SawStart s'
  end.

(** [strconv.ParseUint(s, 0, bitSize)] *)
Definition ParseUint0 (s : string) (bitSize : Z) : outcome NumError Z :=
  match s with
  | EmptyString => Err ErrSyntax
  | _ =>
      let '(base, digits) := base_prefix s in
      '(n, underscores) ← scan base (2 ^ bitSize - 1) 0 false digits;
      ensure (negb underscores || underscoreOK s) ErrSyntax ;;
      Ok n
  end.
End Strconv.

(** ** [go-ethereum] *)

(** [hexutil.Decode] and [common.HexToAddress] *)
Class GoHex : Type := {
  hexutil_Decode : string -> outcome string (list byte);
  HexToAddress : string -> Address;
}.

(** Documented: [Decode] reads the digits after the prefix [0x], and fails on an
    empty string; [HexToAddress] reads the 20 bytes of an address. *)
Class GoHexLaws `{GoHex, HexCrate} : Prop := {
  hexutil_decode_hex bs : hexutil_Decode ("0x" +:+ hex_encode bs) = Ok bs;
  hexutil_decode_total s : is_panic (hexutil_Decode s) = false;
  hex_to_address_hex bs : length bs = 20%nat -> HexToAddress ("0x" +:+ hex_encode bs) = bs;
}.

(** ** [pkg/contracts]: the arguments of the contracts

    A [bytes32] is an array of 32 bytes. *)

Module Contracts.
Record OutputValidityProof := mkOutputValidityProof {
  c_InputIndexWithinEpoch : Z;
  c_OutputIndexWithinInput : Z;
  c_OutputHashesRootHash : Hash;
  c_VouchersEpochRootHash : Hash;
  c_NoticesEpochRootHash : Hash;
  c_MachineStateHash : Hash;
  c_OutputHashInOutputHashesSiblings : list Hash;
  c_OutputHashesInEpochSiblings : list Hash;
}.
Record Proof := mkProof { c_Validity : OutputValidityProof; c_Context : list byte }.
End Contracts.

(** ** [pkg/readerclient] *)

Module ReaderClient.
Import Resolvers.

(** *** The answers of the queries ([generated.go])

    The fields of a document that the schema allows to be null are decoded into
    the zero value of their type. *)
Record ProofNode := mkProofNode {
  pn_validity : OutputValidityProof;
  pn_context : string;
}.
Definition ProofNode_zero : ProofNode := mkProofNode (mkOutputValidityProof 0 0 "" "" "" "" [] []) "".

Record NoticeNode := mkNoticeNode { nn_index : Z; nn_payload : string; nn_proof : ProofNode }.
Record VoucherNode := mkVoucherNode {
  vn_index : Z; vn_payload : string; vn_destination : string; vn_proof : ProofNode }.
Record ReportNode := mkReportNode { rn_index_ : Z; rn_payload_ : string }.
Record InputNode := mkInputNode {
  i_index : Z;
  i_status : CompletionStatus;
  i_msgSender : string;
  i_timestamp : string;
  i_blockNumber : string;
  i_payload : string;
  i_notices : list NoticeNode;
  i_vouchers : list VoucherNode;
  i_reports : list ReportNode;
}.

Section Queries.
Context {D : Type} `{Postgres D, Retry, Base64Crate, HexCrate}.
Local Abbreviation Q := (M D FieldError).

Definition ask_proof (p : option Data.Proof_) : ProofNode :=
  match p with
  | Some p => mkProofNode (Proof_validity p) (Proof_context p)
  | None => ProofNode_zero
  end.
Definition ask_notice (self : Data.Notice) : Q NoticeNode :=
  proof ← Notice_proof self;
  mret (mkNoticeNode (Notice_index self) (Notice_payload self) (ask_proof proof)).
Definition ask_voucher (self : Data.Voucher) : Q VoucherNode :=
  proof ← Voucher_proof self;
  mret (mkVoucherNode (Voucher_index self) (Voucher_payload self) (Voucher_destination self) (ask_proof proof)).
Definition ask_report (self : Data.Report) : ReportNode := mkReportNode (Report_index self) (Report_payload self).

(** The nodes of the edges of a connection, each with [f]. *)
Fixpoint traverse {A B} (f : A -> Q B) (l : list A) : Q (list B) :=
  match l with
  | [] => mret []
  | a :: l => b ← f a; bs ← traverse f l; mret (b :: bs)
  end.
Definition ask_edges {N B} (f : N -> Q B) (conn : Connection N) : Q (list B) :=
  traverse (fun e => f (Edge_node e)) (Connection_edges conn).

(** [BigInt] is bound to a string. *)
Definition ask_input (self : Data.Input) : Q InputNode :=
  notices ← (conn ← Input_notices self None None None None; ask_edges ask_notice conn);
  vouchers ← (conn ← Input_vouchers self None None None None; ask_edges ask_voucher conn);
  reports ← (conn ← Input_reports self None None None None; ask_edges (fun r => mret (ask_report r)) conn);
  mret (mkInputNode (Input_index self) (Input_status self) (Input_msg_sender self)
    (i64_to_string (Input_timestamp self)) (i64_to_string (Input_block_number self)) (Input_payload self)
    notices vouchers reports).

(** [input.graphql] and [inputs.graphql] *)
Definition getInput (index : Z) : Q InputNode := self ← Query_input index; ask_input self.
Definition getInputs : Q (list InputNode) :=
  conn ← Query_inputs None None None None None; ask_edges ask_input conn.

(** [notice.graphql], [notices.graphql] and [input_notices.graphql]; a node comes
    with the index of its input. *)
Definition with_input {A} (node : Q A) (input : Q Data.Input) : Q (A * Z) :=
  n ← node; i ← input; mret (n, Input_index i).
Definition getNotice (noticeIndex inputIndex : Z) : Q (NoticeNode * Z) :=
  self ← Query_notice noticeIndex inputIndex; with_input (ask_notice self) (Notice_input self).
Definition getNotices : Q (list (NoticeNode * Z)) :=
  conn ← Query_notices None None None None;
  ask_edges (fun self => with_input (ask_notice self) (Notice_input self)) conn.
Definition getInputNotices (inputIndex : Z) : Q (Z * list NoticeNode) :=
  self ← Query_input inputIndex;
  notices ← (conn ← Input_notices self None None None None; ask_edges ask_notice conn);
  mret (Input_index self, notices).

(** [voucher.graphql], [vouchers.graphql] and [input_vouchers.graphql] *)
Definition getVoucher (voucherIndex inputIndex : Z) : Q (VoucherNode * Z) :=
  self ← Query_voucher voucherIndex inputIndex; with_input (ask_voucher self) (Voucher_input self).
Definition getVouchers : Q (list (VoucherNode * Z)) :=
  conn ← Query_vouchers None None None None;
  ask_edges (fun self => with_input (ask_voucher self) (Voucher_input self)) conn.
Definition getInputVouchers (inputIndex : Z) : Q (Z * list VoucherNode) :=
  self ← Query_input inputIndex;
  vouchers ← (conn ← Input_vouchers self None None None None; ask_edges ask_voucher conn);
  mret (Input_index self, vouchers).

(** [report.graphql], [reports.graphql] and [input_reports.graphql] *)
Definition getReport (reportIndex inputIndex : Z) : Q (ReportNode * Z) :=
  self ← Query_report reportIndex inputIndex; with_input (mret (ask_report self)) (Report_input self).
Definition getReports : Q (list (ReportNode * Z)) :=
  conn ← Query_reports None None None None;
  ask_edges (fun self => with_input (mret (ask_report self)) (Report_input self)) conn.
Definition getInputReports (inputIndex : Z) : Q (Z * list ReportNode) :=
  self ← Query_input inputIndex;
  reports ← (conn ← Input_reports self None None None None; ask_edges (fun r => mret (ask_report r)) conn);
  mret (Input_index self, reports).
End Queries.

(** *** The objects of the client *)

Record Proof := mkProof_ {
  InputIndexWithinEpoch : Z;
  OutputIndexWithinInput : Z;
  OutputHashesRootHash : list byte;
  VouchersEpochRootHash : list byte;
  NoticesEpochRootHash : list byte;
  MachineStateHash : list byte;
  OutputHashInOutputHashesSiblings : list (list byte);
  OutputHashesInEpochSiblings : list (list byte);
  Context_ : list byte;
}.

(** A nil pointer is [None]. *)
Record Notice := mkNotice_ {
  n_Index : Z; n_InputIndex : Z; n_Payload : list byte; n_Proof : option Proof }.
Record Voucher := mkVoucher_ {
  v_Index : Z; v_InputIndex : Z; v_Destination : Address; v_Payload : list byte; v_Proof : option Proof }.
Record Report := mkReport_ { r_Index : Z; r_InputIndex : Z; r_Payload : list byte }.
Record Input := mkInput_ {
  Index : Z;
  Status : CompletionStatus;
  MsgSender : Address;
  Timestamp : Z;
  BlockNumber : Z;
  Payload : list byte;
  Notices : list Notice;
  Vouchers : list Voucher;
  Reports : list Report;
}.

Section Client.
Context `{GoHex}.

(** [fmt.Errorf] with the text before the error *)
Definition decode_or (prefix s : string) : outcome string (list byte) :=
  map_err (fun e => prefix +:+ ": " +:+ e) (hexutil_Decode s).

Definition newProof (node : ProofNode) : outcome string (option Proof) :=
  let validity := pn_validity node in
  if String.eqb (ov_output_hashes_root_hash validity) "" then Ok None else
  outputHash ← decode_or "failed to decode OutputHashesRootHash to bytes" (ov_output_hashes_root_hash validity);
  vouchersHash ← decode_or "failed to decode VouchersEpochRootHash to bytes" (ov_vouchers_epoch_root_hash validity);
  noticesHash ← decode_or "failed to decode NoticesEpochRootHash to bytes" (ov_notices_epoch_root_hash validity);
  machineHash ← decode_or "failed to decode MachineStateHash to bytes" (ov_machine_state_hash validity);
  outputHashOutputSiblings ← collect (decode_or "failed to decode outputHashInOutputHashesSiblings to bytes")
                               (ov_output_hash_in_output_hashes_siblings validity);
  outputHashEpochSiblings ← collect (decode_or "failed to decode outputHashesInEpochSiblings to bytes")
                              (ov_output_hashes_in_epoch_siblings validity);
  contextBytes ← decode_or "failed to decode Context to bytes" (pn_context node);
  Ok (Some (mkProof_ (ov_input_index_within_epoch validity) (ov_output_index_within_input validity)
    outputHash vouchersHash noticesHash machineHash outputHashOutputSiblings outputHashEpochSiblings contextBytes)).

Definition payload_error : string := "failed to decode payload to bytes".
Definition newNotice (index inputIndex : Z) (payload : string) (proof : option Proof) : outcome string Notice :=
  convPayload ← decode_or payload_error payload;
  Ok (mkNotice_ index inputIndex convPayload proof).
Definition newVoucher (index inputIndex : Z) (destination payload : string) (proof : option Proof)
    : outcome string Voucher :=
  convPayload ← decode_or payload_error payload;
  Ok (mkVoucher_ index inputIndex (HexToAddress destination) convPayload proof).
Definition newReport (index inputIndex : Z) (payload : string) : outcome string Report :=
  convPayload ← decode_or payload_error payload;
  Ok (mkReport_ index inputIndex convPayload).

Definition num_error (e : Strconv.NumError) : string :=
  match e with Strconv.ErrSyntax => "invalid syntax" | Strconv.ErrRange => "value out of range" end.

(** The timestamp becomes a [time.Duration], an [int64]. *)
Definition newInput (index : Z) (status : CompletionStatus) (msgSender timestamp blockNumber payload : string)
    (notices : list Notice) (vouchers : list Voucher) (reports : list Report) : outcome string Input :=
  convTimestamp ← map_err (fun e => "failed to parse timestamp: " +:+ num_error e) (Strconv.ParseUint0 timestamp 64);
  convBlockNumber ← map_err (fun e => "failed to parse block number: " +:+ num_error e)
                      (Strconv.ParseUint0 blockNumber 64);
  convPayload ← decode_or payload_error payload;
  Ok (mkInput_ index status (HexToAddress msgSender) (swrap 64 convTimestamp) convBlockNumber convPayload
        notices vouchers reports).

(** The bodies of the loops over the edges *)
Definition notice_of_node (inputIndex : Z) (node : NoticeNode) : outcome string Notice :=
  proof ← newProof (nn_proof node);
  newNotice (nn_index node) inputIndex (nn_payload node) proof.
Definition voucher_of_node (inputIndex : Z) (node : VoucherNode) : outcome string Voucher :=
  proof ← newProof (vn_proof node);
  newVoucher (vn_index node) inputIndex (vn_destination node) (vn_payload node) proof.
Definition report_of_node (inputIndex : Z) (node : ReportNode) : outcome string Report :=
  newReport (rn_index_ node) inputIndex (rn_payload_ node).
Definition input_of_node (node : InputNode) : outcome string Input :=
  notices ← collect (notice_of_node (i_index node)) (i_notices node);
  vouchers ← collect (voucher_of_node (i_index node)) (i_vouchers node);
  reports ← collect (report_of_node (i_index node)) (i_reports node);
  newInput (i_index node) (i_status node) (i_msgSender node) (i_timestamp node) (i_blockNumber node)
    (i_payload node) notices vouchers reports.
End Client.

Section Get.
Context {D : Type} `{Postgres D, Retry, Base64Crate, HexCrate, GoHex}.

(** An answer with errors is an error of the client. *)
Definition field_error (e : FieldError) : string := match e with mkFieldError message => message end.
Definition request {A B} (query : M D FieldError A) (f : A -> outcome string B) : M D string B :=
  resp ← context field_error query; lift (f resp).

Definition GetInput (index : Z) : M D string Input := request (getInput index) input_of_node.
Definition GetInputs : M D string (list Input) := request getInputs (collect input_of_node).
Definition GetNotice (noticeIndex inputIndex : Z) : M D string Notice :=
  request (getNotice noticeIndex inputIndex) (fun '(node, i) => notice_of_node i node).
Definition GetNotices : M D string (list Notice) :=
  request getNotices (collect (fun '(node, i) => notice_of_node i node)).
Definition GetInputNotices (inputIndex : Z) : M D string (list Notice) :=
  request (getInputNotices inputIndex) (fun '(i, nodes) => collect (notice_of_node i) nodes).
Definition GetVoucher (voucherIndex inputIndex : Z) : M D string Voucher :=
  request (getVoucher voucherIndex inputIndex) (fun '(node, i) => voucher_of_node i node).
Definition GetVouchers : M D string (list Voucher) :=
  request getVouchers (collect (fun '(node, i) => voucher_of_node i node)).
Definition GetInputVouchers (inputIndex : Z) : M D string (list Voucher) :=
  request (getInputVouchers inputIndex) (fun '(i, nodes) => collect (voucher_of_node i) nodes).
Definition GetReport (reportIndex inputIndex : Z) : M D string Report :=
  request (getReport reportIndex inputIndex) (fun '(node, i) => report_of_node i node).
Definition GetReports : M D string (list Report) :=
  request getReports (collect (fun '(node, i) => report_of_node i node)).
Definition GetInputReports (inputIndex : Z) : M D string (list Report) :=
  request (getInputReports inputIndex) (fun '(i, nodes) => collect (report_of_node i) nodes).
End Get.

(** *** The proof of the contracts

    A slice converts to an array of 32 bytes if it has at least as many; the
    conversion panics otherwise. *)
Definition array32 (bs : list byte) : outcome string (list byte) :=
  if (32 <=? length bs)%nat then Ok (take 32 bs) else Panic.

Definition ConvertToContractProof (proof : Proof) : outcome string Contracts.Proof :=
  outputHashOutputSiblings ← collect array32 (OutputHashInOutputHashesSiblings proof);
  outputHashEpochSiblings ← collect array32 (OutputHashesInEpochSiblings proof);
  root ← array32 (OutputHashesRootHash proof);
  vouchers ← array32 (VouchersEpochRootHash proof);
  notices ← array32 (NoticesEpochRootHash proof);
  machine ← array32 (MachineStateHash proof);
  Ok (Contracts.mkProof
        (Contracts.mkOutputValidityProof (wrap 64 (InputIndexWithinEpoch proof)) (wrap 64 (OutputIndexWithinInput proof))
           root vouchers notices machine outputHashOutputSiblings outputHashEpochSiblings)
        (Context_ proof)).
End ReaderClient.

(** ** [pkg/addresses] *)

Module Addresses.
Record Book := mkBook {
  AuthorityHistoryPairFactory : Address;
  CartesiDAppFactory : Address;
  DAppAddressRelay : Address;
  ERC1155BatchPortal : Address;
  ERC1155SinglePortal : Address;
  ERC20Portal : Address;
  ERC721Portal : Address;
  EtherPortal : Address;
  InputBox : Address;
  CartesiDApp : Address;
  HistoryAddress : Address;
  AuthorityAddress : Address;
}.

Definition GetTestBook `{GoHex} : Book :=
  mkBook
    (HexToAddress "0x3890A047Cf9Af60731E80B2105362BbDCD70142D")
    (HexToAddress "0x7122cd1221C20892234186facfE8615e6743Ab02")
    (HexToAddress "0xF5DE34d6BbC0446E2a45719E718efEbaaE179daE")
    (HexToAddress "0xedB53860A6B52bbb7561Ad596416ee9965B055Aa")
    (HexToAddress "0x7CFB0193Ca87eB6e48056885E026552c3A941FC4")
    (HexToAddress "0x9C21AEb2093C32DDbC53eEF24B873BDCd1aDa1DB")
    (HexToAddress "0x237F8DD094C0e47f4236f12b4Fa01d6Dae89fb87")
    (HexToAddress "0xFfdbe43d4c855BF7e0f105c400A50857f53AB044")
    (HexToAddress "0x59b22D57D4f067708AB0c00552767405926dc768")
    (HexToAddress "0x7C54E3f7A8070a54223469965A871fB8f6f88c22")
    (HexToAddress "0x325272217ae6815b494bF38cED004c5Eb8a7CdA7")
    (HexToAddress "0x58c93F83fb3304730C95aad2E360cdb88b782010").

(** [ReadFile] and [Unmarshal] are those of [os] and [encoding/json]. *)
Definition GetBookFromFile (ReadFile : string -> outcome string string) (Unmarshal : string -> outcome string Book)
    (path : string) : outcome string Book :=
  data ← map_err (fun e => "read address book file: " +:+ e) (ReadFile path);
  map_err (fun e => "parse address book json: " +:+ e) (Unmarshal data).
End Addresses.

(** ** [pkg/ethutil] *)

Module Ethutil.
Import Addresses.

Definition GasLimit : Z := 30000000.
Definition FoundryMnemonic : string := "test test test test test test test test test test test junk".

(** What [bind] gives a contract call, and the parts of a receipt that are used *)
Record TransactOpts := mkTransactOpts {
  From : Address; Nonce : Z; Value : Z; GasLimit_ : Z; GasPrice : Z }.
Record Log := mkLog { log_Address : Address; log_Topics : list Hash; log_Data : list byte }.
(** [InputBoxInputAdded] *)
Record InputAdded := mkInputAdded { ia_Dapp : Address; ia_InputIndex : Z; ia_Sender : Address; ia_Input : list byte }.
Record Receipt := mkReceipt { receipt_Status : Z; receipt_TxHash : Hash; receipt_Logs : list Log }.

(** The node and the contracts behind the bindings; [W] is the state of the
    chain. [ctx_done] is the choice of the [select] between the end of the
    context, with its error, and the timer; [CallContext] is a call of the
    JSON-RPC client. *)
Class EthClient (W PrivateKey : Type) : Type := {
  DialContext : string -> M W string unit;
  ChainID : M W string Z;
  PendingNonceAt : Address -> M W string Z;
  SuggestGasPrice : M W string Z;
  NewKeyedTransactor : PrivateKey -> Z -> outcome string TransactOpts;
  PubkeyToAddress : PrivateKey -> Address;
  TransactionByHash : Hash -> M W string bool;
  TransactionReceipt : Hash -> M W string Receipt;
  debug_traceTransaction : Hash -> M W string string;
  ctx_done : M W string (option string);
  CallContext : string -> list Z -> M W string unit;
  BlockNumber_ : M W string Z;
  NewInputBox : Address -> outcome string unit;
  NewCartesiDApp : Address -> outcome string unit;
  InputBox_AddInput : Address -> TransactOpts -> Address -> list byte -> M W string Hash;
  InputBox_ParseInputAdded : Log -> outcome string InputAdded;
  InputBox_FilterInputAdded : Address -> list Address -> list Z -> M W string (list InputAdded);
  CartesiDApp_ExecuteVoucher :
    Address -> TransactOpts -> Address -> list byte -> Contracts.Proof -> M W string Hash;
  CartesiDApp_ValidateNotice : Address -> list byte -> Contracts.Proof -> M W string bool;
}.

(** The transactions that the process submitted *)
Inductive Call :=
| CallAddInput (inputBox : Address) (opts : TransactOpts) (dapp : Address) (input : list byte)
| CallExecuteVoucher (dapp : Address) (opts : TransactOpts) (destination : Address) (payload : list byte)
    (proof : Contracts.Proof).

(** Only the methods of the contracts that are not views submit a transaction,
    one for each call; a failed call may have submitted it. [ParseInputAdded],
    [NewInputBox] and [NewCartesiDApp] do not panic. *)
Definition quiet {W A} (sent : W -> list Call) (m : M W string A) (w : W) : Prop :=
  wp m w (fun _ w' => sent w' = sent w) (fun _ w' => sent w' = sent w).
Class EthClientLaws (W PrivateKey : Type) `{EthClient W PrivateKey} (sent : W -> list Call) : Prop := {
  dial_quiet endpoint w : quiet sent (DialContext endpoint) w;
  chain_id_quiet w : quiet sent ChainID w;
  nonce_quiet account w : quiet sent (PendingNonceAt account) w;
  gas_price_quiet w : quiet sent SuggestGasPrice w;
  transactor_total key id : is_panic (NewKeyedTransactor key id) = false;
  by_hash_quiet tx w : quiet sent (TransactionByHash tx) w;
  receipt_quiet tx w : quiet sent (TransactionReceipt tx) w;
  trace_quiet tx w : quiet sent (debug_traceTransaction tx) w;
  ctx_quiet w : quiet sent ctx_done w;
  input_box_total a : is_panic (NewInputBox a) = false;
  dapp_total a : is_panic (NewCartesiDApp a) = false;
  parse_log_total log : is_panic (InputBox_ParseInputAdded log) = false;
  add_input_spec a opts dapp input w :
    let call := CallAddInput a opts dapp input in
    wp (InputBox_AddInput a opts dapp input) w (fun _ w' => sent w' = sent w ++ [call])
      (fun _ w' => sent w' = sent w \/ sent w' = sent w ++ [call]);
  execute_voucher_spec a opts destination payload proof w :
    let call := CallExecuteVoucher a opts destination payload proof in
    wp (CartesiDApp_ExecuteVoucher a opts destination payload proof) w (fun _ w' => sent w' = sent w ++ [call])
      (fun _ w' => sent w' = sent w \/ sent w' = sent w ++ [call]);
  validate_quiet a notice proof w : quiet sent (CartesiDApp_ValidateNotice a notice proof) w;
}.

(** [go-bip39], [go-bip32] and [crypto.ToECDSA] *)
Class Bip (PrivateKey : Type) : Type := {
  Key : Type;
  NewSeed : string -> string -> list byte;
  NewMasterKey : list byte -> outcome string Key;
  NewChildKey : Key -> Z -> outcome string Key;
  ToECDSA : Key -> outcome string PrivateKey;
}.
(** Their functions return. *)
Class BipLaws (PrivateKey : Type) `{Bip PrivateKey} : Prop := {
  master_key_total seed : is_panic (NewMasterKey seed) = false;
  child_key_total key level : is_panic (NewChildKey key level) = false;
  to_ecdsa_total key : is_panic (ToECDSA key) = false;
}.

Section Ethutil.
Context {W PrivateKey : Type} `{EthClient W PrivateKey, Bip PrivateKey, GoHex}.
Local Abbreviation E := (M W string).

Definition errorf (prefix e : string) : string := prefix +:+ ": " +:+ e.

(** *** [mnemonic.go] *)
Record MnemonicSigner := mkMnemonicSigner {
  privateKey : PrivateKey; chainId : Z; mnemonic : string }.

Definition hardenedKeyStart : Z := 0x80000000.
Definition levels (accountIndex : Z) : list Z :=
  [hardenedKeyStart + 44; hardenedKeyStart + 60; hardenedKeyStart + 0; 0; accountIndex].
Fixpoint child_keys (i : Z) (key : Key) (levels : list Z) : outcome string Key :=
  match levels with
  | [] => Ok key
  | level :: levels =>
      key ← map_err (errorf ("failed to get child " +:+ pretty i)) (NewChildKey key level);
      child_keys (i + 1) key levels
  end.
Definition mnemonicToPrivateKey (mnemonic : string) (accountIndex : Z) : outcome string PrivateKey :=
  let seed := NewSeed mnemonic "" in
  masterKey ← map_err (errorf "failed to generate master key") (NewMasterKey seed);
  key ← child_keys 0 masterKey (levels accountIndex);
  ToECDSA key.

Definition NewMnemonicSigner (mnemonic : string) (accountIndex : Z) : E MnemonicSigner :=
  chainId ← context (errorf "get chain id") ChainID;
  privateKey ← lift (mnemonicToPrivateKey mnemonic accountIndex);
  mret (mkMnemonicSigner privateKey chainId mnemonic).
Definition MakeTransactor (s : MnemonicSigner) : outcome string TransactOpts :=
  NewKeyedTransactor (privateKey s) (chainId s).
Definition Account (s : MnemonicSigner) : Address := PubkeyToAddress (privateKey s).

(** *** [transaction.go] *)
Definition _prepareTransaction (signer : MnemonicSigner) (txValue gasLimit : Z) : E TransactOpts :=
  nonce ← context (errorf "failed to get nonce") (PendingNonceAt (Account signer));
  gasPrice ← context (errorf "failed to get gas price") SuggestGasPrice;
  tx ← lift (map_err (errorf "failed to create transactor") (MakeTransactor signer));
  mret (mkTransactOpts (From tx) (swrap 64 nonce) txValue gasLimit gasPrice).

(** The loop of [_waitForTransaction]; [false] if the transaction is pending
    after [fuel] polls. *)
Fixpoint poll_transaction (fuel : nat) (tx : Hash) : E bool :=
  match fuel with
  | O => mret false
  | S fuel =>
      isPending ← context (errorf "fail to recover transaction") (TransactionByHash tx);
      if isPending : bool then
        finished ← ctx_done;
        match finished with
        | Some err => fail err
        | None => poll_transaction fuel tx
        end
      else mret true
  end.

Definition _traceTransaction (hash : Hash) : E string := debug_traceTransaction hash.

Definition _waitForTransaction (fuel : nat) (tx : Hash) : E (option Receipt) :=
  mined ← poll_transaction fuel tx;
  if mined : bool then
    receipt ← context (errorf "failed to get receipt") (TransactionReceipt tx);
    if receipt_Status receipt =? 0 then
      reason ← context (errorf "transaction failed; failed to get reason") (_traceTransaction tx);
      fail (errorf "transaction failed" reason)
    else mret (Some receipt)
  else mret None.

Definition sendTransaction (fuel : nat) (signer : MnemonicSigner) (txValue gasLimit : Z)
    (doSend : TransactOpts -> E Hash) : E (option Receipt) :=
  txOpts ← context (errorf "failed to prepare transaction") (_prepareTransaction signer txValue gasLimit);
  tx ← context (errorf "failed to send dapp address") (doSend txOpts);
  _waitForTransaction fuel tx.

(** *** [ethutil.go] *)
Fixpoint getInputIndex (book : Book) (logs : list Log) : outcome string Z :=
  match logs with
  | [] => Err "input index not found"
  | log :: logs =>
      if bool_decide (log_Address log <> InputBox book) then getInputIndex book logs else
      inputAdded ← map_err (errorf "failed to parse input added event") (InputBox_ParseInputAdded log);
      Ok (swrap 64 (ia_InputIndex inputAdded))
  end.

Definition AddInput (fuel : nat) (book : Book) (signer : MnemonicSigner) (input : list byte) : E (option Z) :=
  lift (map_err (errorf "failed to connect to InputBox contract") (NewInputBox (InputBox book))) ;;
  receipt ← sendTransaction fuel signer 0 GasLimit
              (fun txOpts => InputBox_AddInput (InputBox book) txOpts (CartesiDApp book) input);
  match receipt with
  | Some receipt => index ← lift (getInputIndex book (receipt_Logs receipt)); mret (Some index)
  | None => mret None
  end.

Definition AddInputUsingFoundryMnemonic (fuel : nat) (blockchainHttpEnpoint payload : string) : E (option Z) :=
  DialContext blockchainHttpEnpoint ;;
  signer ← NewMnemonicSigner FoundryMnemonic 0;
  payloadBytes ← lift (match hexutil_Decode payload with Ok bs => Ok bs | _ => Panic end);
  AddInput fuel GetTestBook signer payloadBytes.

(** The iterator over the events is their list. *)
Definition GetInputFromInputBox (book : Book) (inputIndex : Z) : E InputAdded :=
  lift (map_err (errorf "failed to connect to InputBox contract") (NewInputBox (InputBox book))) ;;
  it ← context (errorf "failed to filter input added")
         (InputBox_FilterInputAdded (InputBox book) [CartesiDApp book] [inputIndex]);
  match it with
  | [] => fail "event not found"
  | event :: _ => mret event
  end.

Definition ValidateNotice (book : Book) (notice : list byte) (proof : Contracts.Proof) : E unit :=
  lift (map_err (errorf "failed to connect to CartesiDapp contract") (NewCartesiDApp (CartesiDApp book))) ;;
  _ ← CartesiDApp_ValidateNotice (CartesiDApp book) notice proof; mret tt.

Definition ExecuteVoucher (fuel : nat) (book : Book) (signer : MnemonicSigner) (voucher : list byte)
    (destination : Address) (proof : Contracts.Proof) : E (option Hash) :=
  lift (map_err (errorf "failed to connect to CartesiDapp contract") (NewCartesiDApp (CartesiDApp book))) ;;
  receipt ← sendTransaction fuel signer 0 GasLimit
              (fun txOpts => CartesiDApp_ExecuteVoucher (CartesiDApp book) txOpts destination voucher proof);
  mret (receipt_TxHash <$> receipt).

Definition AdvanceDevnetTime (blockchainHttpEnpoint : string) (timeInSeconds : Z) : E unit :=
  DialContext blockchainHttpEnpoint ;; CallContext "evm_increaseTime" [timeInSeconds].
Definition SetNextDevnetBlockTimestamp (blockchainHttpEndpoint : string) (timestamp : Z) : E unit :=
  DialContext blockchainHttpEndpoint ;; CallContext "evm_setNextBlockTimestamp" [timestamp].
Definition MineBlocks (blockchainHttpEndpoint : string) (numBlocks blockInterval : Z) : E Z :=
  DialContext blockchainHttpEndpoint ;;
  CallContext "anvil_mine" [numBlocks; blockInterval] ;;
  DialContext blockchainHttpEndpoint ;;
  BlockNumber_.
End Ethutil.
End Ethutil.

(** ** [cmd/cartesi-rollups-cli]

    The [run] function of each command; its flags are the arguments, and the
    state is that of the database behind the GraphQL server and of the chain.
    [cobra.CheckErr] ends the process with the error. *)

Module Cli.
Import Addresses Ethutil ReaderClient.

(** How a command that needs a proof ends *)
Inductive Done (A : Type) := NoProofYet | StillPending | Finished (a : A).
Arguments NoProofYet {A}.
Arguments StillPending {A}.
Arguments Finished {A} a.

Section Cli.
Context {D W PrivateKey : Type} `{Postgres D, Retry, Base64Crate, HexCrate, GoHex}
  `{EthClient W PrivateKey, Bip PrivateKey}.
Context (ReadFile : string -> outcome string string) (Unmarshal : string -> outcome string Book).
Local Abbreviation C := (M (D * W) string).

Definition address_book (addressBookFile : string) : outcome string Book :=
  if String.eqb addressBookFile "" then Ok GetTestBook
  else GetBookFromFile ReadFile Unmarshal addressBookFile.

Definition send_run (fuel : nat) (ethEndpoint mnemonic : string) (account : Z) (hexPayload addressBookFile : string)
    : C (option Z) :=
  payload ← lift (hexutil_Decode hexPayload);
  on_snd (DialContext ethEndpoint) ;;
  signer ← on_snd (NewMnemonicSigner mnemonic account);
  book ← lift (address_book addressBookFile);
  on_snd (AddInput fuel book signer payload).

Definition execute_run (fuel : nat) (voucherIndex inputIndex : Z) (ethEndpoint mnemonic : string) (account : Z)
    (addressBookFile : string) : C (Done Hash) :=
  resp ← on_fst (GetVoucher voucherIndex inputIndex);
  match v_Proof resp with
  | None => mret NoProofYet
  | Some proof =>
      on_snd (DialContext ethEndpoint) ;;
      signer ← on_snd (NewMnemonicSigner mnemonic account);
      book ← lift (address_book addressBookFile);
      proof ← lift (ConvertToContractProof proof);
      txHash ← on_snd (ExecuteVoucher fuel book signer (v_Payload resp) (v_Destination resp) proof);
      mret (match txHash with Some h => Finished h | None => StillPending end)
  end.

Definition validate_run (noticeIndex inputIndex : Z) (ethEndpoint addressBookFile : string) : C (Done unit) :=
  resp ← on_fst (GetNotice noticeIndex inputIndex);
  match n_Proof resp with
  | None => mret NoProofYet
  | Some proof =>
      on_snd (DialContext ethEndpoint) ;;
      book ← lift (address_book addressBookFile);
      proof ← lift (ConvertToContractProof proof);
      on_snd (ValidateNotice book (n_Payload resp) proof) ;;
      mret (Finished tt)
  end.

(** [int] flags converted to [uint64] *)
Definition mine_run (ethEndpoint : string) (numBlocks blockInterval : Z) : C Z :=
  on_snd (MineBlocks ethEndpoint (wrap 64 numBlocks) (wrap 64 blockInterval)).
Definition increasetime_run (time : Z) (anvilEndpoint : string) : C unit :=
  on_snd (AdvanceDevnetTime anvilEndpoint time).

(** [read]: the text that is printed; [changed] tells if the flag of the index of
    the input was given. *)
Context (MarshalIndent : forall A, A -> outcome string string).
Definition printed {A} (m : M D string A) : C string :=
  resp ← on_fst m; lift (MarshalIndent A resp).
Definition read_input_run (index : Z) : C string := printed (GetInput index).
Definition read_inputs_run : C string := printed GetInputs.
Definition read_notice_run (noticeIndex inputIndex : Z) : C string := printed (GetNotice noticeIndex inputIndex).
Definition read_notices_run (changed : bool) (inputIndex : Z) : C string :=
  printed (if changed then GetInputNotices inputIndex else GetNotices).
Definition read_voucher_run (voucherIndex inputIndex : Z) : C string := printed (GetVoucher voucherIndex inputIndex).
Definition read_vouchers_run (changed : bool) (inputIndex : Z) : C string :=
  printed (if changed then GetInputVouchers inputIndex else GetVouchers).
Definition read_report_run (reportIndex inputIndex : Z) : C string := printed (GetReport reportIndex inputIndex).
Definition read_reports_run (changed : bool) (inputIndex : Z) : C string :=
  printed (if changed then GetInputReports inputIndex else GetReports).

(** [inspect]: the generated client of the inspect server, which posts the payload and
    reads the body of the response, and [json.Indent] *)
Context (NewClient : string -> outcome string unit) (InspectPostWithBody : string -> string -> list byte -> C string)
  (Indent : string -> outcome string string).
Definition inspect_run (hexPayload inspectEndpoint : string) : C string :=
  lift (NewClient inspectEndpoint) ;;
  payload ← lift (hexutil_Decode hexPayload);
  respBytes ← InspectPostWithBody inspectEndpoint "application/octet-stream" payload;
  lift (Indent respBytes).
End Cli.
End Cli.

(** ** Decimal texts *)

Section Decimal.
Import Strconv.

Lemma digit_value_pretty (x : N) : (x < 10)%N ->
  digit_value (pretty_N_char x) = Some (Z.of_N x) /\ pretty_N_char x <> "_"%char /\
  ((0 < x)%N -> pretty_N_char x <> "0"%char).
Proof. revert x. apply digit_cases; repeat split; try done; lia. Qed.

Lemma scan_digit base maxVal n u c s : c <> "_"%char ->
  scan base maxVal n u (String c s) =
  (d ← ok_or (digit_value c) ErrSyntax;
   ensure (d <? base) ErrSyntax ;;
   ensure (n <? maxUint64 / base + 1) ErrRange ;;
   let n0 := wrap 64 (n * base) in
   let n1 := wrap 64 (n0 + d) in
   ensure (negb ((n1 <? n0) || (maxVal <? n1))) ErrRange ;;
   scan base maxVal n1 u s).
Proof. destruct c as [[] [] [] [] [] [] [] []]; intros Hc; try reflexivity. by destruct Hc. Qed.

(** Reading the decimal digits of [x] amounts to having read [x]. *)
Lemma scan_pretty (x : N) u s : Z.of_N x < 2 ^ 64 ->
  scan 10 (2 ^ 64 - 1) 0 u (pretty_N_go x s) = scan 10 (2 ^ 64 - 1) (Z.of_N x) u s.
Proof.
  intros Hx. rewrite <-(pretty_N_go_run (fun n => scan 10 (2 ^ 64 - 1) (Z.of_N n) u) (fun n => Z.of_N n < 2 ^ 64));
    [done| |done].
  clear x s Hx. intros q r s Hr Hx. split; [lia|].
  destruct (digit_value_pretty r Hr) as (Hd & Hu & _). rewrite scan_digit, Hd by done.
  assert (wrap 64 (Z.of_N q * 10) = Z.of_N q * 10) as H0 by (apply wrap_small; lia).
  assert (wrap 64 (Z.of_N q * 10 + Z.of_N r) = Z.of_N (10 * q + r)) as H1 by (rewrite wrap_small; lia).
  cbn [ok_or mbind outcome_bind]. cbv zeta. rewrite H0, H1.
  change (maxUint64 / 10 + 1) with 1844674407370955162.
  rewrite (proj2 (Z.ltb_lt (Z.of_N r) 10)), (proj2 (Z.ltb_lt (Z.of_N q) _)) by lia.
  by rewrite (proj2 (Z.ltb_ge (Z.of_N (10 * q + r)) _)), (proj2 (Z.ltb_ge _ (Z.of_N (10 * q + r)))) by lia.
Qed.

Lemma pretty_head (x : N) s : (0 < x)%N -> exists c s', pretty_N_go x s = String c s' /\ c <> "0"%char.
Proof.
  intros (r & s' & Hs & Hr0 & Hr)%(fun H => pretty_N_go_start x s H). do 2 eexists. split; [done|].
  by apply digit_value_pretty.
Qed.

Lemma base_prefix_decimal c s : c <> "0"%char -> base_prefix (String c s) = (10, String c s).
Proof. destruct c as [[] [] [] [] [] [] [] []]; intros Hc; try reflexivity. by destruct Hc. Qed.

(** A printed integer is read back, unless it is negative. *)
Lemma parse_uint_pretty z : 0 <= z < 2 ^ 64 -> ParseUint0 (pretty z) 64 = Ok z.
Proof.
  intros Hz. unfold pretty, pretty_Z. destruct z as [|p|p]; [reflexivity| |lia].
  unfold pretty, pretty_positive, pretty, pretty_N. rewrite decide_False by done.
  destruct (pretty_head (Npos p) "" eq_refl) as (c & s' & E & Hc).
  pose proof (scan_pretty (Npos p) false "" ltac:(lia)) as Hp. rewrite E in Hp |- *.
  unfold ParseUint0. rewrite base_prefix_decimal by done. cbv iota. by rewrite Hp.
Qed.

Lemma parse_uint_negative z : z < 0 -> ParseUint0 (pretty z) 64 = Err ErrSyntax.
Proof. intros Hz. destruct z as [|p|p]; [lia..|]. reflexivity. Qed.
End Decimal.

(** ** Transactions *)

Section Transactions.
Import Ethutil.
Context {W PrivateKey : Type} `{EL : EthClientLaws W PrivateKey sent} `{BL : BipLaws PrivateKey} `{GoHex}.

Lemma quiet_context {A} f (m : M W string A) w : quiet sent m w -> quiet sent (context f m) w.
Proof. unfold quiet. by rewrite wp_context. Qed.

Lemma quiet_ret {A} (a : A) w : quiet sent (mret a) w.
Proof. by unfold quiet; wp_run. Qed.
Lemma quiet_fail {A} e w : quiet sent (fail e : M W string A) w.
Proof. by unfold quiet; wp_run. Qed.
Lemma quiet_lift {A} (o : outcome string A) w : is_panic o = false -> quiet sent (lift o) w.
Proof. unfold quiet. wp_run. by destruct o. Qed.

Lemma quiet_bind {A B} (m : M W string A) (k : A -> M W string B) w :
  quiet sent m w -> (forall a w', quiet sent (k a) w') -> quiet sent (m ≫= k) w.
Proof.
  intros Hm Hk. unfold quiet. rewrite wp_bind. eapply wp_mono; [exact Hm| |done].
  intros a w' Hw. rewrite <-Hw. apply Hk.
Qed.

Lemma map_err_is_panic {E E' A} (f : E -> E') (o : outcome E A) : is_panic (map_err f o) = is_panic o.
Proof. by destruct o. Qed.

Lemma bind_is_panic {E A B} (o : outcome E A) (f : A -> outcome E B) :
  is_panic o = false -> (forall a, is_panic (f a) = false) -> is_panic (o ≫= f) = false.
Proof. destruct o; cbn; auto. Qed.

Lemma mnemonic_total m i : is_panic (mnemonicToPrivateKey m i) = false.
Proof.
  apply bind_is_panic; [rewrite map_err_is_panic; apply master_key_total|]. intros key.
  apply bind_is_panic; [|intros; apply to_ecdsa_total]. generalize 0 as n. revert key.
  induction (levels i) as [|l ls IH]; intros key n; [done|].
  apply bind_is_panic; [rewrite map_err_is_panic; apply child_key_total|]. intros. apply IH.
Qed.

Lemma signer_quiet m i w : quiet sent (NewMnemonicSigner m i) w.
Proof.
  apply quiet_bind; [apply quiet_context, chain_id_quiet|]. intros id w1.
  apply quiet_bind; [apply quiet_lift, mnemonic_total|]. intros. apply quiet_ret.
Qed.

Lemma poll_quiet fuel tx w : quiet sent (poll_transaction fuel tx) w.
Proof.
  revert w. induction fuel as [|fuel IH]; intros w; [apply quiet_ret|].
  apply quiet_bind; [apply quiet_context, by_hash_quiet|]. intros [] w1; [|apply quiet_ret].
  apply quiet_bind; [apply ctx_quiet|]. intros [e|] w2; [apply quiet_fail|apply IH].
Qed.

Lemma wait_quiet fuel tx w : quiet sent (_waitForTransaction fuel tx) w.
Proof.
  apply quiet_bind; [apply poll_quiet|]. intros [] w1; [|apply quiet_ret].
  apply quiet_bind; [apply quiet_context, receipt_quiet|]. intros r w2. case_match; [|apply quiet_ret].
  apply quiet_bind; [apply quiet_context, trace_quiet|]. intros. apply quiet_fail.
Qed.

(** The options of every transaction *)
Definition plain (opts : TransactOpts) : Prop := Value opts = 0 /\ GasLimit_ opts = GasLimit.

Lemma wp_prepare signer w :
  wp (_prepareTransaction signer 0 GasLimit) w (fun opts w' => plain opts /\ sent w' = sent w)
    (fun _ w' => sent w' = sent w).
Proof.
  unfold _prepareTransaction. wp_run. eapply wp_mono; [apply nonce_quiet| |done]. intros nonce w1 Hs1. wp_run.
  eapply wp_mono; [apply gas_price_quiet| |by intros ? w2 ->]. intros price w2 Hs2. wp_run.
  pose proof (transactor_total (EthClientLaws := EL) (privateKey signer) (chainId signer)) as Ht. unfold MakeTransactor.
  destruct (NewKeyedTransactor _ _); cbn; [|congruence|done]. wp_run. split; [done|congruence].
Qed.

(** Exactly one transaction on success, and at most that one on failure *)
Definition submitted (call : TransactOpts -> Call) (w w' : W) : Prop :=
  exists opts, plain opts /\ sent w' = sent w ++ [call opts].

Lemma wp_sendTransaction fuel signer doSend call w :
  (forall opts w, wp (doSend opts) w (fun _ w' => sent w' = sent w ++ [call opts])
     (fun _ w' => sent w' = sent w \/ sent w' = sent w ++ [call opts])) ->
  wp (sendTransaction fuel signer 0 GasLimit doSend) w (fun _ w' => submitted call w w')
    (fun _ w' => sent w' = sent w \/ submitted call w w').
Proof.
  intros Hdo. unfold sendTransaction. wp_run. eapply wp_mono; [apply wp_prepare| |by left].
  intros opts w1 [Hopts Hs1]. wp_run. eapply wp_mono; [apply Hdo| |].
  - intros tx w2 Hs2. eapply wp_mono; [apply wait_quiet| |].
    + intros ? w3 Hs3. exists opts. split; [done|congruence].
    + intros ? w3 Hs3. right. exists opts. split; [done|congruence].
  - intros ? w2 [Hs2|Hs2]; [left; congruence|right]. exists opts. split; [done|congruence].
Qed.

Lemma input_index_total book logs : is_panic (getInputIndex book logs) = false.
Proof.
  induction logs as [|log logs IH]; [done|]. cbn. case_bool_decide; [done|].
  apply bind_is_panic; [rewrite map_err_is_panic; apply parse_log_total|done].
Qed.
End Transactions.

(** ** From the broker to the contracts *)

Section ClientTheorems.
Context {D : Type} `{PL : PostgresLaws D tables others} `{RT : RetryLaws} `{HL : HexCrateLaws}.
Context `{GH : GoHex} `{GL : !GoHexLaws} `{Base64Crate}.
Import ReaderClient Resolvers IndexerConversions.

(** The proof of an event as the argument of a contract *)
Definition event_proof (p : RollupsProof) : Contracts.Proof :=
  let v := rp_validity p in
  Contracts.mkProof
    (Contracts.mkOutputValidityProof (input_index_within_epoch v) (output_index_within_input v)
       (output_hashes_root_hash v) (vouchers_epoch_root_hash v) (notices_epoch_root_hash v) (machine_state_hash v)
       (output_hash_in_output_hashes_siblings v) (output_hashes_in_epoch_siblings v))
    (rp_context p).

(** The sizes of the hashes, and the bounds of the indices that the database can
    hold *)
Definition is_hash (h : Hash) : Prop := length h = 32%nat.
Record proof_sized (p : RollupsProof) : Prop := {
  sized_input : 0 <= input_index_within_epoch (rp_validity p) < 2 ^ 31;
  sized_output : 0 <= output_index_within_input (rp_validity p) < 2 ^ 31;
  sized_root : is_hash (output_hashes_root_hash (rp_validity p));
  sized_vouchers : is_hash (vouchers_epoch_root_hash (rp_validity p));
  sized_notices : is_hash (notices_epoch_root_hash (rp_validity p));
  sized_machine : is_hash (machine_state_hash (rp_validity p));
  sized_siblings : Forall is_hash (output_hash_in_output_hashes_siblings (rp_validity p));
  sized_epoch : Forall is_hash (output_hashes_in_epoch_siblings (rp_validity p));
}.

(** The object that the client makes of the row of a proof *)
Definition client_proof (p : RollupsProof) : Proof :=
  let v := rp_validity p in
  mkProof_ (as_i32 (input_index_within_epoch v)) (as_i32 (output_index_within_input v))
    (output_hashes_root_hash v) (vouchers_epoch_root_hash v) (notices_epoch_root_hash v) (machine_state_hash v)
    (output_hash_in_output_hashes_siblings v) (output_hashes_in_epoch_siblings v) (rp_context p).

Lemma decode_or_hex prefix bs : decode_or prefix (Conversions.graphql_hex_encode bs) = Ok bs.
Proof. unfold decode_or, Conversions.graphql_hex_encode. by rewrite hexutil_decode_hex. Qed.

Lemma collect_decode prefix (l : list (list byte)) :
  collect (decode_or prefix) ((fun hash => Conversions.graphql_hex_encode (default [] hash)) <$> (Some <$> l)) = Ok l.
Proof. induction l as [|b l IH]; [done|]. cbn [fmap list_fmap collect]. rewrite decode_or_hex. cbn in *. by rewrite IH. Qed.

Lemma new_proof_event p : newProof (ask_proof (Some (convert_proof p))) = Ok (Some (client_proof p)).
Proof.
  unfold newProof. cbn -[decode_or collect fmap Conversions.graphql_hex_encode String.eqb].
  rewrite !decode_or_hex, !collect_decode. unfold Proof_context. cbn -[decode_or].
  by rewrite decode_or_hex.
Qed.

Lemma array32_hash h : is_hash h -> array32 h = Ok h.
Proof. intros Hh. unfold array32. rewrite Hh. cbn -[take]. by rewrite take_ge by (rewrite Hh; lia). Qed.

Lemma collect_array32 l : Forall is_hash l -> collect array32 l = Ok l.
Proof. induction 1 as [|h l Hh _ IH]; [done|]. cbn [collect]. rewrite (array32_hash _ Hh). cbn. by rewrite IH. Qed.

Lemma contract_proof_event p : proof_sized p -> ConvertToContractProof (client_proof p) = Ok (event_proof p).
Proof.
  intros []. unfold ConvertToContractProof, as_i32. cbn [client_proof OutputHashInOutputHashesSiblings
    OutputHashesInEpochSiblings OutputHashesRootHash VouchersEpochRootHash NoticesEpochRootHash MachineStateHash].
  rewrite !collect_array32, !array32_hash by done. cbn -[wrap]. unfold as_i32.
  by rewrite !swrap_small, !wrap_small by lia.
Qed.

Definition client_voucher (v : RollupsVoucher) (p : RollupsProof) : Voucher :=
  mkVoucher_ (as_i32 (rv_index v)) (as_i32 (rv_input_index v)) (rv_destination v) (rv_payload v) (Some (client_proof p)).
Definition client_notice (n : RollupsNotice) (p : RollupsProof) : Notice :=
  mkNotice_ (as_i32 (rn_index n)) (as_i32 (rn_input_index n)) (rn_payload n) (Some (client_proof p)).

Definition read_failed (e : string) : Prop := exists e', down e' /\ e = field_error e'.

(** The proof [p] is that of the output with these indices. *)
Definition proves (p : RollupsProof) (output : RollupsOutputEnum) (index input_index : Z) : Prop :=
  rp_output_enum p = output /\ rp_output_index p = index /\ rp_input_index p = input_index.

(** C28. What the client makes of an input. The texts of the reader for the row of
    an input event give back its sender, payload and block number, and its
    timestamp: but the number of seconds becomes a [time.Duration], a number of
    nanoseconds. A block number above [i64::MAX], which the indexer stored as a
    negative number, is an error of the client. *)
Theorem client_reads_input i row s notices vouchers reports :
  convert_input (E := unit) i = Ok row -> 0 <= timestamp (rai_metadata i) ->
  length (msg_sender (rai_metadata i)) = 20%nat -> 0 <= block_number (rai_metadata i) < 2 ^ 64 ->
  let self := Data.set_status s row in
  let m := rai_metadata i in
  newInput (Input_index self) (Input_status self) (Input_msg_sender self) (i64_to_string (Input_timestamp self))
    (i64_to_string (Input_block_number self)) (Input_payload self) notices vouchers reports =
  if block_number m <? 2 ^ 63 then
    Ok (mkInput_ (as_i32 (input_index m)) (completion_status s) (msg_sender m) (timestamp m) (block_number m)
          (rai_payload i) notices vouchers reports)
  else Err "failed to parse block number: invalid syntax".
Proof.
  intros Hrow Ht Hs Hb. cbv zeta. unfold convert_input, after_epoch in Hrow.
  destruct (Z.ltb_spec (timestamp (rai_metadata i)) (2 ^ 63)) as [Hlt|]; [|done]. cbn in Hrow. injection Hrow as <-.
  unfold newInput, Input_timestamp, Input_block_number, Input_msg_sender, Input_payload, i64_to_string. cbn.
  rewrite (proj2 (Z.leb_le 0 _)) by lia. rewrite (swrap_small 64 (timestamp _)) by lia.
  rewrite (parse_uint_pretty (timestamp _)) by lia. cbn. unfold as_i64. destruct (Z.ltb_spec (block_number (rai_metadata i)) (2 ^ 63)).
  - rewrite (swrap_small 64 (block_number _)), parse_uint_pretty by lia. cbn -[decode_or].
    rewrite decode_or_hex. cbn. rewrite (swrap_small 64 (timestamp _)) by lia.
    unfold Conversions.graphql_hex_encode. by rewrite hex_to_address_hex.
  - rewrite parse_uint_negative; [done|]. unfold swrap. rewrite Z.mod_eq by lia.
    assert ((block_number (rai_metadata i) + 2 ^ (64 - 1)) / 2 ^ 64 = 1) as ->; [|lia].
    symmetry. apply (Z.div_unique _ _ _ (block_number (rai_metadata i) - 2 ^ 63)); lia.
Qed.

Section Get.
Variables (ps : list RollupsInput) (qs : list RollupsOutput) (d : D).
Hypothesis Hix : held (D := D) (tables := tables) (others := others) ps qs d.

Lemma voucher_caused v : convert_voucher v ∈ omap voucher_of qs ->
  exists q, q ∈ qs /\ about q = Some (as_i32 (rv_input_index v)).
Proof.
  intros (q & Hq & Hv)%list_elem_of_omap. exists q. split; [done|]. destruct q; try done. cbn in *.
  injection Hv as Hi _ _ _. by rewrite Hi.
Qed.

Lemma notice_caused n : convert_notice n ∈ omap notice_of qs ->
  exists q, q ∈ qs /\ about q = Some (as_i32 (rn_input_index n)).
Proof.
  intros (q & Hq & Hv)%list_elem_of_omap. exists q. split; [done|]. destruct q; try done. cbn in *.
  injection Hv as Hi _ _. by rewrite Hi.
Qed.

Lemma wp_GetVoucher v p :
  sole vouchers (omap voucher_of qs) (convert_voucher v) -> length (rv_destination v) = 20%nat ->
  sole proofs (omap proof_of_output qs) (convert_proof p) ->
  proves p OutputEnumVoucher (rv_index v) (rv_input_index v) ->
  wp (GetVoucher (as_i32 (rv_index v)) (as_i32 (rv_input_index v))) d
    (fun r _ => r = client_voucher v p) (fun e _ => read_failed e).
Proof.
  intros Hv Hdest Hp (He & Ho & Hi). destruct (voucher_caused v (proj1 Hv)) as (q & Hq & Hk).
  unfold GetVoucher, request, getVoucher, with_input, ask_voucher. wp_run.
  eapply wp_mono; [by apply (row_voucher ps)| |]; [|by intros e ? ?; exists e].
  intros r d1 [Hd1 ->]. wp_run. unfold Voucher_proof.
  pose proof (row_proof ps qs d1 Hd1 p Hp) as Hrow. rewrite Ho, Hi in Hrow.
  cbn [convert_proof Data.pr_output_enum] in Hrow. rewrite He in Hrow.
  eapply wp_mono; [exact Hrow| |]; [|by intros e ? ?; exists e]. intros r d2 [Hd2 ->]. wp_run.
  eapply wp_mono; [by apply (row_of_cause ps qs d2 Hd2 q)| |]; [|by intros e ? ?; exists e].
  intros r d3 [_ Hr]. wp_run. unfold voucher_of_node. cbn [vn_proof].
  rewrite new_proof_event. cbn -[decode_or]. unfold newVoucher, Voucher_payload, Voucher_destination. cbn -[decode_or].
  rewrite decode_or_hex. cbn. unfold client_voucher. f_equal; [done|]. by apply hex_to_address_hex.
Qed.

Lemma wp_GetNotice n p :
  sole notices (omap notice_of qs) (convert_notice n) ->
  sole proofs (omap proof_of_output qs) (convert_proof p) ->
  proves p OutputEnumNotice (rn_index n) (rn_input_index n) ->
  wp (GetNotice (as_i32 (rn_index n)) (as_i32 (rn_input_index n))) d
    (fun r _ => r = client_notice n p) (fun e _ => read_failed e).
Proof.
  intros Hn Hp (He & Ho & Hi). destruct (notice_caused n (proj1 Hn)) as (q & Hq & Hk).
  unfold GetNotice, request, getNotice, with_input, ask_notice. wp_run.
  eapply wp_mono; [by apply (row_notice ps)| |]; [|by intros e ? ?; exists e].
  intros r d1 [Hd1 ->]. wp_run. unfold Notice_proof.
  pose proof (row_proof ps qs d1 Hd1 p Hp) as Hrow. rewrite Ho, Hi in Hrow.
  cbn [convert_proof Data.pr_output_enum] in Hrow. rewrite He in Hrow.
  eapply wp_mono; [exact Hrow| |]; [|by intros e ? ?; exists e]. intros r d2 [Hd2 ->]. wp_run.
  eapply wp_mono; [by apply (row_of_cause ps qs d2 Hd2 q)| |]; [|by intros e ? ?; exists e].
  intros r d3 [_ Hr]. wp_run. unfold notice_of_node. cbn [nn_proof].
  rewrite new_proof_event. cbn -[decode_or]. unfold newNotice, Notice_payload. cbn -[decode_or].
  rewrite decode_or_hex. cbn. unfold client_notice. by f_equal.
Qed.
End Get.

(** *** The commands *)

Section Commands.
Context {W PrivateKey : Type} `{EL : Ethutil.EthClientLaws W PrivateKey sent} `{BL : Ethutil.BipLaws PrivateKey}.
Context (ReadFile : string -> outcome string string) (Unmarshal : string -> outcome string Addresses.Book).
Import Addresses Ethutil Cli.

Lemma wp_ExecuteVoucher fuel book signer voucher destination proof w :
  let call opts := CallExecuteVoucher (CartesiDApp book) opts destination voucher proof in
  wp (ExecuteVoucher fuel book signer voucher destination proof) w
    (fun _ w' => submitted (sent := sent) call w w')
    (fun _ w' => sent w' = sent w \/ submitted (sent := sent) call w w').
Proof.
  intros call. unfold ExecuteVoucher. wp_run. pose proof (dapp_total (EthClientLaws := EL) (CartesiDApp book)) as Ht.
  destruct (NewCartesiDApp _); cbn; [|by left|done]. wp_run.
  eapply wp_mono; [apply (wp_sendTransaction _ _ _ call)| |]; [|intros receipt w1 Hw1; by wp_run|done].
  intros. apply execute_voucher_spec.
Qed.

End Commands.
End ClientTheorems.

(** ** A client and a chain for which the laws hold *)

Module ClientRef.
Import HexRef Ethutil.

Definition Decode (s : string) : outcome string (list byte) :=
  match s with
  | String "0" (String "x" rest) => map_err (fun _ => "invalid hex string") (hex_decode rest)
  | _ => Err "hex string without 0x prefix"
  end.

#[export] Instance go_hex : GoHex := {|
  hexutil_Decode := Decode;
  HexToAddress s := match Decode s with Ok bs => bs | _ => zeros 20 end |}.

#[export] Instance go_hex_laws : GoHexLaws.
Proof.
  assert (forall bs, Decode ("0x" +:+ hex_encode bs) = Ok bs) as Hd.
  { intros bs. change (map_err (fun _ => "invalid hex string") (hex_decode (hex_encode bs)) = Ok bs).
    by rewrite hex_decode_encode. }
  split; [exact Hd| |].
  - intros s. cbn. unfold Decode. repeat case_match; try done. rewrite map_err_is_panic. apply hex_decode_total.
  - intros bs _. cbn -[Decode String.append]. by rewrite Hd.
Qed.

(** The chain that mines every transaction, and keeps them *)
Definition submit (call : Call) : M (list Call) string Hash := modify (fun calls => calls ++ [call]) ;; mret (zeros 32).

#[export] Instance eth_client : EthClient (list Call) unit := {|
  DialContext _ := mret tt;
  ChainID := mret 31337;
  PendingNonceAt _ := mret 0;
  SuggestGasPrice := mret 1;
  NewKeyedTransactor _ _ := Ok (mkTransactOpts (zeros 20) 0 0 0 0);
  PubkeyToAddress _ := zeros 20;
  TransactionByHash _ := mret false;
  TransactionReceipt tx := mret (mkReceipt 1 tx []);
  debug_traceTransaction _ := mret "";
  ctx_done := mret None;
  CallContext _ _ := mret tt;
  BlockNumber_ := mret 0;
  NewInputBox _ := Ok tt;
  NewCartesiDApp _ := Ok tt;
  InputBox_AddInput a opts dapp input := submit (CallAddInput a opts dapp input);
  InputBox_ParseInputAdded log := Ok (mkInputAdded (zeros 20) 0 (zeros 20) []);
  InputBox_FilterInputAdded _ _ _ := mret [];
  CartesiDApp_ExecuteVoucher a opts destination payload proof :=
    submit (CallExecuteVoucher a opts destination payload proof);
  CartesiDApp_ValidateNotice _ _ _ := mret true |}.
#[export] Instance eth_client_laws : EthClientLaws (list Call) unit id.
Proof. split; intros; try done. Qed.

#[export] Instance bip : Bip unit := {|
  Key := unit; NewSeed _ _ := []; NewMasterKey _ := Ok tt; NewChildKey k _ := Ok k; ToECDSA _ := Ok tt |}.
#[export] Instance bip_laws : BipLaws unit.
Proof. split; done. Qed.
End ClientRef.

Module ClientWitness.
Import HexRef RetryRef PostgresRef ClientRef IndexerConversions Addresses Ethutil Cli Resolvers ReaderClient.

Definition voucher : RollupsVoucher := mkRollupsVoucher 0 0 (zeros 20) [Byte.x05].
Definition validity : RollupsOutputValidityProof :=
  mkRollupsOutputValidityProof 0 0 (zeros 32) (zeros 32) (zeros 32) (zeros 32) [zeros 32] [zeros 32; zeros 32].
Definition proof : RollupsProof := mkRollupsProof 0 0 OutputEnumVoucher validity [Byte.x01].
Definition outputs : list RollupsOutput := [Events.Voucher voucher; Proof_ proof].
Definition database : Tables := mirror [IndexerWitness.advance] outputs.

Lemma outputs_held : held (D := Tables) (tables := id) (others := eq) [IndexerWitness.advance] outputs database.
Proof.
  intros db <-. exists [], []. rewrite !app_nil_r. split; [done|].
  assert (has_row [IndexerWitness.advance] 0) as Hrow.
  { exists IndexerWitness.advance. eexists. split; [left|]. split; vm_compute; reflexivity. }
  apply Forall_cons. split; [by intros k [= <-]|]. by apply Forall_singleton.
Qed.

Lemma proof_is_sized : proof_sized proof.
Proof. split; cbn; [lia..|done|done|done|done| |]; repeat constructor. Qed.

Definition no_files (path : string) : outcome string string := Err "no such file".
Definition no_json (text : string) : outcome string Book := Err "invalid character".

Lemma test_book : address_book no_files no_json "" = Ok GetTestBook.
Proof. unfold address_book. by rewrite String.eqb_refl. Qed.

Definition call (opts : TransactOpts) : Call :=
  CallExecuteVoucher (CartesiDApp GetTestBook) opts (rv_destination voucher) (rv_payload voucher) (event_proof proof).

Definition event : RollupsAdvanceStateInput :=
  mkRollupsAdvanceStateInput (mkInputMetadata (zeros 20) 7 1700000000 0 0) [Byte.x01] (zeros 32).
Lemma client_reads_input_witness :
  exists row, convert_input (E := unit) event = Ok row /\
    newInput (Input_index row) (Input_status row) (Input_msg_sender row) (i64_to_string (Input_timestamp row))
      (i64_to_string (Input_block_number row)) (Input_payload row) [] [] [] =
    Ok (mkInput_ 0 Unprocessed (zeros 20) 1700000000 7 [Byte.x01] [] [] []).
Proof.
  eexists. split; [reflexivity|].
  refine (client_reads_input event _ Data.Unprocessed [] [] [] eq_refl _ eq_refl _); cbn; lia.
Defined.
End ClientWitness.
