(* ===== verification/Deps.v ===== *)
(** * Dependencies and snapshots (Go)

    [internal/deps] runs the database and the development network that a node
    needs in docker containers, and [internal/machine] copies the snapshot of a
    machine out of a docker image; the commands [run-deps] and [save-snapshot] of
    [cmd/cartesi-rollups-cli] use them. Testcontainers, the [docker] command and
    the file system are parameters. *)

From S2P Require Import Prelude.

(** ** [internal/deps/deps.go] *)

Module Deps.
Record PostgresConfig := mkPostgresConfig { p_DockerImage : string; p_Port : string; p_Password : string }.
Record DevnetConfig := mkDevnetConfig {
  d_DockerImage : string; d_Port : string; d_BlockTime : string; d_BlockToWaitForOnStartup : string; d_NoMining : bool }.
Record DepsConfig := mkDepsConfig { Postgres : option PostgresConfig; Devnet : option DevnetConfig }.

Definition NewDefaultDepsConfig : DepsConfig :=
  mkDepsConfig (Some (mkPostgresConfig "postgres:16-alpine" "5432" "password"))
    (Some (mkDevnetConfig "cartesi/rollups-node-devnet:devel" "8545" "1" "21" false)).

(** [wait.ForLog] with its occurrences, and [ContainerRequest] *)
Record WaitForLog := mkWaitForLog { wait_log : string; wait_occurrence : Z }.
Record ContainerRequest := mkContainerRequest {
  Image : string; ExposedPorts : list string; WaitingFor : WaitForLog; Env : list (string * string); Cmd : list string }.

(** Testcontainers; [W] is the state of docker. [Terminate] is given the hook that
    [createHook] makes, which changes the counter of the wait group. *)
Class Docker (W Container : Type) : Type := {
  GenericContainer : ContainerRequest -> M W string Container;
  Container_Terminate : Container -> (Z -> outcome string Z) -> M (W * Z) string unit;
  Container_Logs : Container -> M W string string;
  Container_Endpoint : Container -> string -> M W string string;
}.

(** The keys of the map *)
Inductive Key := postgresKey | devnetKey.
#[export] Instance key_eq_dec : EqDecision Key.
Proof. solve_decision. Defined.
Definition Containers (Container : Type) : Type := list (Key * Container).
Definition lookup_key {C} (key : Key) (containers : Containers C) : option C :=
  snd <$> List.find (fun x => bool_decide (x.1 = key)) containers.

Section Deps.
Context {W Container : Type} `{Docker W Container}.
(** The state of docker and the counter of the wait group *)
Local Abbreviation R := (M (W * Z) string).

Definition with_container {A} (name what : string) (key : Key) (call : Container -> M W string A)
    (containers : Containers Container) : R A :=
  match lookup_key key containers with
  | None => fail ("Container " +:+ name +:+ " is not present")
  | Some container =>
      context (fun err => "Error retrieving " +:+ what +:+ " from " +:+ name +:+ " Container : " +:+ err)
        (on_fst (call container))
  end.
Definition DevnetLogs : Containers Container -> R string := with_container "Devnet" "logs" devnetKey Container_Logs.
Definition PostgresLogs : Containers Container -> R string :=
  with_container "Postgres" "logs" postgresKey Container_Logs.
Definition DevnetEndpoint (protocol : string) : Containers Container -> R string :=
  with_container "Devnet" "endpoint" devnetKey (fun c => Container_Endpoint c protocol).
Definition PostgresEndpoint (protocol : string) : Containers Container -> R string :=
  with_container "Postgres" "endpoint" postgresKey (fun c => Container_Endpoint c protocol).

(** [WaitGroup.Add(1)] and [WaitGroup.Done], which panics on a negative counter *)
Definition Add1 : R unit := on_snd (modify (fun counter => counter + 1)).
Definition Done (counter : Z) : outcome string Z := if counter <=? 0 then Panic else Ok (counter - 1).

Definition exposed (port default_port : string) : string :=
  if String.eqb port "" then default_port else port +:+ ":" +:+ default_port.

Definition postgres_request (c : PostgresConfig) : ContainerRequest :=
  mkContainerRequest (p_DockerImage c) [exposed (p_Port c) "5432/tcp"]
    (mkWaitForLog "database system is ready to accept connections" 2) [("POSTGRES_PASSWORD", p_Password c)] [].
Definition devnet_request (c : DevnetConfig) : ContainerRequest :=
  let cmd := ["anvil"; "--load-state"; "/usr/share/devnet/anvil_state.json"] in
  let '(cmd, waitStrategy) :=
    if d_NoMining c then (cmd ++ ["--no-mining"], mkWaitForLog "net_listening" 1)
    else (cmd ++ ["--block-time"; d_BlockTime c],
          mkWaitForLog ("Block Number: " +:+ d_BlockToWaitForOnStartup c) 1) in
  mkContainerRequest (d_DockerImage c) [exposed (d_Port c) "8545/tcp"] waitStrategy [] cmd.

Definition run_container (key : Key) (request : option ContainerRequest) (containers : Containers Container)
    : R (Containers Container) :=
  match request with
  | None => mret containers
  | Some request =>
      container ← on_fst (GenericContainer request);
      Add1 ;;
      mret (containers ++ [(key, container)])
  end.

Definition Run (depsConfig : DepsConfig) : R (Containers Container) :=
  containers ← run_container postgresKey (postgres_request <$> Postgres depsConfig) [];
  containers ← run_container devnetKey (devnet_request <$> Devnet depsConfig) containers;
  if Nat.ltb (length containers) 1 then fail "configuration is empty" else mret containers.

(** The map is ranged over in any order. *)
Definition Terminate (order : Containers Container) : R unit :=
  for_each order (fun x => Container_Terminate x.2 Done).

(** The command [run-deps]: [reorder] is the order in which [range] finds the map. *)
Definition run_deps (reorder : Containers Container -> Containers Container) (depsConfig : DepsConfig) : R unit :=
  depsContainers ← Run depsConfig;
  Terminate (reorder depsContainers).
End Deps.
End Deps.

(** ** [internal/machine/snapshot.go] *)

Module Snapshot.
(** [exec.Command] with [CombinedOutput], [os.Stat] and [os.RemoveAll] *)
Class System (W : Type) : Type := {
  command : string -> list string -> M W string unit;
  Stat_exists : string -> M W string bool;
  RemoveAll : string -> M W string unit;
}.

Section Snapshot.
Context {W : Type} `{System W}.

Definition SNAPSHOT_CONTAINER_PATH : string := "/usr/share/cartesi/snapshot".
Definition runCommand (name : string) (args : list string) : M W string unit :=
  context (fun err => "'" +:+ name +:+ " " +:+ String.concat " " args +:+ "' failed with " +:+ err) (command name args).
Definition fileExists (filePath : string) : M W string bool := Stat_exists filePath.

(** The deferred function only logs its error. *)
Definition defer_ {A} (body : M W string A) (cleanup : M W string unit) : M W string A := fun w =>
  let '(o, w1) := body w in
  let '(c, w2) := cleanup w1 in
  (if is_panic c then Panic else o, w2).

Definition Save (sourceDockerImage destDir tempContainerName : string) : M W string unit :=
  exists_ ← fileExists destDir;
  (if exists_ : bool then RemoveAll destDir else mret tt) ;;
  runCommand "docker" ["create"; "--name"; tempContainerName; sourceDockerImage] ;;
  defer_
    (runCommand "docker" ["cp"; tempContainerName +:+ ":" +:+ SNAPSHOT_CONTAINER_PATH; destDir])
    (runCommand "docker" ["rm"; tempContainerName]).

(** The command [save-snapshot] *)
Definition save_snapshot (sourceDockerImage tempContainerName destDir : string) : M W string unit :=
  Save sourceDockerImage destDir tempContainerName.
End Snapshot.
End Snapshot.

(** ** Containers are stopped *)

Section DepsTheorems.
Import Deps.

(** What testcontainers promises about the containers that run: a container that
    fails to start may be left behind. *)
Class DockerLaws (W Container : Type) `{Docker W Container} (running : W -> list Container) : Prop := {
  container_started request w :
    wp (GenericContainer request) w (fun c w' => running w' ≡ₚ c :: running w)
      (fun _ w' => running w ⊆+ running w');
  container_terminated c w counter : c ∈ running w -> 0 < counter ->
    wp (Container_Terminate c Done) (w, counter)
      (fun _ s => c :: running s.1 ≡ₚ running w /\ s.2 = counter - 1)
      (fun _ s => counter - 1 <= s.2 <= counter /\ running w ⊆+ c :: running s.1);
}.

Context {W Container : Type} {running : W -> list Container} `{DL : DockerLaws W Container running}.

(** [Run] has started the containers of [cs], and the wait group counts them. *)
Definition started (w : W) (cs : Containers Container) (s : W * Z) : Prop :=
  running s.1 ≡ₚ cs.*2 ++ running w /\ s.2 = Z.of_nat (length cs).

Lemma wp_run_container w key request cs s : started w cs s ->
  wp (run_container key request cs) s
    (fun cs' s' => started w cs' s' /\ cs'.*1 = cs.*1 ++ match request with Some _ => [key] | None => [] end)
    (fun _ s' => cs.*2 ++ running w ⊆+ running s'.1).
Proof.
  intros [Hr Hn]. destruct request as [request|]; cbn [run_container]; wp_run; [|by rewrite app_nil_r].
  destruct s as [w0 n]. cbn in Hr, Hn. eapply wp_mono; [apply container_started| |]; cbn.
  - intros c w1 Hc. unfold Add1. wp_run. rewrite !fmap_app. cbn. split; [|done]. split; cbn.
    + rewrite fmap_app, Hc, Hr. cbn. solve_Permutation.
    + rewrite length_app. cbn. lia.
  - intros e w1 Hs. by rewrite <-Hr.
Qed.

Definition requested (c : DepsConfig) : list Key :=
  match Postgres c with Some _ => [postgresKey] | None => [] end ++
  match Devnet c with Some _ => [devnetKey] | None => [] end.

Lemma wp_Run c w :
  wp (Run c) (w, 0)
    (fun cs s => started w cs s /\ cs.*1 = requested c /\ requested c <> [])
    (fun _ s => running w ⊆+ running s.1).
Proof.
  unfold Run. wp_run. eapply wp_mono; [apply (wp_run_container w); by split| |done]. intros cs1 s1 [H1 K1]. wp_run.
  eapply wp_mono; [by apply (wp_run_container w)| |].
  2:{ intros e s Hs. etrans; [|exact Hs]. by apply submseteq_inserts_l. }
  intros cs2 s2 [H2 K2]. assert (cs2.*1 = requested c) as Hk.
  { rewrite K2, K1. unfold requested. by destruct (Postgres c), (Devnet c). }
  destruct (Nat.ltb_spec (length cs2) 1) as [Hlt|Hge]; wp_run.
  - destruct H2 as [H2 _]. rewrite H2. by apply submseteq_inserts_l.
  - split; [done|]. split; [done|]. rewrite <-Hk. by destruct cs2; cbn in *; [lia|].
Qed.

Lemma wp_Terminate w order s : started w order s ->
  wp (Terminate order) s (fun _ s' => running s'.1 ≡ₚ running w /\ s'.2 = 0)
    (fun _ s' => running w ⊆+ running s'.1 /\ 0 <= s'.2).
Proof.
  intros Hs. unfold Terminate. eapply wp_mono; [apply (wp_for_each (fun order s => started w order s)); [exact Hs|]| |].
  2:{ intros [] s' [Hr Hn]. by cbn in *. }
  2:{ intros e s' He. exact He. }
  intros [key c] l [w1 n] [Hr Hn]. cbn in Hr, Hn.
  eapply wp_mono; [apply container_terminated; [rewrite Hr; by left|lia]| |]; cbn.
  - intros ? [w2 n2] [Hr2 Hn2]. cbn in Hr2, Hn2. split; [|cbn; lia]. apply (Permutation.Permutation_cons_inv (a := c)).
    cbn. by rewrite Hr2, Hr.
  - intros e [w2 n2] [Hn2 Hr2]. cbn in *. split; [|lia].
    rewrite Hr in Hr2. apply submseteq_cons_l in Hr2 as (k & Hk & Hl).
    rewrite (Permutation.Permutation_cons_inv Hk). etrans; [|exact Hl]. by apply submseteq_inserts_l.
Qed.

(** The command [run-deps] cleans up after itself: if it starts and stops without an
    error, the containers that run are the ones that ran before, whatever the order in
    which they are stopped, and the wait group is back at zero. When it fails it has
    stopped no container but its own, and the wait group never panics. An empty
    configuration is an error. *)
Theorem run_deps_cleans reorder c w :
  (forall cs, reorder cs ≡ₚ cs) ->
  wp (run_deps reorder c) (w, 0)
    (fun _ s => running s.1 ≡ₚ running w /\ s.2 = 0 /\ requested c <> [])
    (fun _ s => running w ⊆+ running s.1).
Proof.
  intros Hreorder. unfold run_deps. wp_run. eapply wp_mono; [apply wp_Run| |done].
  intros cs s ([Hr Hn] & _ & Hne). eapply wp_mono; [apply (wp_Terminate w)| |by intros e s' [? _]].
  - split; [|by rewrite (Permutation_length (Hreorder cs))]. by rewrite Hr, (Hreorder cs).
  - by intros ? s' [? ?].
Qed.
End DepsTheorems.

(** ** Snapshots are copied *)

Section SnapshotTheorems.
Import Snapshot.
Context {W : Type} `{System W}.
(** The images of the containers, and the image whose snapshot a directory holds *)
Variables (containers : W -> gmap string string) (snapshot_in : W -> string -> option string).

(** What the [docker] command and the file system promise *)
Record system_laws : Prop := {
  stat_total dir w : wp (Stat_exists dir) w (fun _ w' => w' = w) (fun _ w' => w' = w);
  removed dir w : wp (RemoveAll dir) w (fun _ w' => containers w' = containers w) (fun _ w' => containers w' = containers w);
  created name image w : wp (command "docker" ["create"; "--name"; name; image]) w
    (fun _ w' => containers w !! name = None /\ containers w' = <[name := image]> (containers w))
    (fun _ w' => containers w' = containers w);
  copied name image dir w : containers w !! name = Some image ->
    wp (command "docker" ["cp"; name +:+ ":" +:+ SNAPSHOT_CONTAINER_PATH; dir]) w
      (fun _ w' => containers w' = containers w /\ snapshot_in w' dir = Some image)
      (fun _ w' => containers w' = containers w);
  container_removed name w : wp (command "docker" ["rm"; name]) w
    (fun _ w' => containers w' = delete name (containers w) /\ forall dir, snapshot_in w' dir = snapshot_in w dir)
    (fun _ w' => containers w' = containers w /\ forall dir, snapshot_in w' dir = snapshot_in w dir);
}.
Hypothesis L : system_laws.

(** [Save] leaves the snapshot of the image in the directory when it succeeds, and in
    any case no container but, when docker cannot remove it, the temporary one. *)
Lemma wp_Save image dir temp w :
  let clean w' := containers w' = containers w \/ containers w' = <[temp := image]> (containers w) in
  wp (Save image dir temp) w (fun _ w' => clean w' /\ snapshot_in w' dir = Some image) (fun _ w' => clean w').
Proof.
  intros clean. unfold Save, fileExists, runCommand. wp_run.
  eapply wp_mono; [apply (stat_total L)| |by intros ? w0 ->; left]. intros present w0 ->. wp_run.
  assert (wp (if present : bool then RemoveAll dir else mret tt) w
    (fun _ w' => containers w' = containers w) (fun _ w' => containers w' = containers w)) as Hrm
    by (destruct present; [apply (removed L)|done]).
  eapply wp_mono; [exact Hrm| |by intros ? w0 ?; left]. intros ? w1 Hw1. wp_run.
  eapply wp_mono; [apply (created L)| |intros ? w2 Hw2; left; congruence]. intros ? w2 [Hnew Hw2]. wp_run.
  rewrite Hw1 in Hnew, Hw2. assert (delete temp (<[temp := image]> (containers w)) = containers w) as Hdel
    by by rewrite delete_insert_id.
  pose proof (copied L temp image dir w2) as Hcp. rewrite Hw2, lookup_insert_eq in Hcp. specialize (Hcp eq_refl).
  unfold defer_, wp, context in Hcp |- *.
  destruct (command "docker" ["cp"; _; dir] w2) as [[[]|e|] w3]; [| |done];
    pose proof (container_removed L temp w3) as Hrm3; unfold wp in Hrm3;
    destruct (command "docker" ["rm"; temp] w3) as [[[]|e'|] w4]; try done; cbn.
  - destruct Hcp as [Hw3 Hs], Hrm3 as [Hw4 Hs4]. split; [left; congruence|]. by rewrite Hs4.
  - destruct Hcp as [Hw3 Hs], Hrm3 as [Hw4 Hs4]. split; [right; congruence|]. by rewrite Hs4.
  - destruct Hrm3 as [Hw4 Hs4]. left. congruence.
  - destruct Hrm3 as [Hw4 Hs4]. right. congruence.
Qed.
End SnapshotTheorems.

(** ** Witnesses *)

Module DepsWitness.
Import Deps.

Fixpoint remove_one (c : nat) (l : list nat) : list nat :=
  match l with [] => [] | x :: l => if Nat.eqb x c then l else x :: remove_one c l end.
Lemma remove_one_perm c l : c ∈ l -> c :: remove_one c l ≡ₚ l.
Proof.
  induction l as [|x l IH]; [by intros ?%elem_of_nil|]. cbn. destruct (Nat.eqb_spec x c) as [->|Hne]; [done|].
  intros [->|Hin]%elem_of_cons; [done|]. rewrite Permutation_swap. by rewrite IH.
Qed.

(** Containers are numbers; docker knows the next number and those that run. *)
#[local] Instance docker_ref : Docker (nat * list nat) nat := {|
  GenericContainer _ := '(n, l) ← get; put (S n, n :: l) ;; mret n;
  Container_Terminate c hook := fun s =>
    match hook s.2 with
    | Ok counter => (Ok tt, ((s.1.1, remove_one c s.1.2), counter))
    | Err e => (Err e, s)
    | Panic => (Panic, s)
    end;
  Container_Logs _ := mret "";
  Container_Endpoint _ protocol := mret (protocol +:+ "://localhost") |}.

#[local] Instance docker_ref_laws : DockerLaws (nat * list nat) nat snd.
Proof.
  split; [intros request [n l]; cbn; by wp_run|]. intros c [n l] counter Hc Hpos. unfold wp. cbn.
  unfold Done. rewrite (proj2 (Z.leb_gt _ _)) by lia. cbn. split; [by apply remove_one_perm|done].
Qed.

Lemma run_deps_cleans_witness :
  let run := run_deps reverse NewDefaultDepsConfig ((5%nat, [4%nat; 1%nat]), 0) in
  is_ok run.1 = true /\ run.2.1.2 ≡ₚ [4%nat; 1%nat].
Proof.
  cbv zeta. pose proof (run_deps_cleans (running := snd) reverse NewDefaultDepsConfig (5%nat, [4%nat; 1%nat])
    (fun cs => reverse_Permutation cs)) as Hrun.
  unfold wp in Hrun. revert Hrun. destruct (run_deps _ _ _) as [[u|e|] s] eqn:E; [|by vm_compute in E..].
  intros (Hr & _). by split.
Defined.
End DepsWitness.
