(* ===== verification/Supervisor.v ===== *)
(** * The services of the node

    [internal/services] (Go): the writer that cuts the output of a process into
    log lines ([linewriter.go], [command.go]), the services that run a process
    ([command.go], [server-manager.go]) or an HTTP server ([http.go]), and the
    supervisor that starts the services one by one and stops them all when one
    of them fails ([supervisor.go]). The supervisor and its services run
    concurrently: the model takes one event at a time, in any order that the
    channels, the contexts and the timers of the code allow. *)

From Stdlib Require Import Ascii.
From S2P Require Import Prelude Codecs.

(** [error]: [None] is [nil]. *)
Inductive GoError :=
| ContextCanceled
| DeadlineExceeded
| ServiceTimeoutError
| SupervisorTimeoutError
| HttpErrServerClosed
| OtherError (message : string).

#[export] Instance GoError_eq_dec : EqDecision GoError.
Proof. solve_decision. Defined.

(** ** [linewriter.go] *)

Module LineWriter.
Definition newline : byte := Byte.x0a.

(** The buffer, and what was written to the inner writer, which does not fail. *)
Record lineWriter := mkLineWriter { buffer : list byte; inner : list (list byte) }.
Definition newLineWriter : lineWriter := mkLineWriter [] [].

(** [buffer.ReadBytes('\n')]: up to the delimiter, which is included; [None]
    when there is none. *)
Fixpoint ReadBytes (buf : list byte) : option (list byte * list byte) :=
  match buf with
  | [] => None
  | b :: buf =>
      if Byte.eqb b newline then Some ([b], buf)
      else '(line, rest) ← ReadBytes buf; Some (b :: line, rest)
  end.

(** The loop; every turn takes at least one byte from the buffer. *)
Fixpoint write_lines (fuel : nat) (w : lineWriter) : lineWriter :=
  match fuel with
  | O => w
  | S fuel =>
      match ReadBytes (buffer w) with
      | None => w
      | Some (line, rest) =>
          write_lines fuel
            (mkLineWriter rest (if Nat.ltb 1 (length line) then inner w ++ [line] else inner w))
      end
  end.

Definition Write (w : lineWriter) (data : list byte) : Z * lineWriter :=
  let w := mkLineWriter (buffer w ++ data) (inner w) in
  (Z.of_nat (length data), write_lines (length (buffer w)) w).
End LineWriter.

(** ** [command.go] *)

Module Command.
Inductive Level := LevelDebug | LevelInfo | LevelWarn | LevelError.

(** A regular expression [(?i)word]: the text holds the word in any case. *)
Definition lower (c : ascii) : ascii :=
  let n := nat_of_ascii c in
  if Nat.leb 65 n && Nat.leb n 90 then ascii_of_nat (n + 32) else c.
Fixpoint starts_ci (word text : string) : bool :=
  match word, text with
  | EmptyString, _ => true
  | String w word, String t text => Ascii.eqb (lower t) w && starts_ci word text
  | _, EmptyString => false
  end.
Fixpoint contains_ci (word text : string) : bool :=
  starts_ci word text || match text with EmptyString => false | String _ text => contains_ci word text end.

Definition logLevelForMessage (msg : string) : Level :=
  if contains_ci "info" msg then LevelInfo
  else if contains_ci "debug" msg || contains_ci "trace" msg then LevelDebug
  else if contains_ci "warn" msg then LevelWarn
  else if contains_ci "error" msg || contains_ci "fatal" msg then LevelError
  else LevelInfo.

(** The regular expression [[a-zA-Z0-9]] *)
Definition is_alphanumeric (c : ascii) : bool :=
  let n := nat_of_ascii c in
  (Nat.leb 48 n && Nat.leb n 57) || (Nat.leb 65 n && Nat.leb n 90) || (Nat.leb 97 n && Nat.leb n 122).
Fixpoint has_alphanumeric (s : string) : bool :=
  match s with EmptyString => false | String c s => is_alphanumeric c || has_alphanumeric s end.

(** [strings.TrimSpace]: the white space of Unicode, as UTF-8 *)
Definition white_space : list (list nat) :=
  [[9]; [10]; [11]; [12]; [13]; [32]; [194; 133]; [194; 160]; [225; 154; 128]; [226; 128; 128]; [226; 128; 129];
   [226; 128; 130]; [226; 128; 131]; [226; 128; 132]; [226; 128; 133]; [226; 128; 134]; [226; 128; 135];
   [226; 128; 136]; [226; 128; 137]; [226; 128; 138]; [226; 128; 168]; [226; 128; 169]; [226; 128; 175];
   [226; 129; 159]; [227; 128; 128]]%nat.
Fixpoint strip (spaces : list (list ascii)) (fuel : nat) (s : list ascii) : list ascii :=
  match fuel with
  | O => s
  | S fuel =>
      match List.find (fun w => bool_decide (w = take (length w) s)) spaces with
      | Some w => strip spaces fuel (drop (length w) s)
      | None => s
      end
  end.
Definition TrimSpace (s : string) : string :=
  let spaces := map (map ascii_of_nat) white_space in
  let l := strip spaces (String.length s) (String.list_ascii_of_string s) in
  String.string_of_list_ascii (rev (strip (map (@rev ascii) spaces) (length l) (rev l))).

(** [commandLogger.Write]: the number that is returned, and the record that is
    logged. *)
Definition Write (data : string) : Z * option (Level * string) :=
  if has_alphanumeric data then
    let msg := TrimSpace data in
    (Z.of_nat (String.length msg), Some (logLevelForMessage msg, msg))
  else (0, None).

(** [pollTcp]: the results of the dials, each with whether the context is done
    before the next one; [true] when the readiness is sent. [None]: it keeps
    polling. *)
Fixpoint pollTcp (dials : list (bool * bool)) : option bool :=
  match dials with
  | [] => None
  | (connected, ctx_done) :: dials =>
      if connected : bool then Some true
      else if ctx_done : bool then Some false
      else pollTcp dials
  end.

(** [Start]: [run] is the error of [cmd.Run()] and [ctx_err] that of the context
    when the command is over. *)
Definition Start (run ctx_err : option GoError) : option GoError :=
  match ctx_err with Some e => Some e | None => run end.
End Command.

(** ** A service that runs a command

    [Start] of [CommandService] and of [ServerManager], which differ in the hook
    that stops the command only, with the goroutine of [pollTcp] next to it. *)

Module CommandRun.
(** [Running]: [cmd.Run()] has not returned; [polling]: nor has [pollTcp]. *)
Inductive Child := Running | Gone (run : option GoError).
Record Run := mkRun {
  child : Child;
  polling : bool;
  ready_sent : nat;
  ctx_cancelled : bool;
  stop_requests : nat;               (** how often the hook [cmd.Cancel] was called *)
  returned : option (option GoError);
}.
Definition init : Run := mkRun Running true 0 false 0 None.

(** The context is cancelled; [exec] calls the hook of a command whose context is
    done, once; the command ends, or did not start; a dial of [pollTcp]; its wait
    ends because of the context; and [Start] returns. *)
Inductive Event :=
| Cancelled
| Hook
| ChildExit (run : option GoError)
| Dial (connected : bool)
| PollDone
| Return_.

Definition next (e : Event) (c : Run) : option Run :=
  match e with
  | Cancelled => Some (mkRun (child c) (polling c) (ready_sent c) true (stop_requests c) (returned c))
  | Hook =>
      match child c with
      | Running =>
          if ctx_cancelled c && Nat.eqb (stop_requests c) 0
          then Some (mkRun Running (polling c) (ready_sent c) true 1 (returned c))
          else None
      | Gone _ => None
      end
  | ChildExit run =>
      match child c with
      | Running => Some (mkRun (Gone run) (polling c) (ready_sent c) (ctx_cancelled c) (stop_requests c) (returned c))
      | Gone _ => None
      end
  | Dial connected =>
      if polling c then
        Some (if connected : bool
              then mkRun (child c) false (S (ready_sent c)) (ctx_cancelled c) (stop_requests c) (returned c)
              else c)
      else None
  | PollDone =>
      if polling c && ctx_cancelled c
      then Some (mkRun (child c) false (ready_sent c) (ctx_cancelled c) (stop_requests c) (returned c))
      else None
  | Return_ =>
      match child c, returned c with
      | Gone run, None =>
          let ctx_err := if ctx_cancelled c then Some ContextCanceled else None in
          Some (mkRun (child c) (polling c) (ready_sent c) (ctx_cancelled c) (stop_requests c)
                  (Some (Command.Start run ctx_err)))
      | _, _ => None
      end
  end.

Fixpoint run (es : list Event) (c : Run) : option Run :=
  match es with
  | [] => Some c
  | e :: es => c' ← next e c; run es c'
  end.
End CommandRun.

(** ** [server-manager.go] *)

Module ServerManagerService_.
Section Kill.
(** The processes: [pgrep] with its output, and the signals. *)
Variable pgrep : Z -> outcome string (list string).
Variable kill : Z -> option GoError.
Variable atoi : string -> outcome string Z.

(** [getChildrenPid]; the lines of the output are its argument. *)
Definition getChildrenPid (ppid : Z) : outcome string (list Z) :=
  pids ← map_err (fun e => "failed to exec pgrep: " +:+ e) (pgrep ppid);
  collect (fun pid => map_err (fun e => "failed to parse pid: " +:+ e) (atoi pid)) pids.

(** [killChildProcesses]: the children that were killed, in order, and whether
    one of the calls failed. *)
Fixpoint kill_all (children : list Z) : list Z * bool :=
  match children with
  | [] => ([], true)
  | child :: children =>
      match kill child with
      | Some _ => ([], false)
      | None => let '(killed, ok) := kill_all children in (child :: killed, ok)
      end
  end.
Definition killChildProcesses (pid : Z) : list Z * bool :=
  match getChildrenPid pid with
  | Ok children => kill_all children
  | _ => ([], false)
  end.

(** [cmd.Cancel]: the termination is requested in any case. *)
Definition Cancel (sigterm : Z -> option GoError) (pid : Z) : option GoError * list Z :=
  let '(killed, _) := killChildProcesses pid in (sigterm pid, killed).
End Kill.
End ServerManagerService_.

(** ** [http.go] *)

Module HttpService.
(** What ends the wait: the server stops by itself, or the context is done and
    the server is shut down. *)
Inductive End_ := ServeReturned (err : option GoError) | ContextDone (shutdown : option GoError).

(** Whether the readiness is sent, and the result. *)
Definition Start (listen : option GoError) (e : End_) : bool * option GoError :=
  match listen with
  | Some err => (false, Some err)
  | None => (true, match e with ServeReturned err => err | ContextDone shutdown => shutdown end)
  end.
End HttpService.

(** ** [supervisor.go] *)

Module Supervisor.
Definition DefaultServiceTimeout : Z := 5000000000.

(** The timeouts that are used (in nanoseconds). *)
Definition timeout (configured : Z) : Z := if configured <=? 0 then DefaultServiceTimeout else configured.

(** A service that was started: whether it sent its readiness, and its result. *)
Record Svc := mkSvc { sent_ready : bool; exited : option (option GoError) }.
Definition new_svc : Svc := mkSvc false None.

(** Where [Start] is: in the [select] of the loop, at service [k]; before
    [<-ctx.Done()]; in the last [select]; or done. *)
Inductive Phase :=
| Starting (k : nat)
| Waiting
| Stopping
| Returned (err : option GoError).

Record Sup := mkSup {
  phase : Phase;
  started : list Svc;
  ctx_done : bool;                (** the context of the group *)
  group_err : option GoError;     (** the first error of the group *)
  serviceTimedOut : bool;
  ready : nat;                    (** how often the supervisor sent its readiness *)
}.

(** [group.Go] for the next service, or the end of the loop. *)
Definition continue_ (n : nat) (s : Sup) : Sup :=
  if Nat.ltb (length (started s)) n then
    mkSup (Starting (length (started s))) (started s ++ [new_svc]) (ctx_done s) (group_err s)
      (serviceTimedOut s) (ready s)
  else
    mkSup Waiting (started s) (ctx_done s) (group_err s) (serviceTimedOut s)
      (if ctx_done s then ready s else S (ready s)).

Definition init (n : nat) : Sup := continue_ n (mkSup Waiting [] false None false 0).

(** What can happen: to the services, to the context of the caller, and in the
    [select]s of the supervisor. *)
Inductive Event :=
| ServiceReady (i : nat)
| ServiceExit (i : nat) (err : option GoError)
| ParentCancelled
| TakeReady
| TakeDone
| ReadyTimeout
| CtxDone
| AllExited
| StopTimeout.

Definition set_phase (p : Phase) (s : Sup) : Sup :=
  mkSup p (started s) (ctx_done s) (group_err s) (serviceTimedOut s) (ready s).

(** [None]: the event cannot happen. *)
Definition next (n : nat) (e : Event) (s : Sup) : option Sup :=
  match e with
  | ServiceReady i =>
      svc ← started s !! i;
      Some (mkSup (phase s) (<[i := mkSvc true (exited svc)]> (started s)) (ctx_done s) (group_err s)
              (serviceTimedOut s) (ready s))
  | ServiceExit i err =>
      svc ← started s !! i;
      match exited svc with
      | Some _ => None
      | None =>
          let services := <[i := mkSvc (sent_ready svc) (Some err)]> (started s) in
          (** the first error cancels the context of the group *)
          Some (mkSup (phase s) services (ctx_done s || bool_decide (is_Some err))
                  (match group_err s with Some e => Some e | None => err end) (serviceTimedOut s) (ready s))
      end
  | ParentCancelled =>
      Some (mkSup (phase s) (started s) true (group_err s) (serviceTimedOut s) (ready s))
  | TakeReady =>
      match phase s with
      | Starting k =>
          svc ← started s !! k;
          if sent_ready svc then Some (continue_ n s) else None
      | _ => None
      end
  | TakeDone =>
      match phase s with
      | Starting k => if ctx_done s then Some (set_phase Waiting s) else None
      | _ => None
      end
  | ReadyTimeout =>
      match phase s with
      | Starting k => Some (mkSup Waiting (started s) true (group_err s) true (ready s))
      | _ => None
      end
  | CtxDone =>
      match phase s with
      | Waiting => if ctx_done s then Some (set_phase Stopping s) else None
      | _ => None
      end
  | AllExited =>
      match phase s with
      | Stopping =>
          if forallb (fun svc => bool_decide (is_Some (exited svc))) (started s)
          then Some (set_phase (Returned (if serviceTimedOut s then Some ServiceTimeoutError else group_err s)) s)
          else None
      | _ => None
      end
  | StopTimeout =>
      match phase s with
      | Stopping => Some (set_phase (Returned (Some SupervisorTimeoutError)) s)
      | _ => None
      end
  end.

Fixpoint run (n : nat) (es : list Event) (s : Sup) : option Sup :=
  match es with
  | [] => Some s
  | e :: es => s' ← next n e s; run n es s'
  end.
Definition reachable (n : nat) (s : Sup) : Prop := exists es, run n es (init n) = Some s.
End Supervisor.

(** ** The output of a process *)

Section LineWriterTheorems.
Import LineWriter.

(** The complete lines of a text, each with its newline, and what follows the
    last one. *)
Fixpoint lines (text : list byte) : list (list byte) * list byte :=
  match text with
  | [] => ([], [])
  | b :: text =>
      let '(ls, rest) := lines text in
      if Byte.eqb b newline then ([b] :: ls, rest)
      else match ls with
           | [] => ([], b :: rest)
           | l :: ls => ((b :: l) :: ls, rest)
           end
  end.
Definition not_empty (l : list byte) : bool := Nat.ltb 1 (length l).

Lemma lines_read text :
  lines text = match ReadBytes text with
               | None => ([], text)
               | Some (line, rest) => let '(ls, last) := lines rest in (line :: ls, last)
               end.
Proof.
  induction text as [|b text IH]; [done|]. cbn [lines ReadBytes]. destruct (Byte.eqb b newline).
  - by destruct (lines text).
  - rewrite IH. cbn. destruct (ReadBytes text) as [[line rest]|]; cbn; [|done]. by destruct (lines rest).
Qed.

Lemma read_shorter text line rest : ReadBytes text = Some (line, rest) -> (length rest < length text)%nat.
Proof.
  revert line. induction text as [|b text IH]; intros line; [done|]. cbn. destruct (Byte.eqb b newline).
  - intros [= <- <-]. lia.
  - destruct (ReadBytes text) as [[line' rest']|]; [|done]. intros [= <- <-]. specialize (IH line' eq_refl). lia.
Qed.

Lemma write_lines_spec fuel w : (length (buffer w) <= fuel)%nat ->
  write_lines fuel w =
  mkLineWriter (lines (buffer w)).2 (inner w ++ List.filter not_empty (lines (buffer w)).1).
Proof.
  revert w. induction fuel as [|fuel IH]; intros [buf out] Hlen; cbn [write_lines buffer inner] in *.
  - destruct buf; [|cbn in Hlen; lia]. cbn. by rewrite app_nil_r.
  - rewrite (lines_read buf). destruct (ReadBytes buf) as [[line rest]|] eqn:Hr; [|cbn; by rewrite app_nil_r].
    apply read_shorter in Hr. rewrite IH by (cbn; lia). cbn [buffer inner].
    destruct (lines rest) as [ls last]. cbn [fst snd List.filter].
    change (Nat.ltb 1 (length line)) with (not_empty line). destruct (not_empty line); [|done].
    by rewrite <- app_assoc.
Qed.

Lemma lines_app a b :
  lines (a ++ b) = let '(ls, rest) := lines a in let '(ls', rest') := lines (rest ++ b) in (ls ++ ls', rest').
Proof.
  induction a as [|x a IH]; cbn [lines app]; [by destruct (lines b)|]. rewrite IH.
  destruct (lines a) as [ls rest]. destruct (Byte.eqb x newline) eqn:Hx.
  - by destruct (lines (rest ++ b)).
  - destruct ls as [|l ls]; [|by destruct (lines (rest ++ b))]. cbn [app lines].
    destruct (lines (rest ++ b)) as [ls' rest']. rewrite Hx. by destruct ls'.
Qed.

(** The log lines of a process do not depend on how its output is cut into
    writes: after any sequence of writes, what was passed on is the sequence of
    the complete lines of the whole output that are not empty, the buffer holds
    the text after the last newline, and each write reports all its bytes as
    written. *)
Theorem line_writer_chunks (chunks : list (list byte)) :
  foldl (fun w data => (Write w data).2) newLineWriter chunks =
    mkLineWriter (lines (concat chunks)).2 (List.filter not_empty (lines (concat chunks)).1) /\
  forall w data, (Write w data).1 = Z.of_nat (length data).
Proof.
  split; [|done]. induction chunks as [|data chunks IH] using rev_ind; [done|].
  rewrite foldl_app, IH, concat_app. cbn [foldl concat Write snd]. rewrite app_nil_r.
  rewrite write_lines_spec by done. cbn [buffer inner]. rewrite (lines_app (concat chunks)).
  destruct (lines (concat chunks)) as [ls rest]. cbn [fst snd]. destruct (lines (rest ++ data)) as [ls' rest'].
  cbn [fst snd]. by rewrite List.filter_app.
Qed.
End LineWriterTheorems.

(** ** The supervisor *)

(** ** A service that runs a command *)

Section CommandTheorems.
Import CommandRun.

(** The readiness is sent once at most, and the poller ends with it; the command
    is asked to stop once at most, and only after the cancellation; [Start] returns
    after the command, with its result or with the cancellation. *)
Record run_safe (c : Run) : Prop := {
  safe_ready : (ready_sent c <= 1)%nat /\ (polling c = true -> ready_sent c = 0%nat);
  safe_stop : (stop_requests c <= 1)%nat /\ (stop_requests c = 1%nat -> ctx_cancelled c = true);
  safe_returned err : returned c = Some err ->
    exists r, child c = Gone r /\ (err = r \/ (err = Some ContextCanceled /\ ctx_cancelled c = true));
}.

Lemma command_next_safe e c c' : run_safe c -> next e c = Some c' -> run_safe c'.
Proof.
  intros [[Hr Hp] [Hs Hc] Hret] Hn. destruct c as [ch po rd cx st re]; cbn in *.
  destruct e as [| |r|[]| |]; cbn in Hn.
  - simplify_eq. split; cbn; [done|done|]. intros err He. destruct (Hret err He) as (r & ? & [?|[? _]]); eauto.
  - destruct ch; [|done]. destruct cx, (Nat.eqb_spec st 0); cbn in Hn; simplify_eq. split; cbn; [done|by split; [lia|]|]. intros err He. by destruct (Hret err He) as (r & [=] & _).
  - destruct ch; [|done]. simplify_eq. split; cbn; [done|done|]. intros err He. by destruct (Hret err He) as (r' & [=] & _).
  - destruct po; [|done]. simplify_eq. split; cbn; [rewrite (Hp eq_refl); by split; [lia|]|done|exact Hret].
  - destruct po; [|done]. by simplify_eq.
  - destruct po, cx; cbn in Hn; simplify_eq. by split.
  - destruct ch as [|r], re; [done..| |]; simplify_eq. split; cbn; [done|done|]. intros err [= <-]. exists r.
    split; [done|]. destruct cx; [by right|by left].
Qed.

Lemma command_run_safe es c : run es init = Some c -> run_safe c.
Proof.
  assert (Hs : run_safe init) by (split; cbn; [lia|split; [lia|done]|done]). revert Hs. generalize init as c0.
  induction es as [|e es IH]; intros c0 Hs; cbn; [by intros [= <-]|].
  destruct (next e c0) as [c1|] eqn:Hn; [|done]. cbn. apply IH. by eapply command_next_safe.
Qed.

Definition cancelled_or (c : Run) : Prop :=
  ctx_cancelled c = true /\ (returned c = None \/ returned c = Some (Some ContextCanceled)).

Lemma next_cancelled_or e c c' : cancelled_or c -> next e c = Some c' -> cancelled_or c'.
Proof.
  intros [Hc Hr] Hn. destruct c as [ch po rd cx st re]; cbn in *. subst cx. destruct e as [| |r|[]| |]; cbn in Hn.
  - by simplify_eq.
  - destruct ch; [|done]. destruct (Nat.eqb st 0); cbn in Hn; by simplify_eq.
  - destruct ch; by simplify_eq.
  - destruct po; cbn in Hn; by simplify_eq.
  - destruct po; cbn in Hn; by simplify_eq.
  - destruct po; cbn in Hn; by simplify_eq.
  - destruct ch, re; simplify_eq. split; [done|by right].
Qed.

(** A service that had not returned when its context was cancelled returns the
    cancellation, whatever its command does. *)
Lemma command_cancelled es c c' err : ctx_cancelled c = true -> returned c = None ->
  run es c = Some c' -> returned c' = Some err -> err = Some ContextCanceled.
Proof.
  intros Hc Hr. assert (Hk : cancelled_or c) by (split; [done|by left]). clear Hc Hr. revert c Hk.
  induction es as [|e es IH]; intros c Hk; cbn; [intros [= <-]; destruct Hk as [_ [H|H]]; congruence|].
  destruct (next e c) as [c1|] eqn:Hn; [|done]. cbn. apply IH. by eapply next_cancelled_or.
Qed.

(** Once the command is over and the context is cancelled, [Start] returns and the
    poller ends. *)
Lemma command_ends c r : child c = Gone r -> ctx_cancelled c = true -> returned c = None ->
  exists es c', run es c = Some c' /\ returned c' = Some (Some ContextCanceled) /\ polling c' = false.
Proof.
  intros Hg Hc Hr. destruct c as [ch po rd cx st re]; cbn in *. subst. destruct po.
  - exists [PollDone; Return_]. by eexists.
  - exists [Return_]. by eexists.
Qed.
End CommandTheorems.

Section SupervisorTheorems.
Import Supervisor.
Variable n : nat.

Definition all_ready (s : Sup) : Prop := Forall (fun svc => sent_ready svc = true) (started s).
Definition all_exited (s : Sup) : Prop := Forall (fun svc => is_Some (exited svc)) (started s).
Definition failed_with (e : GoError) (s : Sup) : Prop :=
  Exists (fun svc => exited svc = Some (Some e)) (started s).

(** What [Start] returns. *)
Definition result (s : Sup) : option GoError :=
  if serviceTimedOut s then Some ServiceTimeoutError else group_err s.

Record sup_ok (s : Sup) : Prop := {
  ok_count : (length (started s) <= n)%nat;
  ok_order i svc : (S i < length (started s))%nat -> started s !! i = Some svc -> sent_ready svc = true;
  ok_starting k : phase s = Starting k -> length (started s) = S k /\ ready s = 0%nat /\ serviceTimedOut s = false;
  ok_ready : (ready s <= 1)%nat /\ (ready s = 1%nat -> length (started s) = n /\ all_ready s);
  ok_error : match group_err s with
             | None => Forall (fun svc => exited svc = None \/ exited svc = Some None) (started s)
             | Some e => ctx_done s = true /\ failed_with e s
             end;
  ok_timed_out : serviceTimedOut s = true -> ctx_done s = true;
  ok_stopping : phase s = Stopping -> ctx_done s = true;
  ok_returned r : phase s = Returned r ->
    ctx_done s = true /\ (r = Some SupervisorTimeoutError \/ (all_exited s /\ r = result s));
}.

Lemma insert_same {A B} (f : A -> B) (l : list A) i x y : l !! i = Some x -> f y = f x -> f <$> <[i := y]> l = f <$> l.
Proof. intros Hi Hy. rewrite list_fmap_insert, Hy. apply list_insert_id. by rewrite list_lookup_fmap, Hi. Qed.

Lemma Forall_same {A B} (f : A -> B) (P : B -> Prop) (l l' : list A) :
  f <$> l' = f <$> l -> Forall (fun x => P (f x)) l -> Forall (fun x => P (f x)) l'.
Proof. intros Hl. rewrite <- !(Forall_fmap f P). by rewrite Hl. Qed.

Lemma Exists_same {A B} (f : A -> B) (P : B -> Prop) (l l' : list A) :
  f <$> l' = f <$> l -> Exists (fun x => P (f x)) l -> Exists (fun x => P (f x)) l'.
Proof. intros Hl. rewrite <- !(Exists_fmap f P). by rewrite Hl. Qed.

(** A service that sends its readiness. *)
Lemma service_ready_ok s i s' : sup_ok s -> next n (ServiceReady i) s = Some s' -> sup_ok s'.
Proof.
  intros Hs Hn. cbn in Hn. destruct (started s !! i) as [svc|] eqn:Hi; [|done]. injection Hn as <-.
  pose proof (insert_same exited _ i svc (mkSvc true (exited svc)) Hi eq_refl) as Hex.
  destruct Hs as [Hc Ho Hst Hr He Ht Hsp Hret]. split; cbn; rewrite ?length_insert; try done.
  - intros j svc' Hj Hl. destruct (decide (i = j)) as [<-|Hne].
    + rewrite list_lookup_insert_eq in Hl by (by eapply lookup_lt_Some). by injection Hl as <-.
    + rewrite list_lookup_insert_ne in Hl by done. by eapply Ho.
  - split; [apply Hr|]. intros H1. destruct (proj2 Hr H1) as [Hlen Hall]. split; [done|].
    by apply Forall_insert.
  - destruct (group_err s) as [g|] eqn:Hg; rewrite ?Hg in He;
      [|by apply (Forall_same exited (fun x => x = None \/ x = Some None) (started s))].
    destruct He as [Hd Hf]. split; [done|]. by apply (Exists_same exited (fun x => x = Some (Some g)) (started s)).
  - intros r Hp. destruct (Hret r Hp) as [Hd [Hr'|[Hall Hr']]]; split; auto. right. split; [|done].
    by apply (Forall_same exited is_Some (started s)).
Qed.

(** A service that ends: nothing ends twice. *)
Lemma service_exit_ok s i err s' : sup_ok s -> next n (ServiceExit i err) s = Some s' -> sup_ok s'.
Proof.
  intros Hs Hn. cbn in Hn. destruct (started s !! i) as [svc|] eqn:Hi; [|done]. cbn in Hn.
  destruct (exited svc) eqn:Hx; [done|]. injection Hn as <-.
  pose proof (insert_same sent_ready _ i svc (mkSvc (sent_ready svc) (Some err)) Hi eq_refl) as Hsame.
  destruct Hs as [Hc Ho Hst Hr He Ht Hsp Hret]. split; cbn; rewrite ?length_insert; try done.
  - intros j svc' Hj Hl.
    assert (sent_ready <$> <[i := mkSvc (sent_ready svc) (Some err)]> (started s) !! j = sent_ready <$> started s !! j)
      as Hj' by (rewrite <- !list_lookup_fmap; by rewrite Hsame).
    rewrite Hl in Hj'. destruct (started s !! j) as [svc0|] eqn:Hj0; [|done]. injection Hj' as ->. by eapply Ho.
  - split; [apply Hr|]. intros H1. destruct (proj2 Hr H1) as [Hlen Hall]. split; [done|].
    by apply (Forall_same sent_ready (fun x => x = true) (started s)).
  - destruct (group_err s) as [e|].
    + destruct He as [-> Hf]. split; [done|]. apply Exists_exists in Hf as (svc' & Hin & Hsv).
      apply list_elem_of_lookup in Hin as [j Hj]. apply Exists_exists. exists svc'. split; [|done].
      apply list_elem_of_lookup. exists j. cbn [started]. rewrite list_lookup_insert_ne; [done|]. intros <-. congruence.
    + destruct err as [e|].
      * split; [by rewrite bool_decide_eq_true_2, orb_true_r by eauto|]. apply Exists_exists.
        exists (mkSvc (sent_ready svc) (Some (Some e))). split; [|done]. apply list_elem_of_lookup. exists i. cbn [started]. apply list_lookup_insert_eq.
        by eapply lookup_lt_Some.
      * apply Forall_insert; [done|by right].
  - intros Hto. by rewrite Ht.
  - intros Hp. by rewrite Hsp.
  - intros r Hp. destruct (Hret r Hp) as [-> [Hr'|[Hall Hr']]]; split; auto. exfalso.
    eapply Forall_lookup_1 in Hall; [|done]. rewrite Hx in Hall. by destruct Hall.
Qed.

(** The next service is started when all before it are ready. *)
Lemma continue_ok s :
  sup_ok s -> all_ready s -> ready s = 0%nat -> serviceTimedOut s = false -> sup_ok (continue_ n s).
Proof.
  intros Hs Hall H0 Hto. destruct Hs as [Hc Ho Hst Hr He Ht Hsp Hret]. unfold continue_.
  destruct (Nat.ltb_spec (length (started s)) n) as [Hlt|Hge].
  - split; cbn; rewrite ?length_app; cbn; try done; try lia.
    + intros i svc Hi Hl. rewrite lookup_app_l in Hl by lia. by eapply Forall_lookup_1 in Hall.
    + intros k [= <-]. split; [lia|done].
    + destruct (group_err s); [|by apply Forall_app; split; [|repeat constructor]].
      destruct He as [Hd Hf]. split; [done|]. by apply Exists_app; left.
  - split; cbn; try done.
    + rewrite H0. destruct (ctx_done s); split; try lia. intros _. split; [lia|done].
Qed.

Lemma next_ok s e s' : sup_ok s -> next n e s = Some s' -> sup_ok s'.
Proof.
  intros Hs. destruct e as [i|i err| | | | | | |]; [by apply service_ready_ok|by apply service_exit_ok|..]; cbn.
  - intros [= <-]. destruct Hs as [Hc Ho Hst Hr He Ht Hsp Hret]. split; cbn; try done.
    + destruct (group_err s); [|done]. by split; [|apply He].
    + intros r Hp. split; [done|]. by apply Hret.
  - destruct (phase s) as [k| | |] eqn:Hp; try done. destruct (started s !! k) as [svc|] eqn:Hk; [|done]. cbn.
    destruct (sent_ready svc) eqn:Hsr; [|done]. intros [= <-].
    destruct (ok_starting s Hs k Hp) as (Hlen & H0 & Hto). apply continue_ok; try done.
    apply Forall_lookup_2. intros i svc' Hi.
    destruct (decide (i = k)) as [->|Hne]; [congruence|]. apply lookup_lt_Some in Hi as Hlt.
    eapply (ok_order s Hs i); [lia|done].
  - destruct (phase s) as [k| | |] eqn:Hp; try done. destruct (ctx_done s) eqn:Hd; [|done]. intros [= <-].
    destruct Hs as [Hc Ho Hst Hr He Ht Hsp Hret]. by split; cbn.
  - destruct (phase s) as [k| | |] eqn:Hp; try done. intros [= <-].
    destruct Hs as [Hc Ho Hst Hr He Ht Hsp Hret]. split; cbn; try done.
    destruct (group_err s); [|done]. by split; [|apply He].
  - destruct (phase s) as [k| | |r] eqn:Hp; try done. destruct (ctx_done s) eqn:Hd; [|done]. intros [= <-].
    destruct Hs as [Hc Ho Hst Hr He Ht Hsp Hret]. by split; cbn.
  - destruct (phase s) as [k| | |r] eqn:Hp; try done.
    destruct (forallb _ _) eqn:Hall; [|done]. intros [= <-].
    destruct Hs as [Hc Ho Hst Hr He Ht Hsp Hret]. split; cbn; try done. intros r [= <-]. split; [by apply Hsp|].
    right. split; [|done]. apply Forall_forall. intros svc Hin%list_elem_of_In.
    rewrite forallb_forall in Hall. by apply Hall, bool_decide_eq_true in Hin.
  - destruct (phase s) as [k| | |r] eqn:Hp; try done. intros [= <-].
    destruct Hs as [Hc Ho Hst Hr He Ht Hsp Hret]. split; cbn; try done. intros r [= <-]. split; [by apply Hsp|by left].
Qed.

Lemma init_ok : sup_ok (init n).
Proof.
  apply continue_ok; [|by constructor|done|done]. split; cbn; try done; lia.
Qed.

Lemma reachable_sup_ok s : reachable n s -> sup_ok s.
Proof.
  intros [es Hes]. revert Hes. generalize (init n) init_ok. induction es as [|e es IH]; intros s0 H0; cbn.
  - by intros [= <-].
  - destruct (next n e s0) as [s1|] eqn:Hn; [|done]. apply IH. by eapply next_ok.
Qed.

(** C22. Safety of the supervisor, whatever its services, its timers and its
    caller do. A service is started only after all services before it sent
    their readiness. The supervisor sends its own readiness at most once, and
    only when it has started all its services and all of them are ready. As
    long as its context is not cancelled no service has failed. It returns only
    after its context was cancelled; unless it returns [SupervisorTimeoutError],
    all services that it started have exited, and the error is
    [ServiceTimeoutError] if a service did not get ready in time, and otherwise
    the error of a service that failed, or none if no service did. *)
Theorem supervisor_safe s :
  reachable n s ->
  (forall i j svc, (i < j < length (started s))%nat -> started s !! i = Some svc -> sent_ready svc = true) /\
  (ready s <= 1)%nat /\
  (ready s = 1%nat -> length (started s) = n /\ all_ready s) /\
  (ctx_done s = false -> Forall (fun svc => exited svc = None \/ exited svc = Some None) (started s)) /\
  (forall r, phase s = Returned r -> r <> Some SupervisorTimeoutError ->
     ctx_done s = true /\ all_exited s /\
     ((serviceTimedOut s = true /\ r = Some ServiceTimeoutError) \/
      (serviceTimedOut s = false /\
       match r with
       | Some e => failed_with e s
       | None => Forall (fun svc => exited svc = Some None) (started s)
       end))).
Proof.
  intros Hs%reachable_sup_ok. destruct Hs as [Hc Ho Hst Hr He Ht Hsp Hret]. split_and!.
  - intros i j svc Hij. apply Ho. lia.
  - apply Hr.
  - apply Hr.
  - intros Hd. destruct (group_err s) as [e|]; [|done]. destruct He as [Hd' _]. congruence.
  - intros r Hp Hne. destruct (Hret r Hp) as [Hd [->|[Hall ->]]]; [done|]. split; [done|]. split; [done|].
    unfold result in *. destruct (serviceTimedOut s); [by left|right]. split; [done|].
    destruct (group_err s) as [e|]; [apply He|]. unfold all_exited in Hall. rewrite Forall_forall in *. intros svc Hin.
    destruct (He svc Hin) as [Hn|]; [|done]. apply Hall in Hin. rewrite Hn in Hin. by destruct Hin.
Qed.

(** The moves of the supervisor on the way to its end, timeouts apart. *)
Definition own (e : Event) : Prop :=
  match e with TakeDone | CtxDone | AllExited => True | _ => False end.

Lemma reach_stopping s : ctx_done s = true ->
  exists es s', run n es s = Some s' /\ Forall own es /\ started s' = started s /\ ctx_done s' = true /\
    group_err s' = group_err s /\ serviceTimedOut s' = serviceTimedOut s /\
    match phase s with Returned _ => s' = s | _ => phase s' = Stopping end.
Proof.
  intros Hd. destruct (phase s) as [k| | |r] eqn:Hp.
  - exists [TakeDone; CtxDone]. eexists. cbn. rewrite Hp, Hd. cbn. rewrite Hd. split; [done|]. split; [by repeat constructor|]. by split.
  - exists [CtxDone]. eexists. cbn. rewrite Hp, Hd. split; [done|]. split; [by repeat constructor|]. by split.
  - by exists [], s.
  - by exists [], s.
Qed.

(** The services of [l], numbered from [k], that are still running exit. *)
Fixpoint exit_from (k : nat) (l : list Svc) (err : option GoError) : list Event :=
  match l with
  | [] => []
  | svc :: l => match exited svc with None => [ServiceExit k err] | Some _ => [] end ++ exit_from (S k) l err
  end.

Lemma run_exits s pre l err : started s = pre ++ l ->
  exists s', run n (exit_from (length pre) l err) s = Some s' /\ phase s' = phase s /\
    (ctx_done s = true -> ctx_done s' = true) /\ serviceTimedOut s' = serviceTimedOut s /\
    (group_err s <> None -> group_err s' = group_err s) /\
    exists l', started s' = pre ++ l' /\ length l' = length l /\ Forall (fun svc => is_Some (exited svc)) l'.
Proof.
  revert s pre. induction l as [|svc l IH]; intros s pre Hs.
  - exists s. cbn. repeat (split; [done|]). by exists [].
  - cbn [exit_from]. replace (S (length pre)) with (length (pre ++ [svc])) by (rewrite length_app; cbn; lia).
    destruct (exited svc) as [x|] eqn:Hx.
    + destruct (IH s (pre ++ [svc])) as (s' & Hr & ? & ? & ? & ? & l' & Hl' & Hlen & Hall);
        [by rewrite Hs, <- app_assoc|].
      exists s'. repeat (split; [done|]). exists (svc :: l'). rewrite Hl', <- app_assoc. cbn.
      repeat (split; [by rewrite ?Hlen|]). by constructor; [rewrite Hx|].
    + set (svc' := mkSvc (sent_ready svc) (Some err)).
      assert (next n (ServiceExit (length pre) err) s = Some (mkSup (phase s) (pre ++ svc' :: l)
        (ctx_done s || bool_decide (is_Some err)) (match group_err s with Some e => Some e | None => err end)
        (serviceTimedOut s) (ready s))) as Hn.
      { cbn. rewrite Hs, list_lookup_middle by done. cbn. rewrite Hx. by rewrite insert_app_r_alt, Nat.sub_diag by done. }
      cbn [app run]. rewrite Hn. cbn [mbind option_bind].
      match goal with |- context [run n _ ?s1] => set (s1' := s1) end.
      destruct (IH s1' (pre ++ [svc'])) as (s' & Hr & Hp & Hd & Ht & Hg & l' & Hl' & Hlen & Hall);
        [by cbn; rewrite <- app_assoc|].
      rewrite length_app in Hr |- *. cbn [length] in *. exists s'. split; [exact Hr|]. split; [done|].
      split; [intros Hdd; apply Hd; cbn; by rewrite Hdd|]. split; [done|].
      split; [intros Hgg; rewrite Hg; cbn; by destruct (group_err s)|].
      exists (svc' :: l'). rewrite Hl', <- app_assoc. cbn. repeat (split; [by rewrite ?Hlen|]).
      by constructor; [exists err|].
Qed.

Lemma run_app_sup es es' s : run n (es ++ es') s = (s' ← run n es s; run n es' s').
Proof. revert s. induction es as [|e es IH]; intros s; [done|]. cbn. destruct (next n e s); [apply IH|done]. Qed.

(** C23. The supervisor stops: whenever its context is cancelled, by its caller,
    by a service that failed or by a service that was not ready in time, and
    the services that still run end with any error or none, the supervisor
    reaches its end by moves of its own, without the timeout of the last wait.
    The error it returns is [ServiceTimeoutError] if a service was not ready in
    time, and otherwise the error that stopped the group. *)
Theorem supervisor_stops s err :
  reachable n s -> ctx_done s = true -> (forall r, phase s <> Returned r) ->
  exists es s', run n (exit_from 0 (started s) err ++ es) s = Some s' /\ Forall own es /\
    phase s' = Returned (result s') /\ serviceTimedOut s' = serviceTimedOut s /\
    (group_err s <> None -> group_err s' = group_err s).
Proof.
  intros Hreach Hd Hnr. destruct (run_exits s [] (started s) err eq_refl)
    as (s1 & Hr1 & Hp1 & Hd1 & Ht1 & Hg1 & l' & Hl' & _ & Hall). cbn in Hr1, Hl'.
  destruct (reach_stopping s1 (Hd1 Hd)) as (es & s2 & Hr2 & Hown & Hs2 & Hd2 & Hg2 & Ht2 & Hp2).
  assert (phase s2 = Stopping) as Hp.
  { rewrite Hp1 in Hp2. destruct (phase s) eqn:Hps; [done..|]. by destruct (Hnr err0). }
  exists (es ++ [AllExited]). eexists. rewrite !run_app_sup, Hr1. cbn. rewrite run_app_sup, Hr2. cbn.
  rewrite Hp. replace (forallb _ _) with true; [|symmetry].
  2:{ apply forallb_forall. intros svc Hin%list_elem_of_In. apply bool_decide_eq_true.
      rewrite Hs2, Hl' in Hin. by eapply Forall_forall in Hall. }
  split; [done|]. split; [apply Forall_app; split; [done|by repeat constructor]|]. split; [done|].
  cbn. split; [by rewrite Ht2|]. intros Hg. by rewrite Hg2, Hg1.
Qed.
End SupervisorTheorems.

(** ** Witnesses *)

Module SupervisorWitness.
Import Supervisor.

(** Two services: the second fails after both are ready, the first stops. *)
Definition story : list Event :=
  [ServiceReady 0; TakeReady; ServiceReady 1; TakeReady; ServiceExit 1 (Some (OtherError "crash"))].
Definition failed : Sup := default (init 2) (run 2 story (init 2)).
Definition stopped : Sup :=
  default failed (run 2 [CtxDone; ServiceExit 0 (Some ContextCanceled); AllExited] failed).

Lemma supervisor_safe_witness :
  phase stopped = Returned (Some (OtherError "crash")) /\ ready stopped = 1%nat /\
  failed_with (OtherError "crash") stopped.
Proof.
  split; [reflexivity|]. split; [reflexivity|].
  destruct (supervisor_safe 2 stopped) as (_ & _ & _ & _ & Hret).
  - exists (story ++ [CtxDone; ServiceExit 0 (Some ContextCanceled); AllExited]). reflexivity.
  - destruct (Hret (Some (OtherError "crash")) eq_refl ltac:(discriminate)) as (_ & _ & [[H _]|[_ H]]);
      [discriminate H|exact H].
Defined.

Lemma supervisor_stops_witness :
  exists es s', run 2 (exit_from 0 (started failed) None ++ es) failed = Some s' /\
    phase s' = Returned (result s') /\ group_err s' = Some (OtherError "crash").
Proof.
  destruct (supervisor_stops 2 failed None) as (es & s' & Hr & _ & Hp & _ & Hg).
  - exists story. reflexivity.
  - reflexivity.
  - discriminate.
  - exists es, s'. split; [exact Hr|]. split; [exact Hp|]. apply Hg. discriminate.
Defined.
End SupervisorWitness.
