(* ===== verification/Node.v ===== *)
(** * The node

    The Go program that runs the services (package [internal/node] and
    [cmd/cartesi-rollups-node]): its configuration from the environment
    ([config.go], [generated.go]), the checks of the chain and of the machine
    ([chainid.go], [machinehash.go], [node.go]), the processes with their
    environment and ports ([services.go]) and the HTTP proxy ([handlers.go]).
    The Ethereum client, the file system and the processes are parameters. *)

From S2P Require Import Prelude Codecs Pagination Supervisor.
Import StdText Command.

(** ** [config] *)

Module Config.
Inductive AuthKind :=
| AuthKindPrivateKeyVar | AuthKindPrivateKeyFile | AuthKindMnemonicVar | AuthKindMnemonicFile | AuthKindAWS.

(** [Auth]: the zero value of the interface is [nil]. A [Redacted] value is the
    value. *)
Inductive Auth :=
| AuthNil
| AuthPrivateKey (PrivateKey : string)
| AuthMnemonic (Mnemonic : string) (AccountIndex : Z)
| AuthAWS (KeyID Region : string).

Record NodeConfig := mkNodeConfig {
  LogLevel : Level;
  LogPretty : bool;
  RollupsEpochLength : Z;
  BlockchainID : Z;
  BlockchainHttpEndpoint : string;
  BlockchainWsEndpoint : string;
  BlockchainIsLegacy : bool;
  BlockchainFinalityOffset : Z;
  BlockchainBlockTimeout : Z;
  ContractsApplicationAddress : string;
  ContractsHistoryAddress : string;
  ContractsAuthorityAddress : string;
  ContractsInputBoxAddress : string;
  ContractsInputBoxDeploymentBlockNumber : Z;
  SnapshotDir : string;
  PostgresEndpoint : string;
  HttpAddress : string;
  HttpPort : Z;
  FeatureHostMode : bool;
  FeatureDisableClaimer : bool;
  FeatureDisableMachineHashCheck : bool;
  ExperimentalServerManagerBypassLog : bool;
  ExperimentalSunodoValidatorEnabled : bool;
  ExperimentalSunodoValidatorRedisEndpoint : string;
  Auth_ : Auth;
}.

(** Parsing; the errors are only put into messages. *)
Definition parse_error {A} (o : outcome ParseIntError A) : outcome string A :=
  map_err (fun _ => "invalid syntax") o.

(** [strconv.ParseInt(s, 10, 64)] and [strconv.Atoi] accept a sign;
    [strconv.ParseUint(s, 10, 64)] does not. *)
Definition toInt64 (s : string) : outcome string Z := parse_error (parse_i64 s).
Definition toInt (s : string) : outcome string Z := parse_error (parse_i64 s).
Fixpoint parse_udigits (acc : Z) (s : string) : outcome string Z :=
  match s with
  | EmptyString => Ok acc
  | String c s =>
      x ← ok_or (to_digit c) "invalid syntax";
      ensure (acc * 10 + x <? 2 ^ 64) "value out of range" ;;
      parse_udigits (acc * 10 + x) s
  end.
Definition toUint64 (s : string) : outcome string Z :=
  match s with EmptyString => Err "invalid syntax" | _ => parse_udigits 0 s end.
Definition toString (s : string) : outcome string string := Ok s.
(** [strconv.ParseBool] *)
Definition toBool (s : string) : outcome string bool :=
  if existsb (String.eqb s) ["1"; "t"; "T"; "TRUE"; "true"; "True"] then Ok true
  else if existsb (String.eqb s) ["0"; "f"; "F"; "FALSE"; "false"; "False"] then Ok false
  else Err "invalid syntax".
Definition toLogLevel (s : string) : outcome string Level :=
  if String.eqb s "debug" then Ok LevelDebug
  else if String.eqb s "info" then Ok LevelInfo
  else if String.eqb s "warn" then Ok LevelWarn
  else if String.eqb s "error" then Ok LevelError
  else Err ("invalid log level '" +:+ s +:+ "'").
Definition toAuthKind (s : string) : outcome string AuthKind :=
  if String.eqb s "private_key" then Ok AuthKindPrivateKeyVar
  else if String.eqb s "private_key_file" then Ok AuthKindPrivateKeyFile
  else if String.eqb s "mnemonic" then Ok AuthKindMnemonicVar
  else if String.eqb s "mnemonic_file" then Ok AuthKindMnemonicFile
  else if String.eqb s "aws" then Ok AuthKindAWS
  else Err ("invalid auth kind '" +:+ s +:+ "'").

Section FromEnv.
(** [os.LookupEnv] and [os.ReadFile] *)
Variable LookupEnv : string -> option string.
Variable ReadFile : string -> outcome string string.

(** The body of the getters: a variable without default has to be set. *)
Definition getter {A} (key : string) (default_ : option string) (to : string -> outcome string A)
    : outcome string A :=
  s ← unwrap (match LookupEnv key with Some s => Some s | None => default_ end);
  expect (to s).

Definition getAuthAwsKmsKeyId : outcome string string := getter "CARTESI_AUTH_AWS_KMS_KEY_ID" None toString.
Definition getAuthAwsKmsRegion : outcome string string := getter "CARTESI_AUTH_AWS_KMS_REGION" None toString.
Definition getAuthKind : outcome string AuthKind := getter "CARTESI_AUTH_KIND" (Some "mnemonic") toAuthKind.
Definition getAuthMnemonic : outcome string string := getter "CARTESI_AUTH_MNEMONIC" None toString.
Definition getAuthMnemonicAccountIndex : outcome string Z := getter "CARTESI_AUTH_MNEMONIC_ACCOUNT_INDEX" (Some "0") toInt.
Definition getAuthMnemonicFile : outcome string string := getter "CARTESI_AUTH_MNEMONIC_FILE" None toString.
Definition getAuthPrivateKey : outcome string string := getter "CARTESI_AUTH_PRIVATE_KEY" None toString.
Definition getAuthPrivateKeyFile : outcome string string := getter "CARTESI_AUTH_PRIVATE_KEY_FILE" None toString.
Definition getBlockchainBlockTimeout : outcome string Z := getter "CARTESI_BLOCKCHAIN_BLOCK_TIMEOUT" (Some "60") toInt.
Definition getBlockchainFinalityOffset : outcome string Z := getter "CARTESI_BLOCKCHAIN_FINALITY_OFFSET" (Some "10") toInt.
Definition getBlockchainHttpEndpoint : outcome string string := getter "CARTESI_BLOCKCHAIN_HTTP_ENDPOINT" None toString.
Definition getBlockchainId : outcome string Z := getter "CARTESI_BLOCKCHAIN_ID" None toUint64.
Definition getBlockchainIsLegacy : outcome string bool := getter "CARTESI_BLOCKCHAIN_IS_LEGACY" (Some "false") toBool.
Definition getBlockchainWsEndpoint : outcome string string := getter "CARTESI_BLOCKCHAIN_WS_ENDPOINT" None toString.
Definition getContractsApplicationAddress : outcome string string := getter "CARTESI_CONTRACTS_APPLICATION_ADDRESS" None toString.
Definition getContractsAuthorityAddress : outcome string string := getter "CARTESI_CONTRACTS_AUTHORITY_ADDRESS" None toString.
Definition getContractsHistoryAddress : outcome string string := getter "CARTESI_CONTRACTS_HISTORY_ADDRESS" None toString.
Definition getContractsInputBoxAddress : outcome string string := getter "CARTESI_CONTRACTS_INPUT_BOX_ADDRESS" None toString.
Definition getContractsInputBoxDeploymentBlockNumber : outcome string Z := getter "CARTESI_CONTRACTS_INPUT_BOX_DEPLOYMENT_BLOCK_NUMBER" None toInt64.
Definition getExperimentalServerManagerBypassLog : outcome string bool := getter "CARTESI_EXPERIMENTAL_SERVER_MANAGER_BYPASS_LOG" (Some "false") toBool.
Definition getExperimentalSunodoValidatorEnabled : outcome string bool := getter "CARTESI_EXPERIMENTAL_SUNODO_VALIDATOR_ENABLED" (Some "false") toBool.
Definition getExperimentalSunodoValidatorRedisEndpoint : outcome string string := getter "CARTESI_EXPERIMENTAL_SUNODO_VALIDATOR_REDIS_ENDPOINT" None toString.
Definition getFeatureDisableClaimer : outcome string bool := getter "CARTESI_FEATURE_DISABLE_CLAIMER" (Some "false") toBool.
Definition getFeatureDisableMachineHashCheck : outcome string bool := getter "CARTESI_FEATURE_DISABLE_MACHINE_HASH_CHECK" (Some "false") toBool.
Definition getFeatureHostMode : outcome string bool := getter "CARTESI_FEATURE_HOST_MODE" (Some "false") toBool.
Definition getHttpAddress : outcome string string := getter "CARTESI_HTTP_ADDRESS" (Some "127.0.0.1") toString.
Definition getHttpPort : outcome string Z := getter "CARTESI_HTTP_PORT" (Some "10000") toInt.
Definition getLogLevel : outcome string Level := getter "CARTESI_LOG_LEVEL" (Some "info") toLogLevel.
Definition getLogPretty : outcome string bool := getter "CARTESI_LOG_PRETTY" (Some "false") toBool.
Definition getPostgresEndpoint : outcome string string := getter "CARTESI_POSTGRES_ENDPOINT" (Some "") toString.
Definition getEpochLength : outcome string Z := getter "CARTESI_EPOCH_LENGTH" (Some "7200") toUint64.
Definition getSnapshotDir : outcome string string := getter "CARTESI_SNAPSHOT_DIR" None toString.

Definition authFromEnv : outcome string Auth :=
  kind ← getAuthKind;
  match kind with
  | AuthKindPrivateKeyVar => key ← getAuthPrivateKey; Ok (AuthPrivateKey key)
  | AuthKindPrivateKeyFile =>
      path ← getAuthPrivateKeyFile; privateKey ← expect (ReadFile path); Ok (AuthPrivateKey privateKey)
  | AuthKindMnemonicVar =>
      mnemonic ← getAuthMnemonic; index ← getAuthMnemonicAccountIndex; Ok (AuthMnemonic mnemonic index)
  | AuthKindMnemonicFile =>
      path ← getAuthMnemonicFile; mnemonic ← expect (ReadFile path);
      index ← getAuthMnemonicAccountIndex; Ok (AuthMnemonic mnemonic index)
  | AuthKindAWS => key ← getAuthAwsKmsKeyId; region ← getAuthAwsKmsRegion; Ok (AuthAWS key region)
  end.

Definition FromEnv : outcome string NodeConfig :=
  LogLevel ← getLogLevel;
  LogPretty ← getLogPretty;
  RollupsEpochLength ← getEpochLength;
  BlockchainID ← getBlockchainId;
  BlockchainHttpEndpoint ← getBlockchainHttpEndpoint;
  BlockchainWsEndpoint ← getBlockchainWsEndpoint;
  BlockchainIsLegacy ← getBlockchainIsLegacy;
  BlockchainFinalityOffset ← getBlockchainFinalityOffset;
  BlockchainBlockTimeout ← getBlockchainBlockTimeout;
  ContractsApplicationAddress ← getContractsApplicationAddress;
  ContractsHistoryAddress ← getContractsHistoryAddress;
  ContractsAuthorityAddress ← getContractsAuthorityAddress;
  ContractsInputBoxAddress ← getContractsInputBoxAddress;
  ContractsInputBoxDeploymentBlockNumber ← getContractsInputBoxDeploymentBlockNumber;
  host ← getFeatureHostMode;
  SnapshotDir ← (if negb host then getSnapshotDir else Ok "");
  PostgresEndpoint ← getPostgresEndpoint;
  HttpAddress ← getHttpAddress;
  HttpPort ← getHttpPort;
  FeatureDisableClaimer ← getFeatureDisableClaimer;
  FeatureDisableMachineHashCheck ← getFeatureDisableMachineHashCheck;
  ExperimentalServerManagerBypassLog ← getExperimentalServerManagerBypassLog;
  ExperimentalSunodoValidatorEnabled ← getExperimentalSunodoValidatorEnabled;
  ExperimentalSunodoValidatorRedisEndpoint ←
    (if ExperimentalSunodoValidatorEnabled : bool then getExperimentalSunodoValidatorRedisEndpoint else Ok "");
  auth ← (if negb FeatureDisableClaimer && negb ExperimentalSunodoValidatorEnabled then authFromEnv
          else Ok AuthNil);
  Ok (mkNodeConfig LogLevel LogPretty RollupsEpochLength BlockchainID BlockchainHttpEndpoint
        BlockchainWsEndpoint BlockchainIsLegacy BlockchainFinalityOffset BlockchainBlockTimeout
        ContractsApplicationAddress ContractsHistoryAddress ContractsAuthorityAddress
        ContractsInputBoxAddress ContractsInputBoxDeploymentBlockNumber SnapshotDir PostgresEndpoint
        HttpAddress HttpPort host FeatureDisableClaimer FeatureDisableMachineHashCheck
        ExperimentalServerManagerBypassLog ExperimentalSunodoValidatorEnabled
        ExperimentalSunodoValidatorRedisEndpoint auth).
End FromEnv.
End Config.

(** ** [chainid.go], [machinehash.go] *)

Module Checks.
Definition HashLength : nat := 32.

Section Checks.
Context `{HexCrate}.
(** The chain id that the Ethereum node reports, the template hash of the
    application contract, and the files: [ReadFile dir name] is
    [os.ReadFile(path.Join(dir, name))], so that the file is in the working
    directory when [dir] is empty. *)
Variable getChainId : string -> outcome string Z.
Variable GetTemplateHash : string -> string -> outcome string (list byte).
Variable ReadFile : string -> string -> outcome string (list byte).

Definition validateChainId (chainId : Z) (ethereumNodeAddr : string) : outcome string unit :=
  remoteChainId ← getChainId ethereumNodeAddr;
  ensure (chainId =? remoteChainId)
    ("chainId mismatch; expected " +:+ pretty chainId +:+ " but Ethereum node returned " +:+ pretty remoteChainId).

Definition readHash (machineDir : string) : outcome string string :=
  hash ← map_err (fun e => "read hash: " +:+ e) (ReadFile machineDir "hash");
  ensure (Nat.eqb (length hash) HashLength)
    ("read hash: wrong size; expected " +:+ pretty HashLength +:+ " bytes but read " +:+ pretty (length hash)) ;;
  Ok (hex_encode hash).

Definition getTemplateHash (applicationAddress ethereumNodeAddr : string) : outcome string string :=
  hash ← map_err (fun e => "get template hash: " +:+ e) (GetTemplateHash applicationAddress ethereumNodeAddr);
  Ok (hex_encode hash).

Definition validateMachineHash (machineDir applicationAddress ethereumNodeAddr : string) : outcome string unit :=
  offchainHash ← readHash machineDir;
  onchainHash ← getTemplateHash applicationAddress ethereumNodeAddr;
  ensure (String.eqb offchainHash onchainHash)
    ("validate machine hash: hash mismatch; expected " +:+ onchainHash +:+ " but got " +:+ offchainHash).
End Checks.
End Checks.

(** ** [services.go] *)

(** The fields of [CommandService] and [ServerManager] *)
Record CommandService := mkCommandService {
  Name : string;
  HealthcheckPort : Z;
  Path : string;
  Args : list string;
  Env : list string;
  WorkDir : string;
  BypassLog : bool;
}.

Module Services.
Import Config.

Definition portOffsetProxy : Z := 0.
Definition portOffsetAdvanceRunner : Z := 1.
Definition portOffsetAuthorityClaimer : Z := 2.
Definition portOffsetDispatcher : Z := 3.
Definition portOffsetGraphQLServer : Z := 4.
Definition portOffsetGraphQLHealthcheck : Z := 5.
Definition portOffsetHostRunnerHealthcheck : Z := 6.
Definition portOffsetHostRunnerRollups : Z := 7.
Definition portOffsetIndexer : Z := 8.
Definition portOffsetInspectServer : Z := 9.
Definition portOffsetInspectHealthcheck : Z := 10.
Definition portOffsetRedis : Z := 11.
Definition portOffsetServerManager : Z := 12.
Definition portOffsetStateServer : Z := 13.

Definition localhost : string := "127.0.0.1".
Definition serverManagerSessionId : string := "default_session_id".

(** [%v] of a boolean *)
Definition show_bool (b : bool) : string := if b then "true" else "false".

Section Services.
(** [os.Environ()] *)
Variable Environ : list string.
Variable c : NodeConfig.
Variable workDir : string.

Definition getPort (offset : Z) : Z := HttpPort c + offset.
(** [host:port] *)
Definition at_port (host : string) (offset : Z) : string := host +:+ ":" +:+ pretty (getPort offset).

Definition getRedisEndpoint : string :=
  if ExperimentalSunodoValidatorEnabled c then ExperimentalSunodoValidatorRedisEndpoint c
  else "redis://" +:+ at_port localhost portOffsetRedis.

(** A [LogLevel] of the configuration is one of the four. *)
Definition getRustLog (rustModule : string) : string :=
  match LogLevel c with
  | LevelDebug => "RUST_LOG=info," +:+ rustModule +:+ "=trace"
  | LevelInfo => "RUST_LOG=info"
  | LevelWarn => "RUST_LOG=warn"
  | LevelError => "RUST_LOG=error"
  end.

Definition rust_log (rustModule : string) : list string :=
  ["LOG_ENABLE_TIMESTAMP=false"; "LOG_ENABLE_COLOR=false"; getRustLog rustModule].

Definition newAdvanceRunner : CommandService :=
  mkCommandService "advance-runner" (getPort portOffsetAdvanceRunner) "cartesi-rollups-advance-runner" []
    (rust_log "advance_runner" ++
     ["SERVER_MANAGER_ENDPOINT=" +:+ "http://" +:+ at_port localhost portOffsetServerManager;
      "SESSION_ID=" +:+ serverManagerSessionId;
      "REDIS_ENDPOINT=" +:+ getRedisEndpoint;
      "CHAIN_ID=" +:+ pretty (BlockchainID c);
      "DAPP_CONTRACT_ADDRESS=" +:+ ContractsApplicationAddress c;
      "PROVIDER_HTTP_ENDPOINT=" +:+ BlockchainHttpEndpoint c;
      "ADVANCE_RUNNER_HEALTHCHECK_PORT=" +:+ pretty (getPort portOffsetAdvanceRunner);
      "READER_MODE=" +:+ show_bool (FeatureDisableClaimer c)] ++
     (if FeatureHostMode c || FeatureDisableMachineHashCheck c then ["SNAPSHOT_VALIDATION_ENABLED=" +:+ "false"] else []) ++
     (if negb (FeatureHostMode c) then ["MACHINE_SNAPSHOT_PATH=" +:+ SnapshotDir c] else []) ++
     Environ) workDir false.

Definition auth_env : outcome string (list string) :=
  match Auth_ c with
  | AuthPrivateKey PrivateKey => Ok ["TX_SIGNING_PRIVATE_KEY=" +:+ PrivateKey]
  | AuthMnemonic Mnemonic AccountIndex =>
      Ok ["TX_SIGNING_MNEMONIC=" +:+ Mnemonic; "TX_SIGNING_MNEMONIC_ACCOUNT_INDEX=" +:+ pretty AccountIndex]
  | AuthAWS KeyID Region =>
      Ok ["TX_SIGNING_AWS_KMS_KEY_ID=" +:+ KeyID; "TX_SIGNING_AWS_KMS_REGION=" +:+ Region]
  | AuthNil => Panic
  end.

Definition newAuthorityClaimer : outcome string CommandService :=
  auth ← auth_env;
  Ok (mkCommandService "authority-claimer" (getPort portOffsetAuthorityClaimer)
    "cartesi-rollups-authority-claimer" []
    (rust_log "authority_claimer" ++
     ["TX_PROVIDER_HTTP_ENDPOINT=" +:+ BlockchainHttpEndpoint c;
      "TX_CHAIN_ID=" +:+ pretty (BlockchainID c);
      "TX_CHAIN_IS_LEGACY=" +:+ show_bool (BlockchainIsLegacy c);
      "TX_DEFAULT_CONFIRMATIONS=" +:+ pretty (BlockchainFinalityOffset c);
      "REDIS_ENDPOINT=" +:+ getRedisEndpoint;
      "HISTORY_ADDRESS=" +:+ ContractsHistoryAddress c;
      "AUTHORITY_ADDRESS=" +:+ ContractsAuthorityAddress c;
      "INPUT_BOX_ADDRESS=" +:+ ContractsInputBoxAddress c;
      "GENESIS_BLOCK=" +:+ pretty (ContractsInputBoxDeploymentBlockNumber c);
      "AUTHORITY_CLAIMER_HTTP_SERVER_PORT=" +:+ pretty (getPort portOffsetAuthorityClaimer)] ++
     auth ++ Environ) workDir false).

Definition newDispatcher : CommandService :=
  mkCommandService "dispatcher" (getPort portOffsetDispatcher) "cartesi-rollups-dispatcher" []
    (rust_log "dispatcher" ++
     ["SC_GRPC_ENDPOINT=" +:+ "http://" +:+ at_port localhost portOffsetStateServer;
      "SC_DEFAULT_CONFIRMATIONS=" +:+ pretty (BlockchainFinalityOffset c);
      "REDIS_ENDPOINT=" +:+ getRedisEndpoint;
      "DAPP_ADDRESS=" +:+ ContractsApplicationAddress c;
      "INPUT_BOX_DEPLOYMENT_BLOCK_NUMBER=" +:+ pretty (ContractsInputBoxDeploymentBlockNumber c);
      "HISTORY_ADDRESS=" +:+ ContractsHistoryAddress c;
      "AUTHORITY_ADDRESS=" +:+ ContractsAuthorityAddress c;
      "INPUT_BOX_ADDRESS=" +:+ ContractsInputBoxAddress c;
      "RD_EPOCH_LENGTH=" +:+ pretty (RollupsEpochLength c);
      "CHAIN_ID=" +:+ pretty (BlockchainID c);
      "DISPATCHER_HTTP_SERVER_PORT=" +:+ pretty (getPort portOffsetDispatcher)] ++
     Environ) workDir false.

Definition newGraphQLServer : CommandService :=
  mkCommandService "graphql-server" (getPort portOffsetGraphQLHealthcheck) "cartesi-rollups-graphql-server" []
    (rust_log "graphql_server" ++
     ["POSTGRES_ENDPOINT=" +:+ PostgresEndpoint c;
      "GRAPHQL_HOST=" +:+ localhost;
      "GRAPHQL_PORT=" +:+ pretty (getPort portOffsetGraphQLServer);
      "GRAPHQL_HEALTHCHECK_PORT=" +:+ pretty (getPort portOffsetGraphQLHealthcheck)] ++
     Environ) workDir false.

Definition newHostRunner : CommandService :=
  mkCommandService "host-runner" (getPort portOffsetHostRunnerHealthcheck) "cartesi-rollups-host-runner" []
    (rust_log "host_runner" ++
     ["GRPC_SERVER_MANAGER_ADDRESS=" +:+ localhost;
      "GRPC_SERVER_MANAGER_PORT=" +:+ pretty (getPort portOffsetServerManager);
      "HTTP_ROLLUP_SERVER_ADDRESS=" +:+ localhost;
      "HTTP_ROLLUP_SERVER_PORT=" +:+ pretty (getPort portOffsetHostRunnerRollups);
      "HOST_RUNNER_HEALTHCHECK_PORT=" +:+ pretty (getPort portOffsetHostRunnerHealthcheck)] ++
     Environ) workDir false.

Definition newIndexer : CommandService :=
  mkCommandService "indexer" (getPort portOffsetIndexer) "cartesi-rollups-indexer" []
    (rust_log "indexer" ++
     ["POSTGRES_ENDPOINT=" +:+ PostgresEndpoint c;
      "CHAIN_ID=" +:+ pretty (BlockchainID c);
      "DAPP_CONTRACT_ADDRESS=" +:+ ContractsApplicationAddress c;
      "REDIS_ENDPOINT=" +:+ getRedisEndpoint;
      "INDEXER_HEALTHCHECK_PORT=" +:+ pretty (getPort portOffsetIndexer)] ++
     Environ) workDir false.

Definition newInspectServer : CommandService :=
  mkCommandService "inspect-server" (getPort portOffsetInspectHealthcheck) "cartesi-rollups-inspect-server" []
    (rust_log "inspect_server" ++
     ["INSPECT_SERVER_ADDRESS=" +:+ at_port localhost portOffsetInspectServer;
      "SERVER_MANAGER_ADDRESS=" +:+ at_port localhost portOffsetServerManager;
      "SESSION_ID=" +:+ serverManagerSessionId;
      "INSPECT_SERVER_HEALTHCHECK_PORT=" +:+ pretty (getPort portOffsetInspectHealthcheck)] ++
     Environ) workDir false.

Definition newRedis : CommandService :=
  mkCommandService "redis" (getPort portOffsetRedis) "redis-server"
    ["--port"; pretty (getPort portOffsetRedis); "--save"; ""; "--appendonly"; "no"] Environ workDir false.

Definition newServerManager : CommandService :=
  mkCommandService "server-manager" (getPort portOffsetServerManager) "server-manager"
    ["--manager-address=" +:+ at_port localhost portOffsetServerManager]
    (["REMOTE_CARTESI_MACHINE_LOG_LEVEL=info";
      match LogLevel c with
      | LevelDebug => "SERVER_MANAGER_LOG_LEVEL=info"
      | _ => "SERVER_MANAGER_LOG_LEVEL=warning"
      end] ++ Environ) workDir (ExperimentalServerManagerBypassLog c).

Definition newStateServer : CommandService :=
  mkCommandService "state-server" (getPort portOffsetStateServer) "cartesi-rollups-state-server" []
    (rust_log "state_server" ++
     ["SF_CONCURRENT_EVENTS_FETCH=1";
      "SF_GENESIS_BLOCK=" +:+ pretty (ContractsInputBoxDeploymentBlockNumber c);
      "SF_SAFETY_MARGIN=" +:+ pretty (BlockchainFinalityOffset c);
      "BH_WS_ENDPOINT=" +:+ BlockchainWsEndpoint c;
      "BH_HTTP_ENDPOINT=" +:+ BlockchainHttpEndpoint c;
      "BLOCKCHAIN_BLOCK_TIMEOUT=" +:+ pretty (BlockchainBlockTimeout c);
      "SS_SERVER_ADDRESS=" +:+ at_port localhost portOffsetStateServer] ++
     Environ) workDir false.

(** A service of the supervisor: a process, or the HTTP proxy with its address. *)
Inductive Service :=
| Process (s : CommandService)
| HttpProxy (Address : string).

Definition service_name (s : Service) : string :=
  match s with Process s => Name s | HttpProxy _ => "http" end.

Definition newHttpService : Service := HttpProxy (at_port (HttpAddress c) portOffsetProxy).

Definition newSupervisorService : outcome string (list Service) :=
  claimer ← (if negb (FeatureDisableClaimer c) && negb (ExperimentalSunodoValidatorEnabled c)
             then s ← newAuthorityClaimer; Ok [Process s] else Ok []);
  Ok ((if negb (ExperimentalSunodoValidatorEnabled c) then [Process newRedis] else []) ++
      [Process newGraphQLServer; Process newIndexer; Process newStateServer] ++
      [Process (if FeatureHostMode c then newHostRunner else newServerManager)] ++
      claimer ++
      [Process newAdvanceRunner; Process newDispatcher; Process newInspectServer] ++
      [newHttpService]).
End Services.
End Services.

(** ** [node.go] *)

Section Setup.
Context `{HexCrate}.
Variable getChainId : string -> outcome string Z.
Variable GetTemplateHash : string -> string -> outcome string (list byte).
Variable ReadFile : string -> string -> outcome string (list byte).
Variable Environ : list string.
Import Config.

Definition Setup (c : NodeConfig) (workDir : string) : outcome string (list Services.Service) :=
  Checks.validateChainId getChainId (BlockchainID c) (BlockchainHttpEndpoint c) ;;
  (if negb (FeatureDisableMachineHashCheck c)
   then Checks.validateMachineHash GetTemplateHash ReadFile (SnapshotDir c) (ContractsApplicationAddress c)
          (BlockchainHttpEndpoint c)
   else Ok tt) ;;
  Services.newSupervisorService Environ c workDir.
End Setup.

(** ** [handlers.go] *)

Module Handlers.
Import Config Services.

(** What the mux does with a path. *)
Inductive Route :=
| Healthcheck
| ReverseProxy (url path : string)
| MovedPermanently (path : string)
| NotFound.

Definition newReverseProxy (address : string) (port : Z) (path : string) : Route :=
  ReverseProxy ("http://" +:+ address +:+ ":" +:+ pretty port +:+ "/") path.

(** The patterns that end with a slash match a subtree, the others one path; the
    root of a subtree without its slash is redirected. *)
Definition newHttpServiceHandler (c : NodeConfig) (path : string) : Route :=
  if String.eqb path "/healthz" then Healthcheck
  else if String.eqb path "/graphql" then newReverseProxy (HttpAddress c) (getPort c portOffsetGraphQLServer) path
  else if String.eqb path "/metrics" then newReverseProxy (HttpAddress c) (getPort c portOffsetDispatcher) path
  else if String.eqb path "/inspect" || starts_with "/inspect/" path
       then newReverseProxy (HttpAddress c) (getPort c portOffsetInspectServer) path
  else if FeatureHostMode c && starts_with "/rollup/" path
       then newReverseProxy (HttpAddress c) (getPort c portOffsetHostRunnerRollups) (string_drop 7 path)
  else if FeatureHostMode c && String.eqb path "/rollup" then MovedPermanently "/rollup/"
  else NotFound.
End Handlers.

(** ** The environment of a process

    [exec.Cmd] uses the last value of a variable. *)
Definition env_value (key entry : string) : option string :=
  if starts_with (key +:+ "=") entry then Some (string_drop (String.length key + 1) entry) else None.
Definition env_get (key : string) (env : list string) : option string := last (omap (env_value key) env).

Lemma env_get_app key l l' :
  env_get key (l ++ l') = match env_get key l' with Some v => Some v | None => env_get key l end.
Proof. unfold env_get. rewrite omap_app, last_app. by destruct (last (omap _ l')). Qed.

Lemma string_app_cons x (a b : string) : String x a +:+ b = String x (a +:+ b).
Proof. done. Qed.
Lemma string_app_length (a b : string) : String.length (a +:+ b) = (String.length a + String.length b)%nat.
Proof. induction a as [|x a IH]; [done|]. rewrite string_app_cons. cbn. by rewrite IH. Qed.

Lemma append_cancel_r (a b s : string) : a +:+ s = b +:+ s -> a = b.
Proof.
  revert b. induction a as [|x a IH]; intros [|y b] H; [done| | |].
  - apply (f_equal String.length) in H. rewrite !string_app_length in H. cbn in H. lia.
  - apply (f_equal String.length) in H. rewrite !string_app_length in H. cbn in H. lia.
  - injection H as -> H. f_equal. by apply IH.
Qed.

(** Two URLs with one port are the same if their hosts are. *)
Lemma proxy_url address host port path :
  Handlers.newReverseProxy address port path =
    Handlers.ReverseProxy ("http://" +:+ host +:+ ":" +:+ pretty port +:+ "/") path <-> address = host.
Proof.
  split; [|by intros ->]. unfold Handlers.newReverseProxy. intros [= H]. exact (append_cancel_r address host _ H).
Qed.

Section NodeTheorems.
Import Config Services.
Variables (Environ : list string) (c : NodeConfig) (workDir : string).

Abbreviation AdvanceRunner := (newAdvanceRunner Environ c workDir).
Abbreviation Dispatcher := (newDispatcher Environ c workDir).
Abbreviation GraphQLServer := (newGraphQLServer Environ c workDir).
Abbreviation HostRunner := (newHostRunner Environ c workDir).
Abbreviation Indexer := (newIndexer Environ c workDir).
Abbreviation InspectServer := (newInspectServer Environ c workDir).
Abbreviation StateServer := (newStateServer Environ c workDir).

(** The variables that tie the services together, and that the user's
    environment should not set. *)
Definition wiring : list string :=
  ["SERVER_MANAGER_ENDPOINT"; "SERVER_MANAGER_ADDRESS"; "SESSION_ID"; "REDIS_ENDPOINT"; "CHAIN_ID"; "TX_CHAIN_ID";
   "DAPP_CONTRACT_ADDRESS"; "DAPP_ADDRESS"; "POSTGRES_ENDPOINT"; "SC_GRPC_ENDPOINT"; "SS_SERVER_ADDRESS";
   "GRPC_SERVER_MANAGER_ADDRESS"; "GRPC_SERVER_MANAGER_PORT"; "GRAPHQL_HOST"; "GRAPHQL_PORT";
   "INSPECT_SERVER_ADDRESS"; "HTTP_ROLLUP_SERVER_ADDRESS"; "HTTP_ROLLUP_SERVER_PORT"; "DISPATCHER_HTTP_SERVER_PORT"].

Hypothesis unset : forall k, k ∈ wiring -> env_get k Environ = None.

Lemma env_unset key : existsb (String.eqb key) wiring = true -> env_get key Environ = None.
Proof. intros (k & Hk & ->%String.eqb_eq)%existsb_exists. apply unset. by apply list_elem_of_In. Qed.

(** A lookup in a list of variables that ends with the user's environment. *)
Ltac wire := cbn [Env]; rewrite !env_get_app, env_unset by reflexivity; unfold rust_log, getRustLog;
  destruct (LogLevel c); reflexivity.

Definition gives (s : CommandService) (key value : string) : Prop := env_get key (Env s) = Some value.

Lemma wire_inspect :
  gives InspectServer "SERVER_MANAGER_ADDRESS" (at_port c localhost portOffsetServerManager) /\
  gives InspectServer "SESSION_ID" serverManagerSessionId /\
  gives InspectServer "INSPECT_SERVER_ADDRESS" (at_port c localhost portOffsetInspectServer).
Proof. unfold gives, newInspectServer. split_and!; wire. Qed.

Lemma wire_advance_runner :
  gives AdvanceRunner "SERVER_MANAGER_ENDPOINT" ("http://" +:+ at_port c localhost portOffsetServerManager) /\
  gives AdvanceRunner "SESSION_ID" serverManagerSessionId /\
  gives AdvanceRunner "REDIS_ENDPOINT" (getRedisEndpoint c) /\
  gives AdvanceRunner "CHAIN_ID" (pretty (BlockchainID c)) /\
  gives AdvanceRunner "DAPP_CONTRACT_ADDRESS" (ContractsApplicationAddress c).
Proof.
  unfold gives, newAdvanceRunner. cbn [Env].
  destruct (FeatureHostMode c), (FeatureDisableMachineHashCheck c); cbn [orb negb]; split_and!; wire.
Qed.

Lemma wire_dispatcher :
  gives Dispatcher "SC_GRPC_ENDPOINT" ("http://" +:+ at_port c localhost portOffsetStateServer) /\
  gives Dispatcher "REDIS_ENDPOINT" (getRedisEndpoint c) /\
  gives Dispatcher "CHAIN_ID" (pretty (BlockchainID c)) /\
  gives Dispatcher "DAPP_ADDRESS" (ContractsApplicationAddress c).
Proof. unfold gives, newDispatcher. split_and!; wire. Qed.

Lemma wire_indexer :
  gives Indexer "REDIS_ENDPOINT" (getRedisEndpoint c) /\
  gives Indexer "CHAIN_ID" (pretty (BlockchainID c)) /\
  gives Indexer "DAPP_CONTRACT_ADDRESS" (ContractsApplicationAddress c) /\
  gives Indexer "POSTGRES_ENDPOINT" (PostgresEndpoint c).
Proof. unfold gives, newIndexer. split_and!; wire. Qed.

Lemma wire_graphql :
  gives GraphQLServer "POSTGRES_ENDPOINT" (PostgresEndpoint c) /\
  gives GraphQLServer "GRAPHQL_HOST" localhost /\
  gives GraphQLServer "GRAPHQL_PORT" (pretty (getPort c portOffsetGraphQLServer)).
Proof. unfold gives, newGraphQLServer. split_and!; wire. Qed.

Lemma wire_host_runner :
  gives HostRunner "GRPC_SERVER_MANAGER_ADDRESS" localhost /\
  gives HostRunner "GRPC_SERVER_MANAGER_PORT" (pretty (getPort c portOffsetServerManager)) /\
  gives HostRunner "HTTP_ROLLUP_SERVER_ADDRESS" localhost /\
  gives HostRunner "HTTP_ROLLUP_SERVER_PORT" (pretty (getPort c portOffsetHostRunnerRollups)).
Proof. unfold gives, newHostRunner. split_and!; wire. Qed.

Lemma wire_state_server : gives StateServer "SS_SERVER_ADDRESS" (at_port c localhost portOffsetStateServer).
Proof. unfold gives, newStateServer. wire. Qed.

Lemma wire_claimer cl : newAuthorityClaimer Environ c workDir = Ok cl ->
  gives cl "REDIS_ENDPOINT" (getRedisEndpoint c) /\ gives cl "TX_CHAIN_ID" (pretty (BlockchainID c)).
Proof.
  unfold newAuthorityClaimer. destruct (auth_env c) as [auth| |] eqn:Ha; cbn [mbind outcome_bind]; [|done..].
  intros Hcl%(f_equal (fun o => match o with Ok s => Env s | _ => [] end)). cbn beta iota zeta delta [Env] in Hcl.
  unfold gives. rewrite <- Hcl. unfold auth_env in Ha.
  destruct (Auth_ c) as [|key|mnemonic index|key region]; [done|injection Ha as <-; split; wire..].
Qed.

#[local] Opaque gives.

(** The services of a node find each other, unless the user's environment
    overrides it: the advance-runner and the inspect server call the address on
    which the server-manager (or the host-runner) listens, with the same
    session; the advance-runner, the dispatcher, the indexer and the claimer use
    one broker, which is the node's own Redis outside of the validator mode;
    they agree on the chain and on the application, hence on the streams; the
    indexer and the GraphQL server use one database; the dispatcher calls the
    state server where it listens; and no two ports of the node coincide. *)
Theorem node_wiring :
  (exists sm,
     gives InspectServer "SERVER_MANAGER_ADDRESS" sm /\
     gives AdvanceRunner "SERVER_MANAGER_ENDPOINT" ("http://" +:+ sm) /\
     Args (newServerManager Environ c workDir) = ["--manager-address=" +:+ sm] /\
     exists host port, gives HostRunner "GRPC_SERVER_MANAGER_ADDRESS" host /\
       gives HostRunner "GRPC_SERVER_MANAGER_PORT" port /\ sm = host +:+ ":" +:+ port) /\
  (exists session, gives AdvanceRunner "SESSION_ID" session /\ gives InspectServer "SESSION_ID" session) /\
  (exists redis,
     Forall (fun s => gives s "REDIS_ENDPOINT" redis) [AdvanceRunner; Dispatcher; Indexer] /\
     (forall cl, newAuthorityClaimer Environ c workDir = Ok cl -> gives cl "REDIS_ENDPOINT" redis) /\
     (ExperimentalSunodoValidatorEnabled c = false ->
        exists port, Args (newRedis Environ c workDir) !! 1%nat = Some port /\
          redis = "redis://" +:+ localhost +:+ ":" +:+ port)) /\
  (exists chain,
     Forall (fun s => gives s "CHAIN_ID" chain) [AdvanceRunner; Dispatcher; Indexer] /\
     (forall cl, newAuthorityClaimer Environ c workDir = Ok cl -> gives cl "TX_CHAIN_ID" chain)) /\
  (exists dapp,
     gives AdvanceRunner "DAPP_CONTRACT_ADDRESS" dapp /\ gives Indexer "DAPP_CONTRACT_ADDRESS" dapp /\
     gives Dispatcher "DAPP_ADDRESS" dapp) /\
  (exists db, gives Indexer "POSTGRES_ENDPOINT" db /\ gives GraphQLServer "POSTGRES_ENDPOINT" db) /\
  (exists ss, gives StateServer "SS_SERVER_ADDRESS" ss /\ gives Dispatcher "SC_GRPC_ENDPOINT" ("http://" +:+ ss)) /\
  NoDup (getPort c <$>
    [portOffsetProxy; portOffsetAdvanceRunner; portOffsetAuthorityClaimer; portOffsetDispatcher;
     portOffsetGraphQLServer; portOffsetGraphQLHealthcheck; portOffsetHostRunnerHealthcheck;
     portOffsetHostRunnerRollups; portOffsetIndexer; portOffsetInspectServer; portOffsetInspectHealthcheck;
     portOffsetRedis; portOffsetServerManager; portOffsetStateServer]).
Proof.
  destruct wire_inspect as (? & ? & ?). destruct wire_advance_runner as (? & ? & ? & ? & ?).
  destruct wire_dispatcher as (? & ? & ? & ?). destruct wire_indexer as (? & ? & ? & ?).
  destruct wire_graphql as (? & ? & ?). destruct wire_host_runner as (? & ? & ? & ?).
  pose proof wire_state_server. pose proof wire_claimer as Hcl.
  split_and!.
  - eexists. split; [eassumption|]. split; [eassumption|]. split; [reflexivity|]. do 2 eexists.
    split; [eassumption|]. split; [eassumption|reflexivity].
  - eexists. split; eassumption.
  - eexists. split; [by repeat constructor|]. split; [by intros cl [? _]%Hcl|].
    intros Hs. eexists. split; [done|]. unfold getRedisEndpoint. by rewrite Hs.
  - eexists. split; [by repeat constructor|]. by intros cl [_ ?]%Hcl.
  - eexists. split_and!; eassumption.
  - eexists. split; eassumption.
  - eexists. split; eassumption.
  - apply NoDup_fmap_2; [intros x y; unfold getPort; lia|]. by apply (bool_decide_unpack _).
Qed.

End NodeTheorems.

(** ** Starting the node *)

Section StartTheorems.
Import Config Services.

Lemma auth_from_env LookupEnv ReadFile auth : authFromEnv LookupEnv ReadFile = Ok auth -> auth <> AuthNil.
Proof.
  unfold authFromEnv. intros (kind & _ & H)%outcome_bind_ok.
  by destruct kind; repeat (apply outcome_bind_ok in H as (? & _ & H)); injection H as <-.
Qed.

(** The steps of a computation that succeeded. *)
Ltac unbind H :=
  repeat match type of H with
         | _ ≫= _ = _ => let Ha := fresh "Ha" in apply outcome_bind_ok in H as (? & Ha & H); cbn beta in H
         end.

(** The claimer is a service only if its signing key was read. *)
Lemma from_env_auth LookupEnv ReadFile c :
  FromEnv LookupEnv ReadFile = Ok c ->
  FeatureDisableClaimer c = false -> ExperimentalSunodoValidatorEnabled c = false -> Auth_ c <> AuthNil.
Proof.
  unfold FromEnv. intros H.
  unbind H.
  injection H as <-. cbn. intros -> ->.
  match goal with Ha : _ = Ok ?a |- ?a <> _ => exact (auth_from_env _ _ _ Ha) end.
Qed.

Lemma from_env_snapshot LookupEnv ReadFile c :
  FromEnv LookupEnv ReadFile = Ok c -> FeatureHostMode c = true -> SnapshotDir c = "".
Proof.
  unfold FromEnv. intros H.
  unbind H.
  injection H as <-. cbn. intros ->.
  match goal with Ha : (if negb true then _ else _) = Ok ?a |- ?a = _ => by injection Ha as <- end.
Qed.

(** The names of the services in the order in which they are started. *)
Definition start_order (c : NodeConfig) : list string :=
  (if ExperimentalSunodoValidatorEnabled c then [] else ["redis"]) ++
  ["graphql-server"; "indexer"; "state-server"] ++
  [if FeatureHostMode c then "host-runner" else "server-manager"] ++
  (if FeatureDisableClaimer c || ExperimentalSunodoValidatorEnabled c then [] else ["authority-claimer"]) ++
  ["advance-runner"; "dispatcher"; "inspect-server"; "http"].

Lemma services_built LookupEnv ReadFile Environ workDir c :
  FromEnv LookupEnv ReadFile = Ok c ->
  exists l, newSupervisorService Environ c workDir = Ok l /\ service_name <$> l = start_order c.
Proof.
  intros Hc. pose proof (from_env_auth _ _ _ Hc) as Ha. unfold newSupervisorService, start_order.
  destruct (FeatureDisableClaimer c), (ExperimentalSunodoValidatorEnabled c); cbn [negb andb orb].
  1-3: eexists; split; [reflexivity|]; by destruct (FeatureHostMode c).
  unfold newAuthorityClaimer, auth_env. specialize (Ha eq_refl eq_refl).
  destruct (Auth_ c); [done|..]; (eexists; split; [reflexivity|]); by destruct (FeatureHostMode c).
Qed.

(** [a] is started after [b] is ready. *)
Definition waits_for (names : list string) (s : Supervisor.Sup) (a b : string) : Prop :=
  forall i j svc, names !! j = Some a -> (j < length (Supervisor.started s))%nat -> names !! i = Some b ->
    Supervisor.started s !! i = Some svc -> Supervisor.sent_ready svc = true.

Lemma waits_earlier names s a b n :
  Supervisor.reachable n s ->
  (forall i j, names !! j = Some a -> names !! i = Some b -> (i < j)%nat) -> waits_for names s a b.
Proof.
  intros Hs Hord i j svc Ha Hj Hb Hi.
  eapply (ok_order n s (reachable_sup_ok n s Hs) i); [|done]. specialize (Hord i j Ha Hb). lia.
Qed.

(** The position of names in a list, decided. *)
Definition beforeb (a b : string) (names : list string) : bool :=
  forallb (fun '(j, x) => forallb (fun '(i, y) =>
    negb (String.eqb x a && String.eqb y b) || Nat.ltb i j) (imap pair names)) (imap pair names).

Lemma beforeb_spec a b names i j :
  beforeb a b names = true -> names !! j = Some a -> names !! i = Some b -> (i < j)%nat.
Proof.
  intros Hb Hj Hi. unfold beforeb in Hb. rewrite forallb_forall in Hb.
  assert (forall k x, names !! k = Some x -> In (k, x) (imap pair names)) as Hin.
  { intros k x Hk. apply list_elem_of_In, list_elem_of_lookup. exists k. by rewrite list_lookup_imap, Hk. }
  specialize (Hb _ (Hin j a Hj)). cbn in Hb. rewrite forallb_forall in Hb. specialize (Hb _ (Hin i b Hi)).
  cbn in Hb. rewrite !String.eqb_refl in Hb. by apply Nat.ltb_lt in Hb.
Qed.

(** A node whose configuration was read from the environment has all its
    services, and under the supervisor, whatever happens, each of them is
    started only when those it depends on are ready: the services that use the
    broker after the node's Redis, the advance-runner and the inspect server
    after the server-manager or the host-runner, the dispatcher after the state
    server, and the HTTP service last. *)
Theorem node_start_order LookupEnv ReadFile Environ workDir c s :
  FromEnv LookupEnv ReadFile = Ok c ->
  exists l, newSupervisorService Environ c workDir = Ok l /\
    let names := service_name <$> l in
    (Supervisor.reachable (length l) s ->
     Forall (fun a => waits_for names s a "redis") ["indexer"; "authority-claimer"; "advance-runner"; "dispatcher"] /\
     Forall (fun a => waits_for names s a "server-manager" /\ waits_for names s a "host-runner")
       ["advance-runner"; "inspect-server"] /\
     waits_for names s "dispatcher" "state-server" /\
     Forall (fun b => waits_for names s "http" b)
       ["graphql-server"; "indexer"; "advance-runner"; "dispatcher"; "inspect-server"]).
Proof.
  intros Hc. destruct (services_built _ _ Environ workDir _ Hc) as (l & Hl & Hnames). exists l. split; [done|].
  cbv zeta. intros Hs. rewrite Hnames.
  assert (forall a b, beforeb a b (start_order c) = true -> waits_for (start_order c) s a b) as Hw.
  { intros a b Hb. eapply waits_earlier; [done|]. intros i j. by apply beforeb_spec. }
  clear Hc Hl Hnames. unfold start_order in *.
  destruct (ExperimentalSunodoValidatorEnabled c), (FeatureHostMode c), (FeatureDisableClaimer c);
    repeat (split || apply Forall_cons_2 || apply Forall_nil_2); apply Hw; reflexivity.
Qed.

Lemma chain_id_ok getChainId id addr :
  is_ok (Checks.validateChainId getChainId id addr) = true <-> getChainId addr = Ok id.
Proof.
  unfold Checks.validateChainId. destruct (getChainId addr) as [remote| |]; cbn; [|done..]. unfold ensure.
  destruct (Z.eqb_spec id remote) as [->|Hne]; [done|]. split; [done|]. by intros [= ->].
Qed.

Lemma machine_hash_ok `{HexCrateLaws} GetTemplateHash ReadFile dir app addr :
  is_ok (Checks.validateMachineHash GetTemplateHash ReadFile dir app addr) = true <->
  exists hash, ReadFile dir "hash" = Ok hash /\ length hash = Checks.HashLength /\ GetTemplateHash app addr = Ok hash.
Proof.
  unfold Checks.validateMachineHash, Checks.readHash, Checks.getTemplateHash.
  destruct (ReadFile dir "hash") as [hash| |]; cbn; [|by split; [|intros (? & ? & _)]..].
  unfold ensure at 1. destruct (Nat.eqb_spec (length hash) Checks.HashLength) as [Hlen|Hlen]; cbn.
  2:{ split; [done|]. by intros (? & [= ->] & ? & _). }
  destruct (GetTemplateHash app addr) as [onchain| |]; cbn; [|by split; [|intros (? & _ & _ & ?)]..].
  unfold ensure. destruct (String.eqb_spec (hex_encode hash) (hex_encode onchain)) as [Heq|Hne]; cbn.
  - split; [|done]. intros _. exists hash. split; [done|]. split; [done|]. by rewrite (hex_encode_inj _ _ Heq).
  - split; [done|]. intros (h & [= ->] & _ & [= ->]). done.
Qed.

End StartTheorems.

(** ** Witnesses *)

Module NodeWitness.
Import Config Services HexRef.

(** The least that has to be set in the host mode, without claims. *)
Definition sample_env (key : string) : option string :=
  if String.eqb key "CARTESI_FEATURE_HOST_MODE" then Some "true"
  else if String.eqb key "CARTESI_FEATURE_DISABLE_CLAIMER" then Some "1"
  else if String.eqb key "CARTESI_BLOCKCHAIN_ID" then Some "31337"
  else if String.eqb key "CARTESI_CONTRACTS_INPUT_BOX_DEPLOYMENT_BLOCK_NUMBER" then Some "20"
  else if starts_with "CARTESI_BLOCKCHAIN_" key || starts_with "CARTESI_CONTRACTS_" key then
    (if existsb (String.eqb key) ["CARTESI_BLOCKCHAIN_BLOCK_TIMEOUT"; "CARTESI_BLOCKCHAIN_FINALITY_OFFSET";
        "CARTESI_BLOCKCHAIN_IS_LEGACY"] then None else Some "0x")
  else None.
Definition no_files (path : string) : outcome string string := Err "no such file".

Definition sample_node : NodeConfig :=
  mkNodeConfig LevelInfo false 7200 31337 "0x" "0x" false 10 60 "0x" "0x" "0x" "0x" 20 "" "" "127.0.0.1" 10000
    true true false false false "" AuthNil.
Lemma sample_from_env : FromEnv sample_env no_files = Ok sample_node.
Proof. vm_compute. reflexivity. Qed.

Lemma node_wiring_witness :
  exists redis, env_get "REDIS_ENDPOINT" (Env (newIndexer ["HOME=/"] sample_node "")) = Some redis.
Proof.
  destruct (node_wiring ["HOME=/"] sample_node "") as (_ & _ & (redis & Hr & _) & _).
  - intros k Hk. repeat (apply elem_of_cons in Hk as [->|Hk]; [reflexivity|]). by apply elem_of_nil in Hk.
  - exists redis. by apply Forall_cons_1 in Hr as [_ [_ [Hr _]%Forall_cons_1]%Forall_cons_1].
Defined.


Lemma node_start_order_witness :
  exists l, newSupervisorService [] sample_node "" = Ok l /\ length l = 9%nat /\
    waits_for (service_name <$> l) (Supervisor.init 9) "dispatcher" "state-server".
Proof.
  destruct (node_start_order _ _ [] "" _ (Supervisor.init 9) sample_from_env) as (l & Hl & Hw). exists l.
  split; [done|]. assert (length l = 9%nat) as Hlen by (vm_compute in Hl; by injection Hl as <-).
  split; [done|]. rewrite Hlen in Hw. by destruct (Hw (ex_intro _ [] eq_refl)) as (_ & _ & Hd & _).
Defined.

Definition hash : list byte := zeros 32.
End NodeWitness.
