(* ===== verification/HostRunner.v ===== *)
(** * The process of the host-runner

    [offchain/host-runner/src/main.rs] with [start_service] of [grpc/mod.rs]. The
    process runs the controller, the gRPC service and the HTTP server together:
    the controller and the gRPC service are tasks of their own, and the main
    function waits until the HTTP server or the health check ends, and then stops
    the controller and the gRPC service, one after the other. A move is a step of
    one of the tasks, or something that happens to them; moves come in any order. *)

From S2P Require Import Prelude Codecs Events MerkleTree HostModel Controller Configs.
Import Controller ServiceConfig.

Module HostRunner.

(** The task of the gRPC service: before [start_service], while it serves, after
    it returned and before the load of the flag, and at its end. A panic of a task
    that was spawned ends this task only. *)
Inductive Grpc :=
| GrpcSpawned
| GrpcServing
| GrpcServed
| GrpcReturned
| GrpcPanicked (message : string).

(** Where [main] is: in the [select!]; after it; after the store of the flag; when
    it waits for the answer to the shutdown; when it has the answer; when it waits
    for the task of the gRPC service; at its end. *)
Inductive Main :=
| Serving
| Selected
| Stored
| AwaitController (tx : nat)
| ControllerDown
| AwaitGrpc
| Exited.

Record Process := mkProcess {
  main : Main;
  http_service_running : bool;
  grpc : Grpc;
  grpc_shutdown : bool;      (** the signal was sent, and its receiver was there *)
  controller : System;
  errors : list string;      (** what [main] and its tasks logged as an error or a warning *)
}.

Definition initial_process : Process := mkProcess Serving true GrpcSpawned false initial [].

(** The moves: a method of the HTTP or of the gRPC server calls the controller;
    the controller takes a turn; the task of the gRPC service starts, its
    server ends, and it looks at the flag; the health check or the HTTP server
    ends; [main] makes a step. *)
Inductive Move :=
| Call_ (c : Call)
| ControllerTurn (timed_out : bool)
| GrpcStart
| GrpcEnd (result : option string)
| GrpcCheck
| HealthEnd (result : option string)
| HttpEnd (result : option string)
| MainStep.

Definition set_main (m : Main) (s : Process) : Process :=
  mkProcess m (http_service_running s) (grpc s) (grpc_shutdown s) (controller s) (errors s).
Definition set_grpc (g : Grpc) (s : Process) : Process :=
  mkProcess (main s) (http_service_running s) g (grpc_shutdown s) (controller s) (errors s).
Definition set_controller (c : System) (s : Process) : Process :=
  mkProcess (main s) (http_service_running s) (grpc s) (grpc_shutdown s) c (errors s).
Definition log (message : string) (s : Process) : Process :=
  mkProcess (main s) (http_service_running s) (grpc s) (grpc_shutdown s) (controller s) (errors s ++ [message]).

(** [log_result]: [result] has the text of the error. *)
Definition log_result (name : string) (result : option string) (s : Process) : Process :=
  match result with
  | None => s
  | Some e => log ("http " +:+ name +:+ " terminated  with error: " +:+ e) s
  end.

(** [SyncRequest::send]: when the controller has ended its channels are closed. *)
Definition send_request (c : Call) (y : System) : System :=
  match sys_state y with
  | Some st => mkSystem (Some st) (send c (length (sys_calls y)) (sys_data y)) (sys_responses y) (sys_calls y ++ [c])
  | None => y
  end.

(** [Service::run]: one turn. *)
Definition controller_turn (timed_out : bool) (y : System) : option System :=
  st ← sys_state y;
  '(st', d', rs') ← process timed_out st (sys_data y);
  Some (mkSystem st' d' (sys_responses y ++ rs') (sys_calls y)).

(** The receiver of the answer to the call [tx]: [None] while it waits, and
    [Some false] when the sender was dropped. *)
Definition poll_shutdown (tx : nat) (y : System) : option bool :=
  if existsb (fun r => match r with RShutdown tx' => Nat.eqb tx tx' | _ => false end) (sys_responses y)
  then Some true
  else match sys_state y with Some _ => None | None => Some false end.

Section Process.
(** [str::parse::<SocketAddr>] *)
Variable parse_addr : string -> bool.
Variable config : HostRunnerConfig.

(** The address of [grpc::start_service] *)
Definition grpc_addr : string :=
  grpc_server_manager_address config +:+ ":" +:+ pretty (grpc_server_manager_port config).

(** The next step of [main]; [None] while it waits. *)
Definition main_step (s : Process) : option Process :=
  match main s with
  | Serving => None
  | Selected => Some (mkProcess Stored false (grpc s) (grpc_shutdown s) (controller s) (errors s))
  | Stored =>
      let tx := length (sys_calls (controller s)) in
      Some (set_main (AwaitController tx) (set_controller (send_request CShutdown (controller s)) s))
  | AwaitController tx =>
      match poll_shutdown tx (controller s) with
      | None => None
      | Some true => Some (set_main ControllerDown s)
      | Some false => Some (set_main ControllerDown (log "failed to shutdown controller" s))
      end
  | ControllerDown =>
      match grpc s with
      | GrpcSpawned | GrpcServing =>
          Some (mkProcess AwaitGrpc (http_service_running s) (grpc s) true (controller s) (errors s))
      | _ => Some (set_main AwaitGrpc (log "failed to send the shutdown signal to grpc" s))
      end
  | AwaitGrpc =>
      match grpc s with
      | GrpcReturned => Some (set_main Exited s)
      | GrpcPanicked _ => Some (set_main Exited (log "failed to shutdown the grpc service" s))
      | _ => None
      end
  | Exited => None
  end.

(** [None]: the move is not possible. [main] alone calls [shutdown]; a server of
    gRPC that is not told to stop ends with an error only. *)
Definition next (m : Move) (s : Process) : option Process :=
  match m with
  | Call_ CShutdown => None
  | Call_ c => Some (set_controller (send_request c (controller s)) s)
  | ControllerTurn timed_out => y ← controller_turn timed_out (controller s); Some (set_controller y s)
  | GrpcStart =>
      match grpc s with
      | GrpcSpawned =>
          if parse_addr grpc_addr then Some (set_grpc GrpcServing s) else Some (set_grpc (GrpcPanicked "invalid config") s)
      | _ => None
      end
  | GrpcEnd result =>
      match grpc s with
      | GrpcServing =>
          if grpc_shutdown s || bool_decide (is_Some result)
          then Some (set_grpc GrpcServed (log_result "gRPC service" result s))
          else None
      | _ => None
      end
  | GrpcCheck =>
      match grpc s with
      | GrpcServed =>
          if http_service_running s
          then Some (set_grpc (GrpcPanicked "gRPC service terminated before shutdown signal") s)
          else Some (set_grpc GrpcReturned s)
      | _ => None
      end
  | HealthEnd result =>
      match main s with Serving => Some (set_main Selected (log_result "http health check" result s)) | _ => None end
  | HttpEnd result =>
      match main s with Serving => Some (set_main Selected (log_result "http service" result s)) | _ => None end
  | MainStep => main_step s
  end.

Fixpoint run (ms : list Move) (s : Process) : option Process :=
  match ms with
  | [] => Some s
  | m :: ms => s' ← next m s; run ms s'
  end.
End Process.
End HostRunner.

(** ** What the process does *)

Section ProcessTheorems.
Import HostRunner.
Variable parse_addr : string -> bool.
Variable config : HostRunnerConfig.
Abbreviation next_ := (next parse_addr config).
Abbreviation run_ := (HostRunner.run parse_addr config).

Definition process_reachable (s : Process) : Prop := exists ms, run_ ms initial_process = Some s.

Definition is_shutdown (r : Response) : bool := match r with RShutdown _ => true | _ => false end.

(** The controller runs, with the requests [rx] to shut down, none of which is answered. *)
Definition live (rx : list (SyncRequest unit)) (y : System) : Prop :=
  exists st, sys_state y = Some st /\ shutdown_rx (sys_data y) = rx /\ existsb is_shutdown (sys_responses y) = false.
(** It ended, and answered the request [tx] to shut down. *)
Definition down (tx : nat) (y : System) : Prop := sys_state y = None /\ RShutdown tx ∈ sys_responses y.

(** Goes through the branches of the [select!] of each state. *)
Ltac branches :=
  unfold process_idle, process_fetch, process_inspect, process_advance, recv in *;
  repeat match goal with
  | H : context [if ?b then _ else _] |- _ => destruct b
  | H : context [match ?l with [] => _ | _ :: _ => _ end] |- _ => destruct l eqn:?
  end; simplify_eq; cbn in *.

(** A turn keeps the requests to shut down, or answers the first one and is the last. *)
Lemma process_shutdown timed_out st d st' d' rs :
  process timed_out st d = Some (st', d', rs) ->
  (exists st1, st' = Some st1 /\ shutdown_rx d' = shutdown_rx d /\ existsb is_shutdown rs = false) \/
  (st' = None /\ exists r rx, shutdown_rx d = r :: rx /\ rs = [RShutdown (response_tx r)]).
Proof. intros Hp. destruct d, st; cbn in Hp; branches; (left; by eexists) || (right; split; [done|by do 2 eexists]). Qed.

Lemma live_turn timed_out rx y y' : live rx y -> controller_turn timed_out y = Some y' ->
  live rx y' \/ exists r rx', rx = r :: rx' /\ down (response_tx r) y'.
Proof.
  intros (st & Hst & Hrx & Hno) Ht. unfold controller_turn in Ht. rewrite Hst in Ht. cbn in Ht.
  destruct (process timed_out st (sys_data y)) as [[[st' d'] rs]|] eqn:Hp; [|done]. cbn in Ht. simplify_eq.
  destruct (process_shutdown _ _ _ _ _ _ Hp) as [(st1 & -> & Hd & Hrs)|(-> & r & rx & Hd & ->)].
  - left. exists st1. cbn. by rewrite existsb_app, Hno, Hrs.
  - right. exists r, rx. split; [done|]. split; [done|]. cbn. set_solver.
Qed.

Lemma live_send c rx y : c <> CShutdown -> live rx y -> live rx (send_request c y).
Proof. intros Hc (st & Hst & Hrx & Hno). unfold send_request. rewrite Hst. exists st. cbn. by destruct c. Qed.

Lemma down_turn timed_out y y' : sys_state y = None -> controller_turn timed_out y = Some y' -> False.
Proof. intros Hy. unfold controller_turn. by rewrite Hy. Qed.

Lemma down_send c y : sys_state y = None -> send_request c y = y.
Proof. intros Hy. unfold send_request. by rewrite Hy. Qed.

Lemma live_poll rx tx y : live rx y -> poll_shutdown tx y = None.
Proof.
  intros (st & Hst & _ & Hno). unfold poll_shutdown. rewrite Hst.
  replace (existsb _ _) with false; [done|]. symmetry. revert Hno. induction (sys_responses y) as [|r rs IH]; [done|].
  cbn. intros [Hr ?]%orb_false_iff. rewrite IH by done. by destruct r.
Qed.

Lemma down_poll tx y : down tx y -> poll_shutdown tx y = Some true.
Proof.
  intros [_ Hin]. unfold poll_shutdown. replace (existsb _ _) with true; [done|]. symmetry. apply existsb_exists.
  exists (RShutdown tx). split; [by apply list_elem_of_In|]. apply Nat.eqb_refl.
Qed.

(** What the controller does inside the process it also does alone. *)
Lemma controller_turn_step timed_out y y' : controller_turn timed_out y = Some y' -> sys_step y y'.
Proof.
  destruct y as [[st|] d rs cs]; [|done]. cbn. destruct (process timed_out st d) as [[[st' d'] rs']|] eqn:Hp; [|done].
  cbn. intros ?; simplify_eq. by eapply step_process.
Qed.

Lemma send_request_steps c y : rtc sys_step y (send_request c y).
Proof. destruct y as [[st|] d rs cs]; [|by apply rtc_refl]. apply rtc_once, step_call. Qed.

Definition running (g : Grpc) : bool := match g with GrpcSpawned | GrpcServing => true | _ => false end.
Definition ended (g : Grpc) : bool := match g with GrpcReturned | GrpcPanicked _ => true | _ => false end.

Definition controller_ok (m : Main) (y : System) : Prop :=
  match m with
  | Serving | Selected | Stored => live [] y
  | AwaitController tx => live [mkSyncRequest tt tx] y \/ down tx y
  | ControllerDown | AwaitGrpc | Exited => sys_state y = None
  end.

Record process_ok (s : Process) : Prop := {
  ok_flag : http_service_running s = match main s with Serving | Selected => true | _ => false end;
  ok_controller : controller_ok (main s) (controller s);
  ok_reachable : reachable (controller s);
  ok_signal : grpc_shutdown s = true -> main s = AwaitGrpc \/ main s = Exited;
  ok_unsignalled : grpc_shutdown s = false -> main s = AwaitGrpc -> running (grpc s) = false;
  ok_returned : grpc s = GrpcReturned -> http_service_running s = false;
  ok_panicked m : grpc s = GrpcPanicked m -> grpc_shutdown s = true -> m = "invalid config";
  ok_exited : main s = Exited -> ended (grpc s) = true;
  ok_errors : ("failed to shutdown controller" : string) ∉ errors s;
}.

Lemma initial_process_ok : process_ok initial_process.
Proof. split; cbn; try done; [by exists IdleState|by apply rtc_refl|by apply not_elem_of_nil]. Qed.

Lemma set_controller_ok s y : process_ok s -> controller_ok (main s) y -> rtc sys_step (controller s) y ->
  process_ok (set_controller y s).
Proof. intros [] Hy Hs. split; cbn; try done. unfold reachable in *. by etrans. Qed.

Lemma call_ok c s : c <> CShutdown -> process_ok s -> process_ok (set_controller (send_request c (controller s)) s).
Proof.
  intros Hc Hs. apply set_controller_ok; [done| |apply send_request_steps]. pose proof (ok_controller s Hs) as Hy.
  destruct (main s); cbn in *; try (by apply live_send); try (by rewrite down_send).
  destruct Hy as [Hy|Hy]; [left; by apply live_send|right; rewrite down_send; [done|apply Hy]].
Qed.

Lemma turn_ok timed_out s y : process_ok s -> controller_turn timed_out (controller s) = Some y ->
  process_ok (set_controller y s).
Proof.
  intros Hs Ht. apply set_controller_ok; [done| |by eapply rtc_once, controller_turn_step].
  assert (Hno : live [] (controller s) -> live [] y).
  { intros Hy. by destruct (live_turn _ _ _ _ Hy Ht) as [|(? & ? & [=] & _)]. }
  pose proof (ok_controller s Hs) as Hy. destruct (main s); cbn in *; try (by apply Hno); try (by destruct (down_turn _ _ _ Hy Ht)).
  destruct Hy as [Hy|[Hy _]]; [|by destruct (down_turn _ _ _ Hy Ht)].
  destruct (live_turn _ _ _ _ Hy Ht) as [?|(r & rx & [= <- <-] & ?)]; [by left|by right].
Qed.

Lemma log_result_errors name result s :
  (name = "gRPC service" \/ name = "http health check" \/ name = "http service") ->
  ("failed to shutdown controller" : string) ∉ errors s ->
  ("failed to shutdown controller" : string) ∉ errors (log_result name result s).
Proof.
  intros Hn He. destruct result as [e|]; [|done]. cbn. rewrite elem_of_app, list_elem_of_singleton. intros [?|Hm]; [done|].
  by destruct Hn as [-> |[-> | ->]].
Qed.

Lemma log_result_state name result s : exists es,
  log_result name result s = mkProcess (main s) (http_service_running s) (grpc s) (grpc_shutdown s) (controller s) es.
Proof. destruct s, result; by eexists. Qed.

(** The task of the gRPC service makes a step. *)
Lemma grpc_ok g es s : process_ok s -> ended (grpc s) = false ->
  (running g = true -> running (grpc s) = true) -> (g = GrpcReturned -> http_service_running s = false) ->
  (forall m, g = GrpcPanicked m -> http_service_running s = false -> m = "invalid config") ->
  ("failed to shutdown controller" : string) ∉ es ->
  process_ok (mkProcess (main s) (http_service_running s) g (grpc_shutdown s) (controller s) es).
Proof.
  intros [] Hend Hrun Hret Hpan Hes. split; cbn; try done.
  - intros Hs Hm. specialize (ok_unsignalled0 Hs Hm). destruct (running g); [|done]. by rewrite Hrun in ok_unsignalled0.
  - intros m -> Hs. apply (Hpan m); [done|]. rewrite ok_flag0. by destruct (ok_signal0 Hs) as [-> | ->].
  - intros Hm. specialize (ok_exited0 Hm). congruence.
Qed.

Lemma select_ok name result s : process_ok s -> main s = Serving ->
  (name = "gRPC service" \/ name = "http health check" \/ name = "http service") ->
  process_ok (set_main Selected (log_result name result s)).
Proof.
  intros [] Hm Hn. pose proof (log_result_errors name result s Hn ok_errors0).
  destruct (log_result_state name result s) as [es Hes]. rewrite Hes in *. rewrite Hm in *.
  split; cbn; try done. intros Hs. by destruct (ok_signal0 Hs).
Qed.

Lemma main_step_ok s s' : process_ok s -> main_step s = Some s' -> process_ok s'.
Proof.
  intros Hs. pose proof Hs as []. unfold main_step. destruct (main s) as [| | |tx| | |] eqn:Hm; cbn in *; try done.
  - intros [= <-]. split; cbn; try done. intros Hg. by destruct (ok_signal0 Hg).
  - intros [= <-]. split; cbn; try done; [left| |intros Hg; by destruct (ok_signal0 Hg)].
    + destruct ok_controller0 as (st & Hst & Hrx & Hno). unfold send_request. rewrite Hst. exists st. cbn. by rewrite Hrx.
    + unfold reachable in *. etrans; [done|apply send_request_steps].
  - destruct ok_controller0 as [Hy|Hy].
    + by rewrite (live_poll _ tx _ Hy).
    + rewrite (down_poll tx _ Hy). intros [= <-]. split; cbn; try done; [apply Hy|]. intros Hg. by destruct (ok_signal0 Hg).
  - intros Hn. assert (grpc_shutdown s = false) as Hg.
    { destruct (grpc_shutdown s) eqn:Hg; [|done]. by destruct (ok_signal0 eq_refl). }
    destruct (grpc s) eqn:Hgr; injection Hn as <-; split; cbn; try done; try (by left); try congruence;
      try (rewrite Hgr; done); rewrite elem_of_app, list_elem_of_singleton; by intros [?|?].
  - destruct (grpc s) eqn:Hgr; try done; intros [= <-]; split; cbn; try done; try congruence;
      try (by right); try (rewrite Hgr; done).
    rewrite elem_of_app, list_elem_of_singleton; by intros [?|?].
Qed.

Lemma next_process_ok m s s' : process_ok s -> next_ m s = Some s' -> process_ok s'.
Proof.
  intros Hs. destruct m as [c|t| |r| |r|r|]; cbn.
  - destruct c; intros [= <-]; by apply call_ok.
  - destruct (controller_turn t (controller s)) as [y|] eqn:Hy; [|done]. intros [= <-]. by eapply turn_ok.
  - destruct (grpc s) eqn:Hg; try done. destruct (parse_addr _); intros [= <-];
      apply grpc_ok; rewrite ?Hg; try done; [apply ok_errors, Hs|by intros m [=]|apply ok_errors, Hs].
  - destruct (grpc s) eqn:Hg; try done. destruct (_ || _); [|done]. intros [= <-].
    pose proof (log_result_errors "gRPC service" r s (or_introl eq_refl) (ok_errors s Hs)).
    destruct (log_result_state "gRPC service" r s) as [es Hes]. rewrite Hes in *. cbn in *.
    by apply (grpc_ok GrpcServed es s); rewrite ?Hg.
  - destruct (grpc s) eqn:Hg; try done. destruct (http_service_running s) eqn:Hf; intros [= <-];
      apply grpc_ok; rewrite ?Hg, ?Hf; try done; apply ok_errors, Hs.
  - destruct (main s) eqn:Hm; try done. intros [= <-]. apply select_ok; auto.
  - destruct (main s) eqn:Hm; try done. intros [= <-]. apply select_ok; auto.
  - by apply main_step_ok.
Qed.

Lemma run_process_ok ms s s' : process_ok s -> run_ ms s = Some s' -> process_ok s'.
Proof.
  revert s. induction ms as [|m ms IH]; intros s Hs; cbn; [by intros [= <-]|].
  destruct (next_ m s) as [s1|] eqn:Hm; [|done]. cbn. apply IH. by eapply next_process_ok.
Qed.

(** C20. The process of the host-runner is safe, whatever its tasks do and in
    whatever order. While the HTTP server runs, so does the controller, which only
    behaves as it can alone. The gRPC service is told to stop only after the flag
    was cleared and the controller ended, so that no method waits for it any more;
    when it is told, its task does not panic because of the flag, and if it
    returns the flag was cleared. The shutdown of the controller never fails, and
    when [main] returns the controller and the task of the gRPC service have ended. *)
Theorem host_process_safe s :
  process_reachable s ->
  reachable (controller s) /\
  (main s = Serving -> is_Some (sys_state (controller s))) /\
  (grpc_shutdown s = true -> http_service_running s = false /\ sys_state (controller s) = None) /\
  (grpc_shutdown s = true -> grpc s <> GrpcPanicked "gRPC service terminated before shutdown signal") /\
  (grpc s = GrpcReturned -> http_service_running s = false) /\
  (("failed to shutdown controller" : string) ∉ errors s) /\
  (main s = Exited -> sys_state (controller s) = None /\ ended (grpc s) = true).
Proof.
  intros [ms Hms]. pose proof (run_process_ok _ _ _ initial_process_ok Hms) as [].
  split; [done|]. split_and!; try done.
  - intros Hm. rewrite Hm in *. destruct ok_controller0 as (st & Hst & _). by exists st.
  - intros Hg. destruct (ok_signal0 Hg) as [Hm|Hm]; by rewrite Hm in *.
  - intros Hg Hp. by specialize (ok_panicked0 _ Hp Hg).
  - intros Hm. split; [by rewrite Hm in *|by apply ok_exited0].
Qed.

(** *** The end of the process *)

(** The moves that need nothing from outside: no call, and no end of a server of HTTP. *)
Definition inner (m : Move) : Prop :=
  match m with ControllerTurn _ | GrpcStart | GrpcEnd _ | GrpcCheck | MainStep => True | _ => False end.

(** Each turn of the controller takes a request, or leaves the state that fetches. *)
Definition requests (d : SharedStateData) : nat :=
  length (advance_rx d) + length (inspect_rx d) + length (finish_rx d) + length (voucher_rx d) +
  length (notice_rx d) + length (report_rx d) + length (exception_rx d) + length (shutdown_rx d).
Definition fetching (st : option State) : nat := match st with Some (FetchRequestState _) => 1 | _ => 0 end.
Definition controller_work (y : System) : nat := 2 * requests (sys_data y) + fetching (sys_state y).

Definition main_work (m : Main) : nat :=
  match m with
  | Serving => 11 | Selected => 10 | Stored => 9 | AwaitController _ => 4 | ControllerDown => 3 | AwaitGrpc => 2 | Exited => 0
  end.
Definition grpc_work (g : Grpc) : nat :=
  match g with GrpcSpawned => 3 | GrpcServing => 2 | GrpcServed => 1 | _ => 0 end.
Definition work (s : Process) : nat := main_work (main s) + grpc_work (grpc s) + controller_work (controller s).

Lemma process_work timed_out st d st' d' rs : process timed_out st d = Some (st', d', rs) ->
  (2 * requests d' + fetching st' < 2 * requests d + fetching (Some st))%nat.
Proof. intros Hp. destruct d, st; cbn in Hp; branches; subst; unfold requests; cbn; lia. Qed.

Lemma turn_work timed_out y y' : controller_turn timed_out y = Some y' -> (controller_work y' < controller_work y)%nat.
Proof.
  destruct y as [[st|] d rs cs]; [|done]. cbn. destruct (process timed_out st d) as [[[st' d'] rs']|] eqn:Hp; [|done].
  cbn. intros ?; simplify_eq. by apply process_work in Hp.
Qed.

Lemma send_work c y : (controller_work (send_request c y) <= controller_work y + 2)%nat.
Proof.
  destruct y as [[st|] d rs cs]; [|cbn; lia]. unfold controller_work, requests, send_request. cbn [sys_state sys_data].
  destruct c, d; cbn; rewrite ?length_app; cbn; lia.
Qed.

Lemma inner_work m s s' : inner m -> next_ m s = Some s' -> (work s' < work s)%nat.
Proof.
  intros Hm. destruct m as [c|t| |r| |r|r|]; try done; cbn -[controller_work]; unfold work.
  - destruct (controller_turn t (controller s)) as [y|] eqn:Hy; [|done]. intros [= <-]. cbn -[controller_work send_request]. apply turn_work in Hy. lia.
  - destruct (grpc s) eqn:Hg; try done. destruct (parse_addr _); intros [= <-]; cbn -[controller_work]; lia.
  - destruct (grpc s) eqn:Hg; try done. destruct (_ || _); [|done]. intros [= <-].
    destruct (log_result_state "gRPC service" r s) as [es ->]. cbn -[controller_work]. lia.
  - destruct (grpc s) eqn:Hg; try done. destruct (http_service_running s); intros [= <-]; cbn -[controller_work]; lia.
  - unfold main_step. destruct (main s) as [| | |tx| | |] eqn:Hmain; cbn -[controller_work]; try done.
    + intros [= <-]. cbn -[controller_work send_request]. lia.
    + intros [= <-]. cbn -[controller_work send_request]. pose proof (send_work CShutdown (controller s)). lia.
    + destruct (poll_shutdown tx (controller s)) as [[]|]; [| |done]; intros [= <-]; cbn -[controller_work]; lia.
    + destruct (grpc s) eqn:Hg; intros [= <-]; cbn -[controller_work]; rewrite ?Hg; cbn -[controller_work]; lia.
    + destruct (grpc s) eqn:Hg; try done; intros [= <-]; cbn -[controller_work]; rewrite ?Hg; cbn -[controller_work]; lia.
Qed.

Lemma inner_bound ms s s' : Forall inner ms -> run_ ms s = Some s' -> (length ms + work s' <= work s)%nat.
Proof.
  intros Hms. revert s. induction Hms as [|m ms Hm _ IH]; intros s; cbn; [intros [= <-]; lia|].
  destruct (next_ m s) as [s1|] eqn:Hn; [|done]. cbn. intros Hr%IH. apply inner_work in Hn; [lia|done].
Qed.

(** A controller that was asked to shut down does not wait. *)
Lemma live_turns rx r y : live (r :: rx) y -> is_Some (controller_turn false y).
Proof.
  intros (st & Hst & Hrx & _). destruct y as [st' d rs cs]. cbn in *. subst st'. cbn.
  destruct d as [[] [] [] [] [] [] [] sh], st; cbn in *; rewrite Hrx; by eexists.
Qed.

Lemma inner_progress s : process_ok s -> main s <> Serving -> main s <> Exited ->
  exists m s', inner m /\ next_ m s = Some s'.
Proof.
  intros [] Hserv Hex. destruct (main s) as [| | |tx| | |] eqn:Hm; try done.
  - exists MainStep. eexists. split; [done|]. cbn. unfold main_step. rewrite Hm. reflexivity.
  - exists MainStep. eexists. split; [done|]. cbn. unfold main_step. rewrite Hm. reflexivity.
  - destruct ok_controller0 as [Hy|Hy].
    + destruct (live_turns _ _ _ Hy) as [y Hturn]. exists (ControllerTurn false). eexists. split; [done|]. cbn. rewrite Hturn. reflexivity.
    + exists MainStep. eexists. split; [done|]. cbn. unfold main_step. rewrite Hm, (down_poll tx _ Hy). reflexivity.
  - exists MainStep. cbn. unfold main_step. rewrite Hm. destruct (grpc s); (eexists; split; [done|reflexivity]).
  - destruct (grpc s) eqn:Hg.
    + exists GrpcStart. cbn. rewrite Hg. destruct (parse_addr _); (eexists; split; [done|reflexivity]).
    + exists (GrpcEnd None). cbn. rewrite Hg. destruct (grpc_shutdown s) eqn:Hs; [(eexists; split; [done|reflexivity])|].
      by specialize (ok_unsignalled0 eq_refl eq_refl).
    + exists GrpcCheck. cbn. rewrite Hg. destruct (http_service_running s); (eexists; split; [done|reflexivity]).
    + exists MainStep. cbn. unfold main_step. rewrite Hm, Hg. (eexists; split; [done|reflexivity]).
    + exists MainStep. cbn. unfold main_step. rewrite Hm, Hg. (eexists; split; [done|reflexivity]).
Qed.

Lemma inner_main m s s' : inner m -> next_ m s = Some s' -> main s <> Serving -> main s' <> Serving.
Proof.
  intros Hm. destruct m as [c|t| |r| |r|r|]; try done; cbn.
  - destruct (controller_turn t (controller s)); [|done]. by intros [= <-].
  - destruct (grpc s); try done. destruct (parse_addr _); by intros [= <-].
  - destruct (grpc s); try done. destruct (_ || _); [|done]. intros [= <-].
    by destruct (log_result_state "gRPC service" r s) as [es ->].
  - destruct (grpc s); try done. destruct (http_service_running s); by intros [= <-].
  - unfold main_step. destruct (main s) as [| | |tx| | |]; try done; try (by intros [= <-]).
    + destruct (poll_shutdown _ _) as [[]|]; [| |done]; by intros [= <-].
    + destruct (grpc s); by intros [= <-].
    + destruct (grpc s); try done; by intros [= <-].
Qed.

Lemma reach_exit n s : process_ok s -> main s <> Serving -> (work s <= n)%nat ->
  exists ms s', Forall inner ms /\ run_ ms s = Some s' /\ main s' = Exited.
Proof.
  revert s. induction n as [n IH] using lt_wf_ind. intros s Hs Hm Hn.
  assert (Hd : main s = Exited \/ main s <> Exited) by (destruct (main s); auto).
  destruct Hd as [He|He]; [by exists [], s|].
  destruct (inner_progress s Hs Hm He) as (m & s1 & Hin & Hnext). pose proof (inner_work m s s1 Hin Hnext).
  destruct (IH (work s1) ltac:(lia) s1) as (ms & s' & Hms & Hr & Hend);
    [by eapply next_process_ok|by eapply inner_main|done|].
  exists (m :: ms), s'. split; [by constructor|]. cbn. by rewrite Hnext.
Qed.

(** C21. The process of the host-runner stops. Once the HTTP server or the health
    check has ended, whatever was going on, the tasks bring [main] to its end by
    themselves: from every state they can, no run of theirs is longer than the
    work that is left, and they get stuck nowhere before the end. *)
Theorem host_shutdown_completes s :
  process_reachable s -> main s <> Serving ->
  (exists ms s', Forall inner ms /\ run_ ms s = Some s' /\ main s' = Exited) /\
  forall ms s', Forall inner ms -> run_ ms s = Some s' ->
    (length ms <= work s)%nat /\
    (main s' = Exited \/ exists m s'', inner m /\ next_ m s' = Some s'').
Proof.
  intros [ms0 Hms0] Hm. pose proof (run_process_ok _ _ _ initial_process_ok Hms0) as Hs.
  split; [by eapply reach_exit|]. intros ms s' Hms Hr. split; [apply inner_bound in Hr; [lia|done]|].
  assert (Hm' : main s' <> Serving).
  { clear Hms0 Hs. revert s Hm Hr. induction Hms as [|m ms Hin _ IH]; intros s Hm; cbn; [by intros [= <-]|].
    destruct (next_ m s) as [s1|] eqn:Hn; [|done]. cbn. apply IH. by eapply inner_main. }
  assert (Hd : main s' = Exited \/ main s' <> Exited) by (destruct (main s'); auto).
  destruct Hd as [|He]; [by left|right]. apply inner_progress; [by eapply run_process_ok|done|done].
Qed.

(** *** A gRPC service that fails *)

(** The moves other than the end of the health check or of the HTTP server. *)
Definition no_end (m : Move) : Prop := match m with HealthEnd _ | HttpEnd _ => False | _ => True end.

Lemma unnoticed ms message s s' : main s = Serving -> grpc s = GrpcPanicked message -> Forall no_end ms ->
  run_ ms s = Some s' ->
  main s' = Serving /\ grpc s' = GrpcPanicked message /\ http_service_running s' = http_service_running s /\
  errors s' = errors s.
Proof.
  intros Hm Hg Hms. revert s Hm Hg. induction Hms as [|m ms Hno _ IH]; intros s Hm Hg; cbn; [by intros [= <-]|].
  destruct (next_ m s) as [s1|] eqn:Hn; [|done]. cbn. destruct m as [c|t| |r| |r|r|]; cbn in Hn; try done;
    try (by rewrite Hg in Hn); [| |unfold main_step in Hn; by rewrite Hm in Hn].
  - destruct c; simplify_eq; intros Hr%IH; done.
  - destruct (controller_turn t (controller s)); [|done]. cbn in Hn. simplify_eq. intros Hr%IH; done.
Qed.

(** C38. The end of the gRPC service goes unnoticed. When its address cannot be
    used, or the server ends with an error, the task of the gRPC service panics,
    as the code has it for a service that ended before the shutdown; but the task
    was spawned, so that the panic ends the task only: the process goes on
    with the HTTP server and the health check, and nothing but the end of one
    of these ever ends it. *)
Theorem grpc_failure_unnoticed (e : string) :
  let failure := if parse_addr (grpc_addr config) then [GrpcStart; GrpcEnd (Some e); GrpcCheck] else [GrpcStart] in
  exists s message, run_ failure initial_process = Some s /\ grpc s = GrpcPanicked message /\
    forall ms s', Forall no_end ms -> run_ ms s = Some s' ->
      main s' = Serving /\ http_service_running s' = true /\ grpc s' = GrpcPanicked message /\ errors s' = errors s.
Proof.
  cbn zeta. destruct (parse_addr (grpc_addr config)) eqn:Ha; do 2 eexists.
  all: split; [cbn; by rewrite Ha|]. all: split; [done|]. all: intros ms s' Hms Hr.
  all: by eapply unnoticed in Hr as (? & ? & ? & ?); [|reflexivity|reflexivity|exact Hms].
Qed.
End ProcessTheorems.

(** ** Witnesses *)

Module HostRunnerWitness.
Import HostRunner HostModel.

Definition config : HostRunnerConfig :=
  mkHostRunnerConfig (Log.mkLogConfig false false) DEFAULT_ADDRESS 5001 DEFAULT_ADDRESS 5002 DEFAULT_ADDRESS 5004 10000 8080.

(** The application asks for an input and is waiting for one when the HTTP server ends. *)
Definition story : list Move := [GrpcStart; Call_ (CFinish Accept); ControllerTurn false; HttpEnd None].
Definition ending : list Move :=
  [MainStep; MainStep; ControllerTurn true; ControllerTurn false; MainStep; MainStep; GrpcEnd None; GrpcCheck; MainStep].
Definition stopping : Process := default initial_process (HostRunner.run (fun _ => true) config story initial_process).
Definition stopped : Process := default stopping (HostRunner.run (fun _ => true) config ending stopping).

Lemma host_process_safe_witness :
  main stopped = Exited /\ grpc stopped = GrpcReturned /\ errors stopped = [] /\
  http_service_running stopped = false /\ sys_state (controller stopped) = None.
Proof.
  assert (process_reachable (fun _ => true) config stopped) as Hr by (exists (story ++ ending); reflexivity).
  destruct (host_process_safe (fun _ => true) config stopped Hr) as (_ & _ & _ & _ & Hret & _ & Hex).
  split; [reflexivity|]. split; [reflexivity|]. split; [reflexivity|]. split; [apply Hret; reflexivity|].
  apply Hex. reflexivity.
Defined.

Lemma host_shutdown_completes_witness :
  main stopping = Selected /\
  exists ms s', Forall inner ms /\ HostRunner.run (fun _ => true) config ms stopping = Some s' /\ main s' = Exited.
Proof.
  split; [reflexivity|].
  destruct (host_shutdown_completes (fun _ => true) config stopping) as [Hend _];
    [exists story; reflexivity|discriminate|exact Hend].
Defined.
End HostRunnerWitness.

