(* ===== verification/NodeProcess.v ===== *)
(** * The process of the node

    [main] of [cmd/cartesi-rollups-node/main.go]: the configuration, the setup and
    the supervisor, one after the other, and the status with which the process
    exits. The log and the time that the start took are left out. *)

From S2P Require Import Prelude Codecs Supervisor Node.
Import Config Services.

(** ** [main.go] *)

Module NodeMain.
(** The status of a Go program that panics. *)
Definition panic_status : Z := 2.

Section Main.
Context `{HexCrate}.
Variable getChainId : string -> outcome string Z.
Variable GetTemplateHash : string -> string -> outcome string (list byte).
Variable ReadHash : string -> string -> outcome string (list byte).
Variable Environ : list string.
Variable LookupEnv : string -> option string.
Variable ReadFile : string -> outcome string string.

(** [start] is the result of the supervisor, whose context the signals cancel. *)
Definition main (start : list Service -> option GoError) : Z :=
  match FromEnv LookupEnv ReadFile with
  | Ok config =>
      match Setup getChainId GetTemplateHash ReadHash Environ config "" with
      | Ok supervisor => match start supervisor with Some _ => 1 | None => 0 end
      | Err _ => 1
      | Panic => panic_status
      end
  | _ => panic_status
  end.
End Main.
End NodeMain.

Section MainTheorems.
Import Supervisor.
Variable n : nat.

(** What happens in an orderly shutdown, from the cancellation on: services end
    without an error or because of the cancellation, no time runs out, and the
    process [i] returns what [Start] of a service returns that had not returned
    when its context was cancelled. *)
Definition orderly (i : nat) (e : Event) : Prop :=
  match e with
  | ServiceExit j err =>
      (err = None \/ err = Some ContextCanceled) /\
      (j = i -> exists es c c', CommandRun.ctx_cancelled c = true /\ CommandRun.returned c = None /\
         CommandRun.run es c = Some c' /\ CommandRun.returned c' = Some err)
  | ReadyTimeout | StopTimeout => False
  | _ => True
  end.

(** Only the cancellation can have been an error, and it was one, unless the
    process [i] still runs. *)
Record cancelling (i : nat) (s : Sup) : Prop := {
  c_timed_out : serviceTimedOut s = false;
  c_error : group_err s = None \/ group_err s = Some ContextCanceled;
  c_process : group_err s = Some ContextCanceled \/ exists svc, started s !! i = Some svc /\ exited svc = None;
  c_returned r : phase s = Returned r -> r = Some ContextCanceled;
}.

Lemma continue_cancelling i s : cancelling i s -> cancelling i (continue_ n s).
Proof.
  intros [Ht He Hp Hr]. unfold continue_. destruct (Nat.ltb _ _); split; cbn; try done.
  destruct Hp as [?|(svc & Hsvc & ?)]; [by left|right]. exists svc. split; [by apply lookup_app_l_Some|done].
Qed.

Lemma exit_cancelling i j err svc s : cancelling i s -> orderly i (ServiceExit j err) -> started s !! j = Some svc ->
  cancelling i (mkSup (phase s) (<[j := mkSvc (sent_ready svc) (Some err)]> (started s))
    (ctx_done s || bool_decide (is_Some err)) (match group_err s with Some e => Some e | None => err end)
    (serviceTimedOut s) (ready s)).
Proof.
  intros [Ht He Hp Hr] [Herr Hi] Hj. split; cbn; try done.
  - destruct He as [-> | ->]; [done|by right].
  - destruct Hp as [-> |(svc' & Hsvc' & Hex)]; [by left|]. destruct (decide (j = i)) as [-> |Hne].
    + destruct (Hi eq_refl) as (es & c & c' & Hc & Hret & Hrun & Hend).
      rewrite (command_cancelled es c c' err Hc Hret Hrun Hend). left. by destruct He as [-> | ->].
    + right. exists svc'. by rewrite list_lookup_insert_ne.
Qed.

Lemma next_cancelling i e s s' : orderly i e -> cancelling i s -> next n e s = Some s' -> cancelling i s'.
Proof.
  intros He Hs. destruct e as [j|j err| | | | | | |]; cbn; try done.
  - destruct (started s !! j) as [svc|] eqn:Hj; [|done]. cbn. intros [= <-]. destruct Hs as [Ht Hg Hp Hr]. split; cbn; try done.
    destruct Hp as [?|(svc' & Hsvc' & Hex)]; [by left|right]. destruct (decide (j = i)) as [-> |Hne].
    + exists (mkSvc true (exited svc)). simplify_eq. rewrite list_lookup_insert_eq by (by eapply lookup_lt_Some). done.
    + exists svc'. by rewrite list_lookup_insert_ne.
  - destruct (started s !! j) as [svc|] eqn:Hj; [|done]. cbn. destruct (exited svc); [done|]. intros [= <-].
    by apply exit_cancelling with (j := j).
  - intros [= <-]. by destruct Hs.
  - destruct (phase s) as [k| | |]; try done. destruct (started s !! k) as [svc|]; [|done]. cbn.
    destruct (sent_ready svc); [|done]. intros [= <-]. by apply continue_cancelling.
  - destruct (phase s) as [k| | |]; try done. destruct (ctx_done s); [|done]. intros [= <-]. by destruct Hs.
  - destruct (phase s) as [k| | |]; try done. destruct (ctx_done s); [|done]. intros [= <-]. by destruct Hs.
  - destruct (phase s) as [k| | |]; try done. destruct (forallb _ _) eqn:Hall; [|done]. intros [= <-].
    destruct Hs as [Ht Hg Hp Hr]. split; cbn; try done. rewrite Ht. intros r [= <-].
    destruct Hp as [?|(svc & Hsvc & Hex)]; [done|]. rewrite forallb_forall in Hall.
    specialize (Hall svc ltac:(by apply list_elem_of_In, (list_elem_of_lookup_2 _ i))). by rewrite Hex in Hall.
Qed.

Lemma run_cancelling i es s s' : Forall (orderly i) es -> cancelling i s -> run n es s = Some s' -> cancelling i s'.
Proof.
  intros Hes. revert s. induction Hes as [|e es He _ IH]; intros s Hs; cbn; [by intros [= <-]|].
  destruct (next n e s) as [s1|] eqn:Hn; [|done]. cbn. apply IH. by eapply next_cancelling.
Qed.

(** C39. A signal makes the node exit with an error. When a signal cancels the
    context of the supervisor, no service has failed and the command of one
    of the processes runs, then the supervisor returns the cancellation as its
    error, however orderly all services end, and the node exits with the
    status of a failure. *)
Theorem signal_exit_status `{HexCrate} getChainId GetTemplateHash ReadHash Environ LookupEnv ReadFile
    config services i process before after svc s0 s r :
  FromEnv LookupEnv ReadFile = Ok config ->
  Setup getChainId GetTemplateHash ReadHash Environ config "" = Ok services ->
  n = length services -> services !! i = Some (Process process) ->
  run n before (init n) = Some s0 -> ctx_done s0 = false -> started s0 !! i = Some svc -> exited svc = None ->
  Forall (orderly i) after -> run n (ParentCancelled :: after) s0 = Some s -> phase s = Returned r ->
  r = Some ContextCanceled /\
  NodeMain.main getChainId GetTemplateHash ReadHash Environ LookupEnv ReadFile (fun _ => r) = 1.
Proof.
  intros HF HS _ _ Hbefore Hd Hi Hex Hafter Hrun Hph.
  assert (Hok : sup_ok n s0) by (apply reachable_sup_ok; by exists before).
  assert (cancelling i s) as Hc.
  { eapply run_cancelling; [|
      |exact Hrun]; [by constructor|]. destruct Hok as [_ _ _ _ Hg Ht _ Hret].
    assert (group_err s0 = None) as Hg0 by (destruct (group_err s0); [destruct Hg; congruence|done]).
    split; [|by left|right; by exists svc|].
    - destruct (serviceTimedOut s0); [|done]. by rewrite (Ht eq_refl) in Hd.
    - intros r0 Hr0. destruct (Hret r0 Hr0). congruence. }
  assert (r = Some ContextCanceled) as -> by by apply (c_returned i s Hc). split; [done|].
  unfold NodeMain.main. by rewrite HF, HS.
Qed.
End MainTheorems.

(** ** Witness *)

Module NodeMainWitness.
Import Supervisor HexRef.

(** The signal comes when Redis, the first service, is about to be ready. *)
Definition before : list Event := [ServiceReady 0].
Definition after : list Event :=
  [TakeDone; CtxDone; ServiceExit 0 (Command.Start None (Some ContextCanceled)); AllExited].
Definition getChainId (_ : string) : outcome string Z := Ok 31337.
Definition GetTemplateHash (_ _ : string) : outcome string (list byte) := Ok NodeWitness.hash.
Definition services : list Service :=
  match Setup getChainId GetTemplateHash GetTemplateHash [] NodeWitness.sample_node "" with Ok l => l | _ => [] end.
Definition up : Sup := default (init 9) (run 9 before (init 9)).
Definition over : Sup := default up (run 9 (ParentCancelled :: after) up).

Lemma signal_exit_status_witness :
  phase over = Returned (Some ContextCanceled) /\
  NodeMain.main getChainId GetTemplateHash GetTemplateHash [] NodeWitness.sample_env NodeWitness.no_files
    (fun _ => Some ContextCanceled) = 1.
Proof.
  split; [reflexivity|].
  apply (signal_exit_status 9 getChainId GetTemplateHash GetTemplateHash [] NodeWitness.sample_env NodeWitness.no_files
    NodeWitness.sample_node services 0 (newRedis [] NodeWitness.sample_node "") before after (mkSvc true None) up over
    (Some ContextCanceled)); try reflexivity.
  repeat (apply Forall_cons; split); try exact I; [|apply Forall_nil_2].
  split; [right; reflexivity|]. intros _.
  exists [CommandRun.Hook; CommandRun.ChildExit None; CommandRun.Return_], (CommandRun.mkRun CommandRun.Running true 0 true 0 None).
  eexists. repeat (split; [reflexivity|]). reflexivity.
Defined.
End NodeMainWitness.
