(* ===== verification/Generator.v ===== *)
(** * The generator of the configuration

    [internal/node/config/generate]: the program that reads [Config.toml] and
    writes the getters of the configuration ([generated.go]) and their
    documentation. The decoder of TOML and [golang.org/x/text/cases] are outside of
    the repository: the decoded file and the casing of a word are parameters. The
    getters it writes for the file of the repository are compared with those of
    [Node.Config], which the node runs. [go/format] only changes white space and
    is left out. *)

From Stdlib Require Import Ascii.
From S2P Require Import Prelude Codecs Supervisor Node.
Import Command Config.

Module Generator.

(** ** [env.go] *)

Record Env := mkEnv {
  Name : string;
  Default : option string;
  GoType : string;
  Description : string;
}.
Definition set_Name (name : string) (e : Env) : Env := mkEnv name (Default e) (GoType e) (Description e).

Definition validate (e : Env) : outcome string unit :=
  if String.eqb (GoType e) "" then Panic
  else if String.eqb (Description e) "" then Panic
  else Ok tt.

(** ** [helpers.go] *)

Abbreviation configTOML := (gmap string (gmap string Env)).

(** [sort.Strings] *)
Definition Strings (l : list string) : list string := merge_sort String.le l.

(** The loops over maps: Go visits the entries of a map in any order, so that the
    orders are arguments. The loop over a topic names its variables, which are
    pointers, in place. *)
Definition name_envs (topic : gmap string Env) (order : list string) : list string * gmap string Env :=
  foldl (fun '(envs, topic) name => (envs ++ [name], alter (set_Name name) name topic)) ([], topic) order.

Definition collect_topics (config : configTOML) (order : list string) (orders : string -> list string)
    : list string * gmap string (list string) * configTOML :=
  foldl (fun '(topics, mapping, config) name =>
      let '(envs, topic) := name_envs (default ∅ (config !! name)) (orders name) in
      (topics ++ [name], <[name := Strings envs]> mapping, <[name := topic]> config))
    ([], ∅, config) order.

Definition sortConfig (config : configTOML) (order : list string) (orders : string -> list string)
    : outcome string (list Env) :=
  let '(topics, mapping, config) := collect_topics config order orders in
  let keys := topic ← Strings topics; name ← default [] (mapping !! topic); [(topic, name)] in
  (** a variable that is missing is a [nil] pointer *)
  collect (fun '(topic, name) => unwrap (default ∅ (config !! topic) !! name)) keys.

(** ** [code.go] *)

(** [strings.Split(s, "_")] *)
Fixpoint split_words (word : string) (s : string) : list string :=
  match s with
  | EmptyString => [word]
  | String c s => if Ascii.eqb c "_" then word :: split_words "" s else split_words (word +:+ String c "") s
  end.
Definition Split (s : string) : list string := split_words "" s.

Definition lower (c : ascii) : bool := let n := nat_of_ascii c in Nat.leb 97 n && Nat.leb n 122.
Definition upper (c : ascii) : bool := let n := nat_of_ascii c in Nat.leb 65 n && Nat.leb n 90.
Definition to_upper (c : ascii) : ascii := if lower c then ascii_of_nat (nat_of_ascii c - 32) else c.
Definition to_lower (c : ascii) : ascii := if upper c then ascii_of_nat (nat_of_ascii c + 32) else c.

(** [strings.ToUpper(s[:1]) + s[1:]]; the type of a variable is in ASCII. *)
Definition toGoFunc (goType : string) : outcome string string :=
  match goType with
  | EmptyString => Panic
  | String c rest => Ok ("to" +:+ String (to_upper c) rest)
  end.

Definition newline : string := String "010" "".
Definition tab : string := String "009" "".
Definition quote (s : string) : string := String "034" s +:+ String "034" "".
Definition backtick (s : string) : string := String "096" s +:+ String "096" "".

Section Code.
(** [cases.Title(language.English).String] *)
Variable title : string -> string.

Definition toFunctionName (env : string) : string := foldr String.append "" (title <$> tail (Split env)).

(** The text of a getter *)
Definition getter_code (e : Env) : outcome string string :=
  to ← toGoFunc (GoType e);
  let line k text := newline +:+ Nat.iter k (String.append tab) text in
  Ok (newline +:+ "func get" +:+ toFunctionName (Name e) +:+ "() " +:+ GoType e +:+ " {" +:+
    line 1%nat ("s, ok := os.LookupEnv(" +:+ quote (Name e) +:+ ")") +:+
    line 1%nat "if !ok {" +:+
    match Default e with
    | Some d => line 2%nat ("s = " +:+ quote d)
    | None => line 2%nat ("panic(" +:+ quote ("missing env var " +:+ Name e) +:+ ")")
    end +:+
    line 1%nat "}" +:+
    line 1%nat ("val, err := " +:+ to +:+ "(s)") +:+
    line 1%nat "if err != nil {" +:+
    line 2%nat ("panic(fmt.Sprintf(" +:+ quote ("failed to parse " +:+ Name e +:+ ": %v") +:+ ", err))") +:+
    line 1%nat "}" +:+
    line 1%nat "return val" +:+
    newline +:+ "}" +:+ newline).

(** ** [docs.go] *)

Definition docs_header : string :=
"<!--
File generated by internal/config/generate.
DO NOT EDIT.
-->

<!-- markdownlint-disable line_length -->
# Node Configuration

The node is configurable through environment variables.
(There is no other way to configure it.)

This file documents the configuration options.

<!-- markdownlint-disable MD012 -->".

Definition docs_section (e : Env) : string :=
  newline +:+ newline +:+ "## " +:+ backtick (Name e) +:+ newline +:+ newline +:+ Description e +:+
  newline +:+ newline +:+ "* **Type:** " +:+ backtick (GoType e) +:+
  match Default e with
  | Some d => newline +:+ "* **Default:** " +:+ backtick (quote d)
  | None => ""
  end.

Definition generateDocs (envs : list Env) : string :=
  docs_header +:+ foldr String.append "" (docs_section <$> envs) +:+ newline.

(** The part of the code after the fixed text of the template *)
Definition generateCode (envs : list Env) : outcome string string :=
  getters ← collect getter_code envs;
  Ok (foldr String.append "" getters).

(** ** [main.go] *)

Definition main (config : configTOML) (order : list string) (orders : string -> list string)
    : outcome string (string * string) :=
  envs ← sortConfig config order orders;
  collect validate envs ;;
  let docs := generateDocs envs in
  code ← generateCode envs;
  Ok (docs, code).
End Code.

(** ** What a getter does *)

(** The values of the types of the variables *)
Inductive GoValue :=
| GoBool (b : bool)
| GoInt (z : Z)
| GoInt64 (z : Z)
| GoUint64 (z : Z)
| GoString (s : string)
| GoDuration (ns : Z)
| GoLogLevel (l : Level)
| GoAuthKind (k : AuthKind).

Definition as_value {A} (f : A -> GoValue) (o : outcome string A) : outcome string GoValue := a ← o; Ok (f a).

Section Meaning.
Variable LookupEnv : string -> option string.
(** [time.ParseDuration] *)
Variable ParseDuration : string -> outcome string Z.

(** The aliases that the getters use; [None]: the code does not compile. *)
Definition alias (name : string) : option (string -> outcome string GoValue) :=
  if String.eqb name "toBool" then Some (fun s => as_value GoBool (toBool s))
  else if String.eqb name "toInt" then Some (fun s => as_value GoInt (toInt s))
  else if String.eqb name "toInt64" then Some (fun s => as_value GoInt64 (toInt64 s))
  else if String.eqb name "toUint64" then Some (fun s => as_value GoUint64 (toUint64 s))
  else if String.eqb name "toString" then Some (fun s => as_value GoString (toString s))
  else if String.eqb name "toDuration" then Some (fun s => as_value GoDuration (ParseDuration (s +:+ "s")))
  else if String.eqb name "toLogLevel" then Some (fun s => as_value GoLogLevel (toLogLevel s))
  else if String.eqb name "toAuthKind" then Some (fun s => as_value GoAuthKind (toAuthKind s))
  else None.

(** What the code of [getter_code] does *)
Definition run_getter (e : Env) : option (outcome string GoValue) :=
  match toGoFunc (GoType e) with
  | Ok name => to ← alias name; Some (getter LookupEnv (Name e) (Default e) to)
  | _ => None
  end.
End Meaning.
End Generator.

(** ** The order of the variables *)

Section SortTheorems.
Import Generator.

(** What [sortConfig] promises: the topics in order, and in each its variables in order. *)
Definition sorted_config (config : configTOML) : list Env :=
  topic ← Strings (map_to_list config).*1;
  name ← Strings (map_to_list (default ∅ (config !! topic))).*1;
  option_list (set_Name name <$> default ∅ (config !! topic) !! name).

Lemma Strings_perm l l' : l ≡ₚ l' -> Strings l = Strings l'.
Proof.
  intros Hl. apply (Sorted_unique String.le); [apply (Sorted_merge_sort _); apply _..|].
  unfold Strings. by rewrite !merge_sort_Permutation.
Qed.

Lemma name_envs_spec topic order : exists topic', name_envs topic order = (order, topic') /\
  forall name, topic' !! name = (if bool_decide (name ∈ order) then set_Name name <$> topic !! name else topic !! name).
Proof.
  unfold name_envs. induction order as [|name order IH] using rev_ind; [by exists topic|].
  destruct IH as (topic' & Heq & Ht). rewrite foldl_app, Heq. cbn. eexists. split; [done|]. intros n.
  destruct (decide (n = name)) as [-> |Hne].
  - rewrite lookup_alter_eq, Ht, (bool_decide_eq_true_2 (name ∈ order ++ [name])) by set_solver.
    case_bool_decide; [|done]. by destruct (topic !! name).
  - rewrite lookup_alter_ne, Ht by done. replace (bool_decide (n ∈ order ++ [name])) with (bool_decide (n ∈ order)); [done|].
    apply bool_decide_ext. set_solver.
Qed.

Lemma collect_topics_spec config order orders : NoDup order -> exists mapping config',
  collect_topics config order orders = (order, mapping, config') /\
  (forall t, t ∈ order -> mapping !! t = Some (Strings (orders t)) /\
     exists topic, config' !! t = Some topic /\
       forall n, n ∈ orders t -> topic !! n = set_Name n <$> default ∅ (config !! t) !! n) /\
  (forall t, t ∉ order -> config' !! t = config !! t).
Proof.
  unfold collect_topics. induction order as [|t order IH] using rev_ind; intros Hnd; [exists ∅, config; split_and!; [done|intros ? []%elem_of_nil|done]|].
  apply NoDup_app in Hnd as (Hnd & Hfresh & _). destruct (IH Hnd) as (mapping & config' & Heq & Hin & Hout). clear IH.
  rewrite foldl_app, Heq. cbn. assert (Ht : t ∉ order) by set_solver. rewrite (Hout t Ht).
  destruct (name_envs_spec (default ∅ (config !! t)) (orders t)) as (topic & -> & Htopic). do 2 eexists. split; [done|].
  split; intros u Hu.
  - destruct (decide (u = t)) as [-> |Hne].
    + split; [by rewrite lookup_insert_eq|]. exists topic. split; [by rewrite lookup_insert_eq|]. intros n Hn.
      by rewrite Htopic, bool_decide_eq_true_2.
    + destruct (Hin u) as (Hm & topic' & Hc & Hn); [set_solver|]. split; [by rewrite lookup_insert_ne|].
      exists topic'. by rewrite lookup_insert_ne.
  - rewrite lookup_insert_ne by set_solver. apply Hout. set_solver.
Qed.

Lemma collect_bind {A B} (g : A -> outcome string B) (f : A -> list B) l :
  (forall x, x ∈ l -> exists y, g x = Ok y /\ f x = [y]) -> collect g l = Ok (x ← l; f x).
Proof.
  induction l as [|x l IH]; intros Hf; [done|]. cbn. destruct (Hf x) as (y & -> & ->); [by left|]. cbn.
  rewrite IH; [done|]. intros z Hz. apply Hf. by right.
Qed.

Lemma bind_pairs {A B C} (l : list A) (h : A -> list B) (F : A * B -> list C) :
  ((x ← l; y ← h x; [(x, y)]) ≫= F) = (x ← l; y ← h x; F (x, y)).
Proof.
  induction l as [|x l IH]; [done|]. rewrite !bind_cons, bind_app, IH. f_equal.
  induction (h x) as [|y ys IHy]; [done|]. rewrite !bind_cons. cbn. by rewrite IHy.
Qed.

(** The orders in which Go may visit the maps *)
Definition visits (config : configTOML) (order : list string) (orders : string -> list string) : Prop :=
  order ≡ₚ (map_to_list config).*1 /\
  forall t topic, config !! t = Some topic -> orders t ≡ₚ (map_to_list topic).*1.

Lemma elem_of_keys {A} (m : gmap string A) k : k ∈ (map_to_list m).*1 <-> is_Some (m !! k).
Proof.
  rewrite list_elem_of_fmap. split.
  - intros ([k' a] & -> & H%elem_of_map_to_list). by exists a.
  - intros [a Ha]. exists (k, a). split; [done|]. by apply elem_of_map_to_list.
Qed.

Lemma sortConfig_spec config order orders : visits config order orders ->
  sortConfig config order orders = Ok (sorted_config config).
Proof.
  intros [Ho Hos]. destruct (collect_topics_spec config order orders) as (mapping & config' & Heq & Hin & _).
  { rewrite Ho. apply NoDup_fst_map_to_list. }
  unfold sortConfig. rewrite Heq.
  assert (Hkeys : forall t n, t ∈ order -> n ∈ orders t ->
    default ∅ (config' !! t) !! n = set_Name n <$> default ∅ (config !! t) !! n /\ is_Some (default ∅ (config !! t) !! n)).
  { intros t n Ht Hn. destruct (Hin t Ht) as (_ & topic & Htopic & Hnames). rewrite Htopic. cbn. split; [by apply Hnames|].
    rewrite Ho in Ht. apply elem_of_keys in Ht as [topic0 Ht0]. rewrite Ht0. cbn. apply elem_of_keys. by rewrite <- (Hos t topic0). }
  set (F := fun x : string * string => option_list (set_Name x.2 <$> default ∅ (config !! x.1) !! x.2)).
  rewrite (collect_bind _ F), bind_pairs.
  - f_equal. unfold sorted_config. rewrite (Strings_perm _ _ Ho). apply Forall_bind_ext, Forall_forall. intros t Ht.
    assert (Ht' : t ∈ order) by (rewrite Ho; revert Ht; unfold Strings; by rewrite merge_sort_Permutation).
    destruct (Hin t Ht') as [-> _]. cbn. rewrite Ho in Ht'. apply elem_of_keys in Ht' as [topic Htopic].
    rewrite (Strings_perm _ _ (Hos t topic Htopic)), Htopic. apply list_bind_ext; [|done]. intros n. unfold F. cbn. by rewrite Htopic.
  - intros [t n] Hx. apply list_elem_of_bind in Hx as (t' & Hx & Ht). apply list_elem_of_bind in Hx as (n' & Hx & Hn).
    apply list_elem_of_singleton in Hx as [= -> ->]. unfold Strings in Ht. rewrite merge_sort_Permutation in Ht.
    destruct (Hin t' Ht) as [Hm _]. rewrite Hm in Hn. cbn in Hn. unfold Strings in Hn. rewrite merge_sort_Permutation in Hn.
    destruct (Hkeys t' n' Ht Hn) as [Hc [e He]]. exists (set_Name n' e). unfold F. cbn. by rewrite Hc, He.
Qed.

(** C30. The generated files are deterministic. Whatever orders Go visits the maps
    in, [sortConfig] gives the same list and does not panic: the topics sorted, and
    in each topic its variables sorted, each of them under its own name. So the
    documentation and the code that [main] writes do not depend on the orders. *)
Theorem config_order_deterministic title config order orders order' orders' :
  visits config order orders -> visits config order' orders' ->
  sortConfig config order orders = Ok (sorted_config config) /\
  (forall e, e ∈ sorted_config config <->
     exists t topic name e0, config !! t = Some topic /\ topic !! name = Some e0 /\ e = set_Name name e0) /\
  Generator.main title config order orders = Generator.main title config order' orders'.
Proof.
  intros Hv Hv'. split; [by apply sortConfig_spec|]. split; [|unfold Generator.main; by rewrite !sortConfig_spec].
  intros e. unfold sorted_config, Strings. rewrite list_elem_of_bind. setoid_rewrite list_elem_of_bind.
  setoid_rewrite merge_sort_Permutation. split.
  - intros (t & (name & He & Hn) & Ht). apply elem_of_keys in Ht as [topic Ht]. rewrite Ht in *. cbn in *.
    apply elem_of_keys in Hn as [e0 He0]. rewrite He0 in He. cbn in He. apply list_elem_of_singleton in He as ->. by exists t, topic, name, e0.
  - intros (t & topic & name & e0 & Ht & He0 & ->). exists t. rewrite Ht. cbn. split; [|apply elem_of_keys; by rewrite Ht].
    exists name. rewrite He0. cbn. split; [by apply list_elem_of_singleton|]. apply elem_of_keys. by rewrite He0.
Qed.
End SortTheorems.

(** ** The getters of the repository *)

Section Generated.
Import Generator.
(** The descriptions of the variables, which the getters do not use *)
Variable description : string -> string.

Definition variable (name : string) (default_ : option string) (goType : string) : string * Env :=
  (name, mkEnv "" default_ goType (description name)).

(** [Config.toml] *)
Definition config_toml : configTOML := list_to_map [
  ("logging", list_to_map [
    variable "CARTESI_LOG_LEVEL" (Some "info") "LogLevel";
    variable "CARTESI_LOG_PRETTY" (Some "false") "bool"]);
  ("features", list_to_map [
    variable "CARTESI_FEATURE_HOST_MODE" (Some "false") "bool";
    variable "CARTESI_FEATURE_DISABLE_CLAIMER" (Some "false") "bool";
    variable "CARTESI_FEATURE_DISABLE_MACHINE_HASH_CHECK" (Some "false") "bool"]);
  ("rollups", list_to_map [
    variable "CARTESI_EPOCH_LENGTH" (Some "7200") "uint64"]);
  ("blockchain", list_to_map [
    variable "CARTESI_BLOCKCHAIN_ID" None "uint64";
    variable "CARTESI_BLOCKCHAIN_HTTP_ENDPOINT" None "string";
    variable "CARTESI_BLOCKCHAIN_WS_ENDPOINT" None "string";
    variable "CARTESI_BLOCKCHAIN_IS_LEGACY" (Some "false") "bool";
    variable "CARTESI_BLOCKCHAIN_FINALITY_OFFSET" (Some "10") "int";
    variable "CARTESI_BLOCKCHAIN_BLOCK_TIMEOUT" (Some "60") "int"]);
  ("contracts", list_to_map [
    variable "CARTESI_CONTRACTS_APPLICATION_ADDRESS" None "string";
    variable "CARTESI_CONTRACTS_HISTORY_ADDRESS" None "string";
    variable "CARTESI_CONTRACTS_AUTHORITY_ADDRESS" None "string";
    variable "CARTESI_CONTRACTS_INPUT_BOX_ADDRESS" None "string";
    variable "CARTESI_CONTRACTS_INPUT_BOX_DEPLOYMENT_BLOCK_NUMBER" None "int64"]);
  ("snapshot", list_to_map [
    variable "CARTESI_SNAPSHOT_DIR" None "string"]);
  ("auth", list_to_map [
    variable "CARTESI_AUTH_KIND" (Some "mnemonic") "AuthKind";
    variable "CARTESI_AUTH_PRIVATE_KEY" None "string";
    variable "CARTESI_AUTH_PRIVATE_KEY_FILE" None "string";
    variable "CARTESI_AUTH_MNEMONIC" None "string";
    variable "CARTESI_AUTH_MNEMONIC_FILE" None "string";
    variable "CARTESI_AUTH_MNEMONIC_ACCOUNT_INDEX" (Some "0") "int";
    variable "CARTESI_AUTH_AWS_KMS_KEY_ID" None "string";
    variable "CARTESI_AUTH_AWS_KMS_REGION" None "string"]);
  ("postgres", list_to_map [
    variable "CARTESI_POSTGRES_ENDPOINT" (Some "") "string"]);
  ("http", list_to_map [
    variable "CARTESI_HTTP_ADDRESS" (Some "127.0.0.1") "string";
    variable "CARTESI_HTTP_PORT" (Some "10000") "int"]);
  ("experimental", list_to_map [
    variable "CARTESI_EXPERIMENTAL_SUNODO_VALIDATOR_ENABLED" (Some "false") "bool";
    variable "CARTESI_EXPERIMENTAL_SUNODO_VALIDATOR_REDIS_ENDPOINT" None "string";
    variable "CARTESI_EXPERIMENTAL_SERVER_MANAGER_BYPASS_LOG" (Some "false") "bool"])].

(** A word of capital letters and digits, and its title case *)
Definition capitals (w : string) : bool :=
  forallb (fun c => upper c || (Nat.leb 48 (nat_of_ascii c) && Nat.leb (nat_of_ascii c) 57)) (String.list_ascii_of_string w).
Fixpoint map_string (f : ascii -> ascii) (s : string) : string :=
  match s with EmptyString => "" | String c s => String (f c) (map_string f s) end.
Definition capitalise (w : string) : string :=
  match w with EmptyString => "" | String c rest => String (to_upper c) (map_string to_lower rest) end.

Variable title : string -> string.
Hypothesis title_word : forall w, capitals w = true -> title w = capitalise w.
Variable LookupEnv : string -> option string.
Variable ParseDuration : string -> outcome string Z.

Lemma function_name name : forallb capitals (tail (Split name)) = true ->
  toFunctionName title name = toFunctionName capitalise name.
Proof.
  intros Hw. unfold toFunctionName. f_equal. rewrite forallb_forall in Hw. apply list_fmap_ext.
  intros i w Hi. apply title_word, Hw, list_elem_of_In. by apply list_elem_of_lookup_2 in Hi.
Qed.

Lemma getter_value {A} (f : A -> GoValue) key d (to : string -> outcome string A) :
  getter LookupEnv key d (fun s => as_value f (to s)) = as_value f (getter LookupEnv key d to).
Proof. unfold getter. destruct (unwrap _) as [s| |]; cbn; [|done..]. by destruct (to s). Qed.

Definition described : Prop := forall name, description name <> "".

Lemma collect_some {A B} (g : A -> outcome string B) l : Forall (fun x => is_ok (g x) = true) l ->
  is_ok (collect g l) = true.
Proof.
  induction 1 as [|x l Hx _ IH]; [done|]. cbn. destruct (g x); [|done..]. cbn. by destruct (collect g l).
Qed.

Lemma config_toml_valid : described ->
  Forall (fun e => is_ok (validate e) = true /\ is_ok (getter_code title e) = true) (sorted_config config_toml).
Proof.
  intros Hd. assert (Hvalid : forall e n, Description e = description n -> GoType e <> "" ->
    is_ok (validate e) = true /\ is_ok (getter_code title e) = true).
  { intros e n He Ht. unfold validate, getter_code. rewrite He. destruct (GoType e); [done|]. cbn.
    destruct (String.eqb_spec (description n) ""); [by destruct (Hd n)|done]. }
  let envs := eval vm_compute in (sorted_config config_toml) in
  replace (sorted_config config_toml) with envs by (vm_compute; reflexivity).
  repeat (apply Forall_cons; split; [eapply Hvalid; [reflexivity|discriminate]|]). constructor.
Qed.

Lemma config_toml_words :
  Forall (fun e => forallb capitals (tail (Split (Name e))) = true) (sorted_config config_toml).
Proof. apply (bool_decide_unpack _). vm_compute. exact I. Qed.

(** The getters in the order of [generated.go] *)
Definition getters : list (string * outcome string GoValue) := [
   ("AuthAwsKmsKeyId", as_value GoString (getAuthAwsKmsKeyId LookupEnv));
   ("AuthAwsKmsRegion", as_value GoString (getAuthAwsKmsRegion LookupEnv));
   ("AuthKind", as_value GoAuthKind (getAuthKind LookupEnv));
   ("AuthMnemonic", as_value GoString (getAuthMnemonic LookupEnv));
   ("AuthMnemonicAccountIndex", as_value GoInt (getAuthMnemonicAccountIndex LookupEnv));
   ("AuthMnemonicFile", as_value GoString (getAuthMnemonicFile LookupEnv));
   ("AuthPrivateKey", as_value GoString (getAuthPrivateKey LookupEnv));
   ("AuthPrivateKeyFile", as_value GoString (getAuthPrivateKeyFile LookupEnv));
   ("BlockchainBlockTimeout", as_value GoInt (getBlockchainBlockTimeout LookupEnv));
   ("BlockchainFinalityOffset", as_value GoInt (getBlockchainFinalityOffset LookupEnv));
   ("BlockchainHttpEndpoint", as_value GoString (getBlockchainHttpEndpoint LookupEnv));
   ("BlockchainId", as_value GoUint64 (getBlockchainId LookupEnv));
   ("BlockchainIsLegacy", as_value GoBool (getBlockchainIsLegacy LookupEnv));
   ("BlockchainWsEndpoint", as_value GoString (getBlockchainWsEndpoint LookupEnv));
   ("ContractsApplicationAddress", as_value GoString (getContractsApplicationAddress LookupEnv));
   ("ContractsAuthorityAddress", as_value GoString (getContractsAuthorityAddress LookupEnv));
   ("ContractsHistoryAddress", as_value GoString (getContractsHistoryAddress LookupEnv));
   ("ContractsInputBoxAddress", as_value GoString (getContractsInputBoxAddress LookupEnv));
   ("ContractsInputBoxDeploymentBlockNumber", as_value GoInt64 (getContractsInputBoxDeploymentBlockNumber LookupEnv));
   ("ExperimentalServerManagerBypassLog", as_value GoBool (getExperimentalServerManagerBypassLog LookupEnv));
   ("ExperimentalSunodoValidatorEnabled", as_value GoBool (getExperimentalSunodoValidatorEnabled LookupEnv));
   ("ExperimentalSunodoValidatorRedisEndpoint", as_value GoString (getExperimentalSunodoValidatorRedisEndpoint LookupEnv));
   ("FeatureDisableClaimer", as_value GoBool (getFeatureDisableClaimer LookupEnv));
   ("FeatureDisableMachineHashCheck", as_value GoBool (getFeatureDisableMachineHashCheck LookupEnv));
   ("FeatureHostMode", as_value GoBool (getFeatureHostMode LookupEnv));
   ("HttpAddress", as_value GoString (getHttpAddress LookupEnv));
   ("HttpPort", as_value GoInt (getHttpPort LookupEnv));
   ("LogLevel", as_value GoLogLevel (getLogLevel LookupEnv));
   ("LogPretty", as_value GoBool (getLogPretty LookupEnv));
   ("PostgresEndpoint", as_value GoString (getPostgresEndpoint LookupEnv));
   ("EpochLength", as_value GoUint64 (getEpochLength LookupEnv));
   ("SnapshotDir", as_value GoString (getSnapshotDir LookupEnv))].

Lemma config_toml_getters :
  ((fun e => (toFunctionName capitalise (Name e), run_getter LookupEnv ParseDuration e)) <$> sorted_config config_toml) =
  (prod_map id Some <$> getters).
Proof.
  let envs := eval vm_compute in (sorted_config config_toml) in
  replace (sorted_config config_toml) with envs by (vm_compute; reflexivity).
  unfold getters, prod_map. cbn [fmap list_fmap fst snd id].
  repeat (apply (f_equal2 cons); [apply (f_equal2 pair); [vm_compute; reflexivity|];
    match goal with |- _ = Some (as_value ?f ?g) => let g' := eval red in g in change g with g' end;
    rewrite <- getter_value; reflexivity|]). reflexivity.
Qed.

End Generated.

(** ** Witnesses *)

Module GeneratorWitness.
Import Generator.

Definition description (_ : string) : string := "text".
Abbreviation config := (config_toml description).

(** The orders of [map_to_list] *)
Definition order : list string := (map_to_list config).*1.
Definition orders (topic : string) : list string := (map_to_list (default ∅ (config !! topic))).*1.

Lemma visits_config : visits config order orders /\ visits config (reverse order) (reverse ∘ orders).
Proof.
  split; split.
  - reflexivity.
  - intros t topic Ht. unfold orders. rewrite Ht. reflexivity.
  - apply reverse_Permutation.
  - intros t topic Ht. unfold compose, orders. rewrite Ht. apply reverse_Permutation.
Qed.

Lemma config_order_deterministic_witness :
  Generator.main capitalise config order orders = Generator.main capitalise config (reverse order) (reverse ∘ orders).
Proof.
  destruct visits_config as [H1 H2].
  destruct (config_order_deterministic capitalise config order orders (reverse order) (reverse ∘ orders) H1 H2) as (_ & _ & H).
  exact H.
Defined.

End GeneratorWitness.
