(* ===== verification/Pipeline.v ===== *)
(** * The services together

    The dispatcher, the advance-runner and the indexer are processes of their own
    ([offchain/dispatcher/src/dispatcher.rs], [offchain/advance-runner/src/lib.rs] and
    [runner.rs], [offchain/indexer/src/indexer.rs]) that share one broker; the
    GraphQL server reads the database that the indexer fills. This file composes
    them: the state of the node is the broker, the server-manager, the database
    and the private state of each service that is up, and an action is the setup
    or one iteration of the main loop of one service, or its end. Actions come in
    any order, so that services overlap, stop at any point between two iterations,
    and start again.

    What one service assumes of another is proved here of the other: the
    advance-runner needs a well-formed inputs stream, which the dispatcher
    writes; the indexer needs the input of an output to be in the broker before
    the output, which the advance-runner ensures; the reader needs the rows of
    the database to be those of the streams. *)

From S2P Require Import Prelude Codecs Retry Events Broker InputBox Dispatcher DispatcherBroker Grpc AdvanceRunner.
From S2P Require Import Pagination Repository GraphQL Indexer.
Import Schema IndexerConversions.

(** ** The loop of the dispatcher, item by item *)

Definition dispatcher_iteration {B} `{SD : BrokerSend B} (server : StateServer) (initial_state : InputBoxInitialState)
    (machine_driver : MachineDriver.MachineDriver) (item : option SubscriptionItem)
    : M (Context * B) DispatcherError unit :=
  match item with
  | Some (Ok (NewBlock b)) => process_block server b initial_state machine_driver
  | Some (Ok (Reorg _)) => fail (DispatcherWhatever "deep blockchain reorg")
  | Some (Err _) => mret tt
  | Some Panic => lift Panic
  | None => fail (DispatcherWhatever "subscription closed")
  end.

Lemma main_loop_as_iterations {B} `{SD : BrokerSend B} server init driver items (s : Context * B) :
  main_loop server init driver items s =
  (dispatcher_iteration server init driver (head items) ;; main_loop server init driver (tail items)) s.
Proof. by destruct items as [|[[b|bs]|e|] items]. Qed.

(** ** The node *)

Section Node.
Context {R S D : Type} `{Redis R, ServerManager S, Postgres D, Retry, HexCrate, Keccak}.
Context `{Json RollupsInput, Json RollupsOutput, Json RollupsClaim}.
(** The clients of the broker, the server-manager and the database *)
Variable connect_single : string -> M R RedisError unit.
Variable connect_cluster : list string -> M R RedisError unit.
Variable connect_manager : string -> M S string unit.
Variable pg_establish : string -> M D string unit.
Variable run_pending_migrations : M D string unit.
(** The configuration of the services *)
Variable server : StateServer.
Variables (config : DispatcherConfig) (metrics : DispatcherMetrics).
Variables (manager_config : ServerManagerFacade.Config) (repository_config : RepositoryConfig).
Variables (timeout : Z) (reader : bool).

(** The services are configured with one broker and one application. *)
Let endpoint : BrokerEndpoint := cfg_redis_endpoint config.
Let metadata : DAppMetadata := config_metadata config.

(** The stores that the services share, and what each service that is up keeps. *)
Record State := mkState {
  broker : R;
  machine : S;
  database : D;
  dispatcher : option (Context * list SubscriptionItem);
  runner : option RunnerBroker.BrokerFacade;
  indexer : option BrokerIndexer.IndexerState;
}.

Inductive Process := Dispatcher_ | Runner_ | Indexer_.

Inductive Action :=
| Start (service : Process)
| React
| Turn (polls : nat)
| Iterate (polls : nat)
| Kill (service : Process).

(** A service whose setup or iteration fails stops. *)
Definition still_up {E A B} (o : outcome E A) (b : B) : option B :=
  match o with Ok _ => Some b | _ => None end.
Definition came_up {E A} (o : outcome E A) : option A :=
  match o with Ok a => Some a | _ => None end.

Definition start_service (service : Process) (s : State) : State :=
  match service with
  | Dispatcher_ =>
      let '(o, r) := DispatcherBroker.setup server connect_single connect_cluster config metrics (broker s) in
      mkState r (machine s) (database s) (came_up o) (runner s) (indexer s)
  | Runner_ =>
      let '(o, (m, r)) := Service.setup connect_manager connect_single connect_cluster manager_config endpoint
        metadata reader (machine s, broker s) in
      mkState r m (database s) (dispatcher s) (came_up o) (indexer s)
  | Indexer_ =>
      let '(o, (r, d)) := Indexer.setup pg_establish run_pending_migrations connect_single connect_cluster
        repository_config endpoint metadata (broker s, database s) in
      mkState r (machine s) d (dispatcher s) (runner s) (came_up o)
  end.

Definition kill (service : Process) (s : State) : State :=
  match service with
  | Dispatcher_ => mkState (broker s) (machine s) (database s) None (runner s) (indexer s)
  | Runner_ => mkState (broker s) (machine s) (database s) (dispatcher s) None (indexer s)
  | Indexer_ => mkState (broker s) (machine s) (database s) (dispatcher s) (runner s) None
  end.

Definition is_up (service : Process) (s : State) : bool :=
  match service with
  | Dispatcher_ => bool_decide (is_Some (dispatcher s))
  | Runner_ => bool_decide (is_Some (runner s))
  | Indexer_ => bool_decide (is_Some (indexer s))
  end.

Definition react : option SubscriptionItem -> M (Context * R) DispatcherError unit :=
  dispatcher_iteration (SD := BrokerFacade.facade_send (config_stream config)) server (config_init config)
    (MachineDriver.new (cfg_dapp_address config)).
Definition turn (polls : nat) : M (S * (RunnerBroker.BrokerFacade * R)) Runner.RunnerError bool :=
  Runner.turn timeout (dapp_address metadata) manager_config polls.
Definition iterate (polls : nat) : M ((BrokerIndexer.IndexerState * R) * D) Indexer.IndexerError unit :=
  Indexer.iteration timeout polls.

Definition exec (action : Action) (s : State) : State :=
  match action with
  | Start service => if is_up service s then s else start_service service s
  | React =>
      match dispatcher s with
      | Some (c, items) =>
          let '(o, (c', r)) := react (head items) (c, broker s) in
          mkState r (machine s) (database s) (still_up o (c', tail items)) (runner s) (indexer s)
      | None => s
      end
  | Turn polls =>
      match runner s with
      | Some f =>
          let '(o, (m, (f', r))) := turn polls (machine s, (f, broker s)) in
          mkState r m (database s) (dispatcher s) (still_up o f') (indexer s)
      | None => s
      end
  | Iterate polls =>
      match indexer s with
      | Some st =>
          let '(o, ((st', r), d)) := iterate polls ((st, broker s), database s) in
          mkState r (machine s) d (dispatcher s) (runner s) (still_up o st')
      | None => s
      end
  | Kill service => kill service s
  end.

Definition run (actions : list Action) (s : State) : State := foldl (fun s a => exec a s) s actions.
End Node.
Arguments State : clear implicits.

(** ** What the advance-runner writes *)

Section RunnerEffects.
Context {S R : Type} `{SM : ServerManager S} `{RL : RedisLaws R sole_producer} `{AA : !RedisAtomicAdd R sole_producer}.
Context `{RT : RetryLaws} `{KC : Keccak} `{HL : HexCrateLaws}.
Context `{JI : JsonLaws RollupsInput} `{JO : JsonLaws RollupsOutput} `{JC : JsonLaws RollupsClaim}.
Variables (timeout : Z) (config : ServerManagerFacade.Config) (metadata : DAppMetadata).
Import RunnerBroker.

Abbreviation ki := (RollupsInputsStream_new metadata).
Abbreviation ko := (RollupsOutputsStream_new metadata).
Abbreviation kc := (RollupsClaimsStream_new (chain_id metadata)).

Lemma keys_distinct : ki <> ko /\ ki <> kc /\ ko <> kc.
Proof.
  destruct (stream_keys_distinct metadata metadata "rollups-inputs" "rollups-outputs" (chain_id metadata) 0)
    as (Hio & _ & Hic).
  split_and!; [by intros [_ ?]%Hio|done|].
  apply (stream_keys_distinct metadata metadata "rollups-outputs" "" (chain_id metadata) 0).
Qed.

(** The row [k] of the inputs is that of an event of the inputs stream. *)
Definition in_stream (r : R) (k : Z) : Prop := exists e (p : RollupsInput) row,
  e ∈ entries r ki /\ holds e p /\ row_of_input p = Some row /\ Data.in_index row = k.

Lemma in_stream_same r r' k : entries r' ki = entries r ki -> in_stream r k -> in_stream r' k.
Proof. unfold in_stream. by intros ->. Qed.

(** What the runner keeps: an output is in the broker only if its input is, and
    outputs can be read, and there is at most one claim per epoch, in the order of
    the epochs. *)
Definition runner_kept (r : R) : Prop :=
  timely ki ko r /\ Forall (fun e => exists q : RollupsOutput, holds e q) (entries r ko) /\
  exists cs, claims_ok kc cs r.

Lemma runner_kept_same r r' : (forall k, entries r' k = entries r k) -> runner_kept r -> runner_kept r'.
Proof. unfold runner_kept, timely, claims_ok. intros E. by rewrite !E. Qed.

(** More inputs do no harm. *)
Lemma runner_kept_inputs r r' : entries r ki `prefix_of` entries r' ki ->
  (forall k, k <> ki -> entries r' k = entries r k) -> runner_kept r -> runner_kept r'.
Proof.
  destruct keys_distinct as (Hio & Hic & _). intros [more Hmore] E (Ht & Ho & cs & Hc).
  split; [|split; [by rewrite E|exists cs; unfold claims_ok; by rewrite E]]. intros e q k. rewrite (E ko) by done. intros He Hq Hk.
  destruct (Ht e q k He Hq Hk) as (e' & p & row & He' & ?). exists e', p, row.
  split; [|done]. rewrite Hmore. apply elem_of_app. by left.
Qed.

(** The state of the broker after the runner has stored something. *)
Definition fed (r r' : R) : Prop :=
  entries r' ki = entries r ki /\ entries r ko `prefix_of` entries r' ko /\ runner_kept r'.

#[local] Instance fed_trans : Transitive fed.
Proof. intros r1 r2 r3 (E1 & P1 & _) (E2 & P2 & K). split; [congruence|]. split; [by etrans|done]. Qed.

Lemma fed_refl r : runner_kept r -> fed r r.
Proof. done. Qed.

Lemma fed_grows r r' : runner_kept r -> grows sole_producer r r' -> fed r r'.
Proof.
  intros K G. assert (forall k, entries r' k = entries r k) as E by (intros k; by apply G).
  split; [apply E|]. split; [by rewrite E|by eapply runner_kept_same].
Qed.

Lemma holds_inj {P} `{Json P} (e : StreamId) (p q : P) : holds e p -> holds e q -> p = q.
Proof. unfold holds. intros -> [= ->]. done. Qed.

Lemma wp_feed_output q r :
  runner_kept r -> (forall k, about q = Some k -> in_stream r k) ->
  wp (Broker.produce ko q) r (fun _ r' => fed r r') (fun _ r' => fed r r').
Proof.
  destruct keys_distinct as (Hio & _ & Hoc). intros K Hq.
  apply wp_produce_atomic; [done| |intros e r'; by apply fed_grows].
  intros e r' He Hr Hoth. assert (entries r' ki = entries r ki) as Ei by by apply Hoth.
  destruct K as (Ht & Ho & cs & Hc). split; [done|]. split; [rewrite Hr; by apply prefix_app_r|]. split; [|split].
  - intros e' q' k. rewrite Hr, Ei. intros [He'| ->%list_elem_of_singleton]%elem_of_app Hq' Hk.
    + by eapply Ht.
    + rewrite (holds_inj _ _ _ Hq' He) in Hk. by apply Hq.
  - rewrite Hr. apply Forall_app. split; [done|]. apply Forall_singleton. eauto.
  - exists cs. unfold claims_ok. by rewrite Hoth.
Qed.

Lemma wp_feed_outputs outs f r :
  outputs_stream f = ko -> runner_kept r -> Forall (fun q => forall k, about q = Some k -> in_stream r k) outs ->
  wp (produce_outputs outs) (f, r) (fun _ s' => s'.1 = f /\ fed r s'.2) (fun _ s' => s'.1 = f /\ fed r s'.2).
Proof.
  intros Hf K Houts. unfold produce_outputs. wp_run. cbn. rewrite Hf.
  eapply wp_mono; [apply (wp_for_each (fun rest s' => (s'.1 = f /\ fed r s'.2) /\
    Forall (fun q => forall k, about q = Some k -> in_stream r k) rest)
    _ _ _ (fun _ s' => s'.1 = f /\ fed r s'.2)); [done|]|by intros ? ? [? _]|done].
  intros q rest [f' r'] [[Hf' F] [Hq Hrest]%Forall_cons]. cbn in Hf', F. subst f'. wp_run.
  pose proof F as (E & _ & K').
  eapply wp_mono; [apply (wp_feed_output q r' K')| |]; cbn.
  - intros k Hk. eapply in_stream_same; [exact E|auto].
  - intros id r2 Hr2. wp_run. split; [split; [done|by etrans]|done].
  - intros e r2 Hr2. split; [done|by etrans].
Qed.

Lemma wp_feed_claim c f r :
  claims_stream f = kc -> runner_kept r ->
  wp (produce_rollups_claim c) (f, r) (fun _ s' => s'.1 = f /\ fed r s'.2) (fun _ s' => s'.1 = f /\ fed r s'.2).
Proof.
  destruct keys_distinct as (_ & Hic & Hoc). intros Hf (Ht & Ho & cs & Hcs). rewrite <-Hf in Hcs.
  assert (Hdone : forall r' cs', claims_ok (claims_stream f) cs' r' ->
    (forall k, True -> k <> claims_stream f -> entries r' k = entries r k) -> fed r r').
  { intros r' cs' Hc' E. rewrite Hf in *. split; [by apply E|]. split; [by rewrite E|].
    split; [unfold timely; by rewrite !E by done|]. split; [by rewrite E|by exists cs']. }
  eapply wp_mono; [by apply (wp_claim_increasing (owned := sole_producer) f r cs c)| |].
  - intros _ [f' r'] [[-> Hc'] E]. split; [done|]. by eapply Hdone.
  - intros e [f' r'] [(-> & Hc' & _) E]. split; [done|]. by eapply Hdone.
Qed.

(** An event whose row the runner and the indexer number alike: the runner takes
    the index from the count of the inputs, the indexer from the metadata. *)
Definition well_numbered (p : RollupsInput) : Prop :=
  match ri_data p with
  | AdvanceStateInput i => inputs_sent_count p ⊟ 1 = input_index (rai_metadata i) /\ is_Some (row_of_input p)
  | FinishEpoch => True
  end.

Lemma row_of_input_index (p : RollupsInput) i row :
  ri_data p = AdvanceStateInput i -> row_of_input p = Some row -> Data.in_index row = as_i32 (input_index (rai_metadata i)).
Proof.
  unfold row_of_input, convert_input, after_epoch. intros ->. destruct (_ <? _); [|done]. cbn. by intros [= <-].
Qed.

Lemma outputs_about idx p ds q : q ∈ outputs_spec idx p ds -> about q = Some (as_i32 idx).
Proof.
  unfold outputs_spec. intros [->|[Hq|Hq]%elem_of_app]%elem_of_cons; [done|..].
  - by apply elem_of_lookup_imap in Hq as (k & r & -> & _).
  - destruct (processed_input_one_of p) as [[vs ns|]|]; [|by apply elem_of_nil in Hq..].
    apply elem_of_app in Hq as [Hq|Hq]; apply elem_of_lookup_imap in Hq as (k & x & -> & _); [|done].
    by destruct x.
Qed.

Hypothesis manager_total : server_manager_total (S := S).
Abbreviation dapp := (dapp_address metadata).

Lemma wp_feed_advance e p s f r i :
  ri_data p = AdvanceStateInput i -> outputs_stream f = ko -> runner_kept r ->
  e ∈ entries r ki -> holds e p -> well_numbered p ->
  wp (Runner.handle_event dapp config p) (s, (f, r))
    (fun _ s' => s'.2.1 = f /\ fed r s'.2.2) (fun _ s' => s'.2.1 = f /\ fed r s'.2.2).
Proof.
  intros Hi Hf K He Hp. unfold well_numbered, Runner.handle_event, Runner.handle_advance. rewrite Hi.
  intros [Hidx [row Hrow]]. wp_run.
  pose proof (safe_advance_state config manager_total (ri_epoch_index p) (inputs_sent_count p ⊟ 1) (rai_metadata i)
    (rai_payload i) s) as Hs.
  unfold wp in Hs |- *. destruct (ServerManagerFacade.advance_state config _ _ _ _ s) as [[outs|err|] s1] eqn:Hrun;
    [|done|done]. cbn [fst snd].
  change (wp (on_snd (context Runner.ProduceOutputsError (produce_outputs outs))) (s1, (f, r))
    (fun _ s' => s'.2.1 = f /\ fed r s'.2.2) (fun _ s' => s'.2.1 = f /\ fed r s'.2.2)).
  wp_run. eapply wp_mono; [apply wp_feed_outputs; [done|done|]|done|done].
  apply advance_state_outputs in Hrun as (pi & ds & _ & -> & _). apply Forall_forall. intros q Hq k Hk.
  rewrite (outputs_about _ _ _ _ Hq) in Hk. injection Hk as <-. exists e, p, row.
  split; [done|]. split; [done|]. split; [done|]. rewrite Hidx. by apply (row_of_input_index p).
Qed.

Lemma wp_feed_finish p s f r :
  ri_data p = FinishEpoch -> outputs_stream f = ko -> claims_stream f = kc -> runner_kept r ->
  wp (Runner.handle_event dapp config p) (s, (f, r))
    (fun _ s' => s'.2.1 = f /\ fed r s'.2.2) (fun _ s' => s'.2.1 = f /\ fed r s'.2.2).
Proof.
  intros Hi Ho Hc K. unfold Runner.handle_event. rewrite Hi. unfold Runner.handle_finish, wp.
  pose proof (safe_finish_epoch dapp config manager_total (ri_epoch_index p) s) as Hs.
  unfold on_fst. unfold wp in Hs. cbn.
  destruct (ServerManagerFacade.finish_epoch dapp config (ri_epoch_index p) s)
    as [[[claim proofs]|err|] s1] eqn:Hrun; [|by destruct err|done].
  change (wp (on_snd (context Runner.ProduceOutputsError (produce_outputs proofs)) ;;
      on_snd (context Runner.ProduceClaimError (produce_rollups_claim claim))) (s1, (f, r))
    (fun _ s' => s'.2.1 = f /\ fed r s'.2.2) (fun _ s' => s'.2.1 = f /\ fed r s'.2.2)).
  wp_run. eapply wp_mono; [apply wp_feed_outputs; [done|done|]| |done].
  { apply finish_epoch_run in Hrun as (?&?&?&?&?&?&?&?&rps & _ & _ & _ & _ & _ & _ & _ & _ & _ & ->).
    apply Forall_fmap, Forall_true. by intros rp k. }
  intros _ [f2 r2] [Hf2 Hr2]. cbn in Hf2, Hr2. subst f2. wp_run.
  eapply wp_mono; [apply (wp_feed_claim claim f r2 Hc), Hr2|..]; intros ? [f3 r3] [Hf3 Hr3]; cbn in *; subst f3;
    (split; [done|by etrans]).
Qed.

Definition on_streams (f : BrokerFacade) : Prop :=
  inputs_stream f = ki /\ outputs_stream f = ko /\ claims_stream f = kc.

(** One turn of the runner *)
Lemma wp_feed_turn polls n s f r :
  on_streams f -> at_pos ki n f r -> runner_kept r ->
  (forall e (p : RollupsInput), e ∈ entries r ki -> holds e p -> well_numbered p) ->
  wp (Runner.turn timeout dapp config polls) (s, (f, r))
    (fun _ s' => fed r s'.2.2 /\ on_streams s'.2.1 /\ exists n', at_pos ki n' s'.2.1 s'.2.2)
    (fun _ s' => fed r s'.2.2).
Proof.
  intros Hf Hpos K Hgood. unfold Runner.turn. wp_run. cbn.
  eapply wp_mono; [by apply (wp_consume_input (owned := sole_producer) timeout ki polls n f r)| |]; cbn.
  2:{ intros err [f' r'] (Hg & -> & _). by apply fed_grows. }
  intros [p|] [f1 r1] [Hg Hc]; cbn in *; wp_run; pose proof (fed_grows r r1 K Hg) as F1.
  2:{ subst f1. split; [done|]. split; [done|]. exists n. eapply at_pos_ext; [|done]. by apply (grows_ext (owned := sole_producer)). }
  destruct Hc as (Hpos1 & e & Hlook & Hp & Hf1). apply list_elem_of_lookup_2 in Hlook as He.
  assert (Hf1' : on_streams f1) by by subst f1.
  assert (Hwn : well_numbered p) by (apply (Hgood e); [by rewrite <-(proj1 F1)|done]).
  assert (Hrun : wp (Runner.handle_event dapp config p) (s, (f1, r1))
    (fun _ s' => s'.2.1 = f1 /\ fed r1 s'.2.2) (fun _ s' => s'.2.1 = f1 /\ fed r1 s'.2.2)).
  { destruct Hf1' as (_ & Ho & Hc), F1 as (_ & _ & K1). destruct (ri_data p) as [i|] eqn:Hi.
    - by eapply wp_feed_advance.
    - by apply wp_feed_finish. }
  wp_run. eapply wp_mono; [exact Hrun| |].
  - intros _ [s2 [f2 r2]] [Hf2 F2]. cbn in Hf2, F2. subst f2. wp_run. split; [by etrans|]. split; [done|].
    exists (n + 1)%nat. destruct Hpos1 as (? & ? & ?), F2 as [E2 _]. unfold at_pos. cbn. by rewrite E2.
  - intros err [s2 [f2 r2]] [_ F2]. by etrans.
Qed.
End RunnerEffects.

(** ** The invariant of the node *)

Section NodeTheorems.
Context {R S D : Type} `{RL : RedisLaws R sole_producer} `{AA : !RedisAtomicAdd R sole_producer}.
Context `{SM : ServerManager S} `{PL : PostgresLaws D tables eq}.
Context `{RT : RetryLaws} `{KC : Keccak} `{HL : HexCrateLaws}.
Context `{JI : JsonLaws RollupsInput} `{JO : JsonLaws RollupsOutput} `{JC : JsonLaws RollupsClaim}.
Context {connect_single : string -> M R RedisError unit} {connect_cluster : list string -> M R RedisError unit}.
Context {connect_manager : string -> M S string unit}.
Context {pg_establish : string -> M D string unit} {run_pending_migrations : M D string unit}.
Context {server : StateServer} {config : DispatcherConfig} {metrics : DispatcherMetrics}.
Context {manager_config : ServerManagerFacade.Config} {repository_config : RepositoryConfig}.
Context {timeout : Z} {reader : bool}.
(** The inputs of the application on the chain, and what the state server says *)
Context {all : list Input} {genesis : Block} {chunks : list (list SubscriptionItem)} {c0 : Context}.
Abbreviation driver := (MachineDriver.new (cfg_dapp_address config)).

Record environment : Prop := {
  (** Connecting does not panic, and changes neither a stream nor a row. *)
  connect_single_keeps : connects (owned := sole_producer) connect_single;
  connect_cluster_keeps : connects (owned := sole_producer) connect_cluster;
  connect_manager_total : forall e, safe (connect_manager e);
  pg_establish_keeps : forall e d,
    wp (pg_establish e) d (fun _ d' => tables d' = tables d) (fun _ d' => tables d' = tables d);
  migrations_keep : forall d,
    wp run_pending_migrations d (fun _ d' => tables d' = tables d) (fun _ d' => tables d' = tables d);
  (** The server-manager and the state server answer, be it with an error. *)
  manager_total : server_manager_total (S := S);
  manager_sessions : sessions_total (S := S);
  server_total :
    is_panic (from_shared server) = false /\ is_panic (DispatcherBroker.connect server) = false /\
    (forall n, is_panic (subscribe_blocks server n) = false) /\
    (forall n, is_panic (query_block server n) = false);
  (** The state server knows the block of the input box, and its subscription gives
      the blocks in order, with the inputs that the chain has at each. *)
  genesis_known : query_block server (cfg_input_box_deployment_block_number config) = Ok genesis;
  context_ok : Context.new (E := DispatcherError) (number genesis) (cfg_epoch_length config)
    (config_metadata config) metrics = Ok c0;
  subscribed : subscribe_blocks server (cfg_default_confirmations config) = Ok chunks;
  subscription_ok : items_ok server (config_init config) driver all (number genesis) (subscription_of chunks);
  (** The inputs come after that block, in the order of the blocks. Timestamps fit
      the [SystemTime] of the indexer and indices its 32-bit column. *)
  genesis_pos : 0 <= number genesis;
  all_after : Forall (fun i => number genesis <= number (block_added i)) all;
  all_timestamps : Forall (fun i => 0 <= block_timestamp (block_added i) < 2 ^ 63) all;
  all_small : Z.of_nat (length all) < 2 ^ 31;
  all_ordered : StronglySorted (fun i j => number (block_added i) <= number (block_added j)) all;
}.
Hypothesis env : environment.

Abbreviation metadata := (config_metadata config).
Abbreviation ki := (config_stream config).
Abbreviation ko := (RollupsOutputsStream_new (config_metadata config)).
Abbreviation kc := (RollupsClaimsStream_new (chain_id (config_metadata config))).
#[local] Instance node_log : BrokerLog R InputContent := facade_log ki.

(** The inputs stream is well formed, and part of the log that the chain determines. *)
Definition dispatched (r : R) : Prop := binv r /\ exists m, blog r `prefix_of` log_at all c0 m.

Definition dispatcher_ok (r : R) (up : option (Context * list SubscriptionItem)) : Prop :=
  match up with
  | Some (c, items) => exists m lo, reacted all c r m /\ same_config c0 c /\ m <= lo /\ number genesis <= lo /\
      items_ok server (config_init config) driver all lo items
  | None => True
  end.

Definition runner_ok (r : R) (up : option RunnerBroker.BrokerFacade) : Prop :=
  match up with Some f => on_streams metadata f /\ exists n, at_pos ki n f r | None => True end.

(** The tables are those of events of the streams, of which the indexer has read
    [ps] and [qs], [n] in all, since it started. *)
Definition database_at (r : R) (d : D) (up : option BrokerIndexer.IndexerState) (n : nat) : Prop :=
  exists ps0 qs0 ps qs,
    tables d = mirror (ps0 ++ ps) (qs0 ++ qs) /\ Forall (caused (ps0 ++ ps)) (qs0 ++ qs) /\
    Forall (fun p : RollupsInput => exists e, e ∈ entries r ki /\ holds e p) (ps0 ++ ps) /\
    match up with
    | Some st => (BrokerIndexer.inputs_stream st = ki /\ BrokerIndexer.outputs_stream st = ko) /\
        read_to r ki (BrokerIndexer.inputs_last_id st) ps /\ read_to r ko (BrokerIndexer.outputs_last_id st) qs /\
        n = (length ps + length qs)%nat
    | None => ps = [] /\ qs = []
    end.

Definition database_ok (r : R) (d : D) (up : option BrokerIndexer.IndexerState) : Prop := exists n, database_at r d up n.

Record node_ok (s : State R S D) : Prop := {
  ok_dispatched : dispatched (broker s);
  ok_dispatcher : dispatcher_ok (broker s) (dispatcher s);
  ok_kept : runner_kept metadata (broker s);
  ok_runner : runner_ok (broker s) (runner s);
  ok_database : database_ok (broker s) (database s) (indexer s);
}.

(** *** The inputs stream *)

Lemma reacted_frame r0 c r m : reacted (H0 := framed_log (owned := sole_producer) ki r0) all c r m <->
  spares (owned := sole_producer) ki r0 r /\ reacted all c r m.
Proof. unfold reacted, inv. cbn. tauto. Qed.

Lemma reacted_dispatched c r m : reacted all c r m -> same_config c0 c -> dispatched r.
Proof.
  intros ((_ & _ & _ & Hb & _) & _ & Hlog & _) Hcfg. split; [done|]. exists m.
  by rewrite Hlog, (log_at_same_config all c0 c).
Qed.

Lemma wp_node_react r c items :
  dispatched r -> dispatcher_ok r (Some (c, items)) ->
  wp (react server config (head items)) (c, r)
    (fun _ s' => (spares (owned := sole_producer) ki r s'.2 /\ dispatched s'.2) /\
       dispatcher_ok s'.2 (Some (s'.1, tail items)))
    (fun _ s' => spares (owned := sole_producer) ki r s'.2 /\ dispatched s'.2).
Proof.
  intros Hd (m & lo & Hr & Hcfg & Hm & Hlo & Hitems).
  assert (Hgen : Context.genesis_block c = number genesis).
  { destruct Hcfg as [-> _]. pose proof (context_ok env) as Hnew. unfold Context.new in Hnew. destruct (_ >? 0); [|done]. by injection Hnew as <-. }
  assert (Hsend : Forall (fun i => block_timestamp (block_added i) < 2 ^ 64) all).
  { eapply Forall_impl; [exact (all_timestamps env)|]. intros i Hi. cbn in *. lia. }
  unfold react, dispatcher_iteration.
  destruct items as [|[[blk|bs]|err|] items]; cbn [head tail items_ok] in *; try (wp_run; by split).
  - destruct Hitems as (Hb & Hq & Hok). unfold process_block. wp_run. unfold server_ok in Hq.
    destruct (query_state server (config_init config) (block_hash blk)) as [[b' box]|e|]; cbn [map_err]; [|by split|done].
    destruct Hq as [Hn Hbox]. wp_run.
    eapply wp_mono; [apply (wp_react_step (BL := framed_laws ki I r) driver all) with (m := m)|..].
    + exact Hsend.
    + pose proof (all_small env). lia.
    + exact (all_ordered env).
    + by apply reacted_frame.
    + rewrite <-Hn in Hb, Hbox. split; [cbn; lia|done].
    + lia.
    + rewrite Hgen. apply env.
    + intros _ [c' r'] [[Hsp Hr']%reacted_frame Hcfg']. cbn [fst snd].
      assert (same_config c0 c') by (by etrans). split; [split; [done|by eapply reacted_dispatched]|].
      exists (number b'), (number blk). split; [done|]. split; [done|]. split; [lia|]. split; [lia|done].
    + intros e [c' r'] [(_ & _ & _ & [Hb' Hsp] & _) Hpre]. cbn [fst snd]. split; [done|]. split; [done|].
      exists (number b'). rewrite <-(log_at_same_config all c0 c) by done. exact Hpre.
  - wp_run. split; [by split|]. by exists m, lo.
  - done.
Qed.

(** A restarted dispatcher finds either inputs, and stops, or an empty stream. *)
Lemma no_input_no_event r : dispatched r -> inputs_in (blog r) = 0 -> blog r = [].
Proof.
  intros [_ [m Hpre]] Hz.
  assert (Hfin : finish_after_input false (blog r)).
  { eapply finish_after_input_prefix; [exact Hpre|]. by apply expected_finish_after_input. }
  destruct (blog r) as [|[k i|] l]; [done| |by destruct Hfin].
  unfold inputs_in in Hz. rewrite filter_cons_True in Hz by done. cbn in Hz. lia.
Qed.

Lemma same_log r r' : entries r' ki = entries r ki -> binv r -> binv r' /\ blog r' = blog r.
Proof. exact (same_entries ki r r'). Qed.

Lemma same_dispatched r r' : entries r' ki = entries r ki -> dispatched r -> dispatched r'.
Proof. intros E [Hb Hm]. destruct (same_log r r' E Hb) as [Hb' Hlog]. split; [done|]. by rewrite Hlog. Qed.

Lemma same_dispatcher r r' up : entries r' ki = entries r ki -> dispatcher_ok r up -> dispatcher_ok r' up.
Proof.
  intros E. destruct up as [[c items]|]; [|done]. intros (m & lo & Hr & ?). exists m, lo. split; [|done].
  revert Hr. unfold reacted, inv. cbn. unfold decodes, events_of. by rewrite E.
Qed.

Lemma wp_dispatcher_setup r :
  dispatched r ->
  wp (DispatcherBroker.setup server connect_single connect_cluster config metrics) r
    (fun up r' => grows sole_producer r r' /\ dispatcher_ok r' (Some up)) (fun _ r' => grows sole_producer r r').
Proof.
  intros Hd. pose proof Hd as [Hb _].
  apply (wp_setup (owned := sole_producer) server config metrics connect_single connect_cluster I
    (connect_single_keeps env) (connect_cluster_keeps env) (server_total env) r); [done|done|].
  intros chunks' blk r' Hsub Hblk Hg Hz. rewrite (subscribed env) in Hsub. rewrite (genesis_known env) in Hblk.
  injection Hsub as <-. injection Hblk as <-. rewrite wp_lift, (context_ok env). split; [done|].
  assert (E : entries r' ki = entries r ki) by by apply Hg.
  destruct (same_log r r' E Hb) as [Hb' Hlog].
  assert (Hempty : blog r' = []) by (rewrite Hlog; by apply no_input_no_event).
  pose proof (context_ok env) as Hnew. eapply reacted_new in Hnew as [Hr _]; [|apply env|exact Hb'|exact Hempty|exact (all_after env)].
  exists (number genesis - 1), (number genesis). split; [exact Hr|]. split; [done|]. split; [lia|]. split; [done|apply env].
Qed.

(** The event carries the input of the chain. *)
Definition carries (i : RollupsAdvanceStateInput) (input : Input) : Prop :=
  msg_sender (rai_metadata i) = sender input /\ block_number (rai_metadata i) = number (block_added input) /\
  timestamp (rai_metadata i) = block_timestamp (block_added input) /\ rai_payload i = payload input /\
  rai_tx_hash i = tx_hash input.

Lemma event_in_log r e (p : RollupsInput) : e ∈ entries r ki -> holds e p ->
  exists pre post, events_of ki r = pre ++ mkEvent (sid e) p :: post.
Proof.
  intros (es1 & es2 & E)%list_elem_of_split Hp. unfold events_of. rewrite E, omap_app. cbn. unfold holds in Hp.
  rewrite Hp. eauto.
Qed.

Lemma dispatched_input r e (p : RollupsInput) i :
  dispatched r -> e ∈ entries r ki -> holds e p -> ri_data p = AdvanceStateInput i ->
  exists j input, all !! j = Some input /\ input_index (rai_metadata i) = Z.of_nat j /\
    inputs_sent_count p = Z.of_nat j + 1 /\ carries i input.
Proof.
  intros [[_ Hwf] [m Hpre]] He Hp Hi. destruct (event_in_log r e p He Hp) as (pre & post & Hev).
  assert (Hcount : inputs_sent_count p = input_index (rai_metadata i) + 1).
  { rewrite Hev in Hwf. apply stream_wf_app in Hwf as [_ Hwf]. destruct (stream_end _ _ _ pre) as [[? ?] n].
    cbn in Hwf. rewrite Hi in Hwf. destruct Hwf as (_ & _ & -> & -> & _). done. }
  assert (Hin : log_event (mkEvent (sid e) p) ∈ filter Dispatcher.is_input (log_at all c0 m)).
  { apply list_elem_of_filter. unfold log_event at 1. cbn. rewrite Hi. split; [done|].
    destruct Hpre as [rest ->]. apply elem_of_app. left. cbn. rewrite Hev, fmap_app. apply elem_of_app. right. left. }
  rewrite log_at_inputs in Hin. apply elem_of_lookup_imap in Hin as (j & input & Heq & Hj).
  unfold log_event in Heq. cbn in Heq. rewrite Hi in Heq. injection Heq as Hidx Hs Hb Ht Hpl Hh.
  exists j, input. rewrite <-Hidx. split; [|done].
  eapply prefix_lookup_Some; [exact Hj|]. apply (filter_le_prefix (fun i => number (block_added i))), env.
Qed.

Lemma dispatched_numbers r e (p : RollupsInput) :
  dispatched r -> e ∈ entries r ki -> holds e p -> well_numbered p.
Proof.
  intros Hd He Hp. unfold well_numbered. destruct (ri_data p) as [i|] eqn:Hi; [|done].
  destruct (dispatched_input r e p i Hd He Hp Hi) as (j & input & Hj & Hidx & Hn & _ & _ & Ht & _).
  apply lookup_lt_Some in Hj as Hlt. apply (Forall_lookup_1 _ _ _ _ (all_timestamps env)) in Hj. cbn in Hj.
  pose proof (all_small env). rewrite Hn, u64_sub_small by (unfold is_u64; lia). split; [lia|].
  unfold row_of_input. rewrite Hi. unfold convert_input, after_epoch. rewrite Ht, (proj2 (Z.ltb_lt _ _)) by lia. by eexists.
Qed.

(** *** The services keep the invariant *)

Lemma wp_runner_setup m r :
  wp (Service.setup connect_manager connect_single connect_cluster manager_config (cfg_redis_endpoint config)
        metadata reader) (m, r)
    (fun f s' => grows sole_producer r s'.2 /\ runner_ok s'.2 (Some f)) (fun _ s' => grows sole_producer r s'.2).
Proof.
  unfold Service.setup. wp_run.
  eapply wp_mono; [apply (wp_manager_new manager_config (manager_total env) connect_manager); apply env| |done].
  intros ? m' _. wp_run. unfold RunnerBroker.new. wp_run.
  apply (wp_broker_new (owned := sole_producer) _ _ _ _ _ _ (connect_single_keeps env) (connect_cluster_keeps env)); [|done].
  intros r' Hg. wp_run. split; [done|]. split; [done|]. exists O. split; [done|]. split; [lia|done].
Qed.

(** Why an iteration of the indexer fails: the broker or the database cannot be
    reached. *)
Definition unreachable (e : Indexer.IndexerError) : Prop :=
  (exists x, e = Indexer.BrokerError_ (ConnectionError x)) \/
  (exists x, e = Indexer.RepositoryError x /\ unavailable x).

Lemma event_decodes r err :
  dispatched r -> runner_kept metadata r ->
  ~ (undecodable (P := RollupsInput) ki err r \/ undecodable (P := RollupsOutput) ko err r).
Proof.
  intros [[Hd _] _] (_ & Ho & _) [(e & He & Herr)|(e & He & Herr)].
  - apply (proj1 (Forall_forall _ _) Hd) in He as [p Hp]. unfold holds in Hp. by rewrite Hp in Herr.
  - apply (proj1 (Forall_forall _ _) Ho) in He as [q Hq]. unfold holds in Hq. by rewrite Hq in Herr.
Qed.

Lemma database_at_prefix r r' d up n :
  entries r ki `prefix_of` entries r' ki -> entries r ko `prefix_of` entries r' ko ->
  database_at r d up n -> database_at r' d up n.
Proof.
  intros Pi Po (ps0 & qs0 & ps & qs & Ht & Hc & Hps & Hup). exists ps0, qs0, ps, qs. split; [done|]. split; [done|].
  split; [eapply Forall_impl; [exact Hps|]; intros p (e & He & Hp); exists e; split; [by eapply elem_of_prefix|done]|].
  destruct up as [st|]; [|done]. destruct Hup as (Hst & Hi & Ho & Hn). split; [done|].
  split; [|split; [|done]]; by eapply read_to_prefix.
Qed.

Lemma database_ok_prefix r r' d up :
  entries r ki `prefix_of` entries r' ki -> entries r ko `prefix_of` entries r' ko ->
  database_ok r d up -> database_ok r' d up.
Proof. intros Pi Po [n Hn]. exists n. by eapply database_at_prefix. Qed.

(** The indexer is gone, its rows stay. *)
Lemma database_ok_down r d up : database_ok r d up -> database_ok r d None.
Proof.
  intros (n & ps0 & qs0 & ps & qs & ? & ? & ? & _). exists n, (ps0 ++ ps), (qs0 ++ qs), [], []. by rewrite !app_nil_r.
Qed.

Lemma wp_store_input_event r st st' d ev n :
  dispatched r -> database_at r d (Some st) n -> consumed st (BrokerIndexer.Input ev) (st', r) ->
  wp (Indexer.spawn_blocking (Indexer.store_input (event_payload ev))) d
    (fun _ d' => database_at r d' (Some st') (n + 1)) (fun e d' => database_ok r d' None /\ unreachable e).
Proof.
  intros Hd (ps0 & qs0 & ps & qs & Ht & Hc & Hps & (Hki & Hko) & Hi & Ho & ->) (e & es & Hun & _ & Hh & Hst'). cbn [fst snd] in *.
  rewrite Hki in Hun. assert (He : e ∈ entries r ki) by (eapply entries_after_elem; rewrite Hun; left).
  assert (Hall : Forall (fun p : RollupsInput => exists e, e ∈ entries r ki /\ holds e p) (ps0 ++ ps ++ [event_payload ev])).
  { rewrite (assoc_L (++)). apply Forall_app. split; [done|]. apply Forall_singleton. eauto. }
  assert (Hcaused : Forall (caused (ps0 ++ ps ++ [event_payload ev])) (qs0 ++ qs)).
  { rewrite (assoc_L (++)). eapply Forall_impl; [exact Hc|]. intros q. apply caused_more. }
  eapply wp_mono; [exact (wp_store_input (event_payload ev) d _ _ Ht Hc)| |].
  - intros ? d' Hd'. exists ps0, qs0, (ps ++ [event_payload ev]), qs. rewrite <-(assoc_L (++)) in Hd'.
    do 3 (split; [done|]). subst st'. split; [done|].
    split; [by eapply read_to_next|]. split; [done|]. rewrite length_app. cbn. lia.
  - intros err d' [Hf Hd']. split.
    + rewrite <-(assoc_L (++)) in Hd'. destruct Hd' as [Hd'|Hd'];
        [exists O, (ps0 ++ ps)|exists O, (ps0 ++ ps ++ [event_payload ev])]; exists (qs0 ++ qs), [], []; by rewrite !app_nil_r.
    + destruct Hf as [(x & -> & Hx)|[-> (i & Hi' & Hlate)]]; [right; eauto|].
      destruct (dispatched_input r e _ i Hd He Hh Hi') as (j & input & Hj & _ & _ & _ & _ & Hts & _).
      apply (Forall_lookup_1 _ _ _ _ (all_timestamps env)) in Hj. cbn in Hj. lia.
Qed.

Lemma wp_store_output_event r st st' d ev n :
  runner_kept metadata r -> database_at r d (Some st) n -> consumed st (BrokerIndexer.Output ev) (st', r) ->
  wp (Indexer.spawn_blocking (Indexer.store_output (event_payload ev))) d
    (fun _ d' => database_at r d' (Some st') (n + 1)) (fun e d' => database_ok r d' None /\ unreachable e).
Proof.
  intros (Htimely & _) (ps0 & qs0 & ps & qs & Ht & Hc & Hps & (Hki & Hko) & Hi & Ho & ->)
    (Hdone & e & es & Hun & _ & Hh & Hst'). cbn [fst snd] in *. rewrite Hki in Hdone. rewrite Hko in Hun.
  assert (He : e ∈ entries r ko) by (eapply entries_after_elem; rewrite Hun; left).
  assert (Hcause : caused (ps0 ++ ps) (event_payload ev)).
  { intros k Hk. destruct (timely_caused _ _ _ _ _ _ _ Htimely Hi Hdone He Hh k Hk) as (p & row & Hp & ?).
    exists p, row. split; [by apply elem_of_app; right|done]. }
  assert (Hcaused : Forall (caused (ps0 ++ ps)) (qs0 ++ qs ++ [event_payload ev])).
  { rewrite (assoc_L (++)). apply Forall_app. split; [done|by apply Forall_singleton]. }
  eapply wp_mono; [exact (wp_store_output (event_payload ev) d _ _ Ht Hcause)| |]; rewrite <-(assoc_L (++)).
  - intros ? d' Hd'. exists ps0, qs0, ps, (qs ++ [event_payload ev]).
    do 3 (split; [done|]). subst st'. split; [done|].
    split; [done|]. split; [by eapply read_to_next|]. rewrite length_app. cbn. lia.
  - intros err d' [Hf Hd']. split.
    + destruct Hd' as [Hd'|Hd']; [exists O, (ps0 ++ ps), (qs0 ++ qs)|exists O, (ps0 ++ ps), (qs0 ++ qs ++ [event_payload ev])];
        exists [], []; by rewrite !app_nil_r.
    + destruct Hf as [(x & -> & Hx)|[-> []]]. right; eauto.
Qed.

Lemma wp_iterate polls r st d n :
  dispatched r -> runner_kept metadata r -> database_at r d (Some st) n ->
  wp (Indexer.iteration timeout polls) ((st, r), d)
    (fun _ s' => grows sole_producer r s'.1.2 /\ exists n', database_at s'.1.2 s'.2 (Some s'.1.1) n' /\
       ((0 < polls)%nat -> (Nat.min (n + 1) (length (entries r ki) + length (entries r ko)) <= n')%nat))
    (fun e s' => grows sole_producer r s'.1.2 /\ database_ok s'.1.2 s'.2 None /\ unreachable e).
Proof.
  intros Hd K Hdb. pose proof Hdb as (_ & _ & _ & _ & _ & _ & _ & (Hki & Hko) & _).
  assert (Hsame : forall r', grows sole_producer r r' ->
    dispatched r' /\ runner_kept metadata r' /\ database_at r' d (Some st) n).
  { intros r' Hg. split; [apply (same_dispatched r); [by apply Hg|done]|]. split; [by apply (fed_grows metadata r r' K Hg)|].
    apply (database_at_prefix r); [apply Hg..|done]. }
  unfold Indexer.iteration. wp_run. eapply wp_mono.
  - apply (wp_consume_event (owned := sole_producer)). rewrite Hki, Hko. by apply keys_distinct.
  - intros o [st' r'] [Hg Ho]. cbn in Hg. destruct (Hsame r' Hg) as (Hd' & K' & Hdb').
    destruct o as [[ev|ev]|]; wp_run.
    + eapply wp_mono; [by eapply (wp_store_input_event r')| |by intros].
      intros ? d' Hd2. split; [done|]. exists (n + 1)%nat. split; [done|lia].
    + eapply wp_mono; [by eapply (wp_store_output_event r')| |by intros].
      intros ? d' Hd2. split; [done|]. exists (n + 1)%nat. split; [done|lia].
    + destruct Ho as [Hst Hf]. cbn in Hst, Hf. subst st'. split; [done|]. exists n. split; [done|]. intros Hpos.
      destruct Hf as [[-> _]|[Hi Ho]]; [lia|]. rewrite Hki in Hi. rewrite Hko in Ho.
      destruct Hdb' as (_ & _ & ps & qs & _ & _ & _ & _ & Hri & Hro & ->).
      apply (read_to_done _ _ _ _ Hri), Forall2_length in Hi. apply (read_to_done _ _ _ _ Hro), Forall2_length in Ho.
      rewrite (proj2 (Hg ki) I) in Hi. rewrite (proj2 (Hg ko) I) in Ho. lia.
  - intros e [st' r'] (Hg & err & -> & Herr). cbn in Hg. destruct (Hsame r' Hg) as (Hd' & K' & Hdb'). cbn [fst snd].
    split; [done|]. split; [eapply database_ok_down; by exists n|]. left. destruct Herr as [[x ->]|Hu]; [by eexists|].
    unfold undecodable_event in Hu. rewrite Hki, Hko in Hu. cbn in Hu. by destruct (event_decodes r' err Hd' K').
Qed.

Lemma runner_ok_prefix r r' up : entries r ki `prefix_of` entries r' ki -> runner_ok r up -> runner_ok r' up.
Proof.
  destruct up as [f|]; [|done]. intros Hp [Hf [n Hn]]. split; [done|]. exists n. by eapply at_pos_prefix.
Qed.

(** The broker as a service that writes to the outputs and claims only leaves it *)
Lemma node_ok_fed s r' : node_ok s -> fed metadata (broker s) r' ->
  dispatched r' /\ dispatcher_ok r' (dispatcher s) /\ runner_kept metadata r' /\ runner_ok r' (runner s) /\
  database_ok r' (database s) (indexer s).
Proof.
  intros [Hd Hdi _ Hr Hdb] (E & P & K). change (entries r' ki = entries (broker s) ki) in E.
  assert (entries (broker s) ki `prefix_of` entries r' ki) by by rewrite E.
  split; [by eapply same_dispatched|]. split; [by eapply same_dispatcher|]. split; [done|].
  split; [by eapply runner_ok_prefix|by eapply database_ok_prefix].
Qed.

(** ... and as the dispatcher leaves it *)
Lemma node_ok_spares s r' : node_ok s -> spares (owned := sole_producer) ki (broker s) r' ->
  runner_kept metadata r' /\ runner_ok r' (runner s) /\ database_ok r' (database s) (indexer s).
Proof.
  intros [_ _ K Hr Hdb] [P E]. split; [by eapply runner_kept_inputs; [exact P|intros; by apply E|done]|].
  split; [by eapply runner_ok_prefix|]. apply (database_ok_prefix (broker s)); [done| |done].
  rewrite (E ko); [done| |done]. intros Heq. by destruct (keys_distinct metadata) as [[] _].
Qed.

Abbreviation exec_ := (exec connect_single connect_cluster connect_manager pg_establish run_pending_migrations server
  config metrics manager_config repository_config timeout reader).

Lemma start_dispatcher_ok s : node_ok s -> node_ok (exec_ (Start Dispatcher_) s).
Proof.
  intros Hs. cbn [exec]. destruct (is_up _ _); [done|]. cbn [start_service].
  pose proof (wp_dispatcher_setup (broker s) (ok_dispatched _ Hs)) as Hw. unfold wp in Hw.
  destruct (DispatcherBroker.setup _ _ _ _ _ _) as [[up|e|] r']; [destruct Hw as [Hg Hup]|pose proof Hw as Hg|done];
    destruct (node_ok_fed s r' Hs (fed_grows metadata _ _ (ok_kept _ Hs) Hg)) as (? & ? & ? & ? & ?); by split.
Qed.

Lemma start_runner_ok s : node_ok s -> node_ok (exec_ (Start Runner_) s).
Proof.
  intros Hs. cbn [exec]. destruct (is_up _ _); [done|]. cbn [start_service].
  pose proof (wp_runner_setup (machine s) (broker s)) as Hw. unfold wp in Hw.
  destruct (Service.setup _ _ _ _ _ _ _ _) as [[up|e|] [m' r']]; [destruct Hw as [Hg Hup]|pose proof Hw as Hg|done];
    destruct (node_ok_fed s r' Hs (fed_grows metadata _ _ (ok_kept _ Hs) Hg)) as (? & ? & ? & ? & ?); by split.
Qed.

Lemma start_indexer_ok s : node_ok s -> node_ok (exec_ (Start Indexer_) s).
Proof.
  intros Hs. cbn [exec]. destruct (is_up _ _); [done|]. cbn [start_service].
  pose proof (wp_indexer_setup metadata repository_config (cfg_redis_endpoint config) pg_establish
    run_pending_migrations connect_single connect_cluster (pg_establish_keeps env) (migrations_keep env) (connect_single_keeps env)
    (connect_cluster_keeps env) (broker s) (database s)) as Hw. unfold wp in Hw.
  assert (Hdb : forall r' d' up, grows sole_producer (broker s) r' -> tables d' = tables (database s) ->
    up = None \/ up = Some (BrokerIndexer.new metadata) -> node_ok (mkState r' (machine s) d' (dispatcher s) (runner s) up)).
  { intros r' d' up Hg Hd' Hup.
    destruct (node_ok_fed s r' Hs (fed_grows metadata _ _ (ok_kept _ Hs) Hg)) as (? & ? & ? & ? & Hdb).
    split; [done..|]. cbn. apply database_ok_down in Hdb as (? & ps0 & qs0 & ps & qs & Ht & Hc & Hps & -> & ->).
    exists O, ps0, qs0, [], []. rewrite Hd'. do 3 (split; [done|]).
    destruct Hup as [-> | ->]; [done|]. split; [done|]. split; [|split; [|done]]; apply read_to_start. }
  destruct (Indexer.setup _ _ _ _ _ _ _ _) as [[up|e|] [r' d']]; [|by apply Hdb; [apply Hw..|left]|done].
  destruct Hw as [[Hg Hd'] ->]. by apply Hdb; [..|right].
Qed.

Lemma exec_ok action s : node_ok s -> node_ok (exec_ action s).
Proof.
  intros Hs. destruct action as [[]| |polls|polls|[]].
  - by apply start_dispatcher_ok.
  - by apply start_runner_ok.
  - by apply start_indexer_ok.
  - cbn [exec]. destruct (dispatcher s) as [[c items]|] eqn:Hup; [|done].
    pose proof (ok_dispatcher _ Hs) as Hdi. rewrite Hup in Hdi.
    pose proof (wp_node_react (broker s) c items (ok_dispatched _ Hs) Hdi) as Hw. unfold wp in Hw.
    destruct (react _ _ _ _) as [[?|e|] [c' r']]; [destruct Hw as [[Hsp Hd] Hdi']|destruct Hw as [Hsp Hd]|done];
      destruct (node_ok_spares s r' Hs Hsp) as (? & ? & ?); by split.
  - cbn [exec]. destruct (runner s) as [f|] eqn:Hup; [|done].
    pose proof (ok_runner _ Hs) as Hr. rewrite Hup in Hr. destruct Hr as [Hf [n Hn]].
    pose proof (wp_feed_turn timeout manager_config metadata (manager_total env) polls n (machine s) f (broker s) Hf Hn
      (ok_kept _ Hs) (fun e p He Hp => dispatched_numbers _ e p (ok_dispatched _ Hs) He Hp)) as Hw. unfold wp in Hw.
    unfold turn. destruct (Runner.turn _ _ _ _ _) as [[b|e|] [m' [f' r']]]; [destruct Hw as (Hfed & Hf' & Hn')|pose proof Hw as Hfed|done];
      destruct (node_ok_fed s r' Hs Hfed) as (? & ? & ? & ? & ?); by split.
  - cbn [exec]. destruct (indexer s) as [st|] eqn:Hup; [|done].
    pose proof (ok_database _ Hs) as Hdb. rewrite Hup in Hdb. destruct Hdb as [n Hdb].
    pose proof (wp_iterate polls (broker s) st (database s) n (ok_dispatched _ Hs) (ok_kept _ Hs) Hdb) as Hw. unfold wp in Hw.
    unfold iterate. destruct (Indexer.iteration _ _ _) as [[?|e|] [[st' r'] d']];
      [destruct Hw as (Hg & n' & Hdb'%(ex_intro _ n') & _)|destruct Hw as (Hg & Hdb' & _)|done];
      destruct (node_ok_fed s r' Hs (fed_grows metadata _ _ (ok_kept _ Hs) Hg)) as (? & ? & ? & ? & ?); by split.
  - destruct Hs. by split.
  - destruct Hs. by split.
  - destruct Hs as [? ? ? ? Hdb]. split; [done..|]. by eapply database_ok_down.
Qed.

(** *** The node, whatever has happened *)

(** Nothing is running, and the broker and the database have nothing of the
    application. *)
Definition clean (s : State R S D) : Prop :=
  dispatcher s = None /\ runner s = None /\ indexer s = None /\
  entries (broker s) ki = [] /\ entries (broker s) ko = [] /\ entries (broker s) kc = [] /\
  tables (database s) = empty_tables.

Abbreviation run_ := (run connect_single connect_cluster connect_manager pg_establish run_pending_migrations server
  config metrics manager_config repository_config timeout reader).

Lemma clean_ok s : clean s -> node_ok s.
Proof.
  intros (Hdi & Hr & Hix & Ei & Eo & Ec & Ed). split; rewrite ?Hdi, ?Hr, ?Hix; try done.
  - unfold dispatched. cbn. unfold decodes, events_of. rewrite Ei. split; [done|]. exists 0. apply prefix_nil.
  - unfold runner_kept, timely, claims_ok. rewrite Eo, Ec. split; [intros e q k He; by apply elem_of_nil in He|].
    split; [done|]. exists []. by repeat constructor.
  - by exists O, [], [], [], [].
Qed.

Lemma node_run_ok actions s : node_ok s -> node_ok (run_ actions s).
Proof. revert s. induction actions as [|a actions IH]; intros s Hs; [done|]. by apply IH, exec_ok. Qed.

(** The row is that of the input of the chain. *)
Definition row_is (row : Data.Input) (input : Input) : Prop :=
  Data.in_msg_sender row = sender input /\ Data.in_payload row = payload input /\
  Data.in_tx_hash row = tx_hash input /\ Data.in_timestamp row = block_timestamp (block_added input) /\
  Data.in_block_number row = as_i64 (number (block_added input)).

Lemma database_tables s : node_ok s -> tables_ok (tables (database s)).
Proof. intros Hs. destruct (ok_database _ Hs) as (? & ? & ? & ? & ? & -> & Hc & _). by apply mirror_ok. Qed.

Lemma row_origin s k row : node_ok s -> t_inputs (tables (database s)) !! [k] = Some row ->
  Data.in_index row = k /\ 0 <= k /\ exists input, all !! Z.to_nat k = Some input /\ row_is row input.
Proof.
  intros Hs Hrow. destruct (ok_database _ Hs) as (? & ps0 & qs0 & ps & qs & Ht & _ & Hps & _). rewrite Ht in Hrow.
  apply mirror_input_origin in Hrow as (p & row0 & status & Hp & Hrow0 & [= Hk] & ->).
  apply (proj1 (Forall_forall _ _) Hps) in Hp as (e & He & Hp).
  unfold row_of_input in Hrow0. destruct (ri_data p) as [i|] eqn:Hi; [|done].
  destruct (dispatched_input _ e p i (ok_dispatched _ Hs) He Hp Hi) as (j & input & Hj & Hidx & _ & Hsd & Hb & Hts & Hpl & Hh).
  apply lookup_lt_Some in Hj as Hlt. unfold convert_input, after_epoch in Hrow0.
  destruct (timestamp (rai_metadata i) <? 2 ^ 63); [|done]. cbn in Hrow0. injection Hrow0 as <-. cbn in Hk.
  assert (Hkj : k = Z.of_nat j) by (rewrite <-Hk, Hidx; pose proof (all_small env); apply (swrap_small 32); lia).
  split; [by destruct status|]. split; [lia|]. exists input. split; [by rewrite Hkj, Nat2Z.id|].
  unfold row_is. destruct status; cbn; by rewrite Hsd, Hpl, Hh, Hts, Hb.
Qed.


Lemma decodes_events r : decodes ki r ->
  Forall2 (fun e (ev : Broker.Event RollupsInput) => event_id ev = sid e /\ holds e (event_payload ev))
    (entries r ki) (events_of ki r).
Proof.
  unfold decodes, events_of. induction 1 as [|e es [p Hp] _ IH]; [constructor|]. cbn. unfold holds in Hp. rewrite Hp.
  by constructor.
Qed.



(** *** The indexer catches up *)

Lemma input_count_small r j : dispatched r -> Z.of_nat j < inputs_in (blog r) -> Z.of_nat j < 2 ^ 31.
Proof.
  intros [_ [m [rest Hpre]]] Hj. pose proof (all_small env).
  assert (inputs_in (blog r) <= Z.of_nat (length all)); [|lia]. etrans.
  - apply (Z.le_trans _ (inputs_in (log_at all c0 m))); [|reflexivity]. rewrite Hpre, inputs_in_app.
    pose proof (inputs_in_nonneg rest). lia.
  - unfold inputs_in. rewrite log_at_inputs, length_imap.
    pose proof (length_filter (fun i => number (block_added i) <= m) all). unfold snapshot. lia.
Qed.

Lemma iterate_none polls n s : indexer s = None -> indexer (run_ (replicate n (Iterate polls)) s) = None.
Proof. revert s. induction n as [|n IH]; intros s Hs; [done|]. cbn. apply IH. by rewrite Hs. Qed.

(** The indexer alone, for as long as it is up *)
Lemma iterations polls n s m st :
  (0 < polls)%nat -> node_ok s -> indexer s = Some st -> database_at (broker s) (database s) (Some st) m ->
  let s' := run_ (replicate n (Iterate polls)) s in
  is_Some (indexer s') ->
  entries (broker s') ki = entries (broker s) ki /\ entries (broker s') ko = entries (broker s) ko /\
  exists m', database_at (broker s') (database s') (indexer s') m' /\
    (Nat.min (m + n) (length (entries (broker s) ki) + length (entries (broker s) ko)) <= m')%nat.
Proof.
  intros Hpolls. revert s m st. induction n as [|n IH]; intros s m st Hs Hup Hdb s' Hs'.
  { cbn in *. rewrite Hup. split; [done|]. split; [done|]. exists m. split; [done|lia]. }
  set (s1 := exec_ (Iterate polls) s). assert (Hs1 : node_ok s1) by by apply exec_ok.
  change s' with (run_ (replicate n (Iterate polls)) s1) in Hs' |- *.
  pose proof (wp_iterate polls (broker s) st (database s) m (ok_dispatched _ Hs) (ok_kept _ Hs) Hdb) as Hw.
  assert (Hrun : s1 = exec_ (Iterate polls) s) by done. cbn [exec] in Hrun. rewrite Hup in Hrun. unfold iterate, wp in *.
  destruct (Indexer.iteration timeout polls (st, broker s, database s)) as [[?|e|] [[st' r'] d']]; [| |done].
  2:{ rewrite iterate_none in Hs' by by rewrite Hrun. by destruct Hs'. }
  destruct Hw as (Hg & n' & Hdb' & Hn'). specialize (Hn' Hpolls). cbn [fst snd] in *.
  assert (Ei : entries (broker s1) ki = entries (broker s) ki) by (rewrite Hrun; by apply Hg).
  assert (Eo : entries (broker s1) ko = entries (broker s) ko) by (rewrite Hrun; by apply Hg).
  clearbody s1. destruct (IH s1 n' st' Hs1 ltac:(by rewrite Hrun) ltac:(by rewrite Hrun) Hs') as (Ei' & Eo' & m' & Hdb2 & Hm').
  rewrite Ei, Eo in *. split; [congruence|]. split; [congruence|]. exists m'. split; [done|lia].
Qed.

(** The [j]-th input that was sent is in the stream. *)
Lemma input_in_stream r j : dispatched r -> Z.of_nat j < inputs_in (blog r) ->
  exists e (p : RollupsInput) i, e ∈ entries r ki /\ holds e p /\ ri_data p = AdvanceStateInput i /\
    input_index (rai_metadata i) = Z.of_nat j.
Proof.
  intros [[Hdec _] [m [rest Hpre]]] Hj. unfold inputs_in in Hj.
  destruct (lookup_lt_is_Some_2 (filter Dispatcher.is_input (blog r)) j ltac:(lia)) as [x Hx].
  assert (Hall : filter Dispatcher.is_input (log_at all c0 m) !! j = Some x).
  { rewrite Hpre, filter_app. by apply lookup_app_l_Some. }
  rewrite log_at_inputs, list_lookup_imap in Hall. apply fmap_Some in Hall as (input & _ & ->).
  apply list_elem_of_lookup_2, list_elem_of_filter in Hx as [_ Hx]. cbn in Hx.
  apply list_elem_of_fmap in Hx as (ev & Hlog & Hev).
  apply list_elem_of_lookup in Hev as [k Hk].
  destruct (Forall2_lookup_r _ _ _ _ _ (decodes_events r Hdec) Hk) as (e & He & _ & Hp).
  unfold log_event in Hlog. destruct (ri_data (event_payload ev)) as [i|] eqn:Hi; [|done]. injection Hlog as Hidx _.
  exists e, (event_payload ev), i. split; [by eapply list_elem_of_lookup_2|]. by rewrite Hi.
Qed.

End NodeTheorems.

(** ** Witnesses *)

Module PipelineWitness.
Import HexRef RetryRef RedisRef JsonRef KeccakRef PostgresRef StartWitness.
#[local] Existing Instance RunnerWitness.echo_server.

Abbreviation Node := (State RedisRef.state (list ProcessedInput) Tables).

(** The chain and the state server of [StartWitness], a server-manager that accepts
    every input, and connections that work. *)
Abbreviation run_sample :=
  (run (R := RedisRef.state) (S := list ProcessedInput) (D := Tables) (connect_ok string) (connect_ok (list string))
    (fun _ => mret tt) (fun _ => mret tt) (mret tt) server config DispatcherMetrics_default RunnerWitness.sm_config
    IndexerWitness.config 5000 false).

Definition clean_node : Node := mkState ∅ [] empty_tables None None None.

(** The runner and the indexer are killed and started again; the dispatcher ends
    with its subscription, and refuses to start again. *)
Definition actions : list Action :=
  [Start Runner_; Turn 1; Start Dispatcher_; React; Turn 1; Start Indexer_; Iterate 1; Iterate 1;
   Kill Runner_; React; Start Runner_; Turn 1; Turn 1; Kill Indexer_; React; React; Start Dispatcher_; Turn 1;
   Start Indexer_].

Definition more_actions : list Action := actions ++ replicate 20 (Iterate 1).

Abbreviation sample := (run_sample actions clean_node).
Abbreviation caught_up := (run_sample (replicate 20 (Iterate 1)) sample).

Lemma clean_node_clean : clean (tables := id) (config := config) clean_node.
Proof. by split_and!. Qed.

Lemma sample_environment : environment (R := RedisRef.state) (S := list ProcessedInput) (D := Tables) (tables := id)
  (connect_single := connect_ok string) (connect_cluster := connect_ok (list string))
  (connect_manager := fun _ => mret tt) (pg_establish := fun _ => mret tt) (run_pending_migrations := mret tt)
  (server := server) (config := config) (metrics := DispatcherMetrics_default) (all := chain)
  (genesis := block_at 5) (chunks := chunks) (c0 := context0).
Proof.
  split; try first [exact (connect_grows _)|exact server_answers|exact subscription_ok|exact chain_by_block|exact eq_refl].
  - intros e s. done.
  - done.
  - done.
  - split; [|split]; by intros.
  - split; [|split; [|split]]; by intros.
  - cbn. lia.
  - repeat (constructor; cbn; try lia).
  - repeat (constructor; cbn; try lia).
Qed.




End PipelineWitness.
